(* ===== verification/_CoqProject ===== *)
-Q . S2P
Prelude.v
MemInfo.v
SizeClasses.v
Anchor.v
Mem.v
Float.v
Array.v
HashMap.v
Bin.v
Trace.v
Reuse.v
Tuner.v
SingleAccess.v
InfoDump.v
Bootstrap.v
State.v
Pages.v
PageHolder.v
Descriptor.v
PartialList.v
PageMap.v
Windows.v
RangeMapping.v
Alloc.v
ThreadCache.v
SuperBlock.v
ThreadBins.v
Lib.v
Heap.v
HeapOps.v
LargeOps.v
Safety.v
Fetch.v
Calls.v
Ledger.v
Triple.v
Tuning.v
ClientCalls.v
System.v
Scripts.v
TunedDemo.v
TunedRuns.v
CApi.v
Demo.v
AutoPtr.v
Theorems.v
Findings.v
