(* ===== verification/Prelude.v ===== *)
(** * A verification development for apfmalloc

    apfmalloc ([src/src]) is a lock-free memory allocator in Rust.  Memory is
    mapped from the kernel in superblocks, each cut into blocks of one of 39
    size classes; a thread keeps the free blocks of each class in a bin; larger
    requests are mapped on their own.  A table from pages to descriptors leads
    from a pointer to its superblock.  A tuner per class and thread watches the
    allocations and frees and decides how many blocks an empty bin is given.
    [src/apfmalloc/src/lib.rs] offers the C interface and the global allocator of
    Rust on top.

    ** The parts and the files that model them

    - [Prelude]: integers of fixed width, the outcomes of fallible code, the
      state and error monad [M] with its notation, ranges, loops, and the lemmas
      and hints that the files share.
    - [MemInfo] ([mem_info.rs], [macros.rs]): constants and alignment.
    - [SizeClasses] ([size_classes.rs], [macros.rs]): the table of the classes
      and the look-up from sizes to classes.
    - [Anchor] ([allocation_data.rs]): the 64-bit word of a superblock's state.
    - [Mem] ([pages/external_mem_reservation.rs], unix): byte memory, the
      mappings and raw accesses.
    - [Float]: the IEEE 754 operations that the tuner and the hash map use.
    - [Array], [HashMap], [RangeMapping] ([independent_collections/]): the
      collections that do not use the allocator.
    - [Bin], [ThreadCache] ([thread_cache.rs]): a thread's bins; filling,
      flushing, and what the tuners may do to them.
    - [Trace], [Reuse], [Tuner] ([apf/]): traces, the reuse function, histograms,
      liveness and the tuner itself.
    - [SingleAccess] ([single_access.rs]): initialisation that runs once.
    - [InfoDump] ([info_dump.rs]): statistics.
    - [Bootstrap] ([bootstrap.rs]): the reserve for panicking threads.
    - [State]: the static variables that the components share, as one record.
    - [Pages], [PageHolder] ([pages.rs]): page allocation, and the array of
      mappings with a free list.
    - [Descriptor] ([allocation_data/desc.rs]): descriptors, tagged pointers and
      the list of free descriptors.
    - [PageMap] ([page_map.rs], [allocation_data/proc_heap.rs], [alloc.rs]): the
      heaps and the table from pages to descriptors.
    - [Windows] ([pages/external_mem_reservation.rs], [pages.rs], [page_map.rs],
      the windows variants): segments from the process heap, and a page map
      whose pages are committed on demand.
    - [Alloc], [PartialList] ([alloc.rs]): superblocks and partial lists, as calls
      that run alone and as interleaved atomic operations.
    - [SuperBlock] ([alloc.rs], [thread_cache.rs]): the anchor of one superblock
      under the interleaved atomic operations of [flush_cache] and
      [malloc_from_partial], with what threads and clients use in one set.
      [ThreadBins]: the same with the bins of the threads, which frees and mallocs
      change and from which the walk of [flush_cache] takes its batches, in a build
      with the feature [no_met_stack]; it refines [SuperBlock].
    - [Lib] ([lib.rs]): initialisation, [do_malloc], [do_aligned_alloc],
      [do_realloc], [do_free].
    - [CApi] ([src/apfmalloc/src/lib.rs]): the C functions, [GlobalAlloc] and the
      [__rust_*] functions.
    - [AutoPtr] ([ptr/auto_ptr.rs]): the owning pointer.
    - [Heap], [HeapOps], [LargeOps], [Safety], [Calls]: the invariant of the heap
      and its preservation, from superblocks up to the calls of one thread;
      [Fetch]: what the tuner's fetch does.
    - [Ledger]: what a client holds, and the abstract allocator that its calls
      see.  [Triple]: a logic for the calls that one call contains.  [Tuning]:
      what the tuners of a thread do inside its calls.  [ClientCalls]: each entry
      point, in a thread with tuners or without.  [System]: threads, executions
      and the simulation.
    - [Scripts], [Demo], [TunedDemo]: executions by evaluation, on instances of
      all parameters, for the witnesses; [Theorems]: what the allocator
      guarantees; [Findings], [TunedRuns]: runs in which it does not keep its
      promises.

    ** How the model corresponds to the code

    A function of the code is a definition of the same name, up to a prefix
    where two components use one name ([arr_], [dq_], [hm_], [hs_], [ap_],
    [holder_], ...).  A function that changes state is a computation in [M S];
    one that takes a [&mut] argument returns the new value.  Panics, process
    exits and accesses to unmapped memory are errors of the model ([error]).
    Integers are [Z], wrapped where the release profile wraps; [usize] has 64
    bits.  Memory is bytes: the links of the bins are stored in the blocks, so
    that a client's store and the allocator's can meet.  Descriptors and the
    entries of the page map, which the program keeps in pages of its own, are
    typed stores that are keyed by address.  Reading a descriptor at an address
    that holds none is a [Fault].  The [Array]s inside [HashMap] and the
    bootstrap reserve are lists, which [Array.array_refines_list] justifies as
    long as their mappings are granted.

    Code that is not part of the repository is a parameter with laws: the
    kernel's [mmap] and [munmap] ([Mem.Kernel]), the heap and the virtual memory
    of windows ([Windows.Win32]), the accessors of the crate
    [bitfield] ([Anchor.BitRange]), [DefaultHasher] ([HashMap.Hash]), a type's
    drop and clone ([AutoPtr.Value]); [Mem.kernel_up], [Mem.kernel_down],
    [Anchor.bit_range_u64] and [HashMap.id_hash] are instances.  An anonymous
    mapping of the crate [memmap] is one of the kernel's.  The target and the
    burst lengths of the tuner, which the build reads from the environment, are
    the class [ApfConfig].

    The tuners allocate their arrays with the allocator that they tune: the
    interface between them is the class [ApfEnv], against which [Trace], [Reuse]
    and [Tuner] are written; [Lib.lib_env] implements it, and [Tuning.LibEnv] says
    that it does.

    ** Concurrency

    Calls of different threads interleave as whole calls: within one call a
    compare-and-exchange finds what the call has just loaded.  Three protocols
    are modelled one atomic operation at a time, for any number of threads:
    [SingleAccess], the partial lists ([PartialList]) and the anchors
    ([SuperBlock], [ThreadBins]).  Besides the spin locks they are the loops around a
    compare-and-exchange that the program has, except that of
    [malloc_count_from_partial], which only a tuner calls, when no bin is
    flushed; descriptors, the table of sizes and the bootstrap reserve are
    behind locks.  [ThreadBins] is about the build with [no_met_stack], where links
    are addresses; in the default build a flush may give back blocks that clients
    hold, without any concurrency ([Findings.flush_hands_out_held_block]).
    [SuperBlock] takes the push and the pop of the partial
    list as atomic, which [PartialList] shows them to be under a condition, and
    the new anchors are the functions of [Anchor] that the sequential model uses.
    Memory is sequentially consistent.

    ** What the theorems show

    - Executions ([Theorems]): the calls of any number of threads refine an
      abstract allocator (a ledger of held ranges and stored bytes); every
      admissible call returns, or the kernel refuses memory in it; held ranges
      do not overlap; stored bytes stay; the tuners stay well formed, and their
      arrays apart from everything else.  A call is admissible when its size is
      below 4 GiB less a page (at most 1 GiB, for a power of two up to 2^30, for
      aligned ones), it frees, resizes or uses only what the client holds, a freed
      block fits in its bin, a resized one fits in its bin too, grows or keeps its
      class, and was not over-aligned when it is large, the call that makes the
      tuners of a thread is not a moving [realloc], and the tuners of the thread are
      not about to act.  A tuner acts when it has seen half of [TARGET_APF]
      allocations (1250 by default) of its class; until then it samples, and its
      arrays come and go inside the calls of the client.  [Findings] and
      [TunedRuns] show that these restrictions are needed: outside them the code
      hands out memory that is in use.  That the kernel refuses is a statement
      about the kernel ([Pages.refusal]): within a bounded number of system
      calls of bounded sizes it comes to refuse one; a kernel with memory left
      does not ([Pages.kernel_up_grants], [Theorems.memory_left_suffices]).
    - Single calls ([Theorems], [CApi], [AutoPtr], [Fetch]): what each entry
      point does on every heap that satisfies the invariant, errors included.
    - Components: size classes are well formed and found by first fit; anchors
      and tagged pointers round-trip; bins are stacks and a fresh superblock is
      one; descriptors come from a pool; registered superblocks are found;
      mappings stay disjoint; bootstrap memory is fresh; the linear-time reuse
      function equals its definition by windows; histograms grow past a key;
      the collections refine lists, queues, maps and sets; initialisation runs
      once; the partial list is linearizable when no descriptor is put back
      under a pop in flight, and is not otherwise; a superblock is linearizable,
      with the bins of the threads, until its descriptor is used again, and afterwards may be unmapped while
      its blocks are held; a take that has lost a race never ends, and blocks
      that were free when others are flushed are lost for ever.
    - Findings: counterexample runs for the defects that the proofs met.

    ** Bounds and fuel

    [SizeClasses.TARGET_APF_BOUND] (299000) is the largest target for which no
    superblock size overflows a [u32].  [Pages.CALLS_LIMIT] (2^58 system calls)
    keeps the table of sizes growable.  [Pages.REQUEST_LIMIT] (4 GiB) bounds the
    requests of the calls, [PM_SZ] those of the start, and [System.CALL_BUDGET]
    (411) the system calls of one call: the first allocation of a thread makes
    40 tuners of five arrays each.  [Lib.NESTING] is 2: a tuner's own
    allocations are large, or run inside [no_tuning], and consult no tuner.
    [Alloc.partial_fuel] is the number of descriptors, which bounds a partial
    list.  The loops of [flush_cache] are bounded by the count of the bin, [fetch]
    by its argument, and the doubling of a histogram by the 65 doublings that exceed any [usize].
    No theorem on executions admits [OutOfFuel] as an outcome.

    ** Not modelled

    [Debug] and [Display] and the printing of records and statistics, which are
    I/O; [ptr/rc.rs], which is commented out; benchmarks, examples and tests,
    which are clients; the accessors that return a raw pointer into the memory of
    an array, whose addresses the model does not have.  Elements of the
    collections have no drop glue: [for x in array] reads the elements out and the
    array then drops them again, in [Array::remove] and [HashMap::grow] too.
    Whole calls are not interleaved with each other at the grain of [ThreadBins],
    and memory orders weaker than sequential consistency are not modelled.
    Executions in which bins are flushed or tuners fetch are left out of
    [Theorems]: the findings show that the invariant does not survive them.  *)
From stdpp Require Export base gmap list strings numbers sorting.
From Stdlib Require Export ZArith Lia.

#[global] Open Scope Z_scope.

(** ** Machine integers

    A Rust integer of width [w] is a [Z] in [0, 2^w); [wrap] is the
    two's-complement reduction that the release profile applies to the result
    of every arithmetic operation. *)
Definition wrap (w x : Z) : Z := x mod 2 ^ w.

Definition u8 (x : Z) : Z := wrap 8 x.
Definition u32 (x : Z) : Z := wrap 32 x.
Definition u64 (x : Z) : Z := wrap 64 x.

(** [usize] on the modelled target (x86-64) is 64 bits wide. *)
Definition usize (x : Z) : Z := u64 x.
Definition USIZE_MAX : Z := 2 ^ 64 - 1.

(** Bitwise complement [!x] of a [usize]. *)
Definition not64 (x : Z) : Z := USIZE_MAX - x.

Definition is_usize (x : Z) : Prop := 0 <= x < 2 ^ 64.

(** ** Outcomes of fallible code

    [Panic] is a Rust panic, [Exit] is [std::process::exit], [Fault] is an
    access through a pointer that is not backed by a mapping, and [OutOfFuel]
    marks a loop whose bound was too small (the theorems show that it does not
    occur with the bounds that the definitions use). *)
Inductive error : Type :=
  | Panic (msg : string)
  | Exit (code : Z)
  | Fault (addr : Z)
  | OutOfFuel.

Inductive result (A : Type) : Type :=
  | Ok (a : A)
  | Err (e : error).
Arguments Ok {A} a.
Arguments Err {A} e.

#[global] Instance error_eq_dec : EqDecision error.
Proof. solve_decision. Defined.

#[global] Instance result_eq_dec {A} `{EqDecision A} : EqDecision (result A).
Proof. solve_decision. Defined.

Definition is_ok {A} (r : result A) : bool :=
  match r with Ok _ => true | Err _ => false end.

(** The error monad on its own, for code that has no state. *)
#[global] Instance result_ret : MRet result := @Ok.
#[global] Instance result_bind : MBind result := λ A B f r,
  match r with Ok a => f a | Err e => Err e end.

Fixpoint mapR {A B} (f : A -> result B) (l : list A) : result (list B) :=
  match l with
  | [] => Ok []
  | x :: l' => y ← f x; ys ← mapR f l'; Ok (y :: ys)
  end.

(** ** State and error monad

    A computation over a state [S] consumes a state and gives a value with the
    new state, or an error.  stdpp's [mret]/[mbind] classes give the notations
    [x ← c; k] and [c;; k]. *)
Definition M (S A : Type) : Type := S -> result (A * S).

#[global] Instance M_ret {S} : MRet (M S) := λ A a s, Ok (a, s).
#[global] Instance M_bind {S} : MBind (M S) := λ A B f c s,
  match c s with
  | Ok (a, s') => f a s'
  | Err e => Err e
  end.

Definition fail {S A} (e : error) : M S A := λ _, Err e.
Definition get {S} : M S S := λ s, Ok (s, s).
Definition put {S} (s : S) : M S unit := λ _, Ok (tt, s).
Definition modify {S} (f : S -> S) : M S unit := λ s, Ok (tt, f s).
Definition gets {S A} (f : S -> A) : M S A := λ s, Ok (f s, s).

(** Running a computation on a component of the state. *)
Definition zoom {S T A} (view : S -> T) (upd : T -> S -> S) (c : M T A) : M S A := λ s,
  match c (view s) with
  | Ok (a, t) => Ok (a, upd t s)
  | Err e => Err e
  end.

(** Pure fallible code inside a computation. *)
Definition lift {S A} (r : result A) : M S A := λ s,
  match r with Ok a => Ok (a, s) | Err e => Err e end.

(** [assert!(b, msg)] *)
Definition assertM {S} (b : bool) (msg : string) : M S unit :=
  if b then mret tt else fail (Panic msg).

(** [o.unwrap()] / [o.expect(msg)] *)
Definition unwrap {S A} (o : option A) (msg : string) : M S A :=
  match o with Some a => mret a | None => fail (Panic msg) end.

(** [for x in l { body x }] *)
Fixpoint forM {S A} (l : list A) (body : A -> M S unit) : M S unit :=
  match l with
  | [] => mret tt
  | x :: l' => body x;; forM l' body
  end.

(** The list [[lo; lo+1; ...; hi-1]] a Rust range [lo..hi] iterates over. *)
Definition range (lo hi : Z) : list Z := seqZ lo (hi - lo).

(** ** Loops with fuel

    [while fuel cond body a] runs [body] while [cond] holds. *)
Fixpoint while {A} (fuel : nat) (cond : A -> bool) (body : A -> A) (a : A)
  : option A :=
  match fuel with
  | O => None
  | S fuel' => if cond a then while fuel' cond body (body a) else Some a
  end.

(** ** Facts on machine integers *)
Lemma wrap_small w x : 0 <= x < 2 ^ w -> wrap w x = x.
Proof. intros H. unfold wrap. by apply Z.mod_small. Qed.

Lemma wrap_range w x : 0 <= w -> 0 <= wrap w x < 2 ^ w.
Proof. intros H. unfold wrap. apply Z.mod_pos_bound. lia. Qed.

Lemma usize_small x : 0 <= x < 2 ^ 64 -> usize x = x.
Proof. apply (wrap_small 64). Qed.

Lemma u64_small x : 0 <= x < 2 ^ 64 -> u64 x = x.
Proof. apply (wrap_small 64). Qed.

Lemma u32_small x : 0 <= x < 2 ^ 32 -> u32 x = x.
Proof. apply (wrap_small 32). Qed.

Lemma usize_range x : 0 <= usize x < 2 ^ 64.
Proof. apply (wrap_range 64). lia. Qed.

Lemma u32_range x : 0 <= u32 x < 2 ^ 32.
Proof. apply (wrap_range 32). lia. Qed.

(** ** The monad laws the proofs compute with *)
Section MonadFacts.
Context {S A B : Type}.
Implicit Types (c : M S A) (f : A -> M S B) (s : S).

Lemma bind_Ok c f s a s' : c s = Ok (a, s') -> (c ≫= f) s = f a s'.
Proof. intros H. unfold mbind, M_bind. by rewrite H. Qed.

Lemma bind_Err c f s e : c s = Err e -> (c ≫= f) s = Err e.
Proof. intros H. unfold mbind, M_bind. by rewrite H. Qed.

Lemma bind_inv c f s b s'' :
  (c ≫= f) s = Ok (b, s'') ->
  exists a s', c s = Ok (a, s') /\ f a s' = Ok (b, s'').
Proof.
  unfold mbind, M_bind. destruct (c s) as [[a s']|e] eqn:E; [|done].
  intros H. by exists a, s'.
Qed.
End MonadFacts.

(** Steps of a run, as rewriting rules. *)
Lemma bind_gets {S A B} (g : S -> A) (k : A -> M S B) s : (gets g ≫= k) s = k (g s) s.
Proof. done. Qed.

Lemma bind_get {S B} (k : S -> M S B) s : (get ≫= k) s = k s s.
Proof. done. Qed.

Lemma bind_modify {S B} (f : S -> S) (k : unit -> M S B) s : (modify f ≫= k) s = k tt (f s).
Proof. done. Qed.

Lemma bind_mret {S A B} (a : A) (k : A -> M S B) s : (mret a ≫= k) s = k a s.
Proof. done. Qed.

Lemma bind_assoc {S A B C} (c : M S A) (f : A -> M S B) (g : B -> M S C) s :
  ((c ≫= f) ≫= g) s = (c ≫= λ a, f a ≫= g) s.
Proof. unfold mbind, M_bind. by destruct (c s) as [[a s']|e]. Qed.

Lemma bind_lift {S A B} (r : result A) a (k : A -> M S B) s : r = Ok a -> (lift r ≫= k) s = k a s.
Proof. by intros ->. Qed.

Lemma zoom_Ok {S T A} (view : S -> T) (upd : T -> S -> S) (c : M T A) s a t :
  c (view s) = Ok (a, t) -> zoom view upd c s = Ok (a, upd t s).
Proof. intros H. unfold zoom. by rewrite H. Qed.

Lemma zoom_Err {S T A} (view : S -> T) (upd : T -> S -> S) (c : M T A) s e :
  c (view s) = Err e -> zoom view upd c s = Err e.
Proof. intros H. unfold zoom. by rewrite H. Qed.

Lemma assertM_true {S} msg (s : S) : assertM true msg s = Ok (tt, s).
Proof. done. Qed.

(** ** Facts on loops *)
Lemma while_rule {A} (I : A -> Prop) (measure : A -> Z) cond body :
  (forall a, I a -> cond a = true -> I (body a)) ->
  (forall a, I a -> cond a = true -> 0 <= measure (body a) < measure a) ->
  forall fuel a, I a -> 0 <= measure a < Z.of_nat fuel ->
  exists a', while fuel cond body a = Some a' /\ I a' /\ cond a' = false.
Proof.
  intros Hinv Hdec fuel. induction fuel as [|fuel IH]; intros a Ha Hm; [lia|].
  simpl. destruct (cond a) eqn:Ec; [|by exists a].
  apply IH; [by apply Hinv|]. pose proof (Hdec a Ha Ec). lia.
Qed.

Lemma while_mono {A} cond body fuel fuel' (a r : A) :
  while fuel cond body a = Some r -> (fuel <= fuel')%nat ->
  while fuel' cond body a = Some r.
Proof.
  revert fuel' a. induction fuel as [|fuel IH]; intros fuel' a H Hle; [done|].
  destruct fuel' as [|fuel']; [lia|]. simpl in *.
  destruct (cond a); [|done]. apply IH; [done|lia].
Qed.

Lemma mapR_Forall2 {A B} (f : A -> result B) (P : A -> B -> Prop) l :
  Forall (λ a, exists b, f a = Ok b /\ P a b) l ->
  exists l', mapR f l = Ok l' /\ Forall2 P l l'.
Proof.
  induction 1 as [|a l (b & Hb & HP) _ (l' & Hl & HF)]; [by exists []|].
  exists (b :: l'). simpl. rewrite Hb. simpl. rewrite Hl. by repeat constructor.
Qed.

(** Checking a property of every element by evaluation. *)
Lemma Forall_check {A} (f : A -> bool) (P : A -> Prop) l :
  (forall a, f a = true -> P a) -> forallb f l = true -> Forall P l.
Proof.
  intros Hf. induction l as [|a l IH]; simpl; [by constructor|].
  rewrite andb_true_iff. intros [Ha Hl]. by constructor; auto.
Qed.

Lemma lookup_split {A} (l : list A) i x :
  l !! i = Some x -> exists l1 l2, l = l1 ++ x :: l2 /\ i = length l1.
Proof.
  intros H. exists (take i l), (drop (S i) l). rewrite take_drop_middle by done.
  split; [done|]. apply lookup_lt_Some in H. rewrite length_take. lia.
Qed.

Lemma delete_past {A} (l : list A) i : (length l <= i)%nat -> delete i l = l.
Proof.
  revert i. induction l as [|x l IH]; intros [|i] H; simpl in *; try done; [lia|].
  f_equal. apply IH. lia.
Qed.

Lemma usize_usize_add a b : usize (usize a + b) = usize (a + b).
Proof. unfold usize, u64, wrap. apply Zplus_mod_idemp_l. Qed.

Lemma range_cons lo hi : lo < hi -> range lo hi = lo :: range (lo + 1) hi.
Proof.
  intros H. unfold range. rewrite seqZ_cons by lia. f_equal. f_equal; lia.
Qed.

Lemma range_nil lo hi : hi <= lo -> range lo hi = [].
Proof. intros H. unfold range. apply seqZ_nil. lia. Qed.

Lemma elem_of_range lo hi x : x ∈ range lo hi <-> lo <= x < hi.
Proof. unfold range. rewrite elem_of_seqZ. lia. Qed.

Lemma forM_cons {S A} (x : A) l (body : A -> M S unit) s s' :
  body x s = Ok (tt, s') -> forM (x :: l) body s = forM l body s'.
Proof. intros H. simpl. by rewrite (bind_Ok _ _ _ _ _ H). Qed.

(** ** Threads

    The threads of an interleaving are a list of program counters: one of them
    moves, the others stay. *)
Lemma pcs_middle {A} (pcs : list A) t pc pc' :
  pcs !! t = Some pc -> exists l1 l2, pcs = l1 ++ pc :: l2 /\ <[t := pc']> pcs = l1 ++ pc' :: l2.
Proof.
  intros H. apply lookup_split in H as (l1 & l2 & -> & ->). exists l1, l2.
  split; [done|]. by rewrite insert_app_r_alt, Nat.sub_diag by lia.
Qed.

Lemma Forall_others {A} (P Q : A -> Prop) l1 x y l2 :
  Forall P (l1 ++ x :: l2) -> (forall z, z ∈ l1 ++ l2 -> P z -> Q z) -> Q y ->
  Forall Q (l1 ++ y :: l2).
Proof.
  rewrite !Forall_app, !Forall_cons. intros (H1 & _ & H2) Hall Hy. rewrite Forall_forall in H1, H2.
  split; [|split; [done|]]; apply Forall_forall; intros z Hz;
    (apply Hall; [apply elem_of_app; by (left + right)|auto]).
Qed.

Lemma elements_take (X : gset Z) d : d ∈ X -> elements X ≡ₚ d :: elements (X ∖ {[d]}).
Proof.
  intros Hd. rewrite <- elements_union_singleton by set_solver.
  apply elements_proper. intros x. destruct (decide (x = d)); set_solver.
Qed.

Lemma perm_slide {A} (l1 l2 k : list A) x : (l1 ++ x :: l2) ++ k ≡ₚ (l1 ++ l2) ++ x :: k.
Proof. rewrite <- !app_assoc. simpl. apply Permutation_app_head, Permutation_middle. Qed.

(** ** Automation

    [apf] holds the width lemmas; [simp_usize] drops the wrap-around of every
    machine operation whose operands are in range. *)
Create HintDb apf discriminated.
#[export] Hint Resolve usize_range u32_range : apf.

Ltac simp_usize :=
  repeat match goal with
  | |- context [usize ?x] => rewrite (usize_small x) by lia
  | |- context [u32 ?x] => rewrite (u32_small x) by lia
  | |- context [u64 ?x] => rewrite (u64_small x) by lia
  end.

(** [inv_M H] decomposes a successful run [H : (c ≫= f) s = Ok r]. *)
Ltac inv_M H :=
  let a := fresh "a" in let s := fresh "s" in
  let H1 := fresh "Hrun" in
  apply bind_inv in H as (a & s & H1 & H).
