(* ===== verification/MemInfo.v ===== *)
(** * Memory constants, alignment and page rounding

    Models [src/src/mem_info.rs], the [page_ceiling!] macro of
    [src/src/macros.rs], [is_power_of_two] of [src/src/lib.rs] and
    [page_addr2base] of [src/src/pages.rs].  Every operation is written with
    the 64-bit wrap-around of [usize]; the theorems give the ranges in which
    the wrap-around does not show. *)
From S2P Require Import Prelude.

(** ** Constants *)

(** The number of size classes, class 0 (large allocations) included. *)
Definition MAX_SZ_IDX : Z := 40.
Definition LG_MAX_SIZE_IDX : Z := 6.
Definition MAX_SZ : Z := Z.shiftl 1 13 + Z.shiftl 1 11 * 3.
(** [size_of::<*const usize>()] on the 64-bit target. *)
Definition LG_PTR : Z := 8.
Definition LG_CACHE_LINE : Z := 6.
Definition LG_PAGE : Z := 12.
Definition LG_HUGE_PAGE : Z := 21.

Definition PTR_SIZE : Z := Z.shiftl 1 LG_PTR.
Definition CACHE_LINE : Z := Z.shiftl 1 LG_CACHE_LINE.
Definition PAGE : Z := Z.shiftl 1 LG_PAGE.
Definition HUGE_PAGE : Z := Z.shiftl 1 LG_HUGE_PAGE.

Definition PTR_MASK : Z := PTR_SIZE - 1.
Definition CACHE_LINE_MASK : Z := CACHE_LINE - 1.
Definition PAGE_MASK : Z := PAGE - 1.

Definition MIN_ALIGN : Z := LG_PTR.

Definition DESCRIPTOR_BLOCK_SZ : Z := 16 * PAGE.

(** ** Alignment *)
Definition align_val (val align : Z) : Z :=
  Z.land (usize (val + align - 1)) (usize (not64 align + 1)).

Definition align_size (size align : Z) : Z :=
  if align <? size then align_val size align else align.

Definition align_addr (addr align : Z) : Z :=
  Z.land (usize (addr + align - 1)) (usize (not64 align + 1)).

Definition page_ceiling (s : Z) : Z :=
  Z.land (usize (s + PAGE - 1)) (not64 (PAGE - 1)).

Definition page_addr2base (a : Z) : Z := Z.land a (not64 PAGE_MASK).

(** [(x != 0) && (!(x & (x - 1))) != 0]: the operator [!] is the bitwise
    complement of a [usize]. *)
Definition is_power_of_two (x : Z) : bool :=
  (if negb (x =? 0) then true else false) &&
  (if negb (not64 (Z.land x (x - 1)) =? 0) then true else false).

(** ** Lemmas on masks *)

Lemma testbit_above x k n : 0 <= k <= n -> 0 <= x < 2 ^ k -> Z.testbit x n = false.
Proof.
  intros Hk Hx. rewrite <- (Z.mod_small x (2 ^ k)) by lia.
  apply Z.mod_pow2_bits_high. lia.
Qed.

(** Clearing the low [k] bits. *)
Lemma land_clear_low x k :
  0 <= k < 64 -> 0 <= x < 2 ^ 64 ->
  Z.land x (2 ^ 64 - 2 ^ k) = x - x mod 2 ^ k.
Proof.
  intros Hk Hx.
  assert (2 ^ 64 - 2 ^ k = Z.shiftl (Z.ones (64 - k)) k) as ->.
  { rewrite Z.shiftl_mul_pow2, Z.ones_equiv by lia.
    replace (2 ^ 64) with (2 ^ (64 - k) * 2 ^ k); [lia|].
    rewrite <- Z.pow_add_r by lia. f_equal; lia. }
  assert (x - x mod 2 ^ k = Z.shiftl (Z.shiftr x k) k) as ->.
  { rewrite Z.shiftl_mul_pow2, Z.shiftr_div_pow2 by lia.
    pose proof (Z.div_mod x (2 ^ k)). lia. }
  apply Z.bits_inj'. intros n Hn.
  rewrite Z.land_spec. destruct (decide (n < k)).
  { rewrite !Z.shiftl_spec_low by lia. by rewrite andb_false_r. }
  rewrite !Z.shiftl_spec, Z.shiftr_spec by lia.
  replace (n - k + k) with n by lia.
  destruct (decide (n < 64)).
  - rewrite Z.ones_spec_low by lia. by rewrite andb_true_r.
  - by rewrite (testbit_above x 64 n) by lia.
Qed.

(** Keeping the low [k] bits. *)
Lemma land_low x k : 0 <= k -> Z.land x (2 ^ k - 1) = x mod 2 ^ k.
Proof.
  intros Hk. rewrite <- Z.land_ones by lia. by rewrite Z.ones_equiv, Z.sub_1_r.
Qed.

(** [lor] of a multiple of [2^k] with a value below [2^k] adds them. *)
Lemma lor_low x y k :
  0 <= k -> 0 <= x -> x mod 2 ^ k = 0 -> 0 <= y < 2 ^ k -> Z.lor x y = x + y.
Proof.
  intros Hk Hx Hm Hy. rewrite Z.lor_comm.
  assert (Hand : Z.land y x = 0).
  { apply Z.bits_inj'. intros n Hn. rewrite Z.land_spec, Z.bits_0.
    destruct (decide (n < k)) as [Hlt|Hge].
    - assert (Hb : Z.testbit x n = false).
      { rewrite <- (Z.mod_pow2_bits_low x k n) by lia. by rewrite Hm, Z.bits_0. }
      rewrite Hb. by rewrite andb_false_r.
    - by rewrite (testbit_above y k n) by lia. }
  rewrite <- Z.lxor_lor by done. rewrite <- Z.add_nocarry_lxor by done. lia.
Qed.

(** ** Alignment theorems *)

(** [r] is the least multiple of [a] that is at least [v]. *)
Definition rounds_up_to (a v r : Z) : Prop := (a | r) /\ v <= r < v + a.

Lemma round_up_sub v a : 0 < a -> rounds_up_to a v ((v + a - 1) - (v + a - 1) mod a).
Proof.
  intros Ha. pose proof (Z.mod_pos_bound (v + a - 1) a Ha). split; [|lia].
  exists ((v + a - 1) / a). pose proof (Z.div_mod (v + a - 1) a). lia.
Qed.

Lemma rounds_up_to_unique a v r r' :
  0 < a -> rounds_up_to a v r -> rounds_up_to a v r' -> r = r'.
Proof. intros Ha [[q ->] ?] [[q' ->] ?]. f_equal. nia. Qed.

Lemma pow2_lt_64 k : 0 <= k < 64 -> 0 < 2 ^ k /\ 2 ^ k <= 2 ^ 63.
Proof.
  intros Hk. split; [apply Z.pow_pos_nonneg; lia|apply Z.pow_le_mono_r; lia].
Qed.

Lemma align_val_spec val k :
  0 <= k < 64 -> 0 <= val -> val + 2 ^ k - 1 < 2 ^ 64 ->
  rounds_up_to (2 ^ k) val (align_val val (2 ^ k)).
Proof.
  intros Hk Hv Hb. pose proof (pow2_lt_64 k Hk) as [Hp1 Hp2].
  unfold align_val, not64, USIZE_MAX.
  replace (2 ^ 64 - 1 - 2 ^ k + 1) with (2 ^ 64 - 2 ^ k) by lia.
  rewrite !usize_small by lia. rewrite land_clear_low by lia.
  apply round_up_sub. lia.
Qed.

Lemma page_ceiling_rounds s :
  0 <= s -> s + PAGE - 1 < 2 ^ 64 -> rounds_up_to PAGE s (page_ceiling s).
Proof.
  intros Hs Hb. unfold page_ceiling, not64, USIZE_MAX.
  change PAGE with (2 ^ 12) in *.
  replace (2 ^ 64 - 1 - (2 ^ 12 - 1)) with (2 ^ 64 - 2 ^ 12) by lia.
  rewrite usize_small by lia. rewrite land_clear_low by lia.
  apply round_up_sub. lia.
Qed.

Lemma page_addr2base_eq a : 0 <= a < 2 ^ 64 -> page_addr2base a = a - a mod PAGE.
Proof.
  intros Ha. unfold page_addr2base, not64, USIZE_MAX, PAGE_MASK.
  change PAGE with (2 ^ 12).
  replace (2 ^ 64 - 1 - (2 ^ 12 - 1)) with (2 ^ 64 - 2 ^ 12) by lia.
  apply land_clear_low; lia.
Qed.

Lemma align_size_spec size k :
  0 <= k < 64 -> 0 <= size -> size + 2 ^ k - 1 < 2 ^ 64 ->
  (2 ^ k | align_size size (2 ^ k)) /\
  size <= align_size size (2 ^ k) /\ 2 ^ k <= align_size size (2 ^ k) /\
  align_size size (2 ^ k) < size + 2 ^ k + 1.
Proof.
  intros Hk Hs Hb. unfold align_size. pose proof (pow2_lt_64 k Hk).
  destruct (Z.ltb_spec (2 ^ k) size).
  - destruct (align_val_spec size k) as [[q Hq] ?]; [lia..|].
    split; [by exists q|]. split; [lia|]. nia.
  - split; [done|]. split; lia.
Qed.

(** Only zero is rejected: [x & (x - 1)] is never all ones for a [usize]. *)
Lemma is_power_of_two_eq x : 0 <= x < 2 ^ 64 -> is_power_of_two x = negb (x =? 0).
Proof.
  intros Hx. unfold is_power_of_two, not64, USIZE_MAX.
  destruct (Z.eqb_spec x 0) as [->|Hn]; [done|]. simpl.
  destruct (Z.eqb_spec (2 ^ 64 - 1 - Z.land x (x - 1)) 0) as [E|]; [|done].
  exfalso. assert (Hl : Z.land x (x - 1) = 2 ^ 64 - 1) by lia.
  apply (f_equal (fun z => Z.testbit z 0)) in Hl.
  rewrite Z.land_spec, !Z.bit0_odd, Z.odd_sub in Hl.
  destruct (Z.odd x); discriminate.
Qed.

(** ** Properties *)

(** [align_val!], [align_addr!] and [page_ceiling!] round up to the least
    multiple of the alignment (of the page) that is not below the argument, as
    long as the sum that they form does not overflow a [usize]. *)
Theorem alignment_is_least val k r :
  0 <= k < 64 -> 0 <= val -> val + 2 ^ k - 1 < 2 ^ 64 -> val + PAGE - 1 < 2 ^ 64 ->
  ((2 ^ k | align_val val (2 ^ k)) /\ val <= align_val val (2 ^ k) /\
   align_addr val (2 ^ k) = align_val val (2 ^ k) /\
   ((2 ^ k | r) -> val <= r -> align_val val (2 ^ k) <= r)) /\
  ((PAGE | page_ceiling val) /\ val <= page_ceiling val /\
   ((PAGE | r) -> val <= r -> page_ceiling val <= r)).
Proof.
  intros Hk Hv H1 H2. pose proof (pow2_lt_64 k Hk) as [Hp _].
  assert (Hleast : forall a v x, 0 < a -> rounds_up_to a v x -> (a | r) -> v <= r -> x <= r).
  { intros a v x Ha [[q ->] Hx] [q' ->] Hr. assert (q <= q') by nia. nia. }
  pose proof (align_val_spec val k Hk Hv H1) as Ha. pose proof (page_ceiling_rounds val Hv H2) as Hc.
  pose proof Ha as [Hd Hr]. pose proof Hc as [Hd' Hr'].
  split; (split; [done|]; split; [lia|]).
  - split; [done|]. by apply (Hleast _ val).
  - by apply (Hleast _ val).
Qed.

Lemma alignment_is_least_witness :
  align_val 100 (2 ^ 4) <= 112 /\ page_ceiling 100 <= 8192 /\ align_val 100 (2 ^ 4) = 112.
Proof.
  destruct (alignment_is_least 100 4 112) as [(_ & _ & _ & H) _]; [lia..|by vm_compute|].
  destruct (alignment_is_least 100 4 8192) as [_ (_ & _ & H')]; [lia..|by vm_compute|].
  split; [|split; [|reflexivity]].
  - apply H; [by exists 7|lia].
  - apply H'; [by exists 2|lia].
Defined.

(** [is_power_of_two] accepts every number but 0: the complement of
    [x & (x - 1)] is taken bit by bit, and is 0 for no [x]. *)
Theorem is_power_of_two_accepts_nonzero x :
  0 <= x < 2 ^ 64 -> is_power_of_two x = negb (x =? 0).
Proof. exact (is_power_of_two_eq x). Qed.

Lemma is_power_of_two_accepts_nonzero_witness : is_power_of_two 12 = true.
Proof. rewrite (is_power_of_two_accepts_nonzero 12); [reflexivity|lia]. Defined.
