(* ===== verification/SizeClasses.v ===== *)
(** * Size classes

    Models [src/src/size_classes.rs] and the [sc!] and [size_class_bin_yes!]
    macros of [src/src/macros.rs]: the table of the 39 small size classes, its
    initialisation and the lookup table from a request size to a class.  The
    target APF (a compile-time setting, 2500 by default) is an argument. *)
From S2P Require Import Prelude MemInfo.

Record SizeClassData : Type := mkSC {
  block_size : Z;
  sb_size : Z;
  block_num : Z;
  cache_block_num : Z;
}.

#[global] Instance SizeClassData_eq_dec : EqDecision SizeClassData.
Proof. solve_decision. Defined.

Definition get_block_num (sc : SizeClassData) : Z := sc.(block_num).

(** ** The macros that build a row of the table *)
Definition size_class_bin_yes (block pages : Z) : SizeClassData :=
  mkSC block (u32 (usize (pages * PAGE))) 0 0.

Definition sc (lg_grp lg_delta ndelta pgs : Z) : SizeClassData :=
  size_class_bin_yes
    (u32 (usize (Z.shiftl 1 lg_grp + Z.shiftl ndelta lg_delta))) pgs.

(** The static initialiser of [SIZE_CLASSES]; the columns of [sc!] that its
    expansion drops (index, psz, bin, lg_delta_lookup) are left out. *)
Definition size_classes : list SizeClassData :=
  [ mkSC 0 0 0 0;
    sc 3 3 0 1; sc 3 3 1 1; sc 3 3 2 3; sc 3 3 3 1;
    sc 5 3 1 5; sc 5 3 2 3; sc 5 3 3 7; sc 5 3 4 1;
    sc 6 4 1 5; sc 6 4 2 3; sc 6 4 3 7; sc 6 4 4 1;
    sc 7 5 1 5; sc 7 5 2 3; sc 7 5 3 7; sc 7 5 4 1;
    sc 8 6 1 5; sc 8 6 2 3; sc 8 6 3 7; sc 8 6 4 1;
    sc 9 7 1 5; sc 9 7 2 3; sc 9 7 3 7; sc 9 7 4 1;
    sc 10 8 1 5; sc 10 8 2 3; sc 10 8 3 7; sc 10 8 4 1;
    sc 11 9 1 5; sc 11 9 2 3; sc 11 9 3 7; sc 11 9 4 1;
    sc 12 10 1 5; sc 12 10 2 3; sc 12 10 3 7; sc 12 10 4 2;
    sc 13 11 1 5; sc 13 11 2 3; sc 13 11 3 7 ].

(** The mutable statics of the module.  [SIZE_CLASS_LOOK_UP] is an array of
    [MAX_SZ + 1] cells that start at 0; a cell never written is absent. *)
Record SizeState : Type := mkSizeState {
  SIZE_CLASSES : list SizeClassData;
  SIZE_CLASS_LOOK_UP : gmap Z Z;
}.

Definition size_state_uninit : SizeState := mkSizeState size_classes ∅.

Definition get_size_class (st : SizeState) (size : Z) : Z :=
  if size >? MAX_SZ then 0 else default 0 (st.(SIZE_CLASS_LOOK_UP) !! size).

(** The entry of a class; indexing past the table panics. *)
Definition size_class_at (st : SizeState) (idx : Z) : result SizeClassData :=
  if (0 <=? idx) && (idx <? MAX_SZ_IDX) then
    match st.(SIZE_CLASSES) !! Z.to_nat idx with
    | Some sc => Ok sc
    | None => Err (Panic "index out of bounds")
    end
  else Err (Panic "index out of bounds").

(** ** [init_size_class]

    Its three first loops visit the classes 1 to 39 and each iteration reads
    and writes the entry of its own index only. *)
Definition for_classes (f : SizeClassData -> result SizeClassData)
    (l : list SizeClassData) : result (list SizeClassData) :=
  match l with
  | [] => Ok []
  | first :: rest => rest' ← mapR f rest; Ok (first :: rest')
  end.

(** First loop: a superblock holds more than one block. *)
Definition fix_sb_size (c : SizeClassData) : result SizeClassData :=
  if (c.(sb_size) >? c.(block_size)) && (c.(sb_size) mod c.(block_size) =? 0)
  then Ok c
  else
    match while 4 (λ sb, c.(block_size) >=? sb)
                  (λ sb, u32 (sb + c.(block_size))) c.(sb_size) with
    | Some sb => Ok (mkSC c.(block_size) sb c.(block_num) c.(cache_block_num))
    | None => Err OutOfFuel
    end.

(** Second loop: a superblock holds the blocks of one target APF. *)
Definition grow_sb_size (target_apf : Z) (c : SizeClassData) : result SizeClassData :=
  let max := u32 (page_ceiling (usize (target_apf * c.(block_size)))) in
  match while (S (S (Z.to_nat (max / c.(sb_size))))) (λ sb, sb <? max)
              (λ sb, u32 (sb + c.(sb_size))) c.(sb_size) with
  | Some sb => Ok (mkSC c.(block_size) sb c.(block_num) c.(cache_block_num))
  | None => Err OutOfFuel
  end.

(** Third loop: the number of blocks of a superblock. *)
Definition fill_block_num (c : SizeClassData) : result SizeClassData :=
  let n := c.(sb_size) / c.(block_size) in
  if n >? 0 then
    if n >=? n then Ok (mkSC c.(block_size) c.(sb_size) n n)
    else Err (Panic "assertion failed: sc.block_num >= sc.cache_block_num")
  else Err (Panic "assertion failed: sc.block_num > 0").

(** Fourth loop: cell [s] of the lookup table gets the first class whose
    blocks hold [s] bytes. *)
Definition set_look_up (idx : Z) (m : gmap Z Z) (s : Z) : result (gmap Z Z) :=
  if s <=? MAX_SZ then Ok (<[s := idx]> m) else Err (Panic "index out of bounds").

Fixpoint set_look_ups (idx : Z) (ss : list Z) (m : gmap Z Z) : result (gmap Z Z) :=
  match ss with
  | [] => Ok m
  | s :: ss' => m' ← set_look_up idx m s; set_look_ups idx ss' m'
  end.

Fixpoint fill_look_up (idx : Z) (classes : list SizeClassData)
    (lookup_idx : Z) (m : gmap Z Z) : result (gmap Z Z) :=
  match classes with
  | [] => Ok m
  | c :: classes' =>
      m' ← set_look_ups idx (range lookup_idx (c.(block_size) + 1)) m;
      fill_look_up (idx + 1) classes'
        (Z.max lookup_idx (c.(block_size) + 1)) m'
  end.

Definition init_size_class (target_apf : Z) (st : SizeState) : result SizeState :=
  l1 ← for_classes fix_sb_size st.(SIZE_CLASSES);
  l2 ← for_classes (grow_sb_size target_apf) l1;
  l3 ← for_classes fill_block_num l2;
  m ← fill_look_up 1 (tail l3) 0 st.(SIZE_CLASS_LOOK_UP);
  Ok (mkSizeState l3 m).

(** The default of [TARGET_APF] in [src/src/apf/constants.rs]. *)
Definition TARGET_APF_DEFAULT : Z := 2500.

(** ** Lemmas on the loops *)

(** What the rows satisfy after the first loop, whatever the target APF is. *)
Definition row_base (c : SizeClassData) : Prop :=
  0 < c.(block_size) <= MAX_SZ /\ (c.(block_size) | c.(sb_size)) /\
  (PAGE | c.(sb_size)) /\ c.(block_size) < c.(sb_size) <= 28672.

Definition row_baseb (c : SizeClassData) : bool :=
  (0 <? c.(block_size)) && (c.(block_size) <=? MAX_SZ) &&
  (c.(sb_size) mod c.(block_size) =? 0) && (c.(sb_size) mod PAGE =? 0) &&
  (c.(block_size) <? c.(sb_size)) && (c.(sb_size) <=? 28672).

(** What the rows satisfy after the whole initialisation. *)
Record class_ok (target_apf : Z) (c : SizeClassData) : Prop := {
  class_block_pos : 0 < c.(block_size) <= MAX_SZ;
  class_sb_page : (PAGE | c.(sb_size));
  class_sb_range : c.(block_size) < c.(sb_size) < 2 ^ 32;
  class_block_num : c.(sb_size) = c.(block_num) * c.(block_size);
  class_target : target_apf <= c.(block_num);
  class_cache : c.(cache_block_num) = c.(block_num);
}.

(** The largest target APF for which no superblock size overflows a [u32]. *)
Definition TARGET_APF_BOUND : Z := 299000.

Definition small_blocks : list Z := map block_size (tail size_classes).

#[global] Arguments small_blocks : simpl never.
#[global] Arguments size_classes : simpl never.

Lemma row_baseb_sound c : row_baseb c = true -> row_base c.
Proof.
  unfold row_baseb, row_base. rewrite !andb_true_iff, !Z.ltb_lt, !Z.leb_le, !Z.eqb_eq.
  intros [[[[[? ?] ?] ?] ?] ?].
  split; [lia|]. split; [by apply Z.mod_divide; [lia|]|].
  split; [by apply Z.mod_divide|lia].
Qed.

Lemma fix_table :
  exists l, for_classes fix_sb_size size_classes = Ok (mkSC 0 0 0 0 :: l) /\
    Forall row_base l /\ map block_size l = small_blocks.
Proof.
  eexists. split; [vm_compute; reflexivity|]. split; [|by vm_compute].
  apply (Forall_check row_baseb); [apply row_baseb_sound|by vm_compute].
Qed.

Lemma grow_sb_size_ok target c :
  0 <= target <= TARGET_APF_BOUND -> row_base c ->
  exists c', grow_sb_size target c = Ok c' /\
    c'.(block_size) = c.(block_size) /\ (c.(sb_size) | c'.(sb_size)) /\
    c.(sb_size) <= c'.(sb_size) < 2 ^ 32 /\ target * c.(block_size) <= c'.(sb_size).
Proof.
  intros Ht (Hb & Hd & Hp & Hs). unfold grow_sb_size, TARGET_APF_BOUND in *.
  change MAX_SZ with 14336 in *.
  set (need := target * c.(block_size)).
  assert (Hn : 0 <= need <= 299000 * 14336) by (unfold need; nia).
  rewrite (usize_small need) by lia.
  destruct (page_ceiling_rounds need) as [_ Hr]; [lia|change PAGE with 4096; lia|].
  change PAGE with 4096 in Hr.
  set (max := page_ceiling need) in *. rewrite (u32_small max) by lia.
  set (sb0 := c.(sb_size)) in *.
  destruct (while_rule
    (λ sb, (sb0 | sb) /\ sb0 <= sb <= Z.max sb0 (max + sb0))
    (λ sb, (max + sb0 - sb) / sb0) (λ sb, sb <? max) (λ sb, u32 (sb + sb0)))
    with (fuel := S (S (Z.to_nat (max / sb0)))) (a := sb0)
    as (sb & -> & [Hdiv Hrange] & Hc).
  - intros sb [Hdiv Hrange] Hlt%Z.ltb_lt. rewrite u32_small by lia.
    split; [by apply Z.divide_add_r|lia].
  - intros sb [Hdiv Hrange] Hlt%Z.ltb_lt. rewrite u32_small by lia.
    replace (max + sb0 - sb) with ((max + sb0 - (sb + sb0)) + 1 * sb0) by lia.
    rewrite Z.div_add by lia. split; [apply Z.div_pos; lia|lia].
  - split; [done|lia].
  - replace (max + sb0 - sb0) with max by lia.
    pose proof (Z.div_pos max sb0). lia.
  - apply Z.ltb_ge in Hc. eexists. split; [done|]. simpl.
    split; [done|]. split; [done|]. lia.
Qed.

Lemma fill_block_num_ok target c :
  0 <= target -> 0 < c.(block_size) <= MAX_SZ -> (c.(block_size) | c.(sb_size)) ->
  (PAGE | c.(sb_size)) -> c.(block_size) < c.(sb_size) < 2 ^ 32 ->
  target * c.(block_size) <= c.(sb_size) ->
  exists c', fill_block_num c = Ok c' /\
    c'.(block_size) = c.(block_size) /\ class_ok target c'.
Proof.
  intros Ht Hb [q Hq] Hp Hs Hneed. unfold fill_block_num.
  rewrite Hq, Z.div_mul by lia.
  destruct (Z.gtb_spec q 0); [|nia].
  destruct (Z.geb_spec q q); [|lia].
  eexists. split; [done|]. split; [done|].
  constructor; simpl; rewrite <- ?Hq; try done; nia.
Qed.

(** The three loops, run on the table one after the other. *)
Lemma size_loops_ok target l :
  0 <= target <= TARGET_APF_BOUND -> Forall row_base l ->
  exists l2 l3, mapR (grow_sb_size target) l = Ok l2 /\
    mapR fill_block_num l2 = Ok l3 /\ Forall (class_ok target) l3 /\
    map block_size l3 = map block_size l.
Proof.
  intros Ht. induction 1 as [|c l Hc _ (l2 & l3 & H2 & H3 & Hok & Hm)].
  { by exists [], []. }
  destruct (grow_sb_size_ok target c Ht Hc) as (c2 & E2 & Hb2 & Hd2 & Hs2 & Hn2).
  destruct Hc as (Hb & Hd & Hp & Hs).
  destruct (fill_block_num_ok target c2) as (c3 & E3 & Hb3 & Hok3).
  { lia. } { by rewrite Hb2. } { rewrite Hb2. by etrans. } { by etrans. }
  { lia. } { by rewrite Hb2. }
  exists (c2 :: l2), (c3 :: l3). simpl. rewrite E2. simpl. rewrite H2. simpl.
  rewrite E3. simpl. rewrite H3. simpl. rewrite Hb3, Hb2, Hm.
  split_and!; [done|done|by constructor|done].
Qed.

(** The first class of [bs], counted from [idx], whose blocks hold [s] bytes. *)
Fixpoint first_fit (idx : Z) (bs : list Z) (s : Z) : option Z :=
  match bs with
  | [] => None
  | b :: bs' => if s <=? b then Some idx else first_fit (idx + 1) bs' s
  end.

Lemma first_fit_spec bs s : forall idx i,
  first_fit idx bs s = Some i ->
  idx <= i < idx + Z.of_nat (length bs) /\
  (exists b, bs !! Z.to_nat (i - idx) = Some b /\ s <= b) /\
  (forall j b, idx <= j < i -> bs !! Z.to_nat (j - idx) = Some b -> b < s).
Proof.
  induction bs as [|b bs IH]; simpl; intros idx i H; [done|].
  destruct (Z.leb_spec s b).
  - injection H as <-. split; [lia|]. split; [|lia].
    exists b. by replace (Z.to_nat (idx - idx)) with 0%nat by lia.
  - apply IH in H as (Hi & (b' & Hb' & Hs) & Hlt). split; [lia|].
    split.
    + exists b'. replace (Z.to_nat (i - idx)) with (S (Z.to_nat (i - (idx + 1)))) by lia.
      by rewrite lookup_cons.
    + intros j b0 Hj Hl. destruct (decide (j = idx)) as [->|].
      * replace (Z.to_nat (idx - idx)) with 0%nat in Hl by lia. by simplify_eq/=.
      * apply (Hlt j); [lia|].
        replace (Z.to_nat (j - idx)) with (S (Z.to_nat (j - (idx + 1)))) in Hl by lia.
        by rewrite lookup_cons in Hl.
Qed.

Lemma first_fit_last bs s : forall idx,
  bs <> [] -> s <= default 0 (last bs) -> is_Some (first_fit idx bs s).
Proof.
  induction bs as [|b bs IH]; intros idx Hne Hle; [done|]. simpl.
  destruct (Z.leb_spec s b); [by eexists|].
  destruct bs as [|b' bs]; [simpl in Hle; lia|]. by apply IH.
Qed.

Lemma set_look_ups_spec idx lo hi : forall m,
  0 <= lo -> hi <= MAX_SZ + 1 ->
  exists m', set_look_ups idx (range lo hi) m = Ok m' /\
    forall s, m' !! s = if decide (lo <= s < hi) then Some idx else m !! s.
Proof.
  remember (Z.to_nat (hi - lo)) as n eqn:Hn. revert lo Hn.
  induction n as [|n IH]; intros lo Hn m Hlo Hhi.
  { rewrite range_nil by lia. exists m. split; [done|]. intros s.
    by rewrite decide_False by lia. }
  rewrite range_cons by lia. simpl. unfold set_look_up.
  rewrite (proj2 (Z.leb_le lo MAX_SZ)) by lia. simpl.
  destruct (IH (lo + 1) ltac:(lia) (<[lo:=idx]> m)) as (m' & -> & Hm'); [lia..|].
  exists m'. split; [done|]. intros s. rewrite Hm'.
  destruct (decide (s = lo)) as [->|Hne].
  - rewrite decide_False by lia. rewrite decide_True by lia. by rewrite lookup_insert_eq.
  - rewrite lookup_insert_ne by done.
    repeat case_decide; try done; lia.
Qed.

(** Cells below the cursor of the fourth loop are never written again. *)
Lemma fill_look_up_low classes : forall idx lo m m',
  0 <= lo -> Forall (λ c, c.(block_size) <= MAX_SZ) classes ->
  fill_look_up idx classes lo m = Ok m' ->
  forall s, s < lo -> m' !! s = m !! s.
Proof.
  induction classes as [|c classes IH]; simpl; intros idx lo m m' Hlo HF H s Hs.
  { by injection H as ->. }
  apply Forall_cons in HF as [Hc HF].
  destruct (set_look_ups_spec idx lo (c.(block_size) + 1) m) as (m1 & Hs1 & H1); [lia..|].
  rewrite Hs1 in H. simpl in H.
  erewrite IH; [|..|exact H|]; [|lia|done|lia]. rewrite H1. by rewrite decide_False by lia.
Qed.

Lemma fill_look_up_spec classes : forall idx lo m,
  0 <= lo -> Forall (λ c, c.(block_size) <= MAX_SZ) classes ->
  exists m', fill_look_up idx classes lo m = Ok m' /\
    forall s, lo <= s ->
      m' !! s = match first_fit idx (map block_size classes) s with
                | Some i => Some i
                | None => m !! s
                end.
Proof.
  induction classes as [|c classes IH]; intros idx lo m Hlo HF; simpl.
  { by exists m. }
  apply Forall_cons in HF as [Hc HF].
  destruct (set_look_ups_spec idx lo (c.(block_size) + 1) m) as (m1 & -> & H1); [lia..|].
  simpl. destruct (IH (idx + 1) (Z.max lo (c.(block_size) + 1)) m1) as (m2 & H2 & Hm2);
    [lia|done|].
  pose proof (λ P, fill_look_up_low _ _ _ _ _ P HF H2) as Hkeep.
  exists m2. split; [done|]. intros s Hs.
  destruct (Z.leb_spec s (c.(block_size))).
  - rewrite Hkeep by lia. rewrite H1. by rewrite decide_True by lia.
  - rewrite Hm2 by lia. destruct (first_fit _ _ s); [done|].
    rewrite H1. by rewrite decide_False by lia.
Qed.

(** ** Theorems *)

(** The initialisation succeeds and establishes [class_ok] for each small
    class; the block sizes are those of the table. *)
Lemma init_size_class_ok target :
  0 <= target <= TARGET_APF_BOUND ->
  exists st l, init_size_class target size_state_uninit = Ok st /\
    st.(SIZE_CLASSES) = mkSC 0 0 0 0 :: l /\ Forall (class_ok target) l /\
    map block_size l = small_blocks /\
    forall s, 0 <= s -> st.(SIZE_CLASS_LOOK_UP) !! s = first_fit 1 small_blocks s.
Proof.
  intros Ht. destruct fix_table as (l1 & H1 & Hbase & Hb1).
  destruct (size_loops_ok target l1 Ht Hbase) as (l2 & l3 & H2 & H3 & Hok & Hb3).
  destruct (fill_look_up_spec l3 1 0 ∅) as (m & Hm & Hlook).
  { lia. } { eapply Forall_impl; [exact Hok|]. intros c []. lia. }
  exists (mkSizeState (mkSC 0 0 0 0 :: l3) m), l3.
  unfold init_size_class, size_state_uninit. cbn [SIZE_CLASSES SIZE_CLASS_LOOK_UP].
  rewrite H1. cbn [mbind result_bind for_classes]. rewrite H2.
  cbn [mbind result_bind for_classes]. rewrite H3.
  cbn [mbind result_bind tail]. rewrite Hm. cbn [mbind result_bind].
  split; [reflexivity|]. split; [reflexivity|]. split; [exact Hok|].
  split; [by rewrite Hb3|]. cbn [SIZE_CLASS_LOOK_UP].
  intros s Hs. rewrite Hlook by done. rewrite Hb3, Hb1.
  destruct (first_fit _ _ _); [done|apply lookup_empty].
Qed.

(** The state after [init_size_class], as an interface for the clients. *)
Class SizeInit (target : Z) (st : SizeState) : Prop := {
  si_target : 0 <= target <= TARGET_APF_BOUND;
  si_init : init_size_class target size_state_uninit = Ok st;
}.

Section SizeInitFacts.
Context {target : Z} {st : SizeState} `{SI : !SizeInit target st}.

Lemma si_table :
  exists l, st.(SIZE_CLASSES) = mkSC 0 0 0 0 :: l /\ Forall (class_ok target) l /\
    map block_size l = small_blocks /\
    forall s, 0 <= s -> st.(SIZE_CLASS_LOOK_UP) !! s = first_fit 1 small_blocks s.
Proof.
  destruct SI as [Ht Hi]. destruct (init_size_class_ok target Ht) as (st' & l & H & ?).
  rewrite Hi in H. injection H as <-. by exists l.
Qed.

Lemma si_class i : 1 <= i < MAX_SZ_IDX ->
  exists c, size_class_at st i = Ok c /\ class_ok target c /\
    small_blocks !! Z.to_nat (i - 1) = Some c.(block_size).
Proof.
  change MAX_SZ_IDX with 40. intros Hi. destruct si_table as (l & Hl & Hok & Hb & _).
  assert (Hlen : length l = 39%nat).
  { rewrite <- (length_map block_size), Hb. by vm_compute. }
  destruct (lookup_lt_is_Some_2 l (Z.to_nat (i - 1))) as [c Hc]; [lia|].
  exists c. unfold size_class_at. change MAX_SZ_IDX with 40.
  rewrite (proj2 (Z.leb_le 0 i)), (proj2 (Z.ltb_lt i 40)) by lia. simpl.
  rewrite Hl. replace (Z.to_nat i) with (S (Z.to_nat (i - 1))) by lia. simpl.
  rewrite Hc. split; [done|]. split; [by apply (Forall_lookup_1 _ _ _ _ Hok Hc)|].
  rewrite <- Hb. by rewrite list_lookup_fmap, Hc.
Qed.

Lemma si_get_size_class s : 0 <= s <= MAX_SZ ->
  first_fit 1 small_blocks s = Some (get_size_class st s).
Proof.
  intros Hs. destruct si_table as (l & _ & _ & _ & Hlook).
  unfold get_size_class. destruct (Z.gtb_spec s MAX_SZ); [lia|].
  rewrite Hlook by lia.
  destruct (first_fit_last small_blocks s 1) as [i ->]; [done| |done].
  change (default 0 (last small_blocks)) with MAX_SZ. lia.
Qed.

(** The class of a small request: its blocks hold the request, and no class
    before it does. *)
Lemma get_size_class_bounds s : 0 <= s <= MAX_SZ ->
  1 <= get_size_class st s < MAX_SZ_IDX.
Proof.
  intros Hs. apply si_get_size_class, first_fit_spec in Hs as (Hi & _).
  change (Z.of_nat (length small_blocks)) with 39 in Hi. change MAX_SZ_IDX with 40. lia.
Qed.

Lemma get_size_class_fits s : 0 <= s <= MAX_SZ ->
  exists c, size_class_at st (get_size_class st s) = Ok c /\ class_ok target c /\
    s <= c.(block_size).
Proof.
  intros Hs. destruct (si_class (get_size_class st s)) as (c & Hc & Hok & Hb).
  { by apply get_size_class_bounds. }
  exists c. split; [done|]. split; [done|].
  apply si_get_size_class, first_fit_spec in Hs as (_ & (b & Hl & Hle) & _).
  rewrite Hb in Hl. by injection Hl as ->.
Qed.
End SizeInitFacts.

(** A request that is a multiple of [2^k] gets blocks that are, too: the
    blocks of a page-aligned superblock are then aligned to [2^k]. *)
Definition aligned_fitb (bs : list Z) (s k : Z) : bool :=
  negb (s mod 2 ^ k =? 0) ||
  match first_fit 1 bs s with
  | Some i => default 1 (bs !! Z.to_nat (i - 1)) mod 2 ^ k =? 0
  | None => false
  end.

Definition aligned_fit_all (bs : list Z) : bool :=
  forallb (λ s, forallb (aligned_fitb bs s) (range 0 13)) (range 1 (PAGE + 1)).

Lemma forallb_range f lo hi x :
  forallb f (range lo hi) = true -> lo <= x < hi -> f x = true.
Proof.
  rewrite forallb_forall. intros H Hx. apply H.
  apply list_elem_of_In. by apply elem_of_range.
Qed.

Lemma aligned_fit_all_sound bs s k :
  aligned_fit_all bs = true -> 1 <= s < PAGE + 1 -> 0 <= k < 13 ->
  aligned_fitb bs s k = true.
Proof.
  unfold aligned_fit_all. intros H Hs Hk.
  apply (forallb_range _ 0 13); [|lia].
  apply (forallb_range (λ s, forallb (aligned_fitb bs s) (range 0 13)) 1 (PAGE + 1)); [done|lia].
Qed.

Lemma aligned_fit_table : aligned_fit_all small_blocks = true.
Proof. vm_compute. reflexivity. Qed.

Lemma aligned_fit `{SI : !SizeInit target st} s k c :
  0 < s <= PAGE -> 0 <= k <= 12 -> (2 ^ k | s) ->
  size_class_at st (get_size_class st s) = Ok c -> (2 ^ k | c.(block_size)).
Proof.
  intros Hs Hk Hd Hc. assert (HM : 0 <= s <= MAX_SZ).
  { change MAX_SZ with 14336. change PAGE with 4096 in Hs. lia. }
  pose proof (aligned_fit_all_sound _ s k aligned_fit_table ltac:(lia) ltac:(lia)) as Hf.
  unfold aligned_fitb in Hf.
  assert (0 < 2 ^ k) by (apply Z.pow_pos_nonneg; lia).
  rewrite (proj2 (Z.mod_divide s (2 ^ k) ltac:(lia)) Hd), Z.eqb_refl in Hf.
  cbn [negb orb] in Hf.
  rewrite (si_get_size_class s HM) in Hf.
  destruct (si_class (get_size_class st s)) as (c' & Hc' & _ & Hb).
  { by apply get_size_class_bounds. }
  rewrite Hc in Hc'. injection Hc' as <-. rewrite Hb in Hf. simpl in Hf.
  apply Z.eqb_eq in Hf. apply Z.mod_divide; lia.
Qed.

(** Every block holds two words or a pointer with its link, blocks are
    multiples of 8, and a request for exactly the size of a class gets it. *)
Definition own_sizeb (i : Z) : bool :=
  match small_blocks !! Z.to_nat (i - 1) with
  | Some b => (8 <=? b) && (b mod 8 =? 0) && bool_decide (first_fit 1 small_blocks b = Some i)
  | None => false
  end.

Lemma own_size_table : forallb own_sizeb (range 1 MAX_SZ_IDX) = true.
Proof. vm_compute. reflexivity. Qed.

Lemma class_own_size `{SI : !SizeInit target st} i c :
  1 <= i < MAX_SZ_IDX -> size_class_at st i = Ok c ->
  8 <= c.(block_size) /\ (8 | c.(block_size)) /\ get_size_class st c.(block_size) = i.
Proof.
  intros Hi Hc. destruct (si_class i Hi) as (c' & Hc' & Hok & Hb).
  rewrite Hc in Hc'. injection Hc' as <-.
  pose proof (forallb_range _ _ _ _ own_size_table Hi) as Ho. unfold own_sizeb in Ho.
  rewrite Hb in Ho. rewrite !andb_true_iff, Z.leb_le, Z.eqb_eq in Ho.
  destruct Ho as [[H8 Hm] Hf]. split; [done|]. split; [by apply Z.mod_divide|].
  apply bool_decide_eq_true in Hf.
  rewrite (si_get_size_class (block_size c)) in Hf; [by injection Hf|].
  destruct Hok. lia.
Qed.

(** ** Properties *)

(** C15: [init_size_class] succeeds for every target that fits a [u32].  Each of
    the 39 small classes then has a superblock of whole pages, below 4 GiB, that
    is exactly filled by its blocks, of which there are at least as many as the
    target; blocks hold a pointer and are multiples of 8. *)
Theorem size_classes_well_formed target :
  0 <= target <= TARGET_APF_BOUND ->
  exists st, init_size_class target size_state_uninit = Ok st /\
    forall i, 1 <= i < MAX_SZ_IDX -> exists c, size_class_at st i = Ok c /\
      (PAGE | c.(sb_size)) /\ c.(sb_size) = c.(block_num) * c.(block_size) /\
      c.(sb_size) < 2 ^ 32 /\ target <= c.(block_num) /\ 2 <= c.(block_num) /\
      c.(cache_block_num) = c.(block_num) /\
      8 <= c.(block_size) <= MAX_SZ /\ (8 | c.(block_size)).
Proof.
  intros Ht. destruct (init_size_class_ok target Ht) as (st & l & Hi & _). exists st.
  split; [done|]. intros i Hidx. assert (SI : SizeInit target st) by by split.
  clear Hi. destruct (si_class i Hidx) as (c & Hc & [K1 K2 K3 K4 K5 K6] & _). exists c.
  destruct (class_own_size i c Hidx Hc) as (H8 & Hd & _).
  do 5 (split; [done || lia|]). split; [nia|]. split; [done|]. split; [lia|done].
Qed.

Lemma size_classes_well_formed_witness :
  exists st c, init_size_class TARGET_APF_DEFAULT size_state_uninit = Ok st /\
    size_class_at st 39 = Ok c /\ 2500 <= c.(block_num).
Proof.
  destruct (size_classes_well_formed TARGET_APF_DEFAULT) as (st & Hi & Hc);
    [unfold TARGET_APF_DEFAULT, TARGET_APF_BOUND; lia|].
  destruct (Hc 39) as (c & H39 & _ & _ & _ & Ht & _); [unfold MAX_SZ_IDX; lia|].
  exists st, c. split; [exact Hi|]. split; [exact H39|exact Ht].
Defined.

(** C16: [get_size_class] gives a small request the first class whose blocks hold
    it: it fits, and it fits no class before that one.  A request above [MAX_SZ]
    gets class 0. *)
Theorem size_class_is_first_fit target st s :
  SizeInit target st -> 0 <= s ->
  (s <= MAX_SZ -> exists c, size_class_at st (get_size_class st s) = Ok c /\ s <= c.(block_size) /\
     forall j cj, 1 <= j < get_size_class st s -> size_class_at st j = Ok cj -> cj.(block_size) < s) /\
  (MAX_SZ < s -> get_size_class st s = 0).
Proof.
  intros SI Hs. split; intros Hm.
  - destruct (get_size_class_fits (st := st) s) as (c & Hc & _ & Hfit); [lia|]. exists c.
    do 2 (split; [done|]). intros j cj Hj Hcj.
    pose proof (get_size_class_bounds (st := st) s ltac:(lia)) as Hb.
    pose proof (si_get_size_class (st := st) s ltac:(lia)) as Hf.
    apply first_fit_spec in Hf as (_ & _ & Hlt).
    destruct (si_class (st := st) j) as (c' & Hc' & _ & Hl); [lia|].
    rewrite Hcj in Hc'. injection Hc' as <-. by apply (Hlt j).
  - unfold get_size_class. destruct (Z.gtb_spec s MAX_SZ); [done|lia].
Qed.

Lemma size_class_is_first_fit_witness :
  exists st, SizeInit 2 st /\ get_size_class st 20000 = 0 /\
    exists c, size_class_at st (get_size_class st 100) = Ok c /\ 100 <= c.(block_size).
Proof.
  destruct (init_size_class_ok 2) as (st & l & Hi & _); [unfold TARGET_APF_BOUND; lia|].
  assert (SI : SizeInit 2 st) by (split; [unfold TARGET_APF_BOUND; lia|exact Hi]).
  exists st. split; [exact SI|]. split.
  - exact (proj2 (size_class_is_first_fit 2 st 20000 SI ltac:(lia)) ltac:(vm_compute; reflexivity)).
  - destruct (proj1 (size_class_is_first_fit 2 st 100 SI ltac:(lia))) as (c & H1 & H2 & _);
      [vm_compute; discriminate|]. exists c. split; [exact H1|exact H2].
Defined.
