(* ===== verification/Anchor.v ===== *)
(** * Superblock anchors

    Models [src/src/allocation_data.rs]: the states of a superblock and the
    [Anchor], a 64-bit word that packs the state (bits 1..0), the index of the
    first available block (bits 31..2) and the number of blocks in the list
    (bits 63..32).  The accessors are generated by the [bitfield!] macro of the
    [bitfield] crate: its two primitives are the operations of the class
    [BitRange], with what its documentation says of them as laws. *)
From S2P Require Import Prelude MemInfo.

Inductive SuperBlockState : Type := FULL | PARTIAL | EMPTY.

#[global] Instance SuperBlockState_eq_dec : EqDecision SuperBlockState.
Proof. solve_decision. Defined.

(** [From<u64> for SuperBlockState] *)
Definition state_from_u64 (u : Z) : result SuperBlockState :=
  if u =? 0 then Ok FULL
  else if u =? 1 then Ok PARTIAL
  else if u =? 2 then Ok EMPTY
  else Err (Panic "Not a valid option").

(** [Into<u64> for SuperBlockState] *)
Definition state_into_u64 (s : SuperBlockState) : Z :=
  match s with FULL => 0 | PARTIAL => 1 | EMPTY => 2 end.

(** ** The primitives of the [bitfield] crate on a 64-bit word

    [bit_range w msb lsb] reads the bits [msb..lsb]; [set_bit_range w msb lsb v]
    replaces them by the low bits of [v] and keeps the others. *)
Class BitRange : Type := {
  bit_range : Z -> Z -> Z -> Z;
  set_bit_range : Z -> Z -> Z -> Z -> Z;
  bit_range_bound w msb lsb :
    0 <= lsb <= msb -> 0 <= bit_range w msb lsb < 2 ^ (msb - lsb + 1);
  bit_range_zero msb lsb : bit_range 0 msb lsb = 0;
  set_bit_range_u64 w msb lsb v :
    0 <= w < 2 ^ 64 -> 0 <= lsb <= msb -> msb < 64 ->
    0 <= set_bit_range w msb lsb v < 2 ^ 64;
  bit_range_same w msb lsb v :
    0 <= lsb <= msb ->
    bit_range (set_bit_range w msb lsb v) msb lsb = v mod 2 ^ (msb - lsb + 1);
  bit_range_other w msb lsb msb' lsb' v :
    0 <= lsb <= msb -> 0 <= lsb' <= msb' -> msb' < lsb \/ msb < lsb' ->
    bit_range (set_bit_range w msb lsb v) msb' lsb' = bit_range w msb' lsb';
}.

(** ** Anchor *)
Section Anchor.
Context {BR : BitRange}.

Definition anchor_default : Z := 0.

Definition anchor_state (a : Z) : result SuperBlockState :=
  state_from_u64 (bit_range a 1 0).
Definition set_state (s : SuperBlockState) (a : Z) : Z :=
  set_bit_range a 1 0 (state_into_u64 s).
Definition avail (a : Z) : Z := bit_range a 31 2.
Definition set_avail (v a : Z) : Z := set_bit_range a 31 2 v.
Definition count (a : Z) : Z := bit_range a 63 32.
Definition set_count (v a : Z) : Z := set_bit_range a 63 32 v.

(** [PartialEq for Anchor] *)
Definition anchor_eq (a b : Z) : result bool :=
  sa ← anchor_state a; sb ← anchor_state b;
  if negb (bool_decide (sa = sb)) then Ok false
  else if negb (avail a =? avail b) then Ok false
  else if negb (count a =? count b) then Ok false
  else Ok true.

(** *** The anchors of a superblock

  A new superblock has all its blocks in a bin; [malloc_from_partial] takes all
  the blocks that the anchor counts; [flush_cache] returns [block_count] blocks,
  the first of which has the index [index]. *)
Definition new_anchor (n : Z) : Z := set_state FULL (set_count 0 (set_avail n anchor_default)).

Definition take_anchor (max_count old_anchor : Z) : Z :=
  set_state FULL (set_avail max_count (set_count 0 old_anchor)).

Definition flush_anchor (max_count index block_count : Z) (old_state : SuperBlockState)
    (old_anchor : Z) : Z :=
  let a := set_avail index old_anchor in
  let a := if bool_decide (old_state = FULL) then set_state PARTIAL a else a in
  if count old_anchor + block_count =? max_count
  then set_state EMPTY (set_count (max_count - 1) a)
  else set_count block_count a.

(** *** Lemmas *)
Lemma state_from_into s : state_from_u64 (state_into_u64 s) = Ok s.
Proof. by destruct s. Qed.

Lemma state_set_state s a : anchor_state (set_state s a) = Ok s.
Proof.
  unfold anchor_state, set_state. rewrite bit_range_same by lia.
  rewrite Z.mod_small by (destruct s; simpl; lia). apply state_from_into.
Qed.

Lemma state_set_avail v a : anchor_state (set_avail v a) = anchor_state a.
Proof. unfold anchor_state, set_avail. by rewrite bit_range_other by lia. Qed.

Lemma state_set_count v a : anchor_state (set_count v a) = anchor_state a.
Proof. unfold anchor_state, set_count. by rewrite bit_range_other by lia. Qed.

Lemma avail_set_avail v a : avail (set_avail v a) = v mod 2 ^ 30.
Proof. unfold avail, set_avail. by rewrite bit_range_same by lia. Qed.

Lemma avail_set_state s a : avail (set_state s a) = avail a.
Proof. unfold avail, set_state. by rewrite bit_range_other by lia. Qed.

Lemma avail_set_count v a : avail (set_count v a) = avail a.
Proof. unfold avail, set_count. by rewrite bit_range_other by lia. Qed.

Lemma count_set_count v a : count (set_count v a) = v mod 2 ^ 32.
Proof. unfold count, set_count. by rewrite bit_range_same by lia. Qed.

Lemma count_set_state s a : count (set_state s a) = count a.
Proof. unfold count, set_state. by rewrite bit_range_other by lia. Qed.

Lemma count_set_avail v a : count (set_avail v a) = count a.
Proof. unfold count, set_avail. by rewrite bit_range_other by lia. Qed.

Lemma anchor_default_fields :
  anchor_state anchor_default = Ok FULL /\ avail anchor_default = 0 /\
  count anchor_default = 0.
Proof.
  unfold anchor_state, avail, count, anchor_default. by rewrite !bit_range_zero.
Qed.

Lemma flush_anchor_empty max_count index n st a :
  count a + n = max_count -> anchor_state (flush_anchor max_count index n st a) = Ok EMPTY.
Proof. intros H. unfold flush_anchor. rewrite H, Z.eqb_refl. apply state_set_state. Qed.

Lemma flush_anchor_partial max_count index n st a :
  count a + n <> max_count -> anchor_state a = Ok st -> let a' := flush_anchor max_count index n st a in
  anchor_state a' = Ok (if bool_decide (st = FULL) then PARTIAL else st) /\
  avail a' = index mod 2 ^ 30 /\ count a' = n mod 2 ^ 32.
Proof.
  intros H Hst. unfold flush_anchor. apply Z.eqb_neq in H. rewrite H. simpl.
  rewrite state_set_count, avail_set_count, count_set_count. case_bool_decide.
  - by rewrite state_set_state, avail_set_state, avail_set_avail.
  - by rewrite state_set_avail, avail_set_avail.
Qed.

Lemma take_anchor_fields max_count a : let a' := take_anchor max_count a in
  anchor_state a' = Ok FULL /\ avail a' = max_count mod 2 ^ 30 /\ count a' = 0.
Proof.
  unfold take_anchor. simpl. rewrite state_set_state, avail_set_state, count_set_state.
  by rewrite avail_set_avail, count_set_avail, count_set_count.
Qed.

Lemma new_anchor_fields n :
  anchor_state (new_anchor n) = Ok FULL /\ avail (new_anchor n) = n mod 2 ^ 30 /\
  count (new_anchor n) = 0.
Proof.
  unfold new_anchor. rewrite state_set_state, avail_set_state, count_set_state.
  by rewrite avail_set_count, avail_set_avail, count_set_count.
Qed.
End Anchor.

Create Rewrite HintDb anchor.
#[export] Hint Rewrite @state_set_state @state_set_avail @state_set_count
  @avail_set_avail @avail_set_state @avail_set_count
  @count_set_count @count_set_state @count_set_avail : anchor.

(** ** A concrete instance, for evaluation *)
Definition range_mask (msb lsb : Z) : Z := Z.shiftl (Z.ones (msb - lsb + 1)) lsb.

Definition get_bits (w msb lsb : Z) : Z :=
  Z.land (Z.shiftr w lsb) (Z.ones (msb - lsb + 1)).

Definition set_bits (w msb lsb v : Z) : Z :=
  Z.lor (Z.ldiff w (range_mask msb lsb)) (Z.land (Z.shiftl v lsb) (range_mask msb lsb)).

Lemma testbit_range_mask msb lsb n :
  0 <= lsb <= msb -> 0 <= n ->
  Z.testbit (range_mask msb lsb) n = bool_decide (lsb <= n <= msb).
Proof.
  intros Hl Hn. unfold range_mask. destruct (decide (n < lsb)).
  { rewrite Z.shiftl_spec_low by lia. by rewrite bool_decide_eq_false_2 by lia. }
  rewrite Z.shiftl_spec by lia. destruct (decide (n <= msb)).
  - rewrite Z.ones_spec_low by lia. by rewrite bool_decide_eq_true_2 by lia.
  - rewrite Z.ones_spec_high by lia. by rewrite bool_decide_eq_false_2 by lia.
Qed.

Lemma testbit_set_bits w msb lsb v n :
  0 <= lsb <= msb -> 0 <= n ->
  Z.testbit (set_bits w msb lsb v) n =
    if decide (lsb <= n <= msb) then Z.testbit v (n - lsb) else Z.testbit w n.
Proof.
  intros Hl Hn. unfold set_bits.
  rewrite Z.lor_spec, Z.ldiff_spec, Z.land_spec, testbit_range_mask by lia.
  destruct (decide (lsb <= n <= msb)) as [H|H].
  - rewrite bool_decide_eq_true_2 by done. rewrite Z.shiftl_spec by lia.
    by rewrite andb_false_r, andb_true_r.
  - rewrite bool_decide_eq_false_2 by done. by rewrite andb_false_r, andb_true_r, orb_false_r.
Qed.

Lemma testbit_get_bits w msb lsb n :
  0 <= lsb <= msb -> 0 <= n ->
  Z.testbit (get_bits w msb lsb) n =
    if decide (n <= msb - lsb) then Z.testbit w (n + lsb) else false.
Proof.
  intros Hl Hn. unfold get_bits. rewrite Z.land_spec, Z.shiftr_spec by lia.
  case_decide.
  - rewrite Z.ones_spec_low by lia. by rewrite andb_true_r.
  - rewrite Z.ones_spec_high by lia. by rewrite andb_false_r.
Qed.

Lemma get_set_bits_other w msb lsb msb' lsb' v :
  0 <= lsb <= msb -> 0 <= lsb' <= msb' -> msb' < lsb \/ msb < lsb' ->
  get_bits (set_bits w msb lsb v) msb' lsb' = get_bits w msb' lsb'.
Proof.
  intros H H' Hd. apply Z.bits_inj'. intros n Hn.
  rewrite !testbit_get_bits by lia. case_decide; [|done].
  rewrite testbit_set_bits by lia. by rewrite decide_False by lia.
Qed.

Lemma get_set_bits_same w msb lsb v :
  0 <= lsb <= msb ->
  get_bits (set_bits w msb lsb v) msb lsb = v mod 2 ^ (msb - lsb + 1).
Proof.
  intros H. apply Z.bits_inj'. intros n Hn.
  rewrite testbit_get_bits by lia. case_decide.
  - rewrite testbit_set_bits by lia. rewrite decide_True by lia.
    rewrite Z.mod_pow2_bits_low by lia. f_equal; lia.
  - by rewrite Z.mod_pow2_bits_high by lia.
Qed.

Lemma set_bits_u64 w msb lsb v :
  0 <= w < 2 ^ 64 -> 0 <= lsb <= msb -> msb < 64 -> 0 <= set_bits w msb lsb v < 2 ^ 64.
Proof.
  intros Hw Hl Hm64.
  assert (Hm : set_bits w msb lsb v mod 2 ^ 64 = set_bits w msb lsb v).
  { apply Z.bits_inj'. intros n Hn. destruct (decide (n < 64)).
    - by rewrite Z.mod_pow2_bits_low by lia.
    - rewrite Z.mod_pow2_bits_high by lia. rewrite testbit_set_bits by lia.
      rewrite decide_False by lia. symmetry. apply (testbit_above w 64); lia. }
  rewrite <- Hm. apply Z.mod_pos_bound. lia.
Qed.

Lemma get_bits_bound w msb lsb :
  0 <= lsb <= msb -> 0 <= get_bits w msb lsb < 2 ^ (msb - lsb + 1).
Proof.
  intros H. unfold get_bits. rewrite Z.land_ones by lia.
  apply Z.mod_pos_bound. apply Z.pow_pos_nonneg; lia.
Qed.

Lemma get_bits_zero msb lsb : get_bits 0 msb lsb = 0.
Proof. unfold get_bits. by rewrite Z.shiftr_0_l, Z.land_0_l. Qed.

Definition bit_range_u64 : BitRange := {|
    bit_range := get_bits;
    set_bit_range := set_bits;
    bit_range_bound := get_bits_bound;
    bit_range_zero := get_bits_zero;
    set_bit_range_u64 := set_bits_u64;
    bit_range_same := get_set_bits_same;
    bit_range_other := get_set_bits_other;
  |}.

(** ** Properties *)

(** The three fields of an anchor are independent: each setter changes its
    own field, to the value modulo its width, and no other field. *)
Theorem anchor_fields_independent {BR : BitRange} a st v :
  (anchor_state (set_state st a) = Ok st /\ avail (set_state st a) = avail a /\
   count (set_state st a) = count a) /\
  (avail (set_avail v a) = v mod 2 ^ 30 /\ anchor_state (set_avail v a) = anchor_state a /\
   count (set_avail v a) = count a) /\
  (count (set_count v a) = v mod 2 ^ 32 /\ anchor_state (set_count v a) = anchor_state a /\
   avail (set_count v a) = avail a).
Proof.
  split; [|split].
  - split; [apply state_set_state|]. split; [apply avail_set_state|apply count_set_state].
  - split; [apply avail_set_avail|]. split; [apply state_set_avail|apply count_set_avail].
  - split; [apply count_set_count|]. split; [apply state_set_count|apply avail_set_count].
Qed.

Lemma anchor_fields_independent_witness :
  count (BR := bit_range_u64) (set_avail (BR := bit_range_u64) 5 (2 ^ 33)) = 2 /\
  avail (BR := bit_range_u64) (set_avail (BR := bit_range_u64) 5 (2 ^ 33)) = 5.
Proof.
  destruct (anchor_fields_independent (BR := bit_range_u64) (2 ^ 33) FULL 5) as (_ & (H1 & _ & H2) & _).
  split; [rewrite H2; reflexivity|rewrite H1; reflexivity].
Defined.
