(* ===== verification/Mem.v ===== *)
(** * Memory and the segment allocator

    Models [src/src/pages/external_mem_reservation.rs] (the unix
    implementation of [SegAllocator]) and the raw pointer accesses of the
    allocator.  Memory is a finite map from addresses to bytes; a byte that was
    never written since its mapping was created reads as 0, as anonymous
    mappings do.  The two system calls are operations of the class [Kernel],
    with what their manual pages say of them as laws; an access outside the
    live mappings is a [Fault]. *)
From S2P Require Import Prelude MemInfo.

(** ** Segments *)
Record Segment : Type := mkSegment { seg_ptr : Z; seg_len : Z }.

#[global] Instance Segment_eq_dec : EqDecision Segment.
Proof. solve_decision. Defined.

Inductive AllocationError : Type := AllocationFailed (size errno : Z).

(** The whole pages that a mapping of [len] bytes occupies. *)
Definition page_span (len : Z) : Z := (len + PAGE - 1) / PAGE * PAGE.

(** [ [a, a + n) ] and [ [b, b + m) ] do not meet. *)
Definition disjoint_ranges (a n b m : Z) : Prop := a + n <= b \/ b + m <= a.

Definition MAP_FAILED : Z := USIZE_MAX.

(** x86-64 has 48 bits for addressing. *)
Definition ADDR_LIMIT : Z := 2 ^ 48.

(** ** The system calls

    [mmap n segs size noreserve] is the address returned by the [n]-th call
    when the mappings [segs] are live; the call number makes every sequence of
    answers of the kernel an instance. *)
Class Kernel : Type := {
  mmap : nat -> list Segment -> Z -> bool -> Z;
  munmap : nat -> list Segment -> Z -> Z -> Z;
  errno : nat -> Z;
  mmap_spec n segs size noreserve :
    mmap n segs size noreserve <> MAP_FAILED ->
    0 < size /\ (PAGE | mmap n segs size noreserve) /\
    0 < mmap n segs size noreserve /\
    mmap n segs size noreserve + page_span size <= ADDR_LIMIT /\
    Forall (λ s, disjoint_ranges (mmap n segs size noreserve) (page_span size)
                   s.(seg_ptr) (page_span s.(seg_len))) segs;
  munmap_spec n segs s :
    s ∈ segs -> munmap n segs s.(seg_ptr) s.(seg_len) = 0;
}.

(** ** Bytes *)
Definition load8 (m : gmap Z Z) (a : Z) : Z := default 0 (m !! a).
Definition store8 (m : gmap Z Z) (a v : Z) : gmap Z Z := <[a := v mod 256]> m.

(** Little-endian access to [n] bytes. *)
Fixpoint load (n : nat) (m : gmap Z Z) (a : Z) : Z :=
  match n with
  | O => 0
  | S n' => load8 m a + 256 * load n' m (a + 1)
  end.

Fixpoint store (n : nat) (m : gmap Z Z) (a v : Z) : gmap Z Z :=
  match n with
  | O => m
  | S n' => store n' (store8 m a v) (a + 1) (v / 256)
  end.

(** [libc::memcpy(dst, src, n)] *)
Fixpoint copy (n : nat) (src_mem m : gmap Z Z) (dst src : Z) : gmap Z Z :=
  match n with
  | O => m
  | S n' => copy n' src_mem (store8 m dst (load8 src_mem src)) (dst + 1) (src + 1)
  end.

(** The bytes of a new mapping are 0. *)
Definition zero_range (m : gmap Z Z) (p len : Z) : gmap Z Z :=
  filter (λ kv, ~ (p <= kv.1 < p + len)) m.

(** ** The state *)
Record Os : Type := mkOs { mem : gmap Z Z; segs : list Segment; calls : nat }.

Definition os_init : Os := mkOs ∅ [] 0.

Definition mapped (ss : list Segment) (a n : Z) : bool :=
  existsb (λ s, (s.(seg_ptr) <=? a) &&
                (a + n <=? s.(seg_ptr) + page_span s.(seg_len))) ss.

(** Raw accesses: [*(p as *mut *mut u8)] and [*(p as *mut u8)]. *)
Definition read_ptr (p : Z) : M Os Z := λ o,
  if mapped o.(segs) p 8 then Ok (load 8 o.(mem) p, o) else Err (Fault p).

Definition write_ptr (p v : Z) : M Os unit := λ o,
  if mapped o.(segs) p 8
  then Ok (tt, mkOs (store 8 o.(mem) p v) o.(segs) o.(calls)) else Err (Fault p).

Definition write_u8 (p v : Z) : M Os unit := λ o,
  if mapped o.(segs) p 1
  then Ok (tt, mkOs (store8 o.(mem) p v) o.(segs) o.(calls)) else Err (Fault p).

Definition memcpy (dst src n : Z) : M Os unit := λ o,
  if (n <=? 0) then Ok (tt, o)
  else if negb (mapped o.(segs) dst n) then Err (Fault dst)
  else if negb (mapped o.(segs) src n) then Err (Fault src)
  else Ok (tt, mkOs (copy (Z.to_nat n) o.(mem) o.(mem) dst src) o.(segs) o.(calls)).

(** ** [SegAllocator for SegmentAllocator] (unix) *)
Section SegAllocator.
Context {KN : Kernel}.

Definition map_segment (size : Z) (noreserve : bool)
  : M Os (Segment + AllocationError) := λ o,
  let p := mmap o.(calls) o.(segs) size noreserve in
  if p =? MAP_FAILED
  then Ok (inr (AllocationFailed size (errno o.(calls))),
           mkOs o.(mem) o.(segs) (S o.(calls)))
  else let s := mkSegment p size in
       Ok (inl s, mkOs (zero_range o.(mem) p (page_span size)) (s :: o.(segs))
                       (S o.(calls))).

Definition allocate (size : Z) : M Os (Segment + AllocationError) :=
  map_segment size false.

Definition allocate_massive (size : Z) : M Os (Segment + AllocationError) :=
  map_segment size true.

Definition deallocate (s : Segment) : M Os bool := λ o,
  let r := munmap o.(calls) o.(segs) s.(seg_ptr) s.(seg_len) in
  let segs' := if r =? 0 then filter (λ t, t <> s) o.(segs) else o.(segs) in
  Ok (r =? 0, mkOs o.(mem) segs' (S o.(calls))).
End SegAllocator.

(** ** Lemmas on byte accesses *)
Lemma load8_store8 m a v b :
  load8 (store8 m a v) b = if decide (a = b) then v mod 256 else load8 m b.
Proof.
  unfold load8, store8. rewrite lookup_insert. by case_decide.
Qed.

Lemma load8_store_other n : forall m a v b,
  b < a \/ a + Z.of_nat n <= b -> load8 (store n m a v) b = load8 m b.
Proof.
  induction n as [|n IH]; intros m a v b Hb; [done|].
  simpl. rewrite IH by lia. rewrite load8_store8. by rewrite decide_False by lia.
Qed.

Lemma load_ext n : forall m m' a,
  (forall b, a <= b < a + Z.of_nat n -> load8 m b = load8 m' b) ->
  load n m a = load n m' a.
Proof.
  induction n as [|n IH]; intros m m' a H; [done|]. simpl.
  rewrite (H a) by lia. rewrite (IH m m' (a + 1)); [done|].
  intros b Hb. apply H. lia.
Qed.

Lemma load_store_other n k m a v b :
  disjoint_ranges a (Z.of_nat n) b (Z.of_nat k) ->
  load k (store n m a v) b = load k m b.
Proof.
  intros H. apply load_ext. intros c Hc. apply load8_store_other.
  unfold disjoint_ranges in H. lia.
Qed.

Lemma load_store_same n : forall m a v,
  load n (store n m a v) a = v mod 256 ^ Z.of_nat n.
Proof.
  induction n as [|n IH]; intros m a v.
  { simpl. by rewrite Z.mod_1_r. }
  rewrite Nat2Z.inj_succ, Z.pow_succ_r by lia. simpl.
  rewrite IH, load8_store_other by lia. rewrite load8_store8.
  rewrite decide_True by done. rewrite Z.rem_mul_r; [lia|lia|].
  apply Z.pow_pos_nonneg; lia.
Qed.

Lemma load_store_ptr m a v : 0 <= v < 2 ^ 64 -> load 8 (store 8 m a v) a = v.
Proof.
  intros Hv. rewrite load_store_same. change (256 ^ Z.of_nat 8) with (2 ^ 64).
  by apply Z.mod_small.
Qed.

Lemma load8_zero_range m p len a :
  load8 (zero_range m p len) a = if decide (p <= a < p + len) then 0 else load8 m a.
Proof.
  unfold load8, zero_range. destruct (m !! a) as [v|] eqn:E.
  - case_decide.
    + rewrite map_lookup_filter_None_2; [done|]. right. intros x Hx. simpl. tauto.
    + erewrite map_lookup_filter_Some_2; [done|done|]. simpl. tauto.
  - rewrite map_lookup_filter_None_2 by (by left). simpl. by case_decide.
Qed.

Lemma load_zero_range_in n : forall m p len a,
  p <= a -> a + Z.of_nat n <= p + len -> load n (zero_range m p len) a = 0.
Proof.
  induction n as [|n IH]; intros m p len a H1 H2; [done|]. simpl.
  rewrite load8_zero_range, decide_True by lia. rewrite IH by lia. done.
Qed.

Lemma load_zero_range_out n m p len a :
  disjoint_ranges p len a (Z.of_nat n) -> load n (zero_range m p len) a = load n m a.
Proof.
  intros H. apply load_ext. intros b Hb. rewrite load8_zero_range.
  unfold disjoint_ranges in H. by rewrite decide_False by lia.
Qed.

(** The byte map after a copy between ranges. *)
Lemma load8_copy n : forall sm m dst src b,
  load8 (copy n sm m dst src) b =
    if decide (dst <= b < dst + Z.of_nat n) then load8 sm (src + (b - dst)) mod 256
    else load8 m b.
Proof.
  induction n as [|n IH]; intros sm m dst src b.
  { simpl. by rewrite decide_False by lia. }
  simpl copy. rewrite IH. destruct (decide (b = dst)) as [->|Hne].
  - rewrite decide_False by lia. rewrite load8_store8, decide_True by done.
    rewrite decide_True by lia. f_equal. f_equal. lia.
  - destruct (decide (dst + 1 <= b < dst + 1 + Z.of_nat n)).
    + rewrite decide_True by lia. f_equal. f_equal. lia.
    + rewrite load8_store8, decide_False by lia. by rewrite decide_False by lia.
Qed.

#[global] Arguments load : simpl never.
#[global] Arguments store : simpl never.
#[global] Arguments copy : simpl never.
#[global] Arguments mapped : simpl never.

(** ** Lemmas on mappings *)
Lemma page_span_ge len : len <= page_span len.
Proof.
  unfold page_span. change PAGE with 4096.
  pose proof (Z.div_mod (len + 4096 - 1) 4096). pose proof (Z.mod_pos_bound (len + 4096 - 1) 4096). lia.
Qed.

Lemma page_span_pos len : 0 < len -> 0 < page_span len.
Proof. pose proof (page_span_ge len). lia. Qed.

Lemma mapped_true ss a n :
  mapped ss a n = true <->
  exists s, s ∈ ss /\ s.(seg_ptr) <= a /\ a + n <= s.(seg_ptr) + page_span s.(seg_len).
Proof.
  unfold mapped. rewrite existsb_exists. split.
  - intros (s & Hin & [H1%Z.leb_le H2%Z.leb_le]%andb_true_iff).
    exists s. by rewrite list_elem_of_In.
  - intros (s & Hin & H1 & H2). exists s. rewrite <- list_elem_of_In.
    split; [done|]. by rewrite andb_true_iff, !Z.leb_le.
Qed.

Lemma mapped_mono ss ss' a n :
  (forall s, s ∈ ss -> s ∈ ss') -> mapped ss a n = true -> mapped ss' a n = true.
Proof. rewrite !mapped_true. intros H (s & Hs & ?). exists s. by auto. Qed.

Lemma read_ptr_ok o p :
  mapped o.(segs) p 8 = true -> read_ptr p o = Ok (load 8 o.(mem) p, o).
Proof. intros H. unfold read_ptr. by rewrite H. Qed.

Lemma write_ptr_ok o p v :
  mapped o.(segs) p 8 = true ->
  write_ptr p v o = Ok (tt, mkOs (store 8 o.(mem) p v) o.(segs) o.(calls)).
Proof. intros H. unfold write_ptr. by rewrite H. Qed.

(** The live mappings do not overlap: an invariant of [allocate] and
    [deallocate], for every kernel. *)
Definition seg_disjoint (s t : Segment) : Prop :=
  disjoint_ranges s.(seg_ptr) (page_span s.(seg_len)) t.(seg_ptr) (page_span t.(seg_len)).

Record os_ok (o : Os) : Prop := {
  os_segs_disjoint : ForallOrdPairs seg_disjoint o.(segs);
  os_segs_wf : Forall (λ s, 0 < s.(seg_ptr) /\ (PAGE | s.(seg_ptr)) /\ 0 < s.(seg_len) /\
                 s.(seg_ptr) + page_span s.(seg_len) <= ADDR_LIMIT) o.(segs);
}.

Lemma os_init_ok : os_ok os_init.
Proof. by repeat constructor. Qed.

(** Nothing is mapped at address 0. *)
Lemma null_unmapped o n : os_ok o -> mapped o.(segs) 0 n = false.
Proof.
  intros [_ Hwf]. unfold mapped. induction Hwf as [|s ss (H & _) _ IH]; simpl; [done|].
  rewrite IH. destruct (Z.leb_spec s.(seg_ptr) 0); [lia|done].
Qed.

Section SegFacts.
Context {KN : Kernel}.

(** What a successful mapping gives. *)
Record fresh_segment (o : Os) (s : Segment) : Prop := {
  fresh_page : (PAGE | s.(seg_ptr));
  fresh_pos : 0 < s.(seg_ptr);
  fresh_len : 0 < s.(seg_len);
  fresh_limit : s.(seg_ptr) + page_span s.(seg_len) <= ADDR_LIMIT;
  fresh_disjoint : Forall (seg_disjoint s) o.(segs);
  fresh_answer : exists noreserve, mmap o.(calls) o.(segs) s.(seg_len) noreserve = s.(seg_ptr);
}.

Lemma map_segment_inv size nr o r o' :
  map_segment size nr o = Ok (r, o') ->
  match r with
  | inl s => s.(seg_len) = size /\ fresh_segment o s /\
      o' = mkOs (zero_range o.(mem) s.(seg_ptr) (page_span size)) (s :: o.(segs)) (S o.(calls))
  | inr (AllocationFailed sz _) => sz = size /\ o' = mkOs o.(mem) o.(segs) (S o.(calls))
  end.
Proof.
  unfold map_segment. destruct (Z.eqb_spec (mmap (calls o) (segs o) size nr) MAP_FAILED).
  - intros H. by simplify_eq.
  - intros H. simplify_eq. split; [done|]. split; [|done].
    destruct (mmap_spec _ _ _ _ n) as (? & ? & ? & ? & ?). constructor; try done. by exists nr.
Qed.

Lemma map_segment_ok size nr o : exists r o', map_segment size nr o = Ok (r, o').
Proof. unfold map_segment. case_match; by eauto. Qed.

Lemma fresh_os_ok o s m n :
  os_ok o -> fresh_segment o s -> os_ok (mkOs m (s :: o.(segs)) n).
Proof. intros [H1 H2] []. constructor; simpl; constructor; auto. Qed.

Lemma map_segment_os_ok size nr o r o' :
  os_ok o -> map_segment size nr o = Ok (r, o') -> os_ok o'.
Proof.
  intros Ho H. apply map_segment_inv in H. destruct r as [s|[sz e]].
  - destruct H as (_ & Hf & ->). by apply fresh_os_ok.
  - destruct H as [_ ->]. by destruct Ho; constructor.
Qed.

Lemma ForallOrdPairs_filter {A} (R : A -> A -> Prop) (P : A -> Prop)
    `{forall x, Decision (P x)} l :
  ForallOrdPairs R l -> ForallOrdPairs R (filter P l).
Proof.
  induction 1 as [|a l Ha _ IH]; [constructor|]. rewrite filter_cons.
  case_decide; [|done]. constructor; [|done].
  rewrite Forall_forall in Ha |- *. intros b [_ Hb]%list_elem_of_filter. by apply Ha.
Qed.

Lemma deallocate_os_ok s o b o' :
  os_ok o -> deallocate s o = Ok (b, o') -> os_ok o'.
Proof.
  intros [H1 H2] H. unfold deallocate in H. simplify_eq.
  case_match; constructor; simpl; try done.
  - by apply ForallOrdPairs_filter.
  - rewrite Forall_forall in H2 |- *. intros t [_ Ht]%list_elem_of_filter. by apply H2.
Qed.

Lemma deallocate_live s o :
  s ∈ o.(segs) ->
  deallocate s o =
    Ok (true, mkOs o.(mem) (filter (λ t, t <> s) o.(segs)) (S o.(calls))).
Proof. intros H. unfold deallocate. by rewrite munmap_spec. Qed.
End SegFacts.

Lemma seg_wf o seg :
  os_ok o -> seg ∈ o.(segs) ->
  0 < seg.(seg_ptr) /\ (PAGE | seg.(seg_ptr)) /\ 0 < seg.(seg_len) /\
  seg.(seg_ptr) + page_span seg.(seg_len) <= ADDR_LIMIT.
Proof. intros [_ Hw] H. rewrite Forall_forall in Hw. by apply Hw. Qed.

Lemma fresh_ptr_ne {KN : Kernel} o seg t :
  os_ok o -> fresh_segment o seg -> t ∈ o.(segs) -> seg.(seg_ptr) <> t.(seg_ptr).
Proof.
  intros Ho [_ _ F3 _ Hd _] Ht E. rewrite Forall_forall in Hd. specialize (Hd _ Ht).
  destruct (seg_wf _ _ Ho Ht) as (_ & _ & L & _).
  pose proof (page_span_pos _ L). pose proof (page_span_pos _ F3).
  unfold seg_disjoint, disjoint_ranges in Hd. lia.
Qed.

(** ** Two concrete kernels, for evaluation

    [kernel_up] places each mapping after all the live ones, [kernel_down]
    before all of them. *)
Definition page_floor (a : Z) : Z := a / PAGE * PAGE.

Definition segs_top (ss : list Segment) : Z :=
  foldr (λ s t, Z.max (s.(seg_ptr) + page_span s.(seg_len)) t) PAGE ss.

Definition segs_bottom (ss : list Segment) : Z :=
  foldr (λ s t, Z.min s.(seg_ptr) t) (ADDR_LIMIT / 2) ss.

Definition mmap_up (_ : nat) (ss : list Segment) (size : Z) (_ : bool) : Z :=
  let p := page_span (segs_top ss) in
  if (0 <? size) && (p + page_span size <=? ADDR_LIMIT) then p else MAP_FAILED.

Definition mmap_down (_ : nat) (ss : list Segment) (size : Z) (_ : bool) : Z :=
  let p := page_floor (segs_bottom ss - page_span size) in
  if (0 <? size) && (0 <? p) then p else MAP_FAILED.

Lemma page_span_divide len : (PAGE | page_span len).
Proof. by eexists. Qed.

Lemma page_floor_le a : page_floor a <= a.
Proof.
  unfold page_floor. change PAGE with 4096.
  pose proof (Z.div_mod a 4096). pose proof (Z.mod_pos_bound a 4096). lia.
Qed.

Lemma segs_top_ge ss :
  PAGE <= segs_top ss /\
  Forall (λ s, s.(seg_ptr) + page_span s.(seg_len) <= segs_top ss) ss.
Proof.
  induction ss as [|s ss [IH1 IH2]]; simpl; [by split|]. split; [lia|].
  constructor; [lia|]. eapply Forall_impl; [exact IH2|]. simpl. lia.
Qed.

Lemma segs_top_least ss m :
  PAGE <= m -> (forall s, s ∈ ss -> s.(seg_ptr) + page_span s.(seg_len) <= m) -> segs_top ss <= m.
Proof.
  intros Hm. induction ss as [|s ss IH]; simpl; intros H; [done|].
  apply Z.max_lub; [apply H; by left|]. apply IH. intros t Ht. apply H. by right.
Qed.

Lemma page_span_lt len : page_span len < len + PAGE.
Proof.
  unfold page_span. change PAGE with 4096.
  pose proof (Z.div_mod (len + 4096 - 1) 4096). pose proof (Z.mod_pos_bound (len + 4096 - 1) 4096). lia.
Qed.

Lemma segs_bottom_le ss :
  segs_bottom ss <= ADDR_LIMIT / 2 /\ Forall (λ s, segs_bottom ss <= s.(seg_ptr)) ss.
Proof.
  induction ss as [|s ss [IH1 IH2]]; simpl; [by split|]. split; [lia|].
  constructor; [lia|]. eapply Forall_impl; [exact IH2|]. simpl. lia.
Qed.

Program Definition kernel_up : Kernel := {|
    mmap := mmap_up;
    munmap _ _ _ _ := 0;
    errno _ := 12;
  |}.
Next Obligation.
  intros n ss size nr. unfold mmap_up.
  destruct (Z.ltb_spec 0 size); simpl; [|done].
  destruct (Z.leb_spec (page_span (segs_top ss) + page_span size) ADDR_LIMIT); [|done].
  intros _. pose proof (segs_top_ge ss) as [Ht Hs]. change PAGE with 4096 in Ht.
  pose proof (page_span_ge (segs_top ss)).
  split; [done|]. split; [apply page_span_divide|]. split; [lia|]. split; [done|].
  eapply Forall_impl; [exact Hs|]. intros s Hle. right. simpl in Hle. lia.
Qed.
Next Obligation. done. Qed.

Program Definition kernel_down : Kernel := {|
    mmap := mmap_down;
    munmap _ _ _ _ := 0;
    errno _ := 12;
  |}.
Next Obligation.
  intros n ss size nr. unfold mmap_down.
  destruct (Z.ltb_spec 0 size); simpl; [|done].
  destruct (Z.ltb_spec 0 (page_floor (segs_bottom ss - page_span size))); [|done].
  intros _. pose proof (segs_bottom_le ss) as [Hb Hs].
  pose proof (page_floor_le (segs_bottom ss - page_span size)).
  change (ADDR_LIMIT / 2) with (2 ^ 47) in Hb. change ADDR_LIMIT with (2 ^ 48).
  split; [done|]. split; [by eexists|]. split; [done|]. split; [lia|].
  eapply Forall_impl; [exact Hs|]. intros s Hle. left. simpl in Hle. lia.
Qed.
Next Obligation. done. Qed.

(** ** Properties *)

(** C19: for every kernel, the mappings of the process stay page-aligned, inside
    the address space and pairwise disjoint under [allocate], [allocate_massive]
    and [deallocate]; a new mapping has the length that was asked for and reads
    as zeros, and unmapping a live mapping succeeds. *)
Theorem mappings_stay_disjoint {KN : Kernel} o size :
  os_ok o ->
  (exists r o', allocate size o = Ok (r, o') /\ os_ok o' /\
     match r with
     | inl seg => seg.(seg_len) = size /\ Forall (seg_disjoint seg) o.(segs) /\ o'.(segs) = seg :: o.(segs) /\
         forall a, seg.(seg_ptr) <= a < seg.(seg_ptr) + size -> load8 o'.(mem) a = 0
     | inr _ => o'.(segs) = o.(segs) /\ o'.(mem) = o.(mem)
     end) /\
  (exists r o', allocate_massive size o = Ok (r, o') /\ os_ok o') /\
  (forall seg, seg ∈ o.(segs) -> exists o', deallocate seg o = Ok (true, o') /\ os_ok o' /\
     o'.(mem) = o.(mem) /\ forall t, t ∈ o'.(segs) <-> t ∈ o.(segs) /\ t <> seg).
Proof.
  intros Ho. split; [|split].
  - unfold allocate. destruct (map_segment_ok size false o) as (r & o' & Hr). exists r, o'.
    split; [done|]. split; [by eapply map_segment_os_ok|].
    apply map_segment_inv in Hr. destruct r as [seg|[sz e]].
    + destruct Hr as (Hl & Hf & ->). split; [done|]. split; [apply Hf|]. split; [done|].
      intros a Ha. simpl. rewrite load8_zero_range. pose proof (page_span_ge size).
      by rewrite decide_True by lia.
    + by destruct Hr as [_ ->].
  - unfold allocate_massive. destruct (map_segment_ok size true o) as (r & o' & Hr). exists r, o'.
    split; [done|]. by eapply map_segment_os_ok.
  - intros seg Hs. eexists. split; [by apply deallocate_live|]. split.
    + eapply deallocate_os_ok; [done|]. by apply deallocate_live.
    + split; [done|]. intros t. simpl. rewrite list_elem_of_filter. tauto.
Qed.

Lemma mappings_stay_disjoint_witness :
  exists r o', allocate (KN := kernel_up) 5000 os_init = Ok (r, o') /\ os_ok o'.
Proof.
  destruct (proj1 (mappings_stay_disjoint (KN := kernel_up) os_init 5000 os_init_ok)) as (r & o' & H & Ho & _).
  exists r, o'. split; [exact H|exact Ho].
Defined.
