(* ===== verification/Float.v ===== *)
(** * IEEE 754 floats

    The [f32] and [f64] operations that the tuner and the hash map use, over
    the executable floats of the Standard Library: [f32] has 24 bits of
    mantissa and [f64] has 53. *)
From Stdlib Require Import SpecFloat.
From S2P Require Import Prelude.

Definition float : Type := spec_float.

(** [x as f32] / [x as f64] of an integer *)
Definition f32_of_Z (x : Z) : float := binary_normalize 24 128 x 0 false.
Definition f64_of_Z (x : Z) : float := binary_normalize 53 1024 x 0 false.

Definition f32_add (x y : float) : float := SFadd 24 128 x y.
Definition f32_sub (x y : float) : float := SFsub 24 128 x y.
Definition f32_mul (x y : float) : float := SFmul 24 128 x y.
Definition f32_div (x y : float) : float := SFdiv 24 128 x y.
Definition f64_div (x y : float) : float := SFdiv 53 1024 x y.

(** Comparisons; they are false on a NaN. *)
Definition float_ltb (x y : float) : bool := SFltb x y.
Definition float_leb (x y : float) : bool := SFleb x y.

Definition f64_nan : float := S754_nan.
Definition f64_half : float := f64_div (f64_of_Z 1) (f64_of_Z 2).
Definition f32_zero : float := S754_zero false.

(** The integer part towards zero of a finite float, and whether the float
    has a fractional part. *)
Definition trunc_parts (m : positive) (e : Z) : Z * bool :=
  if 0 <=? e then (Zpos m * 2 ^ e, false)
  else (Zpos m / 2 ^ (- e), negb (Zpos m mod 2 ^ (- e) =? 0)).

(** [x.ceil()] *)
Definition f32_ceil (x : float) : float :=
  match x with
  | S754_finite s m e =>
      let '(q, frac) := trunc_parts m e in
      let z := if s then - q else if frac then q + 1 else q in
      binary_normalize 24 128 z 0 s
  | _ => x
  end.

(** [x as usize] and [x as u32]: truncation, saturating at the bounds, 0 for
    a NaN. *)
Definition float_to_uint (max : Z) (x : float) : Z :=
  match x with
  | S754_zero _ | S754_nan => 0
  | S754_infinity s => if s then 0 else max
  | S754_finite s m e => if s then 0 else Z.min max (trunc_parts m e).1
  end.

Definition f32_to_usize (x : float) : Z := float_to_uint USIZE_MAX x.
Definition f32_to_u32 (x : float) : Z := float_to_uint (2 ^ 32 - 1) x.

Lemma float_to_uint_range max x : 0 <= max -> 0 <= float_to_uint max x <= max.
Proof.
  intros Hm. destruct x as [s|s| |s m e]; simpl; try lia; destruct s; try lia.
  unfold trunc_parts. destruct (Z.leb_spec 0 e); simpl.
  - assert (0 < 2 ^ e) by (apply Z.pow_pos_nonneg; lia). nia.
  - assert (0 <= Z.pos m / 2 ^ (- e)); [|lia].
    apply Z.div_pos; [lia|]. apply Z.pow_pos_nonneg; lia.
Qed.
