(* ===== verification/Array.v ===== *)
(** * RawArray, Array and ArrayDeque

    Models [src/src/independent_collections/array.rs].  The element type [T]
    has a size and an alignment; the memory of a segment is the list of its
    element slots, [None] for a slot that was never written.  A read of such a
    slot or an access past the slots is a [Fault].  Whether a mapping of [n]
    bytes can be obtained is decided by [can_map], an oracle for
    [SEGMENT_ALLOCATOR.allocate]; a mapping of 0 bytes never can. *)
From S2P Require Import Prelude MemInfo.

Class Mapping : Type := {
  can_map : Z -> bool;
  can_map_zero : can_map 0 = false;
}.

(** The element type of a collection. *)
Class Layout : Type := {
  size_of : Z;
  align_lg : Z;
  size_of_pos : 0 < size_of < 2 ^ 32;
  align_lg_range : 0 <= align_lg < 32;
  size_of_align : (2 ^ align_lg | size_of);
}.

(** A reference [&T]. *)
Program Definition ref_layout : Layout := {| size_of := 8; align_lg := 3 |}.
  Solve Obligations with (lia || by exists 1).

Section RawArray.
Context {T : Type} {MP : Mapping} {LO : Layout}.

Record RawArray : Type := mkRaw {
  ra_segment : option Z;            (* the length in bytes of the segment *)
  ra_no_dealloc : bool;
  ra_cells : list (option T);
}.

Definition raw_new : RawArray := mkRaw None false [].

(** [capacity]: the length of the segment over the size of an element. *)
Definition raw_capacity (r : RawArray) : Z :=
  match r.(ra_segment) with None => 0 | Some len => len / size_of end.

Definition raw_reserve (r : RawArray) (new_capacity : Z) : result RawArray :=
  if bool_decide (is_Some r.(ra_segment)) && (new_capacity <? raw_capacity r)
  then Ok r
  else
    let initial_size := usize (new_capacity * size_of) in
    let actual_size := align_val initial_size (2 ^ align_lg) in
    if can_map actual_size then
      let slots := Z.to_nat (actual_size / size_of) in
      Ok (mkRaw (Some actual_size) r.(ra_no_dealloc)
            (take slots r.(ra_cells) ++ replicate (slots - length r.(ra_cells)) None))
    else Err (Panic "called `Result::unwrap()` on an `Err` value").

Definition raw_with_capacity (capacity : Z) : result RawArray :=
  raw_reserve raw_new capacity.

Definition raw_clear (r : RawArray) : RawArray :=
  if negb r.(ra_no_dealloc) then mkRaw None r.(ra_no_dealloc) [] else r.

(** [ptr.add(index).write(val)] *)
Definition raw_write (r : RawArray) (index : Z) (val : T) : result RawArray :=
  if (0 <=? index) && (index <? Z.of_nat (length r.(ra_cells)))
  then Ok (mkRaw r.(ra_segment) r.(ra_no_dealloc)
             (<[Z.to_nat index := Some val]> r.(ra_cells)))
  else Err (Fault index).

(** [ptr.add(index).read()] *)
Definition raw_read (r : RawArray) (index : Z) : result T :=
  if 0 <=? index then
    match r.(ra_cells) !! Z.to_nat index with
    | Some (Some v) => Ok v
    | _ => Err (Fault index)
    end
  else Err (Fault index).

(** ** Array *)
Record Array : Type := mkArray {
  arr_size : Z;
  arr_no_dealloc : bool;
  arr_raw : RawArray;
}.

Definition arr_new : Array := mkArray 0 false raw_new.

Definition arr_with_capacity (capacity : Z) : result Array :=
  r ← raw_with_capacity capacity; Ok (mkArray 0 false r).

(** Writing [default()] into the slots [i..]. *)
Fixpoint write_from (r : RawArray) (i : Z) (vals : list T) : result RawArray :=
  match vals with
  | [] => Ok r
  | v :: vals' => r' ← raw_write r i v; write_from r' (i + 1) vals'
  end.

Definition arr_of_size_using (default : T) (size : Z) : result Array :=
  r ← raw_with_capacity size;
  r' ← write_from r 0 (replicate (Z.to_nat size) default);
  Ok (mkArray size false r').

(** [of_size], with the default value of the element type *)
Definition arr_of_size (default : T) (size : Z) : result Array :=
  arr_of_size_using default size.

(** [from_ptr]: [length] slots at a given address, all set to the default; the
  segment's length in bytes is set to [length]. *)
Definition arr_from_ptr (default : T) (length : Z) : result Array :=
  r ← write_from (mkRaw (Some length) true (replicate (Z.to_nat length) None)) 0
        (replicate (Z.to_nat length) default);
  Ok (mkArray length true r).

Definition arr_grow (default : T) (a : Array) (new_size : Z) : result Array :=
  if new_size >? a.(arr_size) then
    r ← raw_reserve a.(arr_raw) new_size;
    r' ← write_from r a.(arr_size)
           (replicate (Z.to_nat (new_size - a.(arr_size))) default);
    Ok (mkArray new_size a.(arr_no_dealloc) r')
  else Ok a.

Definition arr_len (a : Array) : Z := a.(arr_size).
Definition arr_is_empty (a : Array) : bool := arr_len a =? 0.
Definition arr_capacity (a : Array) : Z := raw_capacity a.(arr_raw).

(** [get] *)
Definition arr_get (a : Array) (index : Z) : result (option T) :=
  if index >=? a.(arr_size) then Ok None
  else v ← raw_read a.(arr_raw) index; Ok (Some v).

(** [Index<usize>] *)
Definition arr_index (a : Array) (index : Z) : result T :=
  o ← arr_get a index;
  match o with Some v => Ok v | None => Err (Panic "Array index out of bounds") end.

Definition arr_push (a : Array) (val : T) : result Array :=
  let capacity := raw_capacity a.(arr_raw) in
  r ← (if a.(arr_size) >=? capacity then
         raw_reserve a.(arr_raw)
           (if a.(arr_size) >? 0 then usize (a.(arr_size) * 2) else 1)
       else Ok a.(arr_raw));
  r' ← raw_write r a.(arr_size) val;
  Ok (mkArray (usize (a.(arr_size) + 1)) a.(arr_no_dealloc) r').

Definition arr_pop (a : Array) : result (option T * Array) :=
  if a.(arr_size) =? 0 then Ok (None, a)
  else
    let a' := mkArray (a.(arr_size) - 1) a.(arr_no_dealloc) a.(arr_raw) in
    v ← raw_read a'.(arr_raw) a'.(arr_size);
    Ok (Some v, a').

Definition arr_clear (a : Array) : Array :=
  mkArray 0 a.(arr_no_dealloc) (raw_clear a.(arr_raw)).

(** [swap]: replaces a value and returns the old one *)
Definition arr_swap (a : Array) (index : Z) (val : T) : result (option T * Array) :=
  if index >=? a.(arr_size) then Ok (None, a)
  else
    ret ← arr_index a index;
    r ← raw_write a.(arr_raw) index val;
    Ok (Some ret, mkArray a.(arr_size) a.(arr_no_dealloc) r).

(** [self.pop().unwrap()], [n] times, pushed onto [saved] *)
Fixpoint pop_into (n : nat) (a saved : Array) : result (Array * Array) :=
  match n with
  | O => Ok (a, saved)
  | S n' =>
      '(o, a') ← arr_pop a;
      match o with
      | None => Err (Panic "called `Option::unwrap()` on a `None` value")
      | Some v => saved' ← arr_push saved v; pop_into n' a' saved'
      end
  end.

(** The slice [&self[..]]: the elements in order. *)
Definition arr_deref (a : Array) : result (list T) :=
  match a.(arr_raw).(ra_segment) with
  | None => Ok []
  | Some _ => mapR (raw_read a.(arr_raw)) (range 0 a.(arr_size))
  end.

(** [extend]: pushing the elements of an iterator *)
Fixpoint push_all (a : Array) (vals : list T) : result Array :=
  match vals with
  | [] => Ok a
  | v :: vals' => a' ← arr_push a v; push_all a' vals'
  end.

(** [FromIterator] *)
Definition arr_from_iter (vals : list T) : result Array := push_all arr_new vals.

Definition arr_remove (a : Array) (index : Z) : result (option T * Array) :=
  if index >=? a.(arr_size) then Ok (None, a)
  else
    let pre_pops := arr_len a - index - 1 in
    '(a1, saved) ← pop_into (Z.to_nat pre_pops) a arr_new;
    '(ret, a2) ← arr_pop a1;
    vals ← arr_deref saved;
    a3 ← push_all a2 (rev vals);
    Ok (ret, a3).

End RawArray.

Arguments RawArray : clear implicits.
Arguments Array : clear implicits.

Section Iterators.
Context {T : Type} {MP : Mapping} {LO : Layout}.

(** [iter()]: a reference to [self[i]] for each index, pushed onto a new
  array of references. *)
Definition arr_iter (a : Array T) : result (list T) :=
  vals ← mapR (arr_index a) (range 0 a.(arr_size));
  b ← push_all (LO := ref_layout) arr_new vals; arr_deref b.

(** [Clone] *)
Definition arr_clone (a : Array T) : result (Array T) :=
  vals ← arr_iter a; arr_from_iter vals.

(** [PartialEq] *)
Fixpoint iter_eq (eqb : T -> T -> bool) (l1 l2 : list T) : bool :=
  match l1, l2 with
  | [], _ | _, [] => true
  | x :: l1', y :: l2' => if negb (eqb x y) then false else iter_eq eqb l1' l2'
  end.

Definition arr_eq (eqb : T -> T -> bool) (a b : Array T) : result bool :=
  if negb (arr_len a =? arr_len b) then Ok false
  else l1 ← arr_iter a; l2 ← arr_iter b; Ok (iter_eq eqb l1 l2).

(** [IntoIterator for &Array]: an array of the length's capacity is filled. *)
Definition arr_into_iter_ref (a : Array T) : result (list T) :=
  out ← raw_with_capacity (LO := ref_layout) (arr_len a);
  vals ← mapR (arr_index a) (range 0 (arr_len a));
  b ← push_all (LO := ref_layout) (mkArray 0 false out) vals; arr_deref b.

(** [get_mut], [IndexMut<usize>] and [get_byte_mut]: the client applies [f] to
  the element that the reference points to. *)
Definition arr_get_mut (a : Array T) (index : Z) (f : T -> T) : result (option T * Array T) :=
  if index >=? a.(arr_size) then Ok (None, a)
  else
    v ← raw_read a.(arr_raw) index;
    r ← raw_write a.(arr_raw) index (f v);
    Ok (Some v, mkArray a.(arr_size) a.(arr_no_dealloc) r).

Definition arr_index_mut (a : Array T) (index : Z) (f : T -> T) : result (Array T) :=
  '(o, a') ← arr_get_mut a index f;
  match o with Some _ => Ok a' | None => Err (Panic "Array index out of bounds") end.

(** [Index<RangeFrom<usize>>] and [Index<RangeTo<usize>>]: [&self[n..]] and
  [&self[..n]] *)
Definition arr_range_from (a : Array T) (n : Z) : result (list T) :=
  l ← arr_deref a;
  if n >? Z.of_nat (length l) then Err (Panic "slice index starts past the end")
  else Ok (drop (Z.to_nat n) l).

Definition arr_range_to (a : Array T) (n : Z) : result (list T) :=
  l ← arr_deref a;
  if n >? Z.of_nat (length l) then Err (Panic "slice index ends past the end")
  else Ok (take (Z.to_nat n) l).

(** [DerefMut], [IndexMut<RangeFrom<usize>>] and [IndexMut<RangeTo<usize>>]: the
  client changes the elements of the slice to [f] of them, and cannot change
  its length. *)
Definition arr_deref_mut (a : Array T) (f : list T -> list T) : result (Array T) :=
  l ← arr_deref a;
  r ← write_from a.(arr_raw) 0 (f l);
  Ok (mkArray a.(arr_size) a.(arr_no_dealloc) r).

Definition arr_range_from_mut (a : Array T) (n : Z) (f : list T -> list T) : result (Array T) :=
  l ← arr_range_from a n;
  r ← write_from a.(arr_raw) n (f l);
  Ok (mkArray a.(arr_size) a.(arr_no_dealloc) r).

Definition arr_range_to_mut (a : Array T) (n : Z) (f : list T -> list T) : result (Array T) :=
  l ← arr_range_to a n;
  r ← write_from a.(arr_raw) 0 (f l);
  Ok (mkArray a.(arr_size) a.(arr_no_dealloc) r).

(** [Default] and the macro [array!] *)
Definition arr_default : Array T := arr_new.
Definition array_macro (vals : list T) : result (Array T) := push_all arr_new vals.

(** [Drop]: the elements are dropped and the segment is forgotten. *)
Definition arr_drop (a : Array T) : Array T :=
  if negb a.(arr_no_dealloc) then arr_clear a else a.

(** [IntoIterator for Array<T>] *)
Record ArrayIterator : Type := mkIter { it_index : Z; it_array : Array T }.

Definition arr_into_iter (a : Array T) : ArrayIterator := mkIter 0 a.

Definition it_next (it : ArrayIterator) : result (option T * ArrayIterator) :=
  if it.(it_index) >=? arr_len it.(it_array) then Ok (None, it)
  else
    v ← arr_index it.(it_array) it.(it_index);
    Ok (Some v, mkIter (it.(it_index) + 1) it.(it_array)).

(** A [for] loop over an iterator: the elements it gives in [n] turns. *)
Fixpoint it_take (n : nat) (it : ArrayIterator) : result (list T) :=
  match n with
  | O => Ok []
  | S n' =>
      '(o, it') ← it_next it;
      match o with None => Ok [] | Some v => vs ← it_take n' it'; Ok (v :: vs) end
  end.
End Iterators.

(** ** ArrayDeque *)
Section Deque.
Context {T : Type} {MP : Mapping} {LO : Layout}.

Record ArrayDeque : Type := mkDeque {
  dq_raw : RawArray T;
  dq_start : Z;
  dq_end : Z;
}.

Definition dq_new : ArrayDeque := mkDeque raw_new 0 0.

Definition dq_with_capacity (capacity : Z) : result ArrayDeque :=
  r ← raw_with_capacity capacity; Ok (mkDeque r 0 0).

Definition dq_capacity (d : ArrayDeque) : Z := raw_capacity d.(dq_raw).
Definition dq_len (d : ArrayDeque) : Z := usize (d.(dq_end) - d.(dq_start)).
Definition dq_is_empty (d : ArrayDeque) : bool := d.(dq_start) =? d.(dq_end).

Definition dq_grow_back (d : ArrayDeque) : result ArrayDeque :=
  let capacity := usize (raw_capacity d.(dq_raw) * 2) in
  r ← raw_reserve d.(dq_raw) (if capacity =? 0 then 1 else capacity);
  Ok (mkDeque r d.(dq_start) d.(dq_end)).

(** [copy_nonoverlapping(ptr, ptr.add(n), n)] over the slots *)
Definition copy_cells_up (cells : list (option T)) (n : nat) : result (list (option T)) :=
  if (2 * n <=? length cells)%nat
  then Ok (take n cells ++ take n cells ++ drop (2 * n) cells)
  else Err (Fault (Z.of_nat n)).

Definition dq_grow_front (d : ArrayDeque) : result ArrayDeque :=
  let old_capacity := raw_capacity d.(dq_raw) in
  d' ← dq_grow_back d;
  cells ← copy_cells_up d'.(dq_raw).(ra_cells) (Z.to_nat old_capacity);
  Ok (mkDeque (mkRaw d'.(dq_raw).(ra_segment) d'.(dq_raw).(ra_no_dealloc) cells)
        old_capacity (usize (d'.(dq_end) + old_capacity))).

Definition dq_push_back (d : ArrayDeque) (val : T) : result ArrayDeque :=
  d' ← (if d.(dq_end) =? dq_capacity d then dq_grow_back d else Ok d);
  r ← raw_write d'.(dq_raw) d'.(dq_end) val;
  Ok (mkDeque r d'.(dq_start) (usize (d'.(dq_end) + 1))).

Definition dq_push_front (d : ArrayDeque) (val : T) : result ArrayDeque :=
  if dq_len d =? 0 then dq_push_back d val
  else
    d' ← (if d.(dq_start) =? 0 then dq_grow_front d else Ok d);
    let start := d'.(dq_start) - 1 in
    r ← raw_write d'.(dq_raw) start val;
    Ok (mkDeque r start d'.(dq_end)).

(** The indices go back to the middle when the queue gets empty. *)
Definition dq_recenter (d : ArrayDeque) : ArrayDeque :=
  if d.(dq_start) =? d.(dq_end)
  then mkDeque d.(dq_raw) (dq_capacity d / 2) (dq_capacity d / 2)
  else d.

Definition dq_pop_front (d : ArrayDeque) : result (option T * ArrayDeque) :=
  if dq_is_empty d then Ok (None, d)
  else
    v ← raw_read d.(dq_raw) d.(dq_start);
    Ok (Some v, dq_recenter (mkDeque d.(dq_raw) (d.(dq_start) + 1) d.(dq_end))).

(** [pop_back] reads the slot [end] points to, then decrements [end]. *)
Definition dq_pop_back (d : ArrayDeque) : result (option T * ArrayDeque) :=
  if dq_is_empty d then Ok (None, d)
  else
    v ← raw_read d.(dq_raw) d.(dq_end);
    Ok (Some v, dq_recenter (mkDeque d.(dq_raw) d.(dq_start) (d.(dq_end) - 1))).

(** The slice the queue derefs to. *)
Definition dq_deref (d : ArrayDeque) : result (list T) :=
  match d.(dq_raw).(ra_segment) with
  | None => Ok []
  | Some _ => mapR (raw_read d.(dq_raw))
                   (range d.(dq_start) (d.(dq_start) + dq_len d))
  end.

Definition dq_deref_mut (d : ArrayDeque) (f : list T -> list T) : result ArrayDeque :=
  l ← dq_deref d;
  r ← write_from d.(dq_raw) d.(dq_start) (f l);
  Ok (mkDeque r d.(dq_start) d.(dq_end)).

Definition dq_iter (d : ArrayDeque) : result (list T) := dq_deref d.

(** [PartialEq] *)
Definition dq_eq (eqb : T -> T -> bool) (d e : ArrayDeque) : result bool :=
  if negb (dq_len d =? dq_len e) then Ok false
  else l1 ← dq_iter d; l2 ← dq_iter e; Ok (iter_eq eqb l1 l2).

(** [From<Array<T>>] *)
Definition dq_from_array (a : Array T) : ArrayDeque :=
  mkDeque a.(arr_raw) 0 (usize (arr_len a - 1)).

(** [FromIterator] *)
Definition dq_from_iter (vals : list T) : result ArrayDeque :=
  a ← arr_from_iter vals; Ok (dq_from_array a).

(** [Clone] *)
Definition dq_clone (d : ArrayDeque) : result ArrayDeque :=
  vals ← dq_deref d; dq_from_iter vals.
End Deque.

Arguments ArrayDeque : clear implicits.

(** ** Bits of an [Array<u8>] *)
Section Bits.
Context {MP : Mapping} {LO : Layout}.

(** The pair ([bit_index % 8], [bit_index as u8 / 8]). *)
Definition byte_index (bit_index : Z) : Z * Z := (bit_index mod 8, u8 bit_index / 8).

(** [1u8 << index]; the release profile masks the amount to 3 bits. *)
Definition bit_mask (index : Z) : Z := u8 (Z.shiftl 1 (index mod 8)).

Definition get_byte (a : Array Z) (index : Z) : result (option Z) := arr_get a index.
Definition get_byte_mut (a : Array Z) (index : Z) (f : Z -> Z) : result (option Z * Array Z) :=
  arr_get_mut a index f.

Definition get_bit (a : Array Z) (bit_index : Z) : result (option bool) :=
  let '(byte, bit) := byte_index bit_index in
  o ← get_byte a byte;
  Ok (match o with
      | None => None
      | Some b => Some (negb (Z.land b (bit_mask bit) =? 0))
      end).

Definition set_bit (a : Array Z) (bit_index : Z) (v : bool) : result (Array Z) :=
  let '(byte, bit) := byte_index bit_index in
  let mask := 255 - bit_mask bit in
  let shifted := u8 (Z.shiftl (Z.b2z v) (bit mod 8)) in
  '(o, a') ← get_byte_mut a byte (λ b, Z.lor (Z.land b mask) shifted);
  match o with
  | None => Err (Panic "Index out of bounds")
  | Some _ => Ok a'
  end.
End Bits.

(** ** Representation of lists

    [arr_repr a l]: the first slots of the array hold [l].
    [dq_repr d l]: the slots from [start] to [end] hold [l]. *)
Section Repr.
Context {T : Type} {MP : Mapping}.

Definition raw_wf {LO : Layout} (r : RawArray T) : Prop :=
  Z.of_nat (length r.(ra_cells)) = raw_capacity r.

Definition arr_repr {LO : Layout} (a : Array T) (l : list T) : Prop :=
  raw_wf a.(arr_raw) /\ a.(arr_size) = Z.of_nat (length l) /\
  exists rest, a.(arr_raw).(ra_cells) = (Some <$> l) ++ rest.

Definition dq_repr {LO : Layout} (d : ArrayDeque T) (l : list T) : Prop :=
  raw_wf d.(dq_raw) /\ d.(dq_end) = d.(dq_start) + Z.of_nat (length l) /\
  exists pre post, d.(dq_raw).(ra_cells) = pre ++ (Some <$> l) ++ post /\
    d.(dq_start) = Z.of_nat (length pre).

(** Mappings of up to [n] bytes can be obtained. *)
Definition memory_upto (n : Z) : Prop := forall k, 0 < k <= n -> can_map k = true.

Section Facts.
Context {LO : Layout}.

Lemma actual_size n :
  0 <= n -> n * size_of < 2 ^ 62 ->
  align_val (usize (n * size_of)) (2 ^ align_lg) = n * size_of.
Proof.
  intros Hn Hb. destruct size_of_pos. pose proof align_lg_range as Hl.
  assert (2 ^ align_lg <= 2 ^ 32) by (apply Z.pow_le_mono_r; lia).
  assert (0 < 2 ^ align_lg) by (apply Z.pow_pos_nonneg; lia).
  rewrite usize_small by nia.
  apply (rounds_up_to_unique (2 ^ align_lg) (n * size_of)); [lia|..].
  - apply align_val_spec; nia.
  - split; [|lia]. apply Z.divide_mul_r, size_of_align.
Qed.

(** A [reserve] that maps memory keeps the old slots and adds fresh ones. *)
Lemma raw_reserve_grows r n :
  raw_wf r -> raw_capacity r <= n -> 0 < n -> n * size_of < 2 ^ 62 ->
  can_map (n * size_of) = true ->
  exists r', raw_reserve r n = Ok r' /\ raw_wf r' /\ raw_capacity r' = n /\
    r'.(ra_no_dealloc) = r.(ra_no_dealloc) /\
    r'.(ra_cells) = r.(ra_cells) ++ replicate (Z.to_nat n - length r.(ra_cells)) None.
Proof.
  intros Hwf Hcap Hn Hb Hmap. unfold raw_reserve. destruct size_of_pos.
  destruct (Z.ltb_spec n (raw_capacity r)); [lia|]. rewrite andb_false_r.
  rewrite actual_size, Hmap by lia. rewrite Z.div_mul by lia.
  unfold raw_wf in Hwf. rewrite take_ge by lia.
  eexists. split; [done|]. unfold raw_wf, raw_capacity; simpl.
  rewrite Z.div_mul, length_app, length_replicate by lia. split_and!; [lia|done..].
Qed.

Lemma raw_read_at r i v :
  0 <= i -> r.(ra_cells) !! Z.to_nat i = Some (Some v) -> raw_read r i = Ok (v : T).
Proof.
  intros Hi H. unfold raw_read. rewrite (proj2 (Z.leb_le 0 i)) by lia. by rewrite H.
Qed.

Lemma raw_write_at r i (v : T) :
  0 <= i < Z.of_nat (length r.(ra_cells)) ->
  raw_write r i v = Ok (mkRaw r.(ra_segment) r.(ra_no_dealloc)
                          (<[Z.to_nat i := Some v]> r.(ra_cells))).
Proof.
  intros [H1 H2]. unfold raw_write.
  by rewrite (proj2 (Z.leb_le 0 i)), (proj2 (Z.ltb_lt i _)) by lia.
Qed.

Lemma raw_wf_write r i (v : T) :
  raw_wf r ->
  raw_wf (mkRaw r.(ra_segment) r.(ra_no_dealloc) (<[i := Some v]> r.(ra_cells))).
Proof. unfold raw_wf, raw_capacity. simpl. by rewrite length_insert. Qed.

(** Writing the slot after a filled prefix. *)
Lemma insert_after (l : list T) (rest : list (option T)) v :
  rest <> [] ->
  exists rest', <[length l := Some v]> ((Some <$> l) ++ rest) = (Some <$> (l ++ [v])) ++ rest'.
Proof.
  intros Hne. destruct rest as [|x rest]; [done|]. exists rest.
  rewrite fmap_app. simpl. rewrite <- (length_fmap Some l).
  rewrite insert_app_r_alt by lia. rewrite Nat.sub_diag. by rewrite <- app_assoc.
Qed.

Lemma arr_new_repr : arr_repr arr_new [].
Proof. split; [done|]. split; [done|]. by exists []. Qed.

Lemma arr_repr_index a l i v :
  arr_repr a l -> l !! i = Some v -> arr_index a (Z.of_nat i) = Ok v.
Proof.
  intros (Hwf & Hs & rest & Hc) Hi. unfold arr_index, arr_get.
  pose proof (lookup_lt_Some _ _ _ Hi).
  destruct (Z.geb_spec (Z.of_nat i) (arr_size a)); [lia|].
  rewrite (raw_read_at _ _ v); [done|lia|].
  rewrite Nat2Z.id, Hc. apply lookup_app_l_Some. by rewrite list_lookup_fmap, Hi.
Qed.

Lemma arr_get_repr a l i :
  arr_repr a l -> arr_get a (Z.of_nat i) = Ok (l !! i).
Proof.
  intros Hr. destruct (l !! i) as [v|] eqn:E.
  - apply (arr_repr_index _ _ _ _ Hr) in E. unfold arr_index in E.
    destruct (arr_get a (Z.of_nat i)) as [[w|]|]; simpl in E; by simplify_eq.
  - destruct Hr as (_ & Hs & _). apply lookup_ge_None in E. unfold arr_get.
    by destruct (Z.geb_spec (Z.of_nat i) (arr_size a)); [|lia].
Qed.

Lemma arr_push_repr a l v :
  arr_repr a l -> 2 * (Z.of_nat (length l) + 1) * size_of < 2 ^ 62 ->
  memory_upto (2 * (Z.of_nat (length l) + 1) * size_of) ->
  exists a', arr_push a v = Ok a' /\ arr_repr a' (l ++ [v]).
Proof.
  intros (Hwf & Hs & rest & Hc) Hb Hmem. unfold arr_push. destruct size_of_pos.
  assert (Hr : exists r rest',
    (if arr_size a >=? raw_capacity (arr_raw a) then
       raw_reserve (arr_raw a) (if arr_size a >? 0 then usize (arr_size a * 2) else 1)
     else Ok (arr_raw a)) = Ok r /\ raw_wf r /\
    ra_cells r = (Some <$> l) ++ rest' /\ rest' <> []).
  { destruct (Z.geb_spec (arr_size a) (raw_capacity (arr_raw a))).
    - set (n := if arr_size a >? 0 then usize (arr_size a * 2) else 1).
      assert (Hn : n = if arr_size a >? 0 then arr_size a * 2 else 1).
      { unfold n. destruct (arr_size a >? 0); [|done]. rewrite usize_small; nia. }
      assert (Hcells : Z.of_nat (length (ra_cells (arr_raw a))) = arr_size a).
      { unfold raw_wf in Hwf. rewrite Hc, length_app, length_fmap in Hwf |- *. lia. }
      assert (arr_size a < n <= 2 * (arr_size a + 1)).
      { rewrite Hn. destruct (Z.gtb_spec (arr_size a) 0); lia. }
      destruct (raw_reserve_grows (arr_raw a) n) as (r & -> & Hr & _ & _ & Hcr);
        [done|lia|lia|nia|apply Hmem; nia|].
      exists r, (rest ++ replicate (Z.to_nat n - length (ra_cells (arr_raw a))) None).
      split_and!; [done|done|by rewrite Hcr, Hc, <- app_assoc|].
      intros [_ Hnil]%app_eq_nil. apply (f_equal length) in Hnil.
      rewrite length_replicate in Hnil. simpl in Hnil. lia.
    - exists (arr_raw a), rest. split_and!; try done. intros ->.
      unfold raw_wf in Hwf. rewrite Hc, app_nil_r, length_fmap in Hwf. lia. }
  destruct Hr as (r & rest' & -> & Hr & Hcr & Hne). simpl.
  rewrite Hs in *. rewrite raw_write_at.
  2:{ rewrite Hcr, length_app, length_fmap. destruct rest'; simpl; [done|lia]. }
  simpl. eexists. split; [done|]. split; [by apply raw_wf_write|]. simpl. split.
  - rewrite usize_small, length_app by nia. simpl. lia.
  - rewrite Nat2Z.id, Hcr. by apply insert_after.
Qed.

Lemma arr_pop_repr a l v :
  arr_repr a (l ++ [v]) -> exists a', arr_pop a = Ok (Some v, a') /\ arr_repr a' l.
Proof.
  intros (Hwf & Hs & rest & Hc). unfold arr_pop. rewrite length_app in Hs. simpl in Hs.
  destruct (Z.eqb_spec (arr_size a) 0); [lia|]. simpl.
  rewrite (raw_read_at _ _ v); [|lia|].
  - simpl. eexists. split; [done|]. split; [done|]. split; [simpl; lia|].
    exists (Some v :: rest). simpl. by rewrite Hc, fmap_app, <- app_assoc.
  - replace (Z.to_nat (arr_size a - 1)) with (length l) by lia. rewrite Hc.
    rewrite fmap_app, <- app_assoc, <- (length_fmap Some l).
    by rewrite lookup_app_r, Nat.sub_diag by lia.
Qed.

Lemma arr_pop_empty a : arr_repr a [] -> arr_pop a = Ok (None, a).
Proof. intros (_ & Hs & _). unfold arr_pop. by rewrite Hs. Qed.

Lemma push_all_repr vals : forall a l,
  arr_repr a l -> 2 * (Z.of_nat (length l + length vals)) * size_of < 2 ^ 62 ->
  memory_upto (2 * (Z.of_nat (length l + length vals)) * size_of) ->
  exists a', push_all a vals = Ok a' /\ arr_repr a' (l ++ vals).
Proof.
  destruct size_of_pos.
  induction vals as [|v vals IH]; intros a l Hr Hb Hmem; simpl.
  { exists a. by rewrite app_nil_r. }
  simpl in Hb, Hmem.
  destruct (arr_push_repr a l v Hr) as (a1 & -> & Hr1); [nia|intros k Hk; apply Hmem; nia|].
  simpl. destruct (IH a1 (l ++ [v]) Hr1) as (a2 & -> & Hr2).
  { rewrite length_app. simpl. nia. }
  { rewrite length_app. simpl. intros k Hk. apply Hmem. nia. }
  exists a2. by rewrite <- app_assoc in Hr2.
Qed.

Lemma mapR_index_range a l : forall k pre,
  arr_repr a (pre ++ l) -> Z.of_nat (length pre) = k ->
  mapR (arr_index a) (range k (k + Z.of_nat (length l))) = Ok l.
Proof.
  induction l as [|v l IH]; intros k pre Hr Hk.
  { by rewrite range_nil by (simpl; lia). }
  replace (k + Z.of_nat (length (v :: l))) with (k + 1 + Z.of_nat (length l)) by (simpl; lia).
  rewrite range_cons by lia. simpl mapR.
  assert (arr_index a k = Ok v) as ->.
  { rewrite <- Hk. apply (arr_repr_index a (pre ++ v :: l) (length pre) v Hr).
    by rewrite lookup_app_r, Nat.sub_diag by lia. }
  simpl. rewrite (IH (k + 1) (pre ++ [v])); [done| |rewrite length_app; simpl; lia].
  by rewrite <- app_assoc.
Qed.

Lemma mapR_ext {A B} (f g : A -> result B) l :
  (forall x, x ∈ l -> f x = g x) -> mapR f l = mapR g l.
Proof.
  induction l as [|x l IH]; intros H; [done|]. simpl.
  rewrite (H x) by (left). by rewrite IH by (intros; apply H; by right).
Qed.

Lemma arr_deref_repr a l : arr_repr a l -> arr_deref a = Ok l.
Proof.
  intros Hr. pose proof Hr as (Hwf & Hs & rest & Hc). unfold arr_deref.
  destruct (ra_segment (arr_raw a)) eqn:E.
  - rewrite (mapR_ext _ (arr_index a)).
    + rewrite Hs. by apply (mapR_index_range a l 0 []).
    + intros i Hi%elem_of_range. unfold arr_index, arr_get.
      destruct (Z.geb_spec i (arr_size a)); [lia|]. by destruct (raw_read _ _).
  - unfold raw_wf, raw_capacity in Hwf. rewrite E, Hc, length_app, length_fmap in Hwf.
    by destruct l; [|simpl in Hwf; lia].
Qed.

Lemma arr_swap_repr a l i v :
  arr_repr a l ->
  exists a', arr_swap a (Z.of_nat i) v = Ok (l !! i, a') /\ arr_repr a' (<[i := v]> l).
Proof.
  intros Hr. pose proof Hr as (Hwf & Hs & rest & Hc). unfold arr_swap.
  destruct (Z.geb_spec (Z.of_nat i) (arr_size a)).
  { exists a. rewrite lookup_ge_None_2, list_insert_ge by lia. done. }
  destruct (lookup_lt_is_Some_2 l i) as [w Hw]; [lia|].
  rewrite (arr_repr_index a l i w Hr Hw). simpl.
  rewrite raw_write_at.
  2:{ rewrite Hc, length_app, length_fmap. lia. }
  simpl. eexists. rewrite Hw. split; [done|]. split; [by apply raw_wf_write|]. simpl.
  rewrite length_insert. split; [done|]. exists rest.
  rewrite Nat2Z.id, Hc, insert_app_l by (rewrite length_fmap; lia).
  by rewrite list_fmap_insert.
Qed.

Lemma pop_into_repr n : forall a saved l t s,
  length t = n -> arr_repr a (l ++ t) -> arr_repr saved s ->
  2 * (Z.of_nat (length s + n)) * size_of < 2 ^ 62 ->
  memory_upto (2 * (Z.of_nat (length s + n)) * size_of) ->
  exists a' saved', pop_into n a saved = Ok (a', saved') /\
    arr_repr a' l /\ arr_repr saved' (s ++ rev t).
Proof.
  destruct size_of_pos.
  induction n as [|n IH]; intros a saved l t s Ht Ha Hs Hb Hmem.
  { destruct t; [|done]. simpl. exists a, saved. by rewrite !app_nil_r in *. }
  destruct t as [|v t _] using rev_ind; [done|]. rewrite length_app in Ht. simpl in Ht.
  rewrite app_assoc in Ha. destruct (arr_pop_repr _ _ _ Ha) as (a1 & Hp & Ha1).
  simpl pop_into. rewrite Hp. simpl.
  destruct (arr_push_repr saved s v Hs) as (s1 & -> & Hs1); [nia|intros k Hk; apply Hmem; nia|].
  simpl. destruct (IH a1 s1 l t (s ++ [v])) as (a2 & s2 & -> & Ha2 & Hs2).
  { lia. } { done. } { done. }
  { rewrite length_app. simpl. nia. }
  { rewrite length_app. simpl. intros k Hk. apply Hmem. nia. }
  exists a2, s2. rewrite rev_app_distr. by rewrite <- app_assoc in Hs2.
Qed.

Lemma arr_remove_repr a l i :
  arr_repr a l -> 2 * (Z.of_nat (length l)) * size_of < 2 ^ 62 ->
  memory_upto (2 * (Z.of_nat (length l)) * size_of) ->
  exists a', arr_remove a (Z.of_nat i) = Ok (l !! i, a') /\ arr_repr a' (delete i l).
Proof.
  intros Hr Hb Hmem. pose proof Hr as (Hwf & Hs & _). unfold arr_remove.
  destruct (Z.geb_spec (Z.of_nat i) (arr_size a)).
  { exists a. rewrite lookup_ge_None_2, delete_past by lia. done. }
  destruct (lookup_lt_is_Some_2 l i) as [v Hv]; [lia|].
  apply lookup_split in Hv as (l1 & l2 & -> & ->).
  rewrite length_app in *. simpl in *.
  replace (Z.to_nat (arr_len a - Z.of_nat (length l1) - 1)) with (length l2)
    by (unfold arr_len; lia).
  change (v :: l2) with ([v] ++ l2) in Hr. rewrite app_assoc in Hr.
  destruct size_of_pos.
  destruct (pop_into_repr (length l2) a arr_new (l1 ++ [v]) l2 [])
    as (a1 & sv & -> & Ha1 & Hsv).
  { done. } { done. } { apply arr_new_repr. } { simpl. nia. }
  { simpl. intros k Hk. apply Hmem. nia. }
  simpl. destruct (arr_pop_repr _ _ _ Ha1) as (a2 & -> & Ha2). simpl.
  rewrite (arr_deref_repr _ _ Hsv). simpl. rewrite rev_involutive.
  destruct (push_all_repr l2 a2 l1 Ha2) as (a3 & -> & Ha3); [nia|intros k Hk; apply Hmem; nia|].
  exists a3. rewrite lookup_app_r, Nat.sub_diag by lia. simpl.
  by rewrite delete_middle.
Qed.

End Facts.
End Repr.

(** ** Refinement: an array behaves as a list *)
Section Refinement.
Context {T : Type} {MP : Mapping} {LO : Layout}.

Inductive ArrOp : Type :=
  | OPush (v : T) | OPop | ORemove (i : nat) | OSwap (i : nat) (v : T) | OGet (i : nat).

Definition arr_exec (a : Array T) (op : ArrOp) : result (option T * Array T) :=
  match op with
  | OPush v => a' ← arr_push a v; Ok (None, a')
  | OPop => arr_pop a
  | ORemove i => arr_remove a (Z.of_nat i)
  | OSwap i v => arr_swap a (Z.of_nat i) v
  | OGet i => o ← arr_get a (Z.of_nat i); Ok (o, a)
  end.

Fixpoint arr_run (a : Array T) (ops : list ArrOp) : result (list (option T) * Array T) :=
  match ops with
  | [] => Ok ([], a)
  | op :: ops' => '(o, a1) ← arr_exec a op; '(os, a2) ← arr_run a1 ops'; Ok (o :: os, a2)
  end.

(** The specification: the same operations on a list. *)
Definition list_exec (l : list T) (op : ArrOp) : option T * list T :=
  match op with
  | OPush v => (None, l ++ [v])
  | OPop => (last l, take (length l - 1) l)
  | ORemove i => (l !! i, delete i l)
  | OSwap i v => (l !! i, <[i := v]> l)
  | OGet i => (l !! i, l)
  end.

Fixpoint list_run (l : list T) (ops : list ArrOp) : list (option T) * list T :=
  match ops with
  | [] => ([], l)
  | op :: ops' => let '(o, l1) := list_exec l op in
                  let '(os, l2) := list_run l1 ops' in (o :: os, l2)
  end.

Lemma arr_exec_refines a l op :
  arr_repr a l -> 2 * (Z.of_nat (length l) + 1) * size_of < 2 ^ 62 ->
  memory_upto (2 * (Z.of_nat (length l) + 1) * size_of) ->
  exists a', arr_exec a op = Ok ((list_exec l op).1, a') /\
    arr_repr a' (list_exec l op).2.
Proof.
  intros Hr Hb Hmem. destruct size_of_pos. destruct op as [v| |i|i v|i]; simpl.
  - destruct (arr_push_repr a l v Hr Hb Hmem) as (a' & -> & Ha'). by exists a'.
  - destruct l as [|v l _] using rev_ind.
    + exists a. by rewrite arr_pop_empty.
    + destruct (arr_pop_repr a l v Hr) as (a' & -> & Ha'). exists a'.
      rewrite last_snoc, length_app. simpl.
      by rewrite Nat.add_sub, take_app_length.
  - apply arr_remove_repr; [done|nia|intros k Hk; apply Hmem; nia].
  - by apply arr_swap_repr.
  - exists a. by rewrite (arr_get_repr a l i Hr).
Qed.

Lemma list_exec_length l op : (length (list_exec l op).2 <= S (length l))%nat.
Proof.
  destruct op; simpl; rewrite ?length_app, ?length_take, ?length_insert; simpl; try lia.
  destruct (decide (i < length l)%nat).
  - rewrite length_delete by (by apply lookup_lt_is_Some_2). lia.
  - rewrite delete_past; lia.
Qed.

Lemma arr_run_repr ops : forall a l,
  arr_repr a l ->
  2 * (Z.of_nat (length l + length ops) + 1) * size_of < 2 ^ 62 ->
  memory_upto (2 * (Z.of_nat (length l + length ops) + 1) * size_of) ->
  exists a', arr_run a ops = Ok ((list_run l ops).1, a') /\
    arr_repr a' (list_run l ops).2.
Proof.
  destruct size_of_pos.
  induction ops as [|op ops IH]; intros a l Hr Hb Hmem; simpl; [by exists a|].
  simpl in Hb, Hmem.
  destruct (arr_exec_refines a l op Hr) as (a1 & -> & Hr1); [nia|intros k Hk; apply Hmem; nia|].
  pose proof (list_exec_length l op) as Hlen.
  destruct (list_exec l op) as [o l1]. simpl in *.
  destruct (IH a1 l1 Hr1) as (a2 & -> & Hr2); [nia|intros k Hk; apply Hmem; nia|].
  destruct (list_run l1 ops) as [os l2]. simpl in *. by exists a2.
Qed.

(** [iter] visits the elements in order. *)
Lemma arr_iter_repr (a : Array T) l :
  arr_repr a l -> 2 * Z.of_nat (length l) * 8 < 2 ^ 62 ->
  memory_upto (2 * Z.of_nat (length l) * 8) -> arr_iter a = Ok l.
Proof.
  intros Hr Hb Hmem. pose proof Hr as (_ & Hs & _). unfold arr_iter. rewrite Hs.
  change (Z.of_nat (length l)) with (0 + Z.of_nat (length l)).
  rewrite (mapR_index_range a l 0 []) by done. simpl.
  destruct (push_all_repr (LO := ref_layout) l arr_new []) as (b & -> & Hb');
    [apply arr_new_repr|done..|]. simpl.
  by apply (arr_deref_repr (LO := ref_layout)).
Qed.

(** The loop of [eq] compares lists of the same length element by element. *)
Lemma iter_eq_spec (eqb : T -> T -> bool) l1 l2 :
  length l1 = length l2 ->
  iter_eq eqb l1 l2 = true <-> Forall2 (λ x y, eqb x y = true) l1 l2.
Proof.
  revert l2. induction l1 as [|x l1 IH]; intros [|y l2] Hl; simpl in *; try done.
  rewrite Forall2_cons. destruct (eqb x y) eqn:E; simpl; [|naive_solver].
  rewrite IH by lia. naive_solver.
Qed.

Lemma it_take_repr (a : Array T) l k :
  arr_repr a l -> forall n, (length l < n + k)%nat ->
  it_take n (mkIter (Z.of_nat k) a) = Ok (drop k l).
Proof.
  intros Hr n. revert k. pose proof Hr as (_ & Hs & _).
  induction n as [|n IH]; intros k Hk; simpl.
  { by rewrite drop_ge by lia. }
  unfold it_next, arr_len. simpl. rewrite Hs.
  destruct (Z.geb_spec (Z.of_nat k) (Z.of_nat (length l))); [by rewrite drop_ge by lia|].
  destruct (lookup_lt_is_Some_2 l k) as [v Hv]; [lia|].
  rewrite (arr_repr_index a l k v Hr Hv). simpl.
  replace (Z.of_nat k + 1) with (Z.of_nat (S k)) by lia.
  rewrite IH by lia. simpl. by rewrite (drop_S _ _ _ Hv).
Qed.

Lemma arr_index_mut_repr (a : Array T) l i v f :
  arr_repr a l -> l !! i = Some v ->
  exists a', arr_index_mut a (Z.of_nat i) f = Ok a' /\ arr_repr a' (<[i := f v]> l).
Proof.
  intros Hr Hv. pose proof (lookup_lt_Some _ _ _ Hv) as Hlt.
  pose proof (arr_repr_index a l i v Hr Hv) as Hi.
  destruct (arr_swap_repr a l i (f v) Hr) as (a' & Hsw & Ha'). exists a'.
  unfold arr_index_mut, arr_get_mut, arr_swap, arr_index, arr_get in *.
  pose proof Hr as (_ & Hs & _). destruct (Z.geb_spec (Z.of_nat i) (arr_size a)); [lia|].
  destruct (raw_read (arr_raw a) (Z.of_nat i)) as [w|] eqn:E; simpl in *; [|done].
  injection Hi as ->. destruct (raw_write _ _ _); simpl in *; [|done].
  by injection Hsw as _ ->.
Qed.

(** Writing through a slice. *)
Lemma write_from_cells vals : forall (r : RawArray T) pre old post,
  r.(ra_cells) = pre ++ old ++ post -> length old = length vals ->
  exists r', write_from r (Z.of_nat (length pre)) vals = Ok r' /\
    r'.(ra_cells) = pre ++ (Some <$> vals) ++ post /\ r'.(ra_segment) = r.(ra_segment).
Proof.
  induction vals as [|v vals IH]; intros r pre old post Hc Hl.
  { destruct old; [|done]. by exists r. }
  destruct old as [|o old]; [done|]. simpl.
  rewrite raw_write_at by (rewrite Hc, !length_app; simpl; lia). simpl.
  destruct (IH (mkRaw r.(ra_segment) r.(ra_no_dealloc) ((pre ++ [Some v]) ++ old ++ post))
              (pre ++ [Some v]) old post) as (r' & Hw & Hc' & Hs'); [done|simpl in *; lia|].
  rewrite Nat2Z.id, Hc, insert_app_r_alt, Nat.sub_diag by lia. simpl.
  rewrite length_app in Hw. rewrite <- (app_assoc pre) in Hw. simpl in Hw.
  replace (Z.of_nat (length pre) + 1) with (Z.of_nat (length pre + 1)) by lia.
  exists r'. split; [done|]. split; [|done]. by rewrite Hc', <- app_assoc.
Qed.

Lemma arr_write_repr (a : Array T) l1 old l2 vals :
  arr_repr a (l1 ++ old ++ l2) -> length old = length vals ->
  exists r, write_from a.(arr_raw) (Z.of_nat (length l1)) vals = Ok r /\
    arr_repr (mkArray a.(arr_size) a.(arr_no_dealloc) r) (l1 ++ vals ++ l2).
Proof.
  intros (Hwf & Hs & rest & Hc) Hl. rewrite !fmap_app, <- !app_assoc in Hc.
  destruct (write_from_cells vals _ (Some <$> l1) (Some <$> old) ((Some <$> l2) ++ rest) Hc)
    as (r & Hw & Hc' & Hseg); [by rewrite length_fmap|].
  rewrite length_fmap in Hw. exists r. split; [done|]. split; simpl; [|split].
  - unfold raw_wf, raw_capacity in *. rewrite Hseg, Hc'. rewrite Hc in Hwf.
    rewrite !length_app, !length_fmap in *. lia.
  - rewrite Hs, !length_app. lia.
  - exists rest. by rewrite Hc', !fmap_app, <- !app_assoc.
Qed.

(** A mutable slice changes the elements it covers and no others. *)
Theorem array_slices_mut (a : Array T) l f n :
  arr_repr a l -> (forall k, length (f k) = length k) -> (n <= length l)%nat ->
  (exists a', arr_deref_mut a f = Ok a' /\ arr_repr a' (f l)) /\
  (exists a', arr_range_from_mut a (Z.of_nat n) f = Ok a' /\
     arr_repr a' (take n l ++ f (drop n l))) /\
  (exists a', arr_range_to_mut a (Z.of_nat n) f = Ok a' /\
     arr_repr a' (f (take n l) ++ drop n l)).
Proof.
  intros Hr Hf Hn. unfold arr_deref_mut, arr_range_from_mut, arr_range_to_mut, arr_range_from, arr_range_to.
  rewrite (arr_deref_repr _ _ Hr). simpl.
  destruct (Z.gtb_spec (Z.of_nat n) (Z.of_nat (length l))); [lia|]. rewrite Nat2Z.id. simpl.
  split; [|split].
  - destruct (arr_write_repr a [] l [] (f l)) as (r & Hw & Hr'); [by rewrite app_nil_r|done|].
    change (Z.of_nat (length [])) with 0 in Hw. rewrite Hw. simpl. rewrite app_nil_r in Hr'. by eexists.
  - destruct (arr_write_repr a (take n l) (drop n l) [] (f (drop n l))) as (r & Hw & Hr');
      [by rewrite app_nil_r, take_drop|done|].
    rewrite length_take_le in Hw by lia. rewrite Hw. simpl. rewrite app_nil_r in Hr'. by eexists.
  - destruct (arr_write_repr a [] (take n l) (drop n l) (f (take n l))) as (r & Hw & Hr');
      [by rewrite take_drop|done|].
    change (Z.of_nat (length [])) with 0 in Hw. rewrite Hw. simpl. by eexists.
Qed.

(** Iterating over an array, slicing it, comparing it and writing through its
  references act as on the list of its elements: the iterator gives every
  element once, in order, and then ends; [a[n..]] and [a[..n]] are suffix and
  prefix, and panic past the end; [==] compares the elements pairwise. *)
Theorem array_views_list (a b : Array T) (l l' : list T) (eqb : T -> T -> bool) (n : nat) :
  arr_repr a l -> arr_repr b l' ->
  2 * Z.of_nat (length l `max` length l') * 8 < 2 ^ 62 ->
  memory_upto (2 * Z.of_nat (length l `max` length l') * 8) ->
  it_take (S (length l)) (arr_into_iter a) = Ok l /\
  arr_range_from a (Z.of_nat n) =
    (if decide (n <= length l)%nat then Ok (drop n l)
     else Err (Panic "slice index starts past the end")) /\
  arr_range_to a (Z.of_nat n) =
    (if decide (n <= length l)%nat then Ok (take n l)
     else Err (Panic "slice index ends past the end")) /\
  (exists r, arr_eq eqb a b = Ok r /\
     (r = true <-> Forall2 (λ x y, eqb x y = true) l l')).
Proof.
  intros Ha Hb Hsz Hmem. split; [|split; [|split]].
  - apply (it_take_repr a l 0 Ha). lia.
  - unfold arr_range_from. rewrite (arr_deref_repr _ _ Ha). simpl.
    case_decide; destruct (Z.gtb_spec (Z.of_nat n) (Z.of_nat (length l))); try lia; [|done].
    by rewrite Nat2Z.id.
  - unfold arr_range_to. rewrite (arr_deref_repr _ _ Ha). simpl.
    case_decide; destruct (Z.gtb_spec (Z.of_nat n) (Z.of_nat (length l))); try lia; [|done].
    by rewrite Nat2Z.id.
  - pose proof Ha as (_ & Hs & _). pose proof Hb as (_ & Hs' & _).
    unfold arr_eq, arr_len. rewrite Hs, Hs'.
    destruct (Z.eqb_spec (Z.of_nat (length l)) (Z.of_nat (length l'))) as [E|E]; simpl.
    + rewrite (arr_iter_repr a l Ha), (arr_iter_repr b l' Hb) by
        (lia || intros k Hk; apply Hmem; lia).
      simpl. eexists. split; [done|]. apply iter_eq_spec. lia.
    + exists false. split; [done|]. split; [done|]. intros H%Forall2_length. lia.
Qed.
End Refinement.
Arguments ArrOp : clear implicits.

(** ** Refinement: a deque behaves as a list at both ends *)
Section DequeRefinement.
Context {T : Type} {MP : Mapping} {LO : Layout}.

(** The slice of a queue. *)
Lemma mapR_raw_read (r : RawArray T) l : forall pre post,
  r.(ra_cells) = pre ++ (Some <$> l) ++ post ->
  mapR (raw_read r) (range (Z.of_nat (length pre)) (Z.of_nat (length pre) + Z.of_nat (length l))) = Ok l.
Proof.
  induction l as [|v l IH]; intros pre post Hc; [by rewrite range_nil by (simpl; lia)|].
  assert (Hv : raw_read r (Z.of_nat (length pre)) = Ok v).
  { apply raw_read_at; [lia|]. rewrite Hc, Nat2Z.id. by apply list_lookup_middle. }
  rewrite range_cons by (simpl; lia). simpl. rewrite Hv.
  simpl. specialize (IH (pre ++ [Some v]) post).
  replace (Z.of_nat (length pre) + 1) with (Z.of_nat (length (pre ++ [Some v])))
    by (rewrite length_app; simpl; lia).
  replace (Z.of_nat (length pre) + Z.of_nat (S (length l)))
    with (Z.of_nat (length (pre ++ [Some v])) + Z.of_nat (length l))
    by (rewrite length_app; simpl; lia).
  rewrite IH by (by rewrite Hc, <- app_assoc). done.
Qed.

Lemma dq_deref_repr d (l : list T) :
  dq_repr d l -> Z.of_nat (length l) < 2 ^ 64 -> dq_deref d = Ok l.
Proof.
  intros (Hwf & He & pre & post & Hc & Hs) Hl. unfold dq_deref, dq_len.
  rewrite He, usize_small by lia.
  replace (dq_start d + Z.of_nat (length l) - dq_start d) with (Z.of_nat (length l)) by lia.
  destruct (ra_segment (dq_raw d)) eqn:E; [rewrite Hs; by apply (mapR_raw_read _ _ _ post)|].
  unfold raw_wf, raw_capacity in Hwf. rewrite E, Hc, !length_app, length_fmap in Hwf.
  by destruct l; simpl in *; [|lia].
Qed.

Lemma dq_deref_mut_repr d (l : list T) f :
  dq_repr d l -> Z.of_nat (length l) < 2 ^ 64 -> length (f l) = length l ->
  exists d', dq_deref_mut d f = Ok d' /\ dq_repr d' (f l).
Proof.
  intros Hr Hl Hf. unfold dq_deref_mut. rewrite (dq_deref_repr _ _ Hr Hl). simpl.
  destruct Hr as (Hwf & He & pre & post & Hc & Hs).
  destruct (write_from_cells (f l) _ _ _ _ Hc) as (r & Hw & Hc' & Hseg); [by rewrite length_fmap|].
  rewrite Hs, Hw. simpl. eexists. split; [done|]. split; simpl; [|split; [lia|by exists pre, post]].
  unfold raw_wf, raw_capacity in *. rewrite Hseg, Hc'. rewrite Hc in Hwf.
  rewrite !length_app, !length_fmap in *. lia.
Qed.

Lemma dq_new_repr : dq_repr (T := T) dq_new [].
Proof. split; [done|]. split; [done|]. by exists [], []. Qed.

Lemma dq_repr_bounds d (l : list T) :
  dq_repr d l ->
  0 <= d.(dq_start) /\ d.(dq_end) = d.(dq_start) + Z.of_nat (length l) /\
  d.(dq_end) <= dq_capacity d.
Proof.
  intros (Hwf & He & pre & post & Hc & Hs). split; [lia|]. split; [done|].
  unfold raw_wf in Hwf. rewrite Hc, !length_app, length_fmap in Hwf.
  unfold dq_capacity. lia.
Qed.

(** The capacity after the slots are full at one end. *)
Definition dq_grown (capacity : Z) : Z := if capacity =? 0 then 1 else 2 * capacity.

Lemma dq_push_back_repr d (l : list T) v :
  dq_repr d l -> 2 * (dq_capacity d + 1) * size_of < 2 ^ 62 ->
  memory_upto (2 * (dq_capacity d + 1) * size_of) ->
  exists d', dq_push_back d v = Ok d' /\ dq_repr d' (l ++ [v]) /\ dq_start d' = dq_start d /\
    dq_capacity d' = if dq_end d =? dq_capacity d then dq_grown (dq_capacity d) else dq_capacity d.
Proof.
  intros Hr Hb Hmem. pose proof (dq_repr_bounds d l Hr) as (Hs0 & _ & Hcap).
  destruct Hr as (Hwf & He & pre & post & Hc & Hs). destruct size_of_pos.
  assert (Hlen : Z.of_nat (length (ra_cells (dq_raw d))) = dq_capacity d) by done.
  assert (Hd : exists d' post', (if dq_end d =? dq_capacity d then dq_grow_back d else Ok d) = Ok d' /\
    raw_wf (dq_raw d') /\ dq_start d' = dq_start d /\ dq_end d' = dq_end d /\
    ra_cells (dq_raw d') = pre ++ (Some <$> l) ++ post' /\ post' <> [] /\
    dq_capacity d' = if dq_end d =? dq_capacity d then dq_grown (dq_capacity d) else dq_capacity d).
  { destruct (Z.eqb_spec (dq_end d) (dq_capacity d)) as [E|E].
    - unfold dq_grow_back. fold (dq_capacity d).
      assert (0 <= dq_capacity d) by lia. rewrite usize_small by nia.
      set (n := if dq_capacity d * 2 =? 0 then 1 else dq_capacity d * 2).
      assert (dq_capacity d < n <= 2 * dq_capacity d + 1 /\ n = dq_grown (dq_capacity d)) as [Hn Hgr].
      { unfold n, dq_grown. destruct (Z.eqb_spec (dq_capacity d * 2) 0), (Z.eqb_spec (dq_capacity d) 0); lia. }
      destruct (raw_reserve_grows (dq_raw d) n) as (r & -> & Hr & Hrc & _ & Hcr);
        [done|fold (dq_capacity d); lia|lia|nia|apply Hmem; nia|].
      simpl. eexists _,
        (post ++ replicate (Z.to_nat n - length (ra_cells (dq_raw d))) None).
      split; [done|]. simpl. split_and!; try done.
      + rewrite Hcr, Hc, <- !app_assoc. done.
      + intros [_ Hnil]%app_eq_nil. apply (f_equal length) in Hnil.
        rewrite length_replicate in Hnil. simpl in Hnil. lia.
      + unfold dq_capacity at 1. simpl. lia.
    - exists d, post. split_and!; try done. intros ->.
      rewrite Hc, !length_app, length_fmap in Hlen. simpl in Hlen. lia. }
  destruct Hd as (d' & post' & Heq & Hwf' & Hs' & He' & Hc' & Hne & Hcap').
  unfold dq_push_back. rewrite Heq. simpl. rewrite raw_write_at.
  2:{ rewrite Hc', !length_app, length_fmap. destruct post'; simpl; [done|lia]. }
  simpl. eexists. split; [done|]. split; [|split; [done|unfold dq_capacity in *; done]].
  split; [by apply raw_wf_write|]. simpl. split.
  - assert (dq_capacity d * size_of < 2 ^ 62) by nia.
    rewrite usize_small, length_app by nia. simpl. lia.
  - rewrite Hc'. replace (Z.to_nat (dq_end d')) with (length pre + length l)%nat by lia.
    rewrite insert_app_r. destruct (insert_after l post' v Hne) as (rest & ->).
    exists pre, rest. by rewrite Hs'.
Qed.

Lemma dq_grow_front_repr d (l : list T) :
  dq_repr d l -> dq_start d = 0 -> l <> [] ->
  2 * dq_capacity d * size_of < 2 ^ 62 -> memory_upto (2 * dq_capacity d * size_of) ->
  exists d', dq_grow_front d = Ok d' /\ dq_repr d' l /\ 0 < dq_start d' /\
    dq_start d' = dq_capacity d /\ dq_capacity d' = 2 * dq_capacity d.
Proof.
  intros Hr Hst Hne Hb Hmem. pose proof (dq_repr_bounds d l Hr) as (Hs0 & _ & Hcap).
  destruct Hr as (Hwf & He & pre & post & Hc & Hs). destruct size_of_pos.
  assert (pre = []) as -> by (apply length_zero_iff_nil; lia). simpl in *.
  assert (Hl : (0 < length l)%nat) by (destruct l; simpl; [done|lia]).
  assert (Hlen : Z.of_nat (length (ra_cells (dq_raw d))) = dq_capacity d) by done.
  unfold dq_grow_front, dq_grow_back. fold (dq_capacity d).
  rewrite usize_small by nia. destruct (Z.eqb_spec (dq_capacity d * 2) 0) as [Ez|_]; [lia|].
  destruct (raw_reserve_grows (dq_raw d) (dq_capacity d * 2)) as (r & -> & Hr & Hrc & _ & Hcr);
    [done|fold (dq_capacity d); lia|lia|nia|apply Hmem; nia|].
  simpl. unfold copy_cells_up.
  set (n := Z.to_nat (dq_capacity d)).
  assert (Hn : n = length (ra_cells (dq_raw d))) by lia.
  assert (Hrl : length (ra_cells r) = (2 * n)%nat) by (unfold raw_wf in Hr; lia).
  rewrite (proj2 (Nat.leb_le _ _)) by lia. simpl.
  assert (take n (ra_cells r) = ra_cells (dq_raw d)) as ->.
  { rewrite Hcr, Hn. by rewrite take_app_length. }
  rewrite drop_ge, app_nil_r by lia. eexists. split; [done|].
  split; [split; [|split]|].
  - unfold raw_wf, raw_capacity in *. simpl. rewrite length_app. lia.
  - simpl. rewrite usize_small by nia. lia.
  - exists (ra_cells (dq_raw d)), post. simpl. split; [by rewrite Hc at 2|lia].
  - simpl. split; [lia|]. split; [done|]. unfold dq_capacity, raw_capacity in *. simpl. lia.
Qed.

Lemma dq_push_front_repr d (l : list T) v :
  dq_repr d l -> 2 * (dq_capacity d + 1) * size_of < 2 ^ 62 ->
  memory_upto (2 * (dq_capacity d + 1) * size_of) ->
  exists d', dq_push_front d v = Ok d' /\ dq_repr d' (v :: l) /\
    if decide (l = []) then
      dq_start d' = dq_start d /\
      dq_capacity d' = if dq_end d =? dq_capacity d then dq_grown (dq_capacity d) else dq_capacity d
    else if dq_start d =? 0 then
      dq_start d' = dq_capacity d - 1 /\ dq_capacity d' = 2 * dq_capacity d
    else dq_start d' = dq_start d - 1 /\ dq_capacity d' = dq_capacity d.
Proof.
  intros Hr Hb Hmem. pose proof (dq_repr_bounds d l Hr) as (Hs0 & He0 & Hcap).
  unfold dq_push_front, dq_len. destruct size_of_pos.
  rewrite usize_small by nia. destruct l as [|w l].
  { simpl in He0. rewrite (proj2 (Z.eqb_eq _ 0)) by lia.
    by apply (dq_push_back_repr d [] v). }
  rewrite (proj2 (Z.eqb_neq _ 0)) by (simpl in He0; lia).
  assert (Hd : exists d', (if dq_start d =? 0 then dq_grow_front d else Ok d) = Ok d' /\
    dq_repr d' (w :: l) /\ 0 < dq_start d' /\
    if dq_start d =? 0 then dq_start d' = dq_capacity d /\ dq_capacity d' = 2 * dq_capacity d
    else d' = d).
  { destruct (Z.eqb_spec (dq_start d) 0) as [E|E].
    - destruct (dq_grow_front_repr d (w :: l)) as (d' & -> & ? & ? & ? & ?);
        [done|done|done|nia|intros k Hk; apply Hmem; nia|]. by exists d'.
    - exists d. split_and!; try done; lia. }
  destruct Hd as (d' & -> & (Hwf & He & pre & post & Hc & Hs) & Hpos & Hcap').
  simpl. destruct pre as [|x pre _] using rev_ind; [simpl in Hs; lia|].
  rewrite length_app in Hs. simpl in Hs. rewrite raw_write_at.
  2:{ rewrite Hc, !length_app. simpl. lia. }
  simpl. eexists. split; [done|]. split.
  2:{ unfold dq_capacity, raw_capacity in *. simpl.
      destruct (dq_start d =? 0); [destruct Hcap' as [-> ->]; done|by subst]. }
  split; [by apply raw_wf_write|]. simpl. split; [simpl in He; lia|].
  exists pre, post. split; [|lia].
  replace (Z.to_nat (dq_start d' - 1)) with (length pre) by lia.
  rewrite Hc, <- app_assoc, insert_app_r_alt by lia. by rewrite Nat.sub_diag.
Qed.

Lemma dq_pop_front_repr d (l : list T) v :
  dq_repr d (v :: l) ->
  exists d', dq_pop_front d = Ok (Some v, d') /\ dq_repr d' l /\
    dq_capacity d' = dq_capacity d /\
    dq_start d' = if decide (l = []) then dq_capacity d / 2 else dq_start d + 1.
Proof.
  intros Hr. pose proof (dq_repr_bounds d _ Hr) as (Hs0 & He0 & Hcap).
  destruct Hr as (Hwf & He & pre & post & Hc & Hs). simpl in He, He0.
  unfold dq_pop_front, dq_is_empty. rewrite (proj2 (Z.eqb_neq _ _)) by lia.
  rewrite (raw_read_at _ _ v); [|lia|].
  2:{ rewrite Hc, Hs, Nat2Z.id. by rewrite lookup_app_r, Nat.sub_diag by lia. }
  simpl. eexists. split; [done|]. unfold dq_recenter. simpl.
  destruct (Z.eqb_spec (dq_start d + 1) (dq_end d)) as [E|E].
  - assert (l = []) as -> by (apply length_zero_iff_nil; lia).
    split; [|by rewrite decide_True]. split; [done|]. simpl. split; [lia|].
    unfold dq_capacity in *. unfold raw_wf in Hwf.
    exists (take (Z.to_nat (raw_capacity (dq_raw d) / 2)) (ra_cells (dq_raw d))),
           (drop (Z.to_nat (raw_capacity (dq_raw d) / 2)) (ra_cells (dq_raw d))).
    simpl. rewrite take_drop. split; [done|]. unfold dq_capacity. simpl.
    pose proof (Z.div_pos (raw_capacity (dq_raw d)) 2).
    assert (raw_capacity (dq_raw d) / 2 <= raw_capacity (dq_raw d)) by (apply Z.div_le_upper_bound; lia).
    rewrite length_take. lia.
  - split; [|rewrite decide_False by (intros ->; simpl in *; lia); done].
    split; [done|]. simpl. split; [lia|].
    exists (pre ++ [Some v]), post. rewrite Hc, <- app_assoc, length_app. simpl. split; [done|lia].
Qed.

(** A queue program and its specification on lists. *)
Inductive DqOp : Type := DPushBack (v : T) | DPushFront (v : T) | DPopFront.

Definition dq_exec (d : ArrayDeque T) (op : DqOp) : result (option T * ArrayDeque T) :=
  match op with
  | DPushBack v => d' ← dq_push_back d v; Ok (None, d')
  | DPushFront v => d' ← dq_push_front d v; Ok (None, d')
  | DPopFront => dq_pop_front d
  end.

Fixpoint dq_run (d : ArrayDeque T) (ops : list DqOp)
  : result (list (option T) * ArrayDeque T) :=
  match ops with
  | [] => Ok ([], d)
  | op :: ops' => '(o, d1) ← dq_exec d op; '(os, d2) ← dq_run d1 ops'; Ok (o :: os, d2)
  end.

Definition queue_exec (l : list T) (op : DqOp) : option T * list T :=
  match op with
  | DPushBack v => (None, l ++ [v])
  | DPushFront v => (None, v :: l)
  | DPopFront => (head l, tail l)
  end.

Fixpoint queue_run (l : list T) (ops : list DqOp) : list (option T) * list T :=
  match ops with
  | [] => ([], l)
  | op :: ops' => let '(o, l1) := queue_exec l op in
                  let '(os, l2) := queue_run l1 ops' in (o :: os, l2)
  end.

(** *** How fast the capacity grows

  The slots double when one end is reached.  [dq_shape m c s e]: after [m - 1]
  operations the capacity [c] is linear in [m], and when it is large the free
  slots before [s] or after [e] are too many to be used up soon. *)
Definition dq_shape (m c s e : Z) : Prop :=
  0 <= s <= e /\ e <= c /\ c <= 74 * m /\ c * c <= 36 * ((m + s) * (m + (c - e))).

Lemma full_end m c x : 0 < m -> 0 <= c -> 0 <= x <= c -> c * c <= 36 * (m * (m + x)) -> c <= 37 * m.
Proof. intros. destruct (Z.le_gt_cases c (37 * m)); [done|]. nia. Qed.

(** One end is full, and the slots are doubled on that side. *)
Lemma doubled m c x :
  0 < m -> 0 < c -> 0 <= x <= c -> c * c <= 36 * (m * (m + x)) ->
  (2 * c) * (2 * c) <= 36 * ((m + c) * (m + 1 + x)).
Proof.
  intros Hm Hc Hx H. destruct (Z.le_gt_cases (3 * m) c) as [Hl|Hl].
  - assert (4 * m * (m + x) <= (m + c) * (m + 1 + x)) by (apply Z.mul_le_mono_nonneg; lia). lia.
  - assert (c * (2 * c) <= 6 * m * c) by nia.
    assert (m * c <= (m + c) * (m + 1 + x)) by nia. nia.
Qed.

Lemma shape_push_back m c s e c' :
  0 < m -> dq_shape m c s e -> c' = (if e =? c then dq_grown c else c) -> dq_shape (m + 1) c' s (e + 1).
Proof.
  intros Hm (H1 & H2 & H3 & H4) ->. unfold dq_shape, dq_grown.
  destruct (Z.eqb_spec e c) as [->|Hne]; [|split_and!; try lia; nia].
  destruct (Z.eqb_spec c 0) as [->|Hc]; [split_and!; try lia; nia|].
  replace (m + (c - c)) with m in H4 by lia. rewrite (Z.mul_comm (m + s)) in H4.
  pose proof (full_end m c s Hm ltac:(lia) ltac:(lia) H4).
  pose proof (doubled m c s Hm ltac:(lia) ltac:(lia) H4).
  split_and!; lia.
Qed.

Lemma shape_push_front m c s e :
  0 < m -> s < e -> dq_shape m c s e ->
  if s =? 0 then dq_shape (m + 1) (2 * c) (c - 1) (c + e) else dq_shape (m + 1) c (s - 1) e.
Proof.
  intros Hm Hse (H1 & H2 & H3 & H4). unfold dq_shape.
  destruct (Z.eqb_spec s 0) as [->|Hne]; [|split_and!; try lia; nia].
  rewrite Z.add_0_r in H4.
  pose proof (full_end m c (c - e) Hm ltac:(lia) ltac:(lia) H4).
  pose proof (doubled m c (c - e) Hm ltac:(lia) ltac:(lia) H4).
  split_and!; lia.
Qed.

Lemma four_prod a b : 4 * (a * b) = (a + b) * (a + b) - (a - b) * (a - b).
Proof. lia. Qed.

Lemma shape_pop_front m c s e :
  0 < m -> s < e -> dq_shape m c s e ->
  if s + 1 =? e then dq_shape (m + 1) c (c / 2) (c / 2) else dq_shape (m + 1) c (s + 1) e.
Proof.
  intros Hm Hse (H1 & H2 & H3 & H4). unfold dq_shape.
  destruct (Z.eqb_spec (s + 1) e) as [<-|Hne]; [|split_and!; try lia; nia].
  pose proof (Z.div_mod c 2 ltac:(lia)). pose proof (Z.mod_pos_bound c 2 ltac:(lia)).
  set (h := c / 2) in *. split_and!; try lia.
  pose proof (four_prod (m + s) (m + (c - (s + 1)))) as P1.
  pose proof (four_prod (m + 1 + h) (m + 1 + (c - h))) as P2.
  replace (m + s + (m + (c - (s + 1)))) with (2 * m + c - 1) in P1 by lia.
  replace (m + 1 + h + (m + 1 + (c - h))) with (2 * m + c + 2) in P2 by lia.
  set (d1 := m + s - (m + (c - (s + 1)))) in *. set (d2 := m + 1 + h - (m + 1 + (c - h))) in *.
  pose proof (Z.square_nonneg d1). assert (d2 * d2 <= 1) by (assert (-1 <= d2 <= 0) by lia; nia).
  lia.
Qed.

Lemma shape_idle m c s e : 0 < m -> dq_shape m c s e -> dq_shape (m + 1) c s e.
Proof. intros Hm (H1 & H2 & H3 & H4). split_and!; lia. Qed.

Definition dq_shaped (m : Z) (d : ArrayDeque T) : Prop :=
  dq_shape m (dq_capacity d) d.(dq_start) d.(dq_end).

(** The bytes that suffice for [n] operations. *)
Definition dq_bytes (n : Z) : Z := 150 * n * size_of.

Lemma dq_exec_refines m d (l : list T) op :
  dq_repr d l -> 0 < m -> dq_shaped m d -> dq_bytes m < 2 ^ 62 -> memory_upto (dq_bytes m) ->
  exists d', dq_exec d op = Ok ((queue_exec l op).1, d') /\
    dq_repr d' (queue_exec l op).2 /\ dq_shaped (m + 1) d'.
Proof.
  intros Hr Hm Hsh Hb Hmem. pose proof (dq_repr_bounds d l Hr) as (B1 & B2 & B3).
  destruct size_of_pos as [Hsz _]. pose proof Hsh as (_ & _ & Hc & _). unfold dq_bytes in *.
  assert (Hb' : 2 * (dq_capacity d + 1) * size_of < 2 ^ 62) by nia.
  assert (Hmem' : memory_upto (2 * (dq_capacity d + 1) * size_of)) by (intros k Hk; apply Hmem; nia).
  destruct op as [v|v|]; simpl.
  - destruct (dq_push_back_repr d l v Hr Hb' Hmem') as (d' & -> & Hr' & Hs & Hcap). exists d'.
    split; [done|]. split; [done|]. destruct Hr' as (_ & He & _). rewrite length_app in He. simpl in He.
    unfold dq_shaped. rewrite Hs. replace (dq_end d') with (dq_end d + 1) by lia.
    by apply (shape_push_back m (dq_capacity d)).
  - destruct (dq_push_front_repr d l v Hr Hb' Hmem') as (d' & -> & Hr' & Hs). exists d'.
    split; [done|]. split; [done|]. destruct Hr' as (_ & He & _). simpl in He. unfold dq_shaped.
    case_decide as El.
    + destruct Hs as [Hs Hcap]. rewrite Hs. replace (dq_end d') with (dq_end d + 1) by (subst l; simpl in *; lia).
      by apply (shape_push_back m (dq_capacity d)).
    + assert (dq_start d < dq_end d) by (destruct l; simpl in *; [done|lia]).
      pose proof (shape_push_front m _ _ _ Hm ltac:(done) Hsh) as Hp.
      destruct (dq_start d =? 0) eqn:E0; destruct Hs as [Hs Hcap]; rewrite Hs, Hcap.
      * apply Z.eqb_eq in E0. by replace (dq_end d') with (dq_capacity d + dq_end d) by lia.
      * by replace (dq_end d') with (dq_end d) by lia.
  - destruct l as [|v l].
    + exists d. unfold dq_pop_front, dq_is_empty. simpl in *.
      rewrite (proj2 (Z.eqb_eq _ _)) by lia. split_and!; [done|done|by apply shape_idle].
    + destruct (dq_pop_front_repr d l v Hr) as (d' & -> & Hr' & Hcap & Hs). exists d'.
      split; [done|]. split; [done|]. destruct Hr' as (_ & He & _). simpl in B2, He. unfold dq_shaped.
      assert (Hse : dq_start d < dq_end d) by lia.
      pose proof (shape_pop_front m _ _ _ Hm Hse Hsh) as Hp. rewrite Hcap, He, Hs.
      case_decide as El; destruct (Z.eqb_spec (dq_start d + 1) (dq_end d)) as [E|E].
      * subst l. simpl. by rewrite Z.add_0_r.
      * subst l. simpl in *. lia.
      * destruct l; simpl in *; [done|lia].
      * by replace (dq_start d + 1 + Z.of_nat (length l)) with (dq_end d) by lia.
Qed.

Lemma dq_run_repr ops : forall m d (l : list T),
  dq_repr d l -> 0 < m -> dq_shaped m d -> dq_bytes (m + Z.of_nat (length ops)) < 2 ^ 62 ->
  memory_upto (dq_bytes (m + Z.of_nat (length ops))) ->
  exists d', dq_run d ops = Ok ((queue_run l ops).1, d') /\
    dq_repr d' (queue_run l ops).2.
Proof.
  destruct size_of_pos as [Hsz _].
  induction ops as [|op ops IH]; intros m d l Hr Hm Hsh Hb Hmem; simpl; [by exists d|].
  simpl length in *. unfold dq_bytes in *.
  destruct (dq_exec_refines m d l op Hr Hm Hsh) as (d1 & -> & Hr1 & Hs1);
    [unfold dq_bytes; nia|intros k Hk; apply Hmem; unfold dq_bytes in *; nia|].
  destruct (queue_exec l op) as [o l1]. simpl in *.
  replace (m + Z.of_nat (S (length ops))) with (m + 1 + Z.of_nat (length ops)) in * by lia.
  destruct (IH (m + 1) d1 l1 Hr1) as (d2 & -> & Hr2); [lia|done|done|done|].
  destruct (queue_run l1 ops) as [os l2]. simpl in *. by exists d2.
Qed.
End DequeRefinement.
Arguments DqOp : clear implicits.

(** ** Instances for evaluation *)
Program Definition map_all : Mapping := {| can_map n := 0 <? n |}.
  Solve Obligations with done.

Definition usize_layout : Layout := ref_layout.

(** ** Properties *)

(** C35: every program of [push], [pop], [remove], [swap] and [get] on a new
    array, as long as the mappings it asks for can be obtained, gives the same
    results as the same operations on a list, and the array holds that list. *)
Theorem array_refines_list {T : Type} {MP : Mapping} {LO : Layout} (ops : list (ArrOp T)) :
  2 * (Z.of_nat (length ops) + 1) * size_of < 2 ^ 62 ->
  memory_upto (2 * (Z.of_nat (length ops) + 1) * size_of) ->
  exists a, arr_run arr_new ops = Ok ((list_run [] ops).1, a) /\
    arr_repr a (list_run [] ops).2.
Proof. intros Hb Hmem. by apply arr_run_repr; [apply arr_new_repr|..]. Qed.

Lemma array_refines_list_witness :
  exists a, arr_run (MP := map_all) (LO := usize_layout) arr_new
    [OPush 1; OPush 2; OPush 3; ORemove 1; OSwap 0 7; OPop; OGet 0] =
    Ok ([None; None; None; Some 2; Some 1; Some 3; Some 7], a) /\
    arr_repr (LO := usize_layout) a [7].
Proof.
  apply (array_refines_list (MP := map_all) (LO := usize_layout)
    [OPush 1; OPush 2; OPush 3; ORemove 1; OSwap 0 7; OPop; OGet 0]);
    [vm_compute; reflexivity|intros k Hk; apply Z.ltb_lt; lia].
Defined.

(** C36: every program of [n] operations [push_back], [push_front] and [pop_front]
    on a new deque, as long as mappings of up to [150 * (n + 1)] elements can be
    obtained and are below 2^62 bytes, gives the same results as the same
    operations on a list, and the deque holds that list. *)
Theorem deque_refines_queue {T : Type} {MP : Mapping} {LO : Layout} (ops : list (DqOp T)) :
  dq_bytes (1 + Z.of_nat (length ops)) < 2 ^ 62 ->
  memory_upto (dq_bytes (1 + Z.of_nat (length ops))) ->
  exists d, dq_run dq_new ops = Ok ((queue_run [] ops).1, d) /\
    dq_repr d (queue_run [] ops).2.
Proof. intros Hb Hmem. by apply (dq_run_repr ops 1); [apply dq_new_repr|..]. Qed.

Lemma deque_refines_queue_witness :
  exists d, dq_run (MP := map_all) (LO := usize_layout) dq_new
    [DPushFront 1; DPushFront 0; DPushBack 2; DPopFront; DPopFront; DPopFront; DPopFront] =
    Ok ([None; None; None; Some 0; Some 1; Some 2; None], d) /\
    dq_repr (LO := usize_layout) d [].
Proof.
  apply (deque_refines_queue (MP := map_all) (LO := usize_layout)
    [DPushFront 1; DPushFront 0; DPushBack 2; DPopFront; DPopFront; DPopFront; DPopFront]);
    [vm_compute; reflexivity|intros k Hk; apply Z.ltb_lt; lia].
Defined.

(** [pop_back] on a queue whose slot after the last element was never
    written reads that slot instead of the last element. *)
Theorem pop_back_reads_past_end {T : Type} {LO : Layout} (d : ArrayDeque T) l v :
  dq_repr d (l ++ [v]) ->
  (forall w, d.(dq_raw).(ra_cells) !! Z.to_nat d.(dq_end) <> Some (Some w)) ->
  dq_pop_back d = Err (Fault d.(dq_end)).
Proof.
  intros Hr Hslot. pose proof (dq_repr_bounds d _ Hr) as (Hs0 & He0 & _).
  rewrite length_app in He0. simpl in He0. unfold dq_pop_back, dq_is_empty, raw_read.
  rewrite (proj2 (Z.eqb_neq _ _)), (proj2 (Z.leb_le _ _)) by lia.
  destruct (_ !! _) as [[w|]|] eqn:E; [|done..]. by destruct (Hslot w).
Qed.

Lemma pop_back_reads_past_end_witness :
  let d := mkDeque (mkRaw (Some 16) false [Some 5; None]) 0 1 in
  dq_pop_back (LO := usize_layout) d = Err (Fault 1).
Proof.
  intros d. apply (pop_back_reads_past_end (LO := usize_layout) d [] 5).
  - split; [done|]. split; [done|]. by exists [], [None].
  - intros w. done.
Defined.

(** Collecting into a deque, which cloning one does, drops the last
    element. *)
Theorem deque_from_iter_drops_last {T : Type} {MP : Mapping} {LO : Layout} (l : list T) v :
  2 * Z.of_nat (length l + 1) * size_of < 2 ^ 62 ->
  memory_upto (2 * Z.of_nat (length l + 1) * size_of) ->
  exists d, dq_from_iter (l ++ [v]) = Ok d /\ dq_repr d l.
Proof.
  intros Hb Hmem. unfold dq_from_iter, arr_from_iter. destruct size_of_pos.
  destruct (push_all_repr (l ++ [v]) arr_new [] arr_new_repr) as (a & -> & Ha).
  { simpl. rewrite length_app. simpl. nia. }
  { simpl. rewrite length_app. by simpl. }
  destruct Ha as (Hwf & Hs & rest & Hc). simpl in *. rewrite length_app in Hs. simpl in Hs.
  exists (dq_from_array a). split; [done|]. split; [done|]. split.
  - unfold dq_from_array, arr_len. simpl. rewrite usize_small by nia. lia.
  - exists [], (Some v :: rest). simpl. by rewrite Hc, fmap_app, <- app_assoc.
Qed.

Lemma deque_from_iter_drops_last_witness :
  exists d, dq_from_iter (MP := map_all) (LO := usize_layout) [1; 2; 3] = Ok d /\
    dq_repr (LO := usize_layout) d [1; 2].
Proof.
  apply (deque_from_iter_drops_last (MP := map_all) (LO := usize_layout) [1; 2] 3);
    [vm_compute; reflexivity|intros k Hk; apply Z.ltb_lt; lia].
Defined.

Lemma byte_index_alias i :
  0 <= i -> (byte_index (i + 64)).1 = (byte_index i).1 /\
    (byte_index (i + 64)).2 mod 8 = (byte_index i).2 mod 8.
Proof.
  intros Hi. unfold byte_index, u8, wrap. simpl.
  change (2 ^ 8) with 256. split; Z.to_euclidean_division_equations; lia.
Qed.

(** The bit operations address only 64 bits, whatever the length of the
    array: index [i + 64] is index [i]. *)
Theorem set_bit_alias {LO : Layout} (a : Array Z) i v :
  0 <= i -> set_bit a (i + 64) v = set_bit a i v.
Proof.
  intros Hi. destruct (byte_index_alias i Hi) as [H1 H2]. unfold set_bit, bit_mask.
  destruct (byte_index (i + 64)) as [b1 k1], (byte_index i) as [b2 k2].
  simpl in H1, H2. by rewrite H1, H2.
Qed.

Lemma set_bit_alias_witness :
  0 <= 3 /\
  let a := mkArray 16 false (mkRaw (Some 16) false (replicate 16 (Some 0))) in
  set_bit a (3 + 64) true = set_bit a 3 true /\ is_ok (set_bit a 3 true) = true.
Proof.
  split; [lia|]. simpl. split; [|reflexivity].
  apply (set_bit_alias (LO := usize_layout)). lia.
Defined.
