(* ===== verification/HashMap.v ===== *)
(** * HashMap and HashSet

    Models [src/src/independent_collections/hash_map.rs].  The [Array]s of the
    buckets are lists (the refinement of [Array] by lists is in [Array]); the
    hash of a key ([DefaultHasher], 64 bits) is an operation of the class
    [Hash]. *)
From S2P Require Import Prelude Float.

Class Hash (K : Type) : Type := hash_of : K -> Z.

Section HashMap.
Context {K V : Type} {EqK : EqDecision K} {CK : Countable K} {HK : Hash K}.

Record Bucket : Type := mkBucket { bk_hash : Z; bk_key : K; bk_value : V }.

Record HashMap : Type := mkMap {
  buckets : list (list Bucket);
  containers_used : Z;
  hm_len : Z;
}.

(** [Array::of_size(0)] asks for a mapping of 0 bytes, which fails. *)
Definition hm_with_capacity (capacity : Z) : result HashMap :=
  if capacity <=? 0 then Err (Panic "called `Result::unwrap()` on an `Err` value")
  else Ok (mkMap (replicate (Z.to_nat capacity) []) 0 0).

Definition INITIAL_CAPACITY : Z := 1001.
Definition hm_new : result HashMap := hm_with_capacity INITIAL_CAPACITY.

Definition n_buckets (h : HashMap) : Z := Z.of_nat (length h.(buckets)).

Definition spread (h : HashMap) : float :=
  if h.(hm_len) =? 0 then f64_nan
  else f64_div (f64_of_Z h.(containers_used)) (f64_of_Z h.(hm_len)).

(** [hasher.finish() % capacity] *)
Definition hash_mod (key : K) (capacity : Z) : result Z :=
  if capacity =? 0
  then Err (Panic "attempt to calculate the remainder with a divisor of zero")
  else Ok (hash_of key mod 2 ^ 64 mod capacity).

Definition get_hash (h : HashMap) (key : K) : result Z := hash_mod key (n_buckets h).

(** [&self.inner.buckets[i]] *)
Definition bucket_at (bs : list (list Bucket)) (i : Z) : result (list Bucket) :=
  match bs !! Z.to_nat i with
  | Some b => Ok b
  | None => Err (Panic "Array index out of bounds")
  end.

(** *** [grow] *)
Definition get_rehash (key : K) (new_capacity : Z) : result Z := hash_mod key new_capacity.

Definition rehash_one (new_capacity : Z) (h : HashMap) (b : Bucket) : result HashMap :=
  new_hash ← get_rehash b.(bk_key) new_capacity;
  array ← bucket_at h.(buckets) new_hash;
  let b' := mkBucket new_hash b.(bk_key) b.(bk_value) in
  let used := match array with [] => h.(containers_used) + 1 | _ => h.(containers_used) end in
  Ok (mkMap (<[Z.to_nat new_hash := array ++ [b']]> h.(buckets)) used h.(hm_len)).

Fixpoint rehash_all (new_capacity : Z) (h : HashMap) (bs : list Bucket) : result HashMap :=
  match bs with
  | [] => Ok h
  | b :: bs' => h' ← rehash_one new_capacity h b; rehash_all new_capacity h' bs'
  end.

Definition grow (h : HashMap) : result HashMap :=
  let new_capacity := usize (n_buckets h * 2 + 1) in
  rehash_all new_capacity
    (mkMap (replicate (Z.to_nat new_capacity) []) 0 h.(hm_len)) (mjoin h.(buckets)).

(** The loops over a bucket keep the last index whose key is equal. *)
Fixpoint find_index (key : K) (bs : list Bucket) (i : nat) (old_index : option nat)
  : option nat :=
  match bs with
  | [] => old_index
  | b :: bs' => find_index key bs' (S i)
                  (if decide (b.(bk_key) = key) then Some i else old_index)
  end.

Definition needs_grow (h : HashMap) : bool :=
  ((n_buckets h / 2 <=? h.(hm_len)) && float_ltb (spread h) f64_half) ||
  (h.(hm_len) =? usize (n_buckets h - 1)).

(** *** [insert] ([insert_keep_key]) *)
Definition insert (h : HashMap) (key : K) (value : V) : result (option V * HashMap) :=
  h ← (if needs_grow h then grow h else Ok h);
  hash ← get_hash h key;
  bs ← bucket_at h.(buckets) hash;
  let used := match bs with [] => h.(containers_used) + 1 | _ => h.(containers_used) end in
  let len := usize (h.(hm_len) + 1) in
  match find_index key bs 0 None with
  | None =>
      Ok (None, mkMap (<[Z.to_nat hash := bs ++ [mkBucket hash key value]]> h.(buckets))
                  used len)
  | Some i =>
      match bs !! i with
      | None => Err (Panic "Array index out of bounds")
      | Some b =>
          let b' := mkBucket b.(bk_hash) b.(bk_key) value in
          Ok (Some b.(bk_value),
              mkMap (<[Z.to_nat hash := <[i := b']> bs]> h.(buckets)) used len)
      end
  end.

Definition replace (h : HashMap) (key : K) (value : V) : result (option V * HashMap) :=
  hash ← get_hash h key;
  bs ← bucket_at h.(buckets) hash;
  match find_index key bs 0 None with
  | None => Ok (None, h)
  | Some i =>
      match bs !! i with
      | None => Err (Panic "Array index out of bounds")
      | Some b =>
          let b' := mkBucket b.(bk_hash) b.(bk_key) value in
          Ok (Some b.(bk_value),
              mkMap (<[Z.to_nat hash := <[i := b']> bs]> h.(buckets))
                h.(containers_used) h.(hm_len))
      end
  end.

(** The first bucket with the key. *)
Fixpoint find_key (key : K) (bs : list Bucket) : option V :=
  match bs with
  | [] => None
  | b :: bs' => if decide (b.(bk_key) = key) then Some b.(bk_value) else find_key key bs'
  end.

Definition hm_get (h : HashMap) (key : K) : result (option V) :=
  hash ← get_hash h key; bs ← bucket_at h.(buckets) hash; Ok (find_key key bs).

Definition contains (h : HashMap) (key : K) : result bool :=
  o ← hm_get h key; Ok (bool_decide (is_Some o)).

(** [map[&key]] *)
Definition hm_index (h : HashMap) (key : K) : result V :=
  o ← hm_get h key;
  match o with Some v => Ok v | None => Err (Panic "Key not present in map") end.

(** *** Updates through a reference

  The loop of [get_mut] stops at the first bucket with the key; the client
  applies [f] to the value that the reference points to. *)
Fixpoint update_key (key : K) (f : V -> V) (bs : list Bucket) : option (V * list Bucket) :=
  match bs with
  | [] => None
  | b :: bs' =>
      if decide (b.(bk_key) = key)
      then Some (b.(bk_value), mkBucket b.(bk_hash) b.(bk_key) (f b.(bk_value)) :: bs')
      else '(v, bs1) ← update_key key f bs'; Some (v, b :: bs1)
  end.

Definition hm_get_mut (h : HashMap) (key : K) (f : V -> V) : result (option V * HashMap) :=
  hash ← get_hash h key;
  bs ← bucket_at h.(buckets) hash;
  match update_key key f bs with
  | None => Ok (None, h)
  | Some (v, bs') =>
      Ok (Some v, mkMap (<[Z.to_nat hash := bs']> h.(buckets)) h.(containers_used) h.(hm_len))
  end.

(** [map[&key] = ..] *)
Definition hm_index_mut (h : HashMap) (key : K) (f : V -> V) : result (V * HashMap) :=
  '(o, h') ← hm_get_mut h key f;
  match o with Some v => Ok (v, h') | None => Err (Panic "Key not present in map") end.

Definition remove (h : HashMap) (key : K) : result (option V * HashMap) :=
  hash ← get_hash h key;
  bs ← bucket_at h.(buckets) hash;
  let len := usize (h.(hm_len) - 1) in
  match find_index key bs 0 None with
  | None => Ok (None, mkMap h.(buckets) h.(containers_used) len)
  | Some i =>
      match bs !! i with
      | None => Err (Panic "called `Option::unwrap()` on a `None` value")
      | Some b => Ok (Some b.(bk_value),
                      mkMap (<[Z.to_nat hash := delete i bs]> h.(buckets))
                        h.(containers_used) len)
      end
  end.

Definition hm_is_empty (h : HashMap) : bool := h.(hm_len) =? 0.

(** [entry(key).or_insert(value)]: the value that the reference points to,
  and the map. *)
Definition or_insert (h : HashMap) (key : K) (value : V) : result (V * HashMap) :=
  o ← hm_get h key;
  match o with
  | Some v => Ok (v, h)
  | None =>
      '(_, h') ← insert h key value;
      v ← hm_index h' key; Ok (v, h')
  end.

(** ** The map a hash map stands for *)
Definition entries (h : HashMap) : list (K * V) :=
  (λ b, (b.(bk_key), b.(bk_value))) <$> mjoin h.(buckets).

Definition to_map (h : HashMap) : gmap K V := list_to_map (entries h).

(** The invariant: each bucket is at the index of its hash, which is that of
  its key, and no key occurs twice. *)
Record hm_ok (h : HashMap) : Prop := {
  hm_nonempty : 0 < n_buckets h < 2 ^ 62;
  hm_placed : forall i bs b, h.(buckets) !! i = Some bs -> b ∈ bs ->
    hash_mod b.(bk_key) (n_buckets h) = Ok (Z.of_nat i);
  hm_nodup : NoDup (entries h).*1;
}.

(** ** Lemmas *)
Lemma hash_mod_range key n :
  0 < n -> exists i, hash_mod key n = Ok i /\ 0 <= i < n.
Proof.
  intros Hn. unfold hash_mod. destruct (Z.eqb_spec n 0); [lia|].
  eexists. split; [done|]. apply Z.mod_pos_bound. lia.
Qed.

Lemma bucket_at_hash h key :
  hm_ok h -> exists i bs, get_hash h key = Ok (Z.of_nat i) /\
    h.(buckets) !! i = Some bs /\ bucket_at h.(buckets) (Z.of_nat i) = Ok bs.
Proof.
  intros [Hn _ _]. destruct (hash_mod_range key (n_buckets h)) as (i & Hi & Hr); [lia|].
  destruct (lookup_lt_is_Some_2 h.(buckets) (Z.to_nat i)) as [bs Hbs].
  { unfold n_buckets in Hr. lia. }
  exists (Z.to_nat i), bs. unfold get_hash, bucket_at.
  rewrite Z2Nat.id, Hbs by lia. done.
Qed.

Definition kv (b : Bucket) : K * V := (b.(bk_key), b.(bk_value)).

(** Updating one bucket list changes only its share of the entries. *)
Lemma entries_set bks i bs bs' u u' n n' :
  bks !! i = Some bs ->
  exists rest, entries (mkMap bks u n) ≡ₚ (kv <$> bs) ++ rest /\
    entries (mkMap (<[i := bs']> bks) u' n') ≡ₚ (kv <$> bs') ++ rest.
Proof.
  intros Hl. apply lookup_split in Hl as (b1 & b2 & -> & ->).
  exists ((kv <$> mjoin b1) ++ (kv <$> mjoin b2)). unfold entries. simpl.
  rewrite insert_app_r_alt, Nat.sub_diag by lia. simpl.
  rewrite !join_app. simpl. rewrite !fmap_app. unfold kv.
  split; solve_Permutation.
Qed.

Lemma elem_of_entries h k v :
  (k, v) ∈ entries h <->
  exists i bs b, h.(buckets) !! i = Some bs /\ b ∈ bs /\ kv b = (k, v).
Proof.
  unfold entries. rewrite list_elem_of_fmap. split.
  - intros (b & Hb & (bs & Hbs & [i Hi]%list_elem_of_lookup)%list_elem_of_join).
    exists i, bs, b. done.
  - intros (i & bs & b & Hi & Hb & Hkv). exists b. split; [done|].
    apply list_elem_of_join. exists bs. split; [done|].
    by eapply list_elem_of_lookup_2.
Qed.

Lemma find_key_Some key bs v :
  find_key key bs = Some v -> exists b, b ∈ bs /\ kv b = (key, v).
Proof.
  induction bs as [|b bs IH]; simpl; [done|]. case_decide as Hd.
  - intros [= <-]. exists b. unfold kv. rewrite Hd. set_solver.
  - intros (b' & Hb' & Hkv)%IH. exists b'. set_solver.
Qed.

Lemma find_key_None key bs : find_key key bs = None -> key ∉ bk_key <$> bs.
Proof.
  induction bs as [|b bs IH]; simpl; [set_solver|]. case_decide; set_solver.
Qed.

Lemma find_index_spec key bs i o :
  (find_index key bs i o = o /\ key ∉ bk_key <$> bs) \/
  (exists j b, find_index key bs i o = Some (i + j)%nat /\ bs !! j = Some b /\
     bk_key b = key).
Proof.
  revert i o. induction bs as [|b bs IH]; intros i o; simpl; [left; set_solver|].
  destruct (IH (S i) (if decide (bk_key b = key) then Some i else o))
    as [[-> Hn]|(j & b' & -> & Hj & Hk)].
  - case_decide as Hd.
    + right. exists 0%nat, b. by rewrite Nat.add_0_r.
    + left. set_solver.
  - right. exists (S j), b'. by rewrite Nat.add_succ_r.
Qed.

(** A key that the invariant places in a bucket is in no other one. *)
Lemma placed_in h key i bs k v :
  hm_ok h -> get_hash h key = Ok (Z.of_nat i) -> h.(buckets) !! i = Some bs ->
  (k, v) ∈ entries h -> k = key -> exists b, b ∈ bs /\ kv b = (key, v).
Proof.
  intros [_ Hp _] Hh Hbs (j & bs' & b & Hj & Hb & Hkv)%elem_of_entries ->.
  pose proof (Hp j bs' b Hj Hb) as Hx. unfold kv in Hkv. injection Hkv as Hk Hv.
  unfold get_hash in Hh. rewrite Hk in Hx. rewrite Hh in Hx. injection Hx as Hx.
  assert (i = j) as <- by lia. simplify_eq. by exists b.
Qed.

Lemma hm_get_map h key : hm_ok h -> hm_get h key = Ok (to_map h !! key).
Proof.
  intros Hok. destruct (bucket_at_hash h key Hok) as (i & bs & Hh & Hl & Hb).
  unfold hm_get. rewrite Hh. simpl. rewrite Hb. simpl. f_equal. symmetry.
  unfold to_map. destruct (find_key key bs) as [v|] eqn:Hf.
  - apply elem_of_list_to_map; [apply Hok|]. apply elem_of_entries.
    apply find_key_Some in Hf as (b & Hin & Hkv). by exists i, bs, b.
  - apply not_elem_of_list_to_map. intros ([k v] & Hk & Hin)%list_elem_of_fmap.
    destruct (placed_in h key i bs k v Hok Hh Hl Hin (eq_sym Hk)) as (b & Hb' & Hkv).
    apply find_key_None in Hf. apply Hf. apply list_elem_of_fmap. exists b.
    unfold kv in Hkv. by simplify_eq.
Qed.
(** Replacing the bucket list at [i] keeps the invariant when the new list
  holds only keys of hash [i] and the keys stay distinct. *)
Lemma set_bucket_ok h i bs' u n :
  hm_ok h -> (i < length h.(buckets))%nat ->
  (forall b, b ∈ bs' -> get_hash h (bk_key b) = Ok (Z.of_nat i)) ->
  NoDup (entries (mkMap (<[i := bs']> h.(buckets)) u n)).*1 ->
  hm_ok (mkMap (<[i := bs']> h.(buckets)) u n).
Proof.
  intros [Hn Hp _] Hi Hb Hnd. split; [|intros j l b|done];
    unfold n_buckets; simpl; rewrite length_insert; [done|].
  intros Hj Hin. apply list_lookup_insert_Some in Hj as [(<- & <- & _)|[_ Hj]].
  - by apply Hb.
  - by eapply Hp.
Qed.

Lemma bucket_hashes h i bs b :
  hm_ok h -> h.(buckets) !! i = Some bs -> b ∈ bs ->
  get_hash h (bk_key b) = Ok (Z.of_nat i).
Proof. intros [_ Hp _] Hi Hb. by eapply Hp. Qed.

(** Appending a bucket with a fresh key. *)
Lemma push_bucket_ok h i bs b u n :
  hm_ok h -> h.(buckets) !! i = Some bs -> get_hash h (bk_key b) = Ok (Z.of_nat i) ->
  bk_key b ∉ (entries h).*1 ->
  let h' := mkMap (<[i := bs ++ [b]]> h.(buckets)) u n in
  hm_ok h' /\ entries h' ≡ₚ kv b :: entries h.
Proof.
  intros Hok Hl Hh Hf h'.
  destruct (entries_set h.(buckets) i bs (bs ++ [b]) (containers_used h) u (hm_len h) n Hl)
    as (rest & E1 & E2).
  assert (E : entries h' ≡ₚ kv b :: entries h).
  { unfold h'. rewrite E2. destruct h as [bk uu nn]. simpl in *. rewrite E1, fmap_app.
    simpl. solve_Permutation. }
  split; [|done]. apply set_bucket_ok; [done|by eapply lookup_lt_Some| |].
  - intros b' [Hb'|Hb']%elem_of_app; [by eapply bucket_hashes|].
    apply list_elem_of_singleton in Hb' as ->. done.
  - fold h'. rewrite E. simpl. constructor; [done|apply Hok].
Qed.

Lemma rehash_all_ok bs h :
  hm_ok h -> NoDup ((kv <$> bs) ++ entries h).*1 ->
  exists h', rehash_all (n_buckets h) h bs = Ok h' /\ hm_ok h' /\
    entries h' ≡ₚ (kv <$> bs) ++ entries h /\ n_buckets h' = n_buckets h /\
    hm_len h' = hm_len h.
Proof.
  revert h. induction bs as [|b bs IH]; intros h Hok Hnd; [by exists h|].
  destruct (bucket_at_hash h (bk_key b) Hok) as (i & l & Hh & Hl & Hb).
  set (b' := mkBucket (Z.of_nat i) (bk_key b) (bk_value b)).
  simpl in Hnd. apply NoDup_cons in Hnd as [Hnin Hnd].
  rewrite fmap_app, elem_of_app in Hnin.
  set (u := match l with [] => containers_used h + 1 | _ => containers_used h end).
  destruct (push_bucket_ok h i l b' u (hm_len h) Hok Hl Hh) as [Hok' E].
  { simpl. tauto. }
  set (h1 := mkMap _ u (hm_len h)) in *.
  assert (Hn : n_buckets h1 = n_buckets h).
  { unfold n_buckets. simpl. by rewrite length_insert. }
  destruct (IH h1 Hok') as (h' & Hr & Hok'' & E' & Hn' & Hlen).
  { rewrite E. rewrite fmap_app. simpl. rewrite <- Permutation_middle.
    constructor; [by rewrite elem_of_app|by rewrite <- fmap_app]. }
  exists h'. split.
  - simpl. unfold rehash_one, get_rehash. unfold get_hash in Hh. rewrite Hh. simpl.
    rewrite Hb. simpl. rewrite Nat2Z.id. rewrite <- Hn. exact Hr.
  - split; [done|]. split; [|by rewrite Hn', Hlen].
    rewrite E', E. simpl. unfold kv at 2. simpl. by rewrite Permutation_middle.
Qed.

Lemma join_replicate_nil n : mjoin (replicate n (@nil Bucket)) = [].
Proof. induction n; simpl; done. Qed.

Lemma grow_ok h :
  hm_ok h -> n_buckets h < 2 ^ 61 - 1 ->
  exists h', grow h = Ok h' /\ hm_ok h' /\ entries h' ≡ₚ entries h /\
    n_buckets h' = 2 * n_buckets h + 1 /\ hm_len h' = hm_len h.
Proof.
  intros Hok Hn. pose proof (hm_nonempty _ Hok) as Hp. unfold grow.
  rewrite usize_small by lia. set (nc := n_buckets h * 2 + 1).
  set (h0 := mkMap _ 0 (hm_len h)).
  assert (Hn0 : n_buckets h0 = nc).
  { unfold n_buckets. simpl. rewrite length_replicate. unfold nc. lia. }
  assert (E0 : entries h0 = []).
  { unfold entries. simpl. by rewrite join_replicate_nil. }
  rewrite <- Hn0. destruct (rehash_all_ok (mjoin h.(buckets)) h0) as (h' & Hr & Hok' & E & N & L).
  - split; [unfold nc in *; lia| |by rewrite E0; constructor].
    intros i bs b Hi Hb. apply lookup_replicate in Hi as [-> _]. set_solver.
  - rewrite E0, app_nil_r. apply Hok.
  - exists h'. rewrite E0, app_nil_r in E. split_and!; try done. unfold nc in *. lia.
Qed.

Lemma to_map_perm h h' : hm_ok h -> entries h' ≡ₚ entries h -> to_map h' = to_map h.
Proof.
  intros Hok E. unfold to_map. symmetry.
  apply list_to_map_proper; [apply Hok|by symmetry].
Qed.

(** Rewriting or deleting the bucket that holds a key. *)
Lemma set_found_ok h i j bs b v u n :
  hm_ok h -> h.(buckets) !! i = Some bs -> bs !! j = Some b ->
  let h' := mkMap (<[i := <[j := mkBucket (bk_hash b) (bk_key b) v]> bs]> h.(buckets)) u n in
  hm_ok h' /\ to_map h !! bk_key b = Some (bk_value b) /\
  to_map h' = <[bk_key b := v]> (to_map h).
Proof.
  intros Hok Hl Hj h'. pose proof (bucket_hashes h i bs b Hok Hl (list_elem_of_lookup_2 _ _ _ Hj)) as Hh.
  apply lookup_split in Hj as (c1 & c2 & -> & ->).
  destruct (entries_set h.(buckets) i _ (c1 ++ mkBucket (bk_hash b) (bk_key b) v :: c2)
    (containers_used h) u (hm_len h) n Hl) as (rest & E1 & E2).
  unfold h' in *. clear h'. rewrite insert_app_r_alt, Nat.sub_diag by lia. simpl.
  assert (E : entries h ≡ₚ kv b :: ((kv <$> c1) ++ (kv <$> c2) ++ rest)).
  { destruct h as [bk uu nn]. simpl in *. rewrite E1, fmap_app. simpl. solve_Permutation. }
  assert (E' : (kv <$> c1 ++ mkBucket (bk_hash b) (bk_key b) v :: c2) ++ rest ≡ₚ
     (bk_key b, v) :: ((kv <$> c1) ++ (kv <$> c2) ++ rest)).
  { rewrite fmap_app. simpl. unfold kv at 2. simpl. solve_Permutation. }
  rewrite E' in E2. pose proof (hm_nodup _ Hok) as Hnd. rewrite E in Hnd.
  split; [|split].
  - apply set_bucket_ok; [done|by eapply lookup_lt_Some| |by rewrite E2].
    intros b' Hb'. apply elem_of_app in Hb' as [Hb'|Hb'].
    + eapply bucket_hashes; [done|done|]. set_solver.
    + apply elem_of_cons in Hb' as [->|Hb']; [done|].
      eapply bucket_hashes; [done|done|]. set_solver.
  - unfold to_map. apply elem_of_list_to_map; [apply Hok|]. rewrite E. set_solver.
  - unfold to_map. erewrite (list_to_map_proper _ _ _ E2). Unshelve. 2: by rewrite E2.
    rewrite (list_to_map_proper _ _ (hm_nodup _ Hok) E). simpl. unfold kv at 2.
    by rewrite insert_insert_eq.
Qed.

Lemma delete_found_ok h i j bs b u n :
  hm_ok h -> h.(buckets) !! i = Some bs -> bs !! j = Some b ->
  let h' := mkMap (<[i := delete j bs]> h.(buckets)) u n in
  hm_ok h' /\ to_map h !! bk_key b = Some (bk_value b) /\
  to_map h' = delete (bk_key b) (to_map h).
Proof.
  intros Hok Hl Hj h'. apply lookup_split in Hj as (c1 & c2 & -> & ->).
  unfold h' in *. clear h'. rewrite delete_middle.
  destruct (entries_set h.(buckets) i _ (c1 ++ c2)
    (containers_used h) u (hm_len h) n Hl) as (rest & E1 & E2).
  assert (E : entries h ≡ₚ kv b :: ((kv <$> c1 ++ c2) ++ rest)).
  { destruct h as [bk uu nn]. simpl in *. rewrite E1, !fmap_app. simpl. solve_Permutation. }
  rewrite <- E2 in E. pose proof (hm_nodup _ Hok) as Hnd. rewrite E in Hnd.
  simpl in Hnd. apply NoDup_cons in Hnd as [Hnin Hnd]. split; [|split].
  - apply set_bucket_ok; [done|by eapply lookup_lt_Some| |done].
    intros b' Hb'. eapply bucket_hashes; [done|done|]. set_solver.
  - unfold to_map. apply elem_of_list_to_map; [apply Hok|]. rewrite E. set_solver.
  - unfold to_map at 2. rewrite (list_to_map_proper _ _ (hm_nodup _ Hok) E). simpl.
    rewrite delete_insert_id; [done|].
    by apply not_elem_of_list_to_map.
Qed.

Lemma absent_in_map h key i bs :
  hm_ok h -> get_hash h key = Ok (Z.of_nat i) -> h.(buckets) !! i = Some bs ->
  (key ∉ bk_key <$> bs) -> key ∉ (entries h).*1 /\ to_map h !! key = None.
Proof.
  intros Hok Hh Hl Hn.
  assert (Hk : key ∉ (entries h).*1); [|by split; [|apply not_elem_of_list_to_map]].
  intros ([k v] & Hk & Hin)%list_elem_of_fmap.
  destruct (placed_in h key i bs k v Hok Hh Hl Hin (eq_sym Hk)) as (b & Hb' & Hkv).
  apply Hn. apply list_elem_of_fmap. exists b. unfold kv in Hkv. by simplify_eq.
Qed.

Lemma insert_no_grow h key value u n :
  hm_ok h ->
  exists i bs h',
    get_hash h key = Ok (Z.of_nat i) /\
    bucket_at h.(buckets) (Z.of_nat i) = Ok bs /\
    match find_index key bs 0 None with
    | None => Ok (None, mkMap (<[i := bs ++ [mkBucket (Z.of_nat i) key value]]> h.(buckets)) (u bs) n)
    | Some j =>
        match bs !! j with
        | None => Err (Panic "Array index out of bounds")
        | Some b => Ok (Some b.(bk_value),
            mkMap (<[i := <[j := mkBucket b.(bk_hash) b.(bk_key) value]> bs]> h.(buckets)) (u bs) n)
        end
    end = Ok (to_map h !! key, h') /\
    hm_ok h' /\ to_map h' = <[key := value]> (to_map h) /\ hm_len h' = n.
Proof.
  intros Hok. destruct (bucket_at_hash h key Hok) as (i & bs & Hh & Hl & Hb).
  exists i, bs.
  destruct (find_index_spec key bs 0 None) as [[-> Hn]|(j & b & -> & Hj & <-)].
  - destruct (absent_in_map h key i bs Hok Hh Hl Hn) as [Hf Hm].
    destruct (push_bucket_ok h i bs (mkBucket (Z.of_nat i) key value) (u bs) n Hok Hl Hh Hf)
      as [Hok' E].
    eexists. rewrite Hm. do 3 (split; [done|]). split; [done|]. split; [|done].
    unfold to_map. rewrite (list_to_map_proper _ _ (hm_nodup _ Hok') E). done.
  - destruct (set_found_ok h i j bs b value (u bs) n Hok Hl Hj) as (Hok' & Hm & Hm').
    eexists. simpl. rewrite Hj, Hm. by do 3 (split; [done|]).
Qed.

(** [insert] in full. *)
Lemma insert_ok h key value :
  hm_ok h -> n_buckets h < 2 ^ 61 - 1 ->
  exists h', insert h key value = Ok (to_map h !! key, h') /\ hm_ok h' /\
    to_map h' = <[key := value]> (to_map h) /\ hm_len h' = usize (hm_len h + 1).
Proof.
  intros Hok Hn. unfold insert.
  assert (exists h0, (if needs_grow h then grow h else Ok h) = Ok h0 /\ hm_ok h0 /\
    to_map h0 = to_map h /\ hm_len h0 = hm_len h) as (h0 & -> & Hok0 & <- & <-).
  { destruct (needs_grow h); [|by exists h].
    destruct (grow_ok h Hok Hn) as (h0 & Hg & Hok0 & E & _ & L). exists h0.
    split_and!; try done. by apply to_map_perm. }
  simpl. destruct (insert_no_grow h0 key value
    (λ bs, match bs with [] => containers_used h0 + 1 | _ => containers_used h0 end)
    (usize (hm_len h0 + 1)) Hok0) as (i & bs & h' & Hh & Hb & Hr & Hok' & Hm & L).
  exists h'. rewrite Hh. simpl. rewrite Hb. simpl. rewrite Nat2Z.id. done.
Qed.

(** How far an [insert] may grow the table. *)
Lemma insert_buckets h key value o h' :
  hm_ok h -> n_buckets h < 2 ^ 61 - 1 -> insert h key value = Ok (o, h') ->
  n_buckets h' <= Z.max (n_buckets h) (4 * hm_len h + 5).
Proof.
  intros Hok Hn. unfold insert.
  assert (exists h0, (if needs_grow h then grow h else Ok h) = Ok h0 /\ hm_ok h0 /\
    n_buckets h0 <= Z.max (n_buckets h) (4 * hm_len h + 5)) as (h0 & -> & Hok0 & Hle).
  { unfold needs_grow. pose proof (hm_nonempty _ Hok).
    destruct (_ || _) eqn:E; [|exists h; split; [done|]; split; [done|lia]].
    destruct (grow_ok h Hok Hn) as (h0 & Hg & Hok0 & _ & N & _). exists h0.
    split; [done|]. split; [done|]. rewrite N.
    apply orb_true_iff in E as [[E%Z.leb_le _]%andb_true_iff|E%Z.eqb_eq].
    - pose proof (Z.div_mod (n_buckets h) 2). pose proof (Z.mod_pos_bound (n_buckets h) 2). lia.
    - rewrite usize_small in E by lia. lia. }
  simpl. destruct (bucket_at_hash h0 key Hok0) as (i & bs & Hh & Hl & Hb).
  rewrite Hh. simpl. rewrite Hb. simpl. intros H.
  assert (n_buckets h' = n_buckets h0); [|lia].
  unfold n_buckets. destruct (find_index key bs 0 None) as [j|].
  - destruct (bs !! j); [|done]. injection H as _ <-. simpl. by rewrite length_insert.
  - injection H as _ <-. simpl. by rewrite length_insert.
Qed.

Lemma remove_ok h key :
  hm_ok h ->
  exists h', remove h key = Ok (to_map h !! key, h') /\ hm_ok h' /\
    to_map h' = delete key (to_map h) /\ hm_len h' = usize (hm_len h - 1).
Proof.
  intros Hok. unfold remove. destruct (bucket_at_hash h key Hok) as (i & bs & Hh & Hl & Hb).
  rewrite Hh. simpl. rewrite Hb. simpl. rewrite Nat2Z.id.
  destruct (find_index_spec key bs 0 None) as [[-> Hn]|(j & b & -> & Hj & <-)].
  - destruct (absent_in_map h key i bs Hok Hh Hl Hn) as [_ Hm]. eexists. rewrite Hm.
    split; [done|]. destruct Hok as [H1 H2 H3]. split; [by split|]. split; [|done].
    change (to_map (mkMap (buckets h) (containers_used h) (usize (hm_len h - 1)))) with (to_map h).
    by rewrite delete_id.
  - simpl. rewrite Hj. destruct (delete_found_ok h i j bs b (containers_used h)
      (usize (hm_len h - 1)) Hok Hl Hj) as (Hok' & -> & Hm).
    eexists. by split_and!.
Qed.

Lemma replace_ok h key value :
  hm_ok h ->
  exists h', replace h key value = Ok (to_map h !! key, h') /\ hm_ok h' /\
    to_map h' = alter (λ _, value) key (to_map h) /\ hm_len h' = hm_len h.
Proof.
  intros Hok. unfold replace. destruct (bucket_at_hash h key Hok) as (i & bs & Hh & Hl & Hb).
  rewrite Hh. simpl. rewrite Hb. simpl. rewrite Nat2Z.id.
  destruct (find_index_spec key bs 0 None) as [[-> Hn]|(j & b & -> & Hj & <-)].
  - destruct (absent_in_map h key i bs Hok Hh Hl Hn) as [_ Hm]. exists h. rewrite Hm.
    split_and!; try done. apply map_eq. intros k. destruct (decide (k = key)) as [->|Hne].
    + by rewrite lookup_alter_eq, Hm.
    + by rewrite lookup_alter_ne.
  - simpl. rewrite Hj. destruct (set_found_ok h i j bs b value (containers_used h)
      (hm_len h) Hok Hl Hj) as (Hok' & Hx & Hm).
    eexists. rewrite Hx. split_and!; try done. rewrite Hm. apply map_eq. intros k.
    destruct (decide (k = bk_key b)) as [->|Hne].
    + by rewrite lookup_insert_eq, lookup_alter_eq, Hx.
    + by rewrite lookup_insert_ne, lookup_alter_ne.
Qed.

Lemma update_key_spec key f bs :
  (update_key key f bs = None /\ key ∉ bk_key <$> bs) \/
  (exists j b, bs !! j = Some b /\ bk_key b = key /\
     update_key key f bs =
       Some (bk_value b, <[j := mkBucket (bk_hash b) (bk_key b) (f (bk_value b))]> bs)).
Proof.
  induction bs as [|b bs IH]; simpl; [left; set_solver|].
  case_decide as Hd; [right; by exists 0%nat, b|].
  destruct IH as [[-> Hn]|(j & b' & Hj & Hk & ->)].
  - left. set_solver.
  - right. by exists (S j), b'.
Qed.

Lemma get_mut_ok h key f :
  hm_ok h ->
  exists h', hm_get_mut h key f = Ok (to_map h !! key, h') /\ hm_ok h' /\
    to_map h' = alter f key (to_map h).
Proof.
  intros Hok. unfold hm_get_mut. destruct (bucket_at_hash h key Hok) as (i & bs & Hh & Hl & Hb).
  rewrite Hh. simpl. rewrite Hb. simpl. rewrite Nat2Z.id.
  destruct (update_key_spec key f bs) as [[-> Hn]|(j & b & Hj & <- & ->)].
  - destruct (absent_in_map h key i bs Hok Hh Hl Hn) as [_ Hm]. exists h. rewrite Hm.
    split_and!; [done|done|]. apply map_eq. intros k. destruct (decide (k = key)) as [->|Hne].
    + by rewrite lookup_alter_eq, Hm.
    + by rewrite lookup_alter_ne.
  - destruct (set_found_ok h i j bs b (f (bk_value b)) (containers_used h)
      (hm_len h) Hok Hl Hj) as (Hok' & Hx & Hm).
    eexists. rewrite Hx. split_and!; [done|done|]. rewrite Hm. apply map_eq. intros k.
    destruct (decide (k = bk_key b)) as [->|Hne].
    + by rewrite lookup_insert_eq, lookup_alter_eq, Hx.
    + by rewrite lookup_insert_ne, lookup_alter_ne.
Qed.

Lemma with_capacity_ok n :
  0 < n < 2 ^ 61 ->
  exists h, hm_with_capacity n = Ok h /\ hm_ok h /\ to_map h = ∅ /\ n_buckets h = n.
Proof.
  intros Hn. unfold hm_with_capacity. destruct (Z.leb_spec n 0); [lia|]. eexists.
  split; [done|]. assert (E : entries (mkMap (replicate (Z.to_nat n) []) 0 0) = []).
  { unfold entries. simpl. by rewrite join_replicate_nil. }
  assert (N : n_buckets (mkMap (replicate (Z.to_nat n) []) 0 0) = n).
  { unfold n_buckets. simpl. rewrite length_replicate. lia. }
  split; [|split; [|done]].
  - split; [lia| |by rewrite E; constructor].
    intros i bs b Hi Hb. apply lookup_replicate in Hi as [-> _]. set_solver.
  - unfold to_map. by rewrite E.
Qed.
Lemma or_insert_ok h key value :
  hm_ok h -> n_buckets h < 2 ^ 61 - 1 ->
  exists h', or_insert h key value = Ok (default value (to_map h !! key), h') /\ hm_ok h' /\
    to_map h' = <[key := default value (to_map h !! key)]> (to_map h).
Proof.
  intros Hok Hn. unfold or_insert. rewrite hm_get_map by done. simpl.
  destruct (to_map h !! key) as [v|] eqn:Hv; simpl.
  - exists h. by rewrite insert_id.
  - destruct (insert_ok h key value Hok Hn) as (h' & Hi & Hok' & Hm & _).
    exists h'. rewrite Hi. simpl. unfold hm_index. rewrite hm_get_map by done. simpl.
    by rewrite Hm, lookup_insert_eq.
Qed.

(** C32: [HashMap] implements a finite map.  On a map that satisfies its
  invariant, [get], [contains] and indexing read the map [to_map h] (indexing
  panics on an absent key); [insert] returns the old value and updates the
  key, through a rehash of every bucket when the table grows; [replace]
  updates only a present key; [remove] deletes it; [entry(k).or_insert(v)]
  gives the present value or inserts [v]; a change through the reference of
  [get_mut] changes the value of that key only.  None of them fails, and all
  keep the invariant. *)
Theorem hashmap_refines_map h key value f :
  hm_ok h -> n_buckets h < 2 ^ 61 - 1 ->
  let m := to_map h in
  hm_get h key = Ok (m !! key) /\
  contains h key = Ok (bool_decide (is_Some (m !! key))) /\
  hm_index h key = match m !! key with
                   | Some v => Ok v
                   | None => Err (Panic "Key not present in map")
                   end /\
  (exists h', insert h key value = Ok (m !! key, h') /\ hm_ok h' /\
     to_map h' = <[key := value]> m) /\
  (exists h', replace h key value = Ok (m !! key, h') /\ hm_ok h' /\
     to_map h' = alter (λ _, value) key m) /\
  (exists h', remove h key = Ok (m !! key, h') /\ hm_ok h' /\
     to_map h' = delete key m) /\
  (exists h', or_insert h key value = Ok (default value (m !! key), h') /\ hm_ok h' /\
     to_map h' = <[key := default value (m !! key)]> m) /\
  (exists h', hm_get_mut h key f = Ok (m !! key, h') /\ hm_ok h' /\
     to_map h' = alter f key m).
Proof.
  intros Hok Hn m.
  split; [by apply hm_get_map|].
  split; [unfold contains; by rewrite hm_get_map|].
  split; [unfold hm_index; rewrite hm_get_map by done; simpl; unfold m; by destruct (to_map h !! key)|].
  split; [destruct (insert_ok h key value Hok Hn) as (h' & ? & ? & ? & _); by exists h'|].
  split; [destruct (replace_ok h key value Hok) as (h' & ? & ? & ? & _); by exists h'|].
  split; [destruct (remove_ok h key Hok) as (h' & ? & ? & ? & _); by exists h'|].
  split; [by apply or_insert_ok|by apply get_mut_ok].
Qed.

(** The [len] field does not count the keys.  Every [insert] adds 1, also
  one that overwrites, and every [remove] subtracts 1, also of an absent key,
  so removing from a map with [len = 0] makes it 2^64 - 1. *)
Theorem len_counts_calls h key value :
  hm_ok h -> n_buckets h < 2 ^ 61 - 1 ->
  (exists o h', insert h key value = Ok (o, h') /\ hm_len h' = usize (hm_len h + 1)) /\
  (exists o h', remove h key = Ok (o, h') /\ hm_len h' = usize (hm_len h - 1)).
Proof.
  intros Hok Hn.
  destruct (insert_ok h key value Hok Hn) as (h1 & ? & _ & _ & ?).
  destruct (remove_ok h key Hok) as (h2 & ? & _ & _ & ?).
  split; [by exists (to_map h !! key), h1|by exists (to_map h !! key), h2].
Qed.
End HashMap.
Arguments Bucket : clear implicits.
Arguments HashMap : clear implicits.

(** ** [HashSet<K>], a [HashMap<K, ()>] *)
Section HashSet.
Context {K : Type} {EqK : EqDecision K} {CK : Countable K} {HK : Hash K}.

Definition HashSet : Type := HashMap K unit.

Definition hs_new : result HashSet := hm_new.
Definition hs_with_capacity (capacity : Z) : result HashSet := hm_with_capacity capacity.
Definition hs_insert (s : HashSet) (val : K) : result HashSet :=
  '(_, s') ← insert s val tt; Ok s'.
Definition hs_remove (s : HashSet) (val : K) : result HashSet :=
  '(_, s') ← remove s val; Ok s'.
Definition hs_contains (s : HashSet) (val : K) : result bool := contains s val.

Definition to_set (s : HashSet) : gset K := dom (to_map s).

(** [HashSet] implements a finite set: [contains] is membership, [insert]
  adds the element and [remove] takes it away, on every set that satisfies
  the invariant, and both keep the invariant. *)
Theorem hashset_refines_set s x :
  hm_ok s -> n_buckets s < 2 ^ 61 - 1 ->
  hs_contains s x = Ok (bool_decide (x ∈ to_set s)) /\
  (exists s', hs_insert s x = Ok s' /\ hm_ok s' /\ to_set s' = {[x]} ∪ to_set s) /\
  (exists s', hs_remove s x = Ok s' /\ hm_ok s' /\ to_set s' = to_set s ∖ {[x]}).
Proof.
  intros Hok Hn. unfold to_set. split; [|split].
  - unfold hs_contains, contains. rewrite hm_get_map by done. simpl. f_equal.
    apply bool_decide_ext. by rewrite elem_of_dom.
  - destruct (insert_ok s x tt Hok Hn) as (s' & Hi & Hok' & Hm & _). exists s'.
    unfold hs_insert. rewrite Hi, Hm. simpl. by rewrite dom_insert_L.
  - destruct (remove_ok s x Hok) as (s' & Hi & Hok' & Hm & _). exists s'.
    unfold hs_remove. rewrite Hi, Hm. simpl. by rewrite dom_delete_L.
Qed.
End HashSet.

(** ** Witnesses: a table of three buckets over [Z] whose hash is the identity *)
Definition id_hash : Hash Z := λ x, x.

Definition map3 : HashMap Z Z := mkMap [[]; [mkBucket 1 4 40]; [mkBucket 2 5 50]] 2 2.

Lemma map3_ok : hm_ok (HK := id_hash) map3.
Proof.
  split; [vm_compute; by split| |].
  - intros i bs b Hi Hb. do 3 (destruct i as [|i]; simpl in Hi; [simplify_eq; repeat (apply elem_of_cons in Hb as [->|Hb]; [done|]); by apply elem_of_nil in Hb|]).
    done.
  - change (NoDup [4; 5]). by apply (bool_decide_unpack _).
Qed.

Lemma hashmap_refines_map_witness :
  insert (HK := id_hash) map3 4 41 =
    Ok (Some 40, mkMap [[]; []; []; []; [mkBucket 4 4 41]; [mkBucket 5 5 50]; []] 2 3) /\
  hm_get (HK := id_hash) map3 4 = Ok (to_map map3 !! 4).
Proof.
  split; [vm_compute; reflexivity|].
  refine (proj1 (hashmap_refines_map (HK := id_hash) map3 4 0 Z.succ map3_ok _)).
  vm_compute. reflexivity.
Defined.

Lemma len_counts_calls_witness :
  exists o h', insert (HK := id_hash) map3 4 41 = Ok (o, h') /\ hm_len h' = 3.
Proof.
  refine (proj1 (len_counts_calls (HK := id_hash) map3 4 41 map3_ok _)).
  vm_compute. reflexivity.
Defined.

Definition set2 : HashSet (K := Z) := mkMap [[]; [mkBucket 1 3 tt]] 1 1.

Lemma hashset_refines_set_witness :
  hs_contains (HK := id_hash) set2 3 = Ok (bool_decide (3 ∈ to_set set2)).
Proof.
  refine (proj1 (hashset_refines_set (HK := id_hash) set2 3 _ _)).
  - split; [vm_compute; by split| |].
    + intros i bs b Hi Hb. do 2 (destruct i as [|i]; simpl in Hi; [simplify_eq; repeat (apply elem_of_cons in Hb as [->|Hb]; [done|]); by apply elem_of_nil in Hb|]).
      done.
    + change (NoDup [3]). by apply (bool_decide_unpack _).
  - vm_compute. reflexivity.
Defined.
