(* ===== verification/Bin.v ===== *)
(** * Thread cache bins

    Models [ThreadCacheBin] of [src/src/thread_cache.rs], the stack of free
    blocks of one size class that a thread owns.  The stack is threaded through
    the first word of the free blocks.  When the size of the blocks is known, a
    link of 0 stands for the block that follows in memory and a link of 2^64-1
    for the end of the list, so that the untouched (zero) memory of a new
    superblock is a list of blocks; when it is not known, links are plain
    pointers.  The feature [no_met_stack], which turns this encoding off, is
    not enabled; [ThreadBins] has the bins of a build with it. *)
From S2P Require Import Prelude MemInfo Mem.

Record ThreadCacheBin : Type := mkBin {
  block : Z;
  bin_block_num : Z;
  bin_block_size : option Z;
}.

#[global] Instance ThreadCacheBin_eq_dec : EqDecision ThreadCacheBin.
Proof. solve_decision. Defined.

Definition bin_new : ThreadCacheBin := mkBin 0 0 None.

Definition push_block (c : ThreadCacheBin) (b : Z) : M Os ThreadCacheBin :=
  match c.(bin_block_size) with
  | Some bs =>
      if bs <? CACHE_LINE then
        write_ptr b (if c.(block) - b =? bs then 0 else c.(block));;
        mret (mkBin b (u32 (c.(bin_block_num) + 1)) c.(bin_block_size))
      else
        write_ptr b c.(block);;
        mret (mkBin b (u32 (c.(bin_block_num) + 1)) c.(bin_block_size))
  | None =>
      write_ptr b c.(block);;
      mret (mkBin b (u32 (c.(bin_block_num) + 1)) c.(bin_block_size))
  end.

Definition push_list (c : ThreadCacheBin) (b length : Z) : result ThreadCacheBin :=
  if c.(bin_block_num) >? 0
  then Err (Panic "Attempting to push a block list while cache is not empty")
  else Ok (mkBin b length c.(bin_block_size)).

Definition pop_block (c : ThreadCacheBin) : M Os (Z * ThreadCacheBin) :=
  if c.(bin_block_num) =? 0
  then fail (Panic "Attempting to pop a block from cache while cache is empty")
  else
    let ret := c.(block) in
    let n := u32 (c.(bin_block_num) - 1) in
    match c.(bin_block_size) with
    | None =>
        if c.(block) =? 0 then mret (0, c)
        else next ← read_ptr c.(block);
             mret (ret, mkBin next n c.(bin_block_size))
    | Some bs =>
        block_read ← read_ptr c.(block);
        if block_read =? 0 then
          mret (ret, mkBin (usize (c.(block) + bs)) n c.(bin_block_size))
        else if block_read =? USIZE_MAX then
          mret (ret, mkBin 0 n c.(bin_block_size))
        else
          next ← read_ptr c.(block);
          mret (ret, mkBin next n c.(bin_block_size))
    end.

Definition pop_list (c : ThreadCacheBin) (b length : Z) : result ThreadCacheBin :=
  if c.(bin_block_num) <? length
  then Err (Panic "The block_num must be greater than or equal to the provided length")
  else Ok (mkBin b (c.(bin_block_num) - length) c.(bin_block_size)).

Definition peek_block (c : ThreadCacheBin) : Z := c.(block).
Definition bin_get_block_num (c : ThreadCacheBin) : Z := c.(bin_block_num).

(** ** The list of blocks that a bin holds

    [link_next bs b v]: the block after [b] when the first word of [b] is [v]. *)
Definition link_next (bs : option Z) (b v : Z) : Z :=
  match bs with
  | None => v
  | Some n => if v =? 0 then b + n else if v =? USIZE_MAX then 0 else v
  end.

(** [chain bs m p l]: from [p], memory [m] links the blocks [l] one after the
    other.  Nothing is said of the link of the last block: the bin counts. *)
Fixpoint chain (bs : option Z) (m : gmap Z Z) (p : Z) (l : list Z) : Prop :=
  match l with
  | [] => True
  | b :: l' => b = p /\ 0 < b < ADDR_LIMIT /\
               chain bs m (link_next bs b (load 8 m b)) l'
  end.

(** The blocks of a bin: [l], all within mapped memory. *)
Record bin_holds (o : Os) (c : ThreadCacheBin) (l : list Z) : Prop := {
  bin_chain : chain c.(bin_block_size) o.(mem) c.(block) l;
  bin_count : c.(bin_block_num) = Z.of_nat (length l);
  bin_small : Z.of_nat (length l) < 2 ^ 32 - 1;
  bin_mapped : Forall (λ b, mapped o.(segs) b 8 = true) l;
}.

(** ** Lemmas *)
Lemma chain_frame bs m m' p l :
  (forall b, b ∈ l -> load 8 m' b = load 8 m b) -> chain bs m p l -> chain bs m' p l.
Proof.
  revert p. induction l as [|b l IH]; intros p Hm; simpl; [done|].
  intros (-> & Hb & Hc). split; [done|]. split; [done|].
  rewrite Hm by set_solver. apply IH; [|done]. set_solver.
Qed.

(** A bin that holds nothing has count 0, whatever its other fields are. *)
Lemma bin_new_holds o : bin_holds o bin_new [].
Proof. split; simpl; [done|done|lia|constructor]. Qed.

(** The word that [push_block] writes links the new block to the old top. *)
Definition push_link (c : ThreadCacheBin) (b : Z) : Z :=
  match c.(bin_block_size) with
  | Some bs => if (bs <? CACHE_LINE) && (c.(block) - b =? bs) then 0 else c.(block)
  | None => c.(block)
  end.

Lemma push_block_eq c b o :
  mapped o.(segs) b 8 = true ->
  push_block c b o =
    Ok (mkBin b (u32 (c.(bin_block_num) + 1)) c.(bin_block_size),
        mkOs (store 8 o.(mem) b (push_link c b)) o.(segs) o.(calls)).
Proof.
  intros Hm. unfold push_block, push_link. destruct (bin_block_size c) as [bs|].
  - destruct (bs <? CACHE_LINE); simpl;
      rewrite (bind_Ok _ _ _ _ _ (write_ptr_ok _ _ _ Hm)); done.
  - by rewrite (bind_Ok _ _ _ _ _ (write_ptr_ok _ _ _ Hm)).
Qed.

Lemma push_link_next c b p l m :
  chain c.(bin_block_size) m p l -> p = c.(block) -> l <> [] ->
  link_next c.(bin_block_size) b (push_link c b) = p.
Proof.
  intros Hc -> Hl. destruct l as [|b' l]; [done|]. simpl in Hc.
  destruct Hc as (-> & Hb & _). unfold push_link, link_next.
  change ADDR_LIMIT with (2 ^ 48) in Hb. unfold USIZE_MAX.
  destruct (bin_block_size c) as [bs|]; [|done].
  destruct (bs <? CACHE_LINE) eqn:Hs; simpl.
  - destruct (Z.eqb_spec (block c - b) bs); [rewrite Z.eqb_refl; lia|].
    destruct (Z.eqb_spec (block c) 0); [lia|].
    destruct (Z.eqb_spec (block c) (2 ^ 64 - 1)); [lia|done].
  - destruct (Z.eqb_spec (block c) 0); [lia|].
    destruct (Z.eqb_spec (block c) (2 ^ 64 - 1)); [lia|done].
Qed.

Lemma push_link_u64 c b p l m :
  chain c.(bin_block_size) m p l -> p = c.(block) -> l <> [] -> 0 <= push_link c b < 2 ^ 64.
Proof.
  intros Hc -> Hl. destruct l as [|b' l]; [done|]. simpl in Hc.
  destruct Hc as (-> & Hb & _). change ADDR_LIMIT with (2 ^ 48) in Hb.
  unfold push_link. repeat case_match; lia.
Qed.

(** Pushing a block puts it on top, if it does not overlap the first words of
    the blocks below it. *)
Lemma push_block_holds o c l b :
  bin_holds o c l -> 0 < b < ADDR_LIMIT -> mapped o.(segs) b 8 = true ->
  Z.of_nat (length l) < 2 ^ 32 - 2 ->
  Forall (λ x, disjoint_ranges b 8 x 8) l ->
  exists c' o', push_block c b o = Ok (c', o') /\
    o' = mkOs (store 8 o.(mem) b (push_link c b)) o.(segs) o.(calls) /\
    c'.(bin_block_size) = c.(bin_block_size) /\
    bin_holds o' c' (b :: l).
Proof.
  intros [Hc Hn Hs Hm] Hb Hmb Hl Hd. eexists _, _.
  split; [by apply push_block_eq|]. split; [done|]. split; [done|].
  assert (Hframe : forall x, x ∈ l ->
    load 8 (store 8 (mem o) b (push_link c b)) x = load 8 (mem o) x).
  { intros x Hx. apply load_store_other. rewrite Forall_forall in Hd. by apply Hd. }
  split; simpl.
  - split; [done|]. split; [done|]. destruct l as [|x l']; [done|].
    rewrite load_store_ptr by (by eapply push_link_u64).
    erewrite push_link_next by done. by apply chain_frame with (m := mem o).
  - rewrite u32_small by lia. lia.
  - lia.
  - by constructor.
Qed.

(** Popping takes the top block off and changes no memory. *)
Lemma pop_block_holds o c b l :
  bin_holds o c (b :: l) ->
  (forall n, c.(bin_block_size) = Some n -> 0 <= n < 2 ^ 32) ->
  exists c', pop_block c o = Ok ((b, c'), o) /\
    c'.(bin_block_size) = c.(bin_block_size) /\ bin_holds o c' l.
Proof.
  intros [Hc Hn Hs Hm] Hbs. simpl in Hc. destruct Hc as (-> & Hb & Hc).
  apply Forall_cons in Hm as [Hm Hml]. simpl length in *.
  assert (Hu : u32 (bin_block_num c - 1) = Z.of_nat (length l)) by (rewrite u32_small; lia).
  unfold pop_block. destruct (Z.eqb_spec (bin_block_num c) 0); [lia|].
  change ADDR_LIMIT with (2 ^ 48) in Hb.
  destruct (bin_block_size c) as [bs|] eqn:Ebs.
  - rewrite (bind_Ok _ _ _ _ _ (read_ptr_ok _ _ Hm)).
    pose proof (Hbs bs eq_refl) as Hr.
    unfold link_next in Hc.
    destruct (load 8 (mem o) (block c) =? 0) eqn:E0.
    + eexists. split; [done|]. simpl. split; [done|].
      rewrite usize_small by lia. by constructor; simpl; try lia.
    + destruct (load 8 (mem o) (block c) =? USIZE_MAX) eqn:E1.
      * eexists. split; [done|]. simpl. split; [done|]. by constructor; simpl; try lia.
      * rewrite (bind_Ok _ _ _ _ _ (read_ptr_ok _ _ Hm)).
        eexists. split; [done|]. simpl. split; [done|]. by constructor; simpl; try lia.
  - destruct (Z.eqb_spec (block c) 0); [lia|].
    rewrite (bind_Ok _ _ _ _ _ (read_ptr_ok _ _ Hm)).
    eexists. split; [done|]. simpl. split; [done|]. by constructor; simpl; try lia.
Qed.

(** ** The blocks of a superblock *)
Definition sb_blocks (p bs n : Z) : list Z := (λ i, p + i * bs) <$> range 0 n.

Lemma elem_of_sb_blocks p bs n b :
  b ∈ sb_blocks p bs n <-> exists i, 0 <= i < n /\ b = p + i * bs.
Proof.
  unfold sb_blocks. rewrite list_elem_of_fmap. split.
  - intros (i & -> & Hi%elem_of_range). by exists i.
  - intros (i & Hi & ->). exists i. by rewrite elem_of_range.
Qed.

Lemma sb_blocks_nodup p bs n : 0 < bs -> NoDup (sb_blocks p bs n).
Proof.
  intros Hb. unfold sb_blocks. apply NoDup_fmap_2; [|apply NoDup_seqZ].
  intros i j H. nia.
Qed.

Lemma sb_blocks_length p bs n : 0 <= n -> Z.of_nat (length (sb_blocks p bs n)) = n.
Proof. intros Hn. unfold sb_blocks, range. rewrite length_fmap, length_seqZ. lia. Qed.

(** Two blocks of one superblock are apart. *)
Lemma sb_blocks_apart p bs n b b' :
  0 < bs -> b ∈ sb_blocks p bs n -> b' ∈ sb_blocks p bs n -> b <> b' ->
  disjoint_ranges b bs b' bs.
Proof.
  intros Hb (i & Hi & ->)%elem_of_sb_blocks (j & Hj & ->)%elem_of_sb_blocks Hne.
  unfold disjoint_ranges. destruct (Z.lt_total i j) as [|[->|]]; [left; nia|done|right; nia].
Qed.

(** Zero memory, up to the link of the last block, is a list of the blocks. *)
Lemma sb_chain bs m p n : forall lo,
  0 < p -> 8 <= bs -> 0 <= lo -> p + (lo + Z.of_nat n) * bs <= ADDR_LIMIT ->
  (forall i, lo <= i < lo + Z.of_nat n - 1 -> load 8 m (p + i * bs) = 0) ->
  chain (Some bs) m (p + lo * bs) ((λ i, p + i * bs) <$> range lo (lo + Z.of_nat n)).
Proof.
  induction n as [|n IH]; intros lo Hp Hbs Hlo Hlim Hz.
  { by rewrite range_nil by lia. }
  rewrite range_cons, fmap_cons by lia. split; [done|]. split; [nia|].
  destruct n as [|n].
  { by rewrite range_nil by lia. }
  rewrite Hz by lia. unfold link_next. rewrite Z.eqb_refl.
  replace (p + lo * bs + bs) with (p + (lo + 1) * bs) by lia.
  replace (lo + Z.of_nat (S (S n))) with (lo + 1 + Z.of_nat (S n)) by lia.
  apply IH; [lia|lia|lia|lia|]. intros i Hi. apply Hz. lia.
Qed.

Lemma new_sb_chain bs m p n :
  0 < p -> 8 <= bs -> 0 <= n -> p + n * bs <= ADDR_LIMIT ->
  (forall i, 0 <= i < n - 1 -> load 8 m (p + i * bs) = 0) ->
  chain (Some bs) m p (sb_blocks p bs n).
Proof.
  intros Hp Hbs Hn Hlim Hz. unfold sb_blocks.
  pose proof (sb_chain bs m p (Z.to_nat n) 0) as H.
  rewrite Z.mul_0_l, Z.add_0_r, Z.add_0_l, Z2Nat.id in H by lia. apply H; try done; lia.
Qed.

(** ** Properties *)

(** C20: a bin is a stack.  Pushing a block that does not overlap the blocks of
    the bin puts it on top, writing only its first word; popping then returns
    it, changes no memory and leaves the bin with the blocks it had.  This holds
    for both encodings of the link (with and without a block size). *)
Theorem bin_is_a_stack o c l b :
  bin_holds o c l -> 0 < b < ADDR_LIMIT -> mapped o.(segs) b 8 = true ->
  Z.of_nat (length l) < 2 ^ 32 - 2 -> Forall (λ x, disjoint_ranges b 8 x 8) l ->
  (forall n, c.(bin_block_size) = Some n -> 0 <= n < 2 ^ 32) ->
  exists c1 o1, push_block c b o = Ok (c1, o1) /\ bin_holds o1 c1 (b :: l) /\
    (forall a, ~ (b <= a < b + 8) -> load8 o1.(mem) a = load8 o.(mem) a) /\
    exists c2, pop_block c1 o1 = Ok ((b, c2), o1) /\ bin_holds o1 c2 l.
Proof.
  intros Hh Hb Hm Hl Hd Hn.
  destruct (push_block_holds o c l b Hh Hb Hm Hl Hd) as (c1 & o1 & Hp & -> & Hs & H1).
  eexists c1, _. split; [done|]. split; [done|]. split.
  - intros a Ha. simpl. apply load8_store_other. lia.
  - destruct (pop_block_holds _ _ _ _ H1) as (c2 & Hpop & _ & H2); [by rewrite Hs|]. by exists c2.
Qed.

Lemma bin_is_a_stack_witness :
  let o := mkOs ∅ [mkSegment 4096 4096] 1 in
  let c := mkBin 4128 2 (Some 32) in
  exists c1 o1, push_block c 4096 o = Ok (c1, o1) /\ bin_holds o1 c1 [4096; 4128; 4160].
Proof.
  intros o c.
  destruct (bin_is_a_stack o c [4128; 4160] 4096) as (c1 & o1 & Hp & Hh & _).
  - split; [vm_compute; repeat split; done|reflexivity|simpl; lia|repeat constructor].
  - by vm_compute.
  - reflexivity.
  - simpl. lia.
  - repeat constructor; unfold disjoint_ranges; lia.
  - intros n [= <-]. lia.
  - exists c1, o1. split; [exact Hp|exact Hh].
Defined.

(** The memory of a fresh superblock, all zeros, is a list of all its blocks
    in order: [pop_block] reads a null link as "the next block follows". *)
Theorem fresh_superblock_is_a_list o p bs n :
  0 < p -> 8 <= bs < 2 ^ 32 -> 1 <= n < 2 ^ 32 - 1 -> p + n * bs <= ADDR_LIMIT ->
  mapped o.(segs) p (n * bs) = true ->
  (forall a, p <= a < p + n * bs -> load8 o.(mem) a = 0) ->
  bin_holds o (mkBin p n (Some bs)) (sb_blocks p bs n) /\
  exists c', pop_block (mkBin p n (Some bs)) o = Ok ((p, c'), o) /\
    bin_holds o c' (tail (sb_blocks p bs n)).
Proof.
  intros Hp Hbs Hn Hlim Hm Hz.
  assert (Hh : bin_holds o (mkBin p n (Some bs)) (sb_blocks p bs n)).
  { split; simpl.
    - apply new_sb_chain; try lia. intros i Hi.
      rewrite (load_ext 8 _ (zero_range (mem o) (p + i * bs) 8)).
      + apply load_zero_range_in; lia.
      + intros a Ha. rewrite load8_zero_range, decide_True by lia. apply Hz. nia.
    - by rewrite sb_blocks_length by lia.
    - rewrite sb_blocks_length by lia. lia.
    - rewrite Forall_forall. intros b (i & Hi & ->)%elem_of_sb_blocks.
      apply mapped_true in Hm as (seg & Hs & H1 & H2). apply mapped_true. exists seg.
      split; [done|]. nia. }
  split; [done|].
  assert (Ht : sb_blocks p bs n = p :: tail (sb_blocks p bs n)).
  { unfold sb_blocks. rewrite range_cons by lia. simpl. f_equal. lia. }
  rewrite Ht in Hh. destruct (pop_block_holds _ _ _ _ Hh) as (c' & Hpop & _ & H').
  { intros m [= <-]. lia. }
  by exists c'.
Qed.

Lemma fresh_superblock_is_a_list_witness :
  let o := mkOs ∅ [mkSegment 4096 4096] 1 in
  bin_holds o (mkBin 4096 4 (Some 1024)) [4096; 5120; 6144; 7168].
Proof.
  intros o. refine (proj1 (fresh_superblock_is_a_list o 4096 1024 4 _ _ _ _ _ _)); try lia.
  - by vm_compute.
  - reflexivity.
  - intros a Ha. unfold load8. simpl. by rewrite lookup_empty.
Defined.
