(* ===== verification/Trace.v ===== *)
(** * Traces and reuse

    Models [src/src/apf/trace.rs] and [src/src/apf/reuse_counter.rs].  The
    arrays of the tuners are blocks of the allocator that they tune: the calls
    they make to it are the operations of the class [ApfEnv], which the file of
    the allocator instantiates.  The contents of the arrays are lists. *)
From S2P Require Import Prelude Float.

(** What a tuner asks of the allocator: [do_aligned_alloc(align, size)],
    [do_realloc], [do_free], and the operations on the bin of its class. *)
Class ApfEnv (S : Type) : Type := {
  env_allocate : Z -> Z -> M S Z;
  env_realloc : Z -> Z -> M S Z;
  env_free : Z -> M S unit;
  env_check : Z -> M S Z;
  env_fetch : Z -> Z -> M S bool;
  env_ret : Z -> Z -> M S bool;
  env_no_tuning : forall A, M S A -> M S A;
}.
Arguments env_no_tuning {S _ A} c.

(** The values read from the build environment ([lazy_static!]). *)
Class ApfConfig : Type := {
  TARGET_APF : Z;
  REUSE_BURST_LENGTH : Z;
  REUSE_HIBERNATION_PERIOD : Z;
}.

Definition INIT_TRACE_LENGTH : Z := Z.shiftl 1 14.
Definition INIT_HISTOGRAM_LENGTH : Z := Z.shiftl 1 5.
Definition USE_ALLOCATION_CLOCK : bool := true.

(** ** Events *)
Inductive Event : Type := Alloc (s : Z) | Free (s : Z).

#[global] Instance Event_eq_dec : EqDecision Event.
Proof. solve_decision. Defined.

(** [size_of::<Event>()]: a tag and a [usize]. *)
Definition EVENT_SIZE : Z := 16.

(** [accesses] is a slice of [tr_cap] events, of which [tr_cells] have been
    written; the others are zero bytes of a fresh mapping, which read as
    [Alloc(0)]. *)
Record Trace : Type := mkTrace {
  tr_ptr : option Z;
  tr_cells : list Event;
  tr_cap : Z;
  tr_length : Z;
  alloc_count : Z;
}.

(** [(&mut self.accesses[i] as *mut Event).write(e)] *)
Definition write_cell (cells : list Event) (i : Z) (e : Event) : list Event :=
  let n := Z.to_nat i in
  take n (cells ++ replicate (n - length cells) (Alloc 0)) ++ e :: drop (S n) cells.

Definition trace_get (t : Trace) (i : Z) : result Event :=
  if (0 <=? i) && (i <? t.(tr_cap)) then Ok (default (Alloc 0) (t.(tr_cells) !! Z.to_nat i))
  else Err (Panic "index out of bounds").

Definition alloc_incr (e : Event) : Z := match e with Alloc _ => 1 | Free _ => 0 end.

(** [self.accesses[self.length] = e; self.length += 1; ..] *)
Definition trace_store (e : Event) (t : Trace) : result Trace :=
  if t.(tr_length) <? t.(tr_cap) then
    Ok (mkTrace t.(tr_ptr) (write_cell t.(tr_cells) t.(tr_length) e) t.(tr_cap)
          (usize (t.(tr_length) + 1)) (usize (t.(alloc_count) + alloc_incr e)))
  else Err (Panic "index out of bounds").

Section Trace.
Context {S : Type} {ENV : ApfEnv S}.

Definition trace_new : M S Trace :=
  page ← env_allocate 8 (INIT_TRACE_LENGTH * EVENT_SIZE);
  if page =? 0 then fail (Panic "Error initializing trace")
  else mret (mkTrace (Some page) [] INIT_TRACE_LENGTH 0 0).

Definition trace_add (e : Event) (t : Trace) : M S Trace :=
  t ← (if t.(tr_length) =? usize (t.(tr_cap) - 1) then
         let new_max := usize (t.(tr_cap) * 2) in
         page ← env_realloc (default 0 t.(tr_ptr)) (usize (new_max * EVENT_SIZE));
         if page =? 0 then fail (Panic "Error initializing trace")
         else mret (mkTrace (Some page) t.(tr_cells) new_max t.(tr_length) t.(alloc_count))
       else mret t);
  lift (trace_store e t).

(** [Drop for Trace] *)
Definition trace_drop (t : Trace) : M S unit :=
  match t.(tr_ptr) with
  | None => mret tt
  | Some ptr => env_free ptr
  end.
End Trace.

(** [extend], used by tests: the length grows by twice the number of events. *)
Fixpoint trace_store_all (es : list Event) (t : Trace) : result Trace :=
  match es with
  | [] => Ok t
  | e :: es' => t' ← trace_store e t; trace_store_all es' t'
  end.

Definition trace_extend (es : list Event) (t : Trace) : result Trace :=
  t' ← trace_store_all es t;
  Ok (mkTrace t'.(tr_ptr) t'.(tr_cells) t'.(tr_cap)
        (usize (t'.(tr_length) + Z.of_nat (length es))) t'.(alloc_count)).

(** The events that the loops [for i in 0..self.length()] visit. *)
Definition trace_events (t : Trace) : result (list Event) :=
  mapR (trace_get t) (range 0 t.(tr_length)).

(** ** Offline functions of a trace; the [HashMap] here is that of [std]. *)
Fixpoint intervals_loop (es : list Event) (frees : gmap Z Z) (alloc_clock : Z)
  : list (Z * Z) :=
  match es with
  | [] => []
  | Free s :: es' => intervals_loop es' (<[s := alloc_clock]> frees) alloc_clock
  | Alloc e :: es' =>
      match frees !! e with
      | Some s => (s, alloc_clock) :: intervals_loop es' frees (alloc_clock + 1)
      | None => intervals_loop es' frees (alloc_clock + 1)
      end
  end.

Definition free_intervals (t : Trace) : result (list (Z * Z)) :=
  es ← trace_events t; Ok (intervals_loop es ∅ 0).

Fixpoint intervals_alt_loop (es : list Event) (frees : gmap Z Z) (i : Z)
  : list (Z * Z) :=
  match es with
  | [] => []
  | Free s :: es' => intervals_alt_loop es' (<[s := i]> frees) (i + 1)
  | Alloc e :: es' =>
      match frees !! e with
      | Some s => (s, i) :: intervals_alt_loop es' frees (i + 1)
      | None => intervals_alt_loop es' frees (i + 1)
      end
  end.

Definition free_intervals_alt (t : Trace) : result (list (Z * Z)) :=
  es ← trace_events t; Ok (intervals_alt_loop es ∅ 0).

Fixpoint seen_loop (es : list Event) (seen : gmap Z bool) : gmap Z bool :=
  match es with
  | [] => seen
  | (Alloc s | Free s) :: es' =>
      seen_loop es' (match seen !! s with None => <[s := true]> seen | Some _ => seen end)
  end.

Definition object_count (t : Trace) : result Z :=
  es ← trace_events t; Ok (Z.of_nat (size (seen_loop es ∅))).

Fixpoint valid_loop (es : list Event) (alloc : gmap Z bool) : bool :=
  match es with
  | [] => true
  | Alloc s :: es' =>
      match alloc !! s with
      | Some true => false
      | _ => valid_loop es' (<[s := true]> alloc)
      end
  | Free s :: es' =>
      match alloc !! s with
      | Some true => valid_loop es' (<[s := false]> alloc)
      | _ => false
      end
  end.

Definition trace_valid (t : Trace) : result bool :=
  es ← trace_events t; Ok (valid_loop es ∅).

(** ** [reuse]

    Vectors of [n] counters; indexing out of range panics. *)
Definition vec_at (v : list Z) (i : Z) : result Z :=
  match (if 0 <=? i then v !! Z.to_nat i else None) with
  | Some x => Ok x
  | None => Err (Panic "index out of bounds")
  end.

Definition vec_set (v : list Z) (i x : Z) : result (list Z) :=
  _ ← vec_at v i; Ok (<[Z.to_nat i := x]> v).

(** [v[i] += x] *)
Definition vec_add (v : list Z) (i x : Z) : result (list Z) :=
  y ← vec_at v i; vec_set v i (usize (y + x)).

Record ReuseTerms : Type := mkTerms {
  start_index_counts : list Z;
  end_index_counts : list Z;
  len_counts : list Z;
  start_indices_sums : list Z;
  start_indices_min_sums : list Z;
  end_indices_sums : list Z;
  end_indices_max_sums : list Z;
}.

Definition zeros (n : Z) : list Z := replicate (Z.to_nat n) 0.

Definition terms_init (n : Z) : ReuseTerms :=
  mkTerms (zeros n) (zeros n) (zeros n) (zeros n) (zeros n) (zeros n) (zeros n).

(** The first loop, one interval. *)
Definition add_interval (n : Z) (t : ReuseTerms) (interval : Z * Z) : result ReuseTerms :=
  let '(s, e) := interval in
  let len := usize (e - s + 1) in
  let j := usize (len - 1) in
  sic ← vec_add t.(start_index_counts) s 1;
  eic ← vec_add t.(end_index_counts) e 1;
  lc ← vec_add t.(len_counts) j 1;
  sis ← vec_add t.(start_indices_sums) j s;
  sims ← vec_add t.(start_indices_min_sums) j (Z.min (usize (n - len)) s);
  eis ← vec_add t.(end_indices_sums) j e;
  eims ← vec_add t.(end_indices_max_sums) j (Z.max len e);
  Ok (mkTerms sic eic lc sis sims eis eims).

Fixpoint foldR {A B} (f : A -> B -> result A) (a : A) (l : list B) : result A :=
  match l with
  | [] => Ok a
  | b :: l' => a' ← f a b; foldR f a' l'
  end.

(** The second loop: prefix sums. *)
Definition prefix_step (n : Z) (t : ReuseTerms) (v : list Z * list Z * list Z) (i : Z)
  : result (list Z * list Z * list Z) :=
  let '(snk, ek1, llk) := v in
  a ← vec_at snk (i - 1); b ← vec_at t.(start_index_counts) (n - i);
  snk ← vec_set snk i (usize (a + b));
  a ← vec_at ek1 (i - 1); b ← vec_at t.(end_index_counts) i;
  ek1 ← vec_set ek1 i (usize (a + b));
  a ← vec_at llk (i - 1); b ← vec_at t.(len_counts) i;
  llk ← vec_set llk i (usize (a + b));
  Ok (snk, ek1, llk).

(** The third loop: X, Y and Z. *)
Definition xyz_step (t : ReuseTerms) (p v : list Z * list Z * list Z) (i : Z)
  : result (list Z * list Z * list Z) :=
  let '(snk, ek1, llk) := p in
  let '(x, y, z) := v in
  let k := i + 1 in
  a ← vec_at x (i - 1); b ← vec_at t.(start_indices_min_sums) i; c ← vec_at snk i;
  x ← vec_set x i (usize (a + b - c));
  a ← vec_at y (i - 1); b ← vec_at ek1 (i - 1); c ← vec_at t.(end_indices_max_sums) i;
  y ← vec_set y i (usize (a + b + c));
  a ← vec_at z (i - 1); b ← vec_at llk (i - 1); c ← vec_at t.(len_counts) i;
  z ← vec_set z i (usize (a + b + k * c));
  Ok (x, y, z).

(** The numerators [x[k-1] + z[k-1] - y[k-1]], for [k] from 1 to [n]. *)
Definition reuse_counts (n : Z) (intervals : list (Z * Z)) : result (list Z) :=
  t ← foldR (add_interval n) (terms_init n) intervals;
  snk ← vec_set (zeros n) 0 0;
  ek1 ← vec_set (zeros n) 0 0;
  l0 ← vec_at t.(len_counts) 0;
  llk ← vec_set (zeros n) 0 l0;
  p ← foldR (prefix_step n t) (snk, ek1, llk) (range 1 n);
  x0 ← vec_at t.(start_indices_sums) 0; x ← vec_set (zeros n) 0 x0;
  y0 ← vec_at t.(end_indices_sums) 0; y ← vec_set (zeros n) 0 y0;
  z ← vec_set (zeros n) 0 l0;
  '(x, y, z) ← foldR (xyz_step t p) (x, y, z) (range 1 n);
  mapR (λ k, a ← vec_at x (k - 1); b ← vec_at z (k - 1); c ← vec_at y (k - 1);
             Ok (usize (a + b - c))) (range 1 (n + 1)).

Definition reuse_table (n : Z) (counts : list Z) : gmap Z float :=
  list_to_map (imap (λ j c,
    let k := Z.of_nat j + 1 in (k, f32_div (f32_of_Z c) (f32_of_Z (n - k + 1)))) counts).

Definition reuse (t : Trace) : result (gmap Z float) :=
  intervals ← free_intervals t;
  let n := t.(alloc_count) in
  counts ← reuse_counts n intervals;
  Ok (reuse_table n counts).

(** ** [ReuseCounter] *)
Record ReuseCounter : Type := mkReuse {
  burst_length : Z;
  hibernation_period : Z;
  rc_n : Z;
  rc_trace : option Trace;
  rc_reuse : option (gmap Z float);
}.

Section ReuseCounter.
Context {S : Type} {ENV : ApfEnv S}.

Definition rc_new (bl hp : Z) : M S ReuseCounter :=
  t ← trace_new; mret (mkReuse bl hp 0 (Some t) None).

Definition rc_add (e : Event) (r : ReuseCounter) : M S ReuseCounter :=
  match r.(rc_trace) with
  | Some t =>
      t' ← trace_add e t;
      mret (mkReuse r.(burst_length) r.(hibernation_period) r.(rc_n) (Some t') r.(rc_reuse))
  | None => mret r
  end.

Definition rc_alloc (slot : Z) : ReuseCounter -> M S ReuseCounter := rc_add (Alloc slot).
Definition rc_free (slot : Z) : ReuseCounter -> M S ReuseCounter := rc_add (Free slot).

Definition rc_sampling (r : ReuseCounter) : bool := bool_decide (is_Some r.(rc_trace)).

Definition rc_inc_timer (r : ReuseCounter) : M S ReuseCounter :=
  let n := usize (r.(rc_n) + 1) in
  match r.(rc_trace) with
  | Some trace =>
      if r.(burst_length) <=? n then
        re ← lift (reuse trace);
        trace_drop trace;;
        mret (mkReuse r.(burst_length) r.(hibernation_period) 0 None (Some re))
      else mret (mkReuse r.(burst_length) r.(hibernation_period) n (Some trace) r.(rc_reuse))
  | None =>
      if r.(hibernation_period) <=? n then
        t ← trace_new;
        mret (mkReuse r.(burst_length) r.(hibernation_period) 0 (Some t) r.(rc_reuse))
      else mret (mkReuse r.(burst_length) r.(hibernation_period) n None r.(rc_reuse))
  end.

Definition rc_reuse_at (r : ReuseCounter) (k : Z) : option float :=
  match r.(rc_reuse) with
  | Some m => Some (default f32_zero (m !! k))
  | None => None
  end.
End ReuseCounter.

(** The trace of the unit tests: six allocations. *)
Definition test_events : list Event :=
  [Alloc 1; Alloc 2; Free 1; Alloc 1; Free 2; Alloc 2; Free 1; Alloc 3; Alloc 1].

Definition test_trace : Trace := mkTrace None [] INIT_TRACE_LENGTH 0 0.

Example test_reuse_function :
  (t ← trace_extend test_events test_trace;
   m ← reuse t; Ok (map (λ k, m !! k) [1; 2; 3; 4; 5; 6])) =
  Ok (map (λ p : Z * Z, Some (f32_div (f32_of_Z p.1) (f32_of_Z p.2)))
        [(2, 6); (5, 5); (7, 4); (7, 3); (5, 2); (3, 1)]).
Proof. vm_compute. reflexivity. Qed.
