(* ===== verification/Reuse.v ===== *)
(** * The reuse function counts windows

    [reuse] of [src/src/apf/reuse_counter.rs] computes, for every window length
    at once and in linear time, how many free intervals lie in a window of that
    length, on average.  The file states the direct definition and proves that
    the linear-time computation agrees with it. *)
From S2P Require Import Prelude Float Trace.

(** ** The direct definition

    Time is the number of allocations.  A window of length [k] starts at [w] and
    covers [w .. w + k - 1]; an interval (s, e) is inside when it is covered. *)
Definition inside (w k : Z) (iv : Z * Z) : bool := (w <=? iv.1) && (iv.2 <? w + k).

Definition window_count (ivs : list (Z * Z)) (w k : Z) : Z :=
  Z.of_nat (length (filter (λ iv, inside w k iv = true) ivs)).

Definition sum_over {A} (f : A -> Z) (l : list A) : Z := foldr (λ a acc, f a + acc) 0 l.

(** All windows of length [k] in a trace of [n] allocations. *)
Definition windows_total (n : Z) (ivs : list (Z * Z)) (k : Z) : Z :=
  sum_over (λ w, window_count ivs w k) (range 0 (n - k + 1)).

(** An interval of a trace of [n] allocations; its start is not 0. *)
Definition interval_ok (n : Z) (iv : Z * Z) : Prop := 1 <= iv.1 <= iv.2 /\ iv.2 < n.

(** ** Sums *)
Definition ind (b : bool) : Z := if b then 1 else 0.

Lemma sum_over_ext {A} (f g : A -> Z) l : (forall a, a ∈ l -> f a = g a) -> sum_over f l = sum_over g l.
Proof.
  induction l as [|a l IH]; simpl; intros H; [done|].
  rewrite (H a) by left. f_equal. apply IH. intros b Hb. apply H. by right.
Qed.

Lemma sum_over_add {A} (f g : A -> Z) l :
  sum_over (λ a, f a + g a) l = sum_over f l + sum_over g l.
Proof. induction l as [|a l IH]; simpl; lia. Qed.

Lemma sum_over_sub {A} (f g : A -> Z) l :
  sum_over (λ a, f a - g a) l = sum_over f l - sum_over g l.
Proof. induction l as [|a l IH]; simpl; lia. Qed.

Lemma sum_over_scale {A} c (f : A -> Z) l : sum_over (λ a, c * f a) l = c * sum_over f l.
Proof. induction l as [|a l IH]; simpl; lia. Qed.

Lemma sum_over_zero {A} (l : list A) : sum_over (λ _, 0) l = 0.
Proof. induction l; simpl; lia. Qed.

Lemma sum_over_swap {A B} (f : A -> B -> Z) l l' :
  sum_over (λ a, sum_over (f a) l') l = sum_over (λ b, sum_over (λ a, f a b) l) l'.
Proof.
  induction l as [|a l IH]; simpl; [by rewrite sum_over_zero|].
  by rewrite IH, sum_over_add.
Qed.

Lemma sum_over_bounds {A} (f : A -> Z) l c :
  (forall a, a ∈ l -> 0 <= f a <= c) -> 0 <= sum_over f l <= c * Z.of_nat (length l).
Proof.
  induction l as [|a l IH]; simpl; intros H; [lia|].
  pose proof (H a ltac:(left)). destruct IH as [H1 H2]; [intros b Hb; apply H; by right|]. lia.
Qed.

Lemma window_count_sum ivs w k : window_count ivs w k = sum_over (λ iv, ind (inside w k iv)) ivs.
Proof.
  unfold window_count. induction ivs as [|iv ivs IH]; [done|]. rewrite filter_cons.
  simpl. rewrite <- IH. unfold ind.
  destruct (decide (inside w k iv = true)) as [Hd|Hd]; [rewrite Hd|destruct (inside w k iv); [done|]];
    cbn [length]; lia.
Qed.

(** The members of a range that lie between two bounds. *)
Lemma sum_between n : forall lo a b,
  sum_over (λ w, ind ((a <=? w) && (w <=? b))) (range lo (lo + Z.of_nat n)) =
    Z.max 0 (Z.min (lo + Z.of_nat n - 1) b - Z.max lo a + 1).
Proof.
  induction n as [|n IH]; intros lo a b.
  { rewrite range_nil by lia. simpl. lia. }
  rewrite range_cons by lia. simpl sum_over.
  replace (lo + Z.of_nat (S n)) with ((lo + 1) + Z.of_nat n) by lia. rewrite IH.
  unfold ind. destruct (Z.leb_spec a lo), (Z.leb_spec lo b); simpl; lia.
Qed.

(** The windows that contain one interval, in closed form. *)
Definition len_of (iv : Z * Z) : Z := iv.2 - iv.1 + 1.

Definition termX (n k : Z) (iv : Z * Z) : Z := if len_of iv <=? k then Z.min (n - k) iv.1 else 0.
Definition termY (k : Z) (iv : Z * Z) : Z := if len_of iv <=? k then Z.max (k - 1) iv.2 else 0.
Definition termZ (k : Z) (iv : Z * Z) : Z := if len_of iv <=? k then k else 0.

Lemma windows_of_interval n k iv :
  interval_ok n iv -> 1 <= k <= n ->
  sum_over (λ w, ind (inside w k iv)) (range 0 (n - k + 1)) = termX n k iv + termZ k iv - termY k iv.
Proof.
  destruct iv as [s e]. unfold interval_ok, inside, termX, termY, termZ, len_of. simpl. intros H Hk.
  rewrite (sum_over_ext _ (λ w, ind ((e - k + 1 <=? w) && (w <=? s)))).
  2:{ intros w _. f_equal. rewrite andb_comm. f_equal.
      destruct (Z.ltb_spec e (w + k)), (Z.leb_spec (e - k + 1) w); lia || done. }
  pose proof (sum_between (Z.to_nat (n - k + 1)) 0 (e - k + 1) s) as Hs.
  rewrite Z.add_0_l, Z2Nat.id in Hs by lia. rewrite Hs.
  destruct (Z.leb_spec (e - s + 1) k); lia.
Qed.

Lemma windows_total_terms n ivs k :
  Forall (interval_ok n) ivs -> 1 <= k <= n ->
  windows_total n ivs k =
    sum_over (termX n k) ivs + sum_over (termZ k) ivs - sum_over (termY k) ivs.
Proof.
  intros Hi Hk. unfold windows_total.
  rewrite (sum_over_ext _ (λ w, sum_over (λ iv, ind (inside w k iv)) ivs))
    by (intros; apply window_count_sum).
  rewrite sum_over_swap, <- sum_over_add, <- sum_over_sub.
  apply sum_over_ext. intros iv Hin. rewrite Forall_forall in Hi. by apply windows_of_interval; auto.
Qed.

(** ** Vectors of wrapped counters

    The first [m] cells of [v], which has [n], hold [F] modulo 2^64. *)
Definition cells (n m : Z) (v : list Z) (F : Z -> Z) : Prop :=
  Z.of_nat (length v) = n /\ forall i, 0 <= i < m -> v !! Z.to_nat i = Some (usize (F i)).

Lemma usize_sum3 a b c : usize (usize a + usize b - usize c) = usize (a + b - c).
Proof.
  unfold usize, u64, wrap.
  rewrite Zminus_mod, <- Z.add_mod, <- Zminus_mod_idemp_r, Z.mod_mod, <- Zminus_mod by lia.
  by rewrite Zminus_mod_idemp_r.
Qed.

Lemma usize_add3 a b c : usize (usize a + usize b + usize c) = usize (a + b + c).
Proof.
  unfold usize, u64, wrap.
  rewrite <- (Z.add_mod_idemp_r (_ + _)), Z.mod_mod, Z.add_mod_idemp_r by lia.
  rewrite <- (Z.add_mod_idemp_l (a mod _ + b mod _)), <- Z.add_mod by lia.
  by rewrite Z.add_mod_idemp_l by lia.
Qed.

Lemma usize_muladd a b c k : usize (usize a + usize b + k * usize c) = usize (a + b + k * c).
Proof.
  assert (H : usize (k * usize c) = usize (k * c)).
  { unfold usize, u64, wrap. by rewrite Z.mul_mod_idemp_r by lia. }
  rewrite <- (usize_add3 a b (k * c)), <- H.
  unfold usize, u64, wrap. by rewrite Z.add_mod_idemp_r by lia.
Qed.

Lemma cells_at n m v F i : cells n m v F -> 0 <= i < m -> vec_at v i = Ok (usize (F i)).
Proof.
  intros [_ H] Hi. unfold vec_at. rewrite (proj2 (Z.leb_le 0 i)) by lia. by rewrite H.
Qed.

Lemma cells_zeros n m : 0 <= n -> m <= n -> cells n m (zeros n) (λ _, 0).
Proof.
  intros Hn Hm. unfold zeros. split; [rewrite length_replicate; lia|].
  intros i Hi. rewrite lookup_replicate_2 by lia. done.
Qed.

Lemma cells_ext n m v F G : cells n m v F -> (forall i, 0 <= i < m -> F i = G i) -> cells n m v G.
Proof. intros [H1 H2] H. split; [done|]. intros i Hi. rewrite H2, H by done. done. Qed.

Lemma cells_add n v F i x :
  cells n n v F -> 0 <= i < n ->
  exists v', vec_add v i x = Ok v' /\ cells n n v' (λ j, F j + (if j =? i then x else 0)).
Proof.
  intros Hc Hi. unfold vec_add, vec_set. rewrite (cells_at _ _ _ _ _ Hc Hi). simpl. eexists. split; [done|].
  destruct Hc as [Hl Hv]. split; [by rewrite length_insert|]. intros j Hj.
  destruct (Z.eqb_spec j i) as [->|Hne].
  - rewrite list_lookup_insert_eq by lia. by rewrite usize_usize_add.
  - rewrite list_lookup_insert_ne by lia. rewrite Hv by done. by rewrite Z.add_0_r.
Qed.

(** Storing the next cell. *)
Lemma cells_set n m v F x :
  cells n m v F -> 0 <= m < n -> x = usize (F m) ->
  exists v', vec_set v m x = Ok v' /\ cells n (m + 1) v' F.
Proof.
  intros [Hl Hv] Hm ->. unfold vec_set, vec_at. rewrite (proj2 (Z.leb_le 0 m)) by lia.
  destruct (lookup_lt_is_Some_2 v (Z.to_nat m)) as [y Hy]; [lia|]. rewrite Hy. simpl.
  eexists. split; [done|]. split; [by rewrite length_insert|]. intros j Hj.
  destruct (decide (j = m)) as [->|Hne].
  - by rewrite list_lookup_insert_eq by lia.
  - rewrite list_lookup_insert_ne by lia. apply Hv. lia.
Qed.

(** A loop over [1..n] with an invariant. *)
Lemma foldR_range {A} (f : A -> Z -> result A) (P : Z -> A -> Prop) k : forall lo a,
  P lo a ->
  (forall i a, lo <= i < lo + Z.of_nat k -> P i a -> exists a', f a i = Ok a' /\ P (i + 1) a') ->
  exists a', foldR f a (range lo (lo + Z.of_nat k)) = Ok a' /\ P (lo + Z.of_nat k) a'.
Proof.
  induction k as [|k IH]; intros lo a Ha Hstep.
  { rewrite range_nil by lia. exists a. rewrite Z.add_0_r. done. }
  rewrite range_cons by lia. simpl.
  destruct (Hstep lo a) as (a1 & -> & H1); [lia|done|]. simpl.
  replace (lo + Z.of_nat (S k)) with ((lo + 1) + Z.of_nat k) by lia.
  apply IH; [done|]. intros i b Hi. apply Hstep. lia.
Qed.

(** ** The first loop *)
Definition at_start (j : Z) (iv : Z * Z) : Z := if j =? iv.1 then 1 else 0.
Definition at_end (j : Z) (iv : Z * Z) : Z := if j =? iv.2 then 1 else 0.
(** A term of the intervals of length [j + 1]. *)
Definition at_len (f : Z * Z -> Z) (j : Z) (iv : Z * Z) : Z := if j =? len_of iv - 1 then f iv else 0.

Record terms_hold (n : Z) (t : ReuseTerms) (ivs : list (Z * Z)) : Prop := {
  th_sic : cells n n t.(start_index_counts) (λ j, sum_over (at_start j) ivs);
  th_eic : cells n n t.(end_index_counts) (λ j, sum_over (at_end j) ivs);
  th_lc : cells n n t.(len_counts) (λ j, sum_over (at_len (λ _, 1) j) ivs);
  th_sis : cells n n t.(start_indices_sums) (λ j, sum_over (at_len fst j) ivs);
  th_sims : cells n n t.(start_indices_min_sums)
    (λ j, sum_over (at_len (λ iv, Z.min (n - len_of iv) iv.1) j) ivs);
  th_eis : cells n n t.(end_indices_sums) (λ j, sum_over (at_len snd j) ivs);
  th_eims : cells n n t.(end_indices_max_sums)
    (λ j, sum_over (at_len (λ iv, Z.max (len_of iv) iv.2) j) ivs);
}.

Lemma sum_over_snoc {A} (f : A -> Z) l a : sum_over f (l ++ [a]) = sum_over f l + f a.
Proof. induction l as [|b l IH]; simpl; [|rewrite IH]; lia. Qed.

Lemma add_interval_ok n t ivs iv :
  n < 2 ^ 63 -> interval_ok n iv -> terms_hold n t ivs ->
  exists t', add_interval n t iv = Ok t' /\ terms_hold n t' (ivs ++ [iv]).
Proof.
  destruct iv as [s e]. intros Hn [Hs He] [H1 H2 H3 H4 H5 H6 H7]. simpl in Hs, He. unfold add_interval.
  rewrite (usize_small (e - s + 1)) by lia. rewrite (usize_small (e - s + 1 - 1)) by lia.
  rewrite (usize_small (n - (e - s + 1))) by lia.
  destruct (cells_add _ _ _ s 1 H1) as (v1 & -> & C1); [lia|]. simpl.
  destruct (cells_add _ _ _ e 1 H2) as (v2 & -> & C2); [lia|]. simpl.
  destruct (cells_add _ _ _ (e - s + 1 - 1) 1 H3) as (v3 & -> & C3); [lia|]. simpl.
  destruct (cells_add _ _ _ (e - s + 1 - 1) s H4) as (v4 & -> & C4); [lia|]. simpl.
  destruct (cells_add _ _ _ (e - s + 1 - 1) (Z.min (n - (e - s + 1)) s) H5) as (v5 & -> & C5); [lia|]. simpl.
  destruct (cells_add _ _ _ (e - s + 1 - 1) e H6) as (v6 & -> & C6); [lia|]. simpl.
  destruct (cells_add _ _ _ (e - s + 1 - 1) (Z.max (e - s + 1) e) H7) as (v7 & -> & C7); [lia|]. simpl.
  eexists. split; [done|].
  split; (eapply cells_ext; [eassumption|]); intros j _; by rewrite sum_over_snoc.
Qed.

Lemma first_loop n ivs : forall t done_,
  n < 2 ^ 63 -> Forall (interval_ok n) ivs -> terms_hold n t done_ ->
  exists t', foldR (add_interval n) t ivs = Ok t' /\ terms_hold n t' (done_ ++ ivs).
Proof.
  induction ivs as [|iv ivs IH]; intros t done_ Hn Hi Ht.
  { exists t. by rewrite app_nil_r. }
  apply Forall_cons in Hi as [Hiv Hi]. simpl.
  destruct (add_interval_ok n t done_ iv Hn Hiv Ht) as (t1 & -> & Ht1). simpl.
  destruct (IH t1 (done_ ++ [iv]) Hn Hi Ht1) as (t' & -> & Ht'). exists t'.
  by rewrite <- app_assoc in Ht'.
Qed.

Lemma terms_init_hold n : 0 <= n -> terms_hold n (terms_init n) [].
Proof. intros Hn. split; simpl; by apply cells_zeros. Qed.

(** ** The other loops

    The recurrences of the vectors, for one interval. *)
Definition from_start (n i : Z) (iv : Z * Z) : Z := ind (n - i <=? iv.1).
Definition to_end (i : Z) (iv : Z * Z) : Z := ind (iv.2 <=? i).
Definition short (i : Z) (iv : Z * Z) : Z := ind (len_of iv <=? i + 1).

Ltac interval_cases :=
  unfold interval_ok, from_start, to_end, short, at_start, at_end, at_len, termX, termY, termZ, ind, len_of in *;
  repeat match goal with iv : (Z * Z)%type |- _ => destruct iv end; cbn [fst snd] in *;
  repeat match goal with
  | |- context [?a <=? ?b] => destruct (Z.leb_spec a b)
  | |- context [?a =? ?b] => destruct (Z.eqb_spec a b)
  end; try lia.

Section Recurrences.
Context {n : Z} {ivs : list (Z * Z)}.
Hypothesis Hok : Forall (interval_ok n) ivs.

Ltac by_interval :=
  rewrite <- ?sum_over_scale, <- ?sum_over_add, <- ?sum_over_sub; apply sum_over_ext; intros iv Hin;
  pose proof (proj1 (Forall_forall _ _) Hok iv Hin); interval_cases.

Lemma from_start_step i : 1 <= i < n ->
  sum_over (from_start n i) ivs = sum_over (from_start n (i - 1)) ivs + sum_over (at_start (n - i)) ivs.
Proof. intros Hi. by_interval. Qed.

Lemma to_end_step i : 1 <= i < n ->
  sum_over (to_end i) ivs = sum_over (to_end (i - 1)) ivs + sum_over (at_end i) ivs.
Proof. intros Hi. by_interval. Qed.

Lemma short_step i : 1 <= i < n ->
  sum_over (short i) ivs = sum_over (short (i - 1)) ivs + sum_over (at_len (λ _, 1) i) ivs.
Proof. intros Hi. by_interval. Qed.

Lemma starts_at_zero :
  sum_over (from_start n 0) ivs = 0 /\ sum_over (to_end 0) ivs = 0 /\
  sum_over (short 0) ivs = sum_over (at_len (λ _, 1) 0) ivs /\
  sum_over (termX n 1) ivs = sum_over (at_len fst 0) ivs /\
  sum_over (termY 1) ivs = sum_over (at_len snd 0) ivs /\
  sum_over (termZ 1) ivs = sum_over (at_len (λ _, 1) 0) ivs.
Proof.
  split; [etrans; [|apply (sum_over_zero ivs)]; by_interval|].
  split; [etrans; [|apply (sum_over_zero ivs)]; by_interval|].
  split; [by_interval|]. split; [by_interval|]. split; by_interval.
Qed.

Lemma termX_step i : 1 <= i < n ->
  sum_over (termX n (i + 1)) ivs = sum_over (termX n i) ivs +
    sum_over (at_len (λ iv, Z.min (n - len_of iv) iv.1) i) ivs - sum_over (from_start n i) ivs.
Proof. intros Hi. by_interval. Qed.

Lemma termY_step i : 1 <= i < n ->
  sum_over (termY (i + 1)) ivs = sum_over (termY i) ivs + sum_over (to_end (i - 1)) ivs +
    sum_over (at_len (λ iv, Z.max (len_of iv) iv.2) i) ivs.
Proof. intros Hi. by_interval. Qed.

Lemma termZ_step i : 1 <= i < n ->
  sum_over (termZ (i + 1)) ivs = sum_over (termZ i) ivs + sum_over (short (i - 1)) ivs +
    (i + 1) * sum_over (at_len (λ _, 1) i) ivs.
Proof. intros Hi. by_interval. Qed.
End Recurrences.

(** The state of the two loops before turn [m]. *)
Definition prefix_hold (n : Z) (ivs : list (Z * Z)) (m : Z) (p : list Z * list Z * list Z) : Prop :=
  cells n m p.1.1 (λ i, sum_over (from_start n i) ivs) /\
  cells n m p.1.2 (λ i, sum_over (to_end i) ivs) /\
  cells n m p.2 (λ i, sum_over (short i) ivs).

Definition xyz_hold (n : Z) (ivs : list (Z * Z)) (m : Z) (v : list Z * list Z * list Z) : Prop :=
  cells n m v.1.1 (λ i, sum_over (termX n (i + 1)) ivs) /\
  cells n m v.1.2 (λ i, sum_over (termY (i + 1)) ivs) /\
  cells n m v.2 (λ i, sum_over (termZ (i + 1)) ivs).

Section Loops.
Context {n : Z} {ivs : list (Z * Z)} {t : ReuseTerms}.
Hypothesis Hok : Forall (interval_ok n) ivs.
Hypothesis Ht : terms_hold n t ivs.
Hypothesis Hn : 1 <= n.

Lemma usize_add2 a b : usize (usize a + usize b) = usize (a + b).
Proof. rewrite usize_usize_add, Z.add_comm, usize_usize_add. f_equal. lia. Qed.

Lemma prefix_step_ok i p : 1 <= i < n -> prefix_hold n ivs i p ->
  exists p', prefix_step n t p i = Ok p' /\ prefix_hold n ivs (i + 1) p'.
Proof.
  destruct p as [[snk ek1] llk]. intros Hi (C1 & C2 & C3). simpl in C1, C2, C3. unfold prefix_step.
  rewrite (cells_at _ _ _ _ (i - 1) C1), (cells_at _ _ _ _ (n - i) (th_sic _ _ _ Ht)) by lia. simpl.
  destruct (cells_set n i snk _ (usize (usize (sum_over (from_start n (i - 1)) ivs) +
    usize (sum_over (at_start (n - i)) ivs))) C1) as (v1 & -> & D1); [lia| |].
  { rewrite usize_add2. cbn beta. by rewrite (from_start_step Hok i) by done. }
  simpl. rewrite (cells_at _ _ _ _ (i - 1) C2), (cells_at _ _ _ _ i (th_eic _ _ _ Ht)) by lia. simpl.
  destruct (cells_set n i ek1 _ (usize (usize (sum_over (to_end (i - 1)) ivs) +
    usize (sum_over (at_end i) ivs))) C2) as (v2 & -> & D2); [lia| |].
  { rewrite usize_add2. cbn beta. by rewrite (to_end_step Hok i) by done. }
  simpl. rewrite (cells_at _ _ _ _ (i - 1) C3), (cells_at _ _ _ _ i (th_lc _ _ _ Ht)) by lia. simpl.
  destruct (cells_set n i llk _ (usize (usize (sum_over (short (i - 1)) ivs) +
    usize (sum_over (at_len (λ _, 1) i) ivs))) C3) as (v3 & -> & D3); [lia| |].
  { rewrite usize_add2. cbn beta. by rewrite (short_step Hok i) by done. }
  simpl. eexists. split; [done|]. done.
Qed.

Lemma xyz_step_ok p i v : 1 <= i < n -> prefix_hold n ivs n p -> xyz_hold n ivs i v ->
  exists v', xyz_step t p v i = Ok v' /\ xyz_hold n ivs (i + 1) v'.
Proof.
  destruct p as [[snk ek1] llk], v as [[x y] z]. intros Hi (P1 & P2 & P3) (C1 & C2 & C3).
  simpl in *. unfold xyz_step.
  rewrite (cells_at _ _ _ _ (i - 1) C1), (cells_at _ _ _ _ i (th_sims _ _ _ Ht)),
    (cells_at _ _ _ _ i P1) by lia. simpl. rewrite !Z.sub_add.
  destruct (cells_set n i x _ (usize (usize (sum_over (termX n i) ivs) +
    usize (sum_over (at_len (λ iv, Z.min (n - len_of iv) iv.1) i) ivs) -
    usize (sum_over (from_start n i) ivs))) C1) as (v1 & -> & D1); [lia| |].
  { rewrite usize_sum3. cbn beta. by rewrite (termX_step Hok i) by done. }
  simpl. rewrite (cells_at _ _ _ _ (i - 1) C2), (cells_at _ _ _ _ (i - 1) P2),
    (cells_at _ _ _ _ i (th_eims _ _ _ Ht)) by lia. simpl. rewrite !Z.sub_add.
  destruct (cells_set n i y _ (usize (usize (sum_over (termY i) ivs) +
    usize (sum_over (to_end (i - 1)) ivs) +
    usize (sum_over (at_len (λ iv, Z.max (len_of iv) iv.2) i) ivs))) C2) as (v2 & -> & D2); [lia| |].
  { rewrite usize_add3. cbn beta. by rewrite (termY_step Hok i) by done. }
  simpl. rewrite (cells_at _ _ _ _ (i - 1) C3), (cells_at _ _ _ _ (i - 1) P3),
    (cells_at _ _ _ _ i (th_lc _ _ _ Ht)) by lia. simpl. rewrite !Z.sub_add.
  destruct (cells_set n i z _ (usize (usize (sum_over (termZ i) ivs) +
    usize (sum_over (short (i - 1)) ivs) +
    (i + 1) * usize (sum_over (at_len (λ _, 1) i) ivs))) C3) as (v3 & -> & D3); [lia| |].
  { rewrite usize_muladd. cbn beta. by rewrite (termZ_step Hok i) by done. }
  simpl. eexists. split; [done|]. done.
Qed.
End Loops.

(** ** The whole computation *)
Lemma mapR_map {A B} (f : A -> result B) (g : A -> B) l :
  (forall a, a ∈ l -> f a = Ok (g a)) -> mapR f l = Ok (map g l).
Proof.
  induction l as [|a l IH]; simpl; intros H; [done|]. rewrite (H a) by left. simpl.
  rewrite IH; [done|]. intros b Hb. apply H. by right.
Qed.

Lemma reuse_counts_ok n ivs :
  1 <= n < 2 ^ 63 -> Forall (interval_ok n) ivs ->
  reuse_counts n ivs = Ok (map (λ k, usize (windows_total n ivs k)) (range 1 (n + 1))).
Proof.
  intros Hn Hok. unfold reuse_counts.
  destruct (first_loop n ivs (terms_init n) [] ltac:(lia) Hok) as (t & -> & Ht);
    [apply terms_init_hold; lia|]. simpl in Ht |- *.
  destruct (starts_at_zero Hok) as (Z1 & Z2 & Z3 & Z4 & Z5 & Z6).
  assert (Hz : forall F, cells n 0 (zeros n) F).
  { intros F. eapply cells_ext; [apply cells_zeros; lia|]. intros i Hi. lia. }
  destruct (cells_set n 0 _ (λ i, sum_over (from_start n i) ivs) 0 (Hz _)) as (v1 & E1 & C1); [lia|by rewrite Z1|].
  destruct (cells_set n 0 _ (λ i, sum_over (to_end i) ivs) 0 (Hz _)) as (v2 & E2 & C2); [lia|by rewrite Z2|].
  rewrite E1. rewrite E1 in E2. injection E2 as ->. simpl.
  rewrite (cells_at _ _ _ _ 0 (th_lc _ _ _ Ht)) by lia. simpl.
  set (l0 := usize (sum_over (at_len (λ _, 1) 0) ivs)).
  destruct (cells_set n 0 _ (λ i, sum_over (short i) ivs) l0 (Hz _)) as (v3 & E3 & C3); [lia|by rewrite Z3|].
  rewrite E3. simpl. replace n with (1 + Z.of_nat (Z.to_nat (n - 1))) at 2 by lia.
  destruct (foldR_range (prefix_step n t) (prefix_hold n ivs) (Z.to_nat (n - 1)) 1 (v2, v2, v3))
    as (p & -> & Hp); [done| |].
  { intros i a Hi. apply prefix_step_ok; [done|done|lia]. }
  replace (1 + Z.of_nat (Z.to_nat (n - 1))) with n in Hp by lia. simpl.
  rewrite (cells_at _ _ _ _ 0 (th_sis _ _ _ Ht)) by lia. simpl.
  destruct (cells_set n 0 _ (λ i, sum_over (termX n (i + 1)) ivs) (usize (sum_over (at_len fst 0) ivs)) (Hz _))
    as (x & -> & X1); [lia|by rewrite <- Z4|].
  simpl. rewrite (cells_at _ _ _ _ 0 (th_eis _ _ _ Ht)) by lia. simpl.
  destruct (cells_set n 0 _ (λ i, sum_over (termY (i + 1)) ivs) (usize (sum_over (at_len snd 0) ivs)) (Hz _))
    as (y & -> & Y1); [lia|by rewrite <- Z5|].
  simpl. destruct (cells_set n 0 _ (λ i, sum_over (termZ (i + 1)) ivs) l0 (Hz _))
    as (z & Ez & W1); [lia|unfold l0; by rewrite <- Z6|].
  assert (z = v3) as -> by congruence. simpl. replace n with (1 + Z.of_nat (Z.to_nat (n - 1))) at 1 by lia.
  destruct (foldR_range (xyz_step t p) (xyz_hold n ivs) (Z.to_nat (n - 1)) 1 (x, y, v3))
    as ([[x' y'] z'] & -> & Hx); [done| |].
  { intros i a Hi. apply xyz_step_ok; [done|done|lia|done]. }
  replace (1 + Z.of_nat (Z.to_nat (n - 1))) with n in Hx by lia. simpl.
  destruct Hx as (X & Y & W). simpl in X, Y, W.
  apply mapR_map. intros k Hk. apply elem_of_range in Hk.
  rewrite (cells_at _ _ _ _ (k - 1) X), (cells_at _ _ _ _ (k - 1) W), (cells_at _ _ _ _ (k - 1) Y) by lia.
  simpl. rewrite usize_sum3, !Z.sub_add. by rewrite windows_total_terms by (done || lia).
Qed.

Lemma windows_total_range n ivs k :
  1 <= k <= n -> 0 <= windows_total n ivs k <= Z.of_nat (length ivs) * n.
Proof.
  intros Hk. unfold windows_total.
  destruct (sum_over_bounds (λ w, window_count ivs w k) (range 0 (n - k + 1)) (Z.of_nat (length ivs)))
    as [H1 H2].
  { intros w _. cbn beta. rewrite window_count_sum.
    destruct (sum_over_bounds (λ iv, ind (inside w k iv)) ivs 1); [|lia].
    intros iv _. unfold ind. destruct (inside w k iv); lia. }
  split; [done|]. unfold range in H2. rewrite length_seqZ in H2.
  etrans; [exact H2|]. apply Z.mul_le_mono_nonneg_l; lia.
Qed.

(** ** The intervals of a trace *)
Definition allocs (es : list Event) : Z := sum_over alloc_incr es.

Lemma allocs_nonneg es : 0 <= allocs es.
Proof. induction es as [|[a|a] es IH]; unfold allocs in *; simpl; lia. Qed.

(** The frees seen so far happened between [1] and the clock. *)
Lemma intervals_loop_ok es : forall frees clock,
  1 <= clock -> (forall x s, frees !! x = Some s -> 1 <= s <= clock) ->
  Forall (interval_ok (clock + allocs es)) (intervals_loop es frees clock).
Proof.
  induction es as [|[a|a] es IH]; intros frees clock Hc Hf; [constructor| |];
    pose proof (allocs_nonneg es) as H0; unfold allocs in *; simpl.
  - replace (clock + (1 + sum_over alloc_incr es)) with ((clock + 1) + sum_over alloc_incr es) by lia.
    assert (IH' : Forall (interval_ok (clock + 1 + sum_over alloc_incr es)) (intervals_loop es frees (clock + 1))).
    { apply IH; [lia|]. intros x s Hx. apply Hf in Hx. lia. }
    destruct (frees !! a) as [s|] eqn:Es; [|done]. constructor; [|done].
    apply Hf in Es. unfold interval_ok. simpl. lia.
  - apply IH; [done|]. intros x s. rewrite lookup_insert_Some. intros [[_ <-]|[_ Hx]]; [lia|by apply Hf in Hx].
Qed.

Lemma trace_intervals_ok a es :
  Forall (interval_ok (allocs (Alloc a :: es))) (intervals_loop (Alloc a :: es) ∅ 0).
Proof.
  simpl. rewrite lookup_empty. apply (intervals_loop_ok es ∅ 1); [lia|].
  intros x s. by rewrite lookup_empty.
Qed.

(** ** The computation never fails

    Whatever the trace: every index is inside the vectors of length [n]. *)
Definition vec_of (n : Z) (v : list Z) : Prop := Z.of_nat (length v) = n.

Lemma vec_at_total n v i : vec_of n v -> 0 <= i < n -> exists x, vec_at v i = Ok x.
Proof.
  intros Hv Hi. unfold vec_of in Hv. unfold vec_at. rewrite (proj2 (Z.leb_le 0 i)) by lia.
  destruct (lookup_lt_is_Some_2 v (Z.to_nat i)) as [x ->]; [lia|]. by exists x.
Qed.

Lemma vec_set_total n v i x : vec_of n v -> 0 <= i < n -> exists v', vec_set v i x = Ok v' /\ vec_of n v'.
Proof.
  intros Hv Hi. unfold vec_set. destruct (vec_at_total n v i Hv Hi) as [y ->]. simpl.
  eexists. split; [done|]. unfold vec_of. by rewrite length_insert.
Qed.

Lemma vec_add_total n v i x : vec_of n v -> 0 <= i < n -> exists v', vec_add v i x = Ok v' /\ vec_of n v'.
Proof.
  intros Hv Hi. unfold vec_add. destruct (vec_at_total n v i Hv Hi) as [y ->]. simpl.
  by apply vec_set_total.
Qed.

Lemma vec_of_zeros n : 0 <= n -> vec_of n (zeros n).
Proof. intros Hn. unfold vec_of, zeros. rewrite length_replicate. lia. Qed.

#[local] Ltac vec_step n :=
  match goal with
  | |- context [vec_add ?v ?i ?x] =>
      let v' := fresh "v" in let H := fresh "Hv" in
      destruct (vec_add_total n v i x) as (v' & -> & H); [done|lia|]; cbn [mbind result_bind]
  | |- context [mbind _ (vec_at ?v ?i)] =>
      let x := fresh "x" in
      destruct (vec_at_total n v i) as [x ->]; [done|lia|]; cbn [mbind result_bind]
  | |- context [mbind _ (vec_set ?v ?i ?x)] =>
      let v' := fresh "v" in let H := fresh "Hv" in
      destruct (vec_set_total n v i x) as (v' & -> & H); [done|lia|]; cbn [mbind result_bind]
  end.

Definition terms_of (n : Z) (t : ReuseTerms) : Prop :=
  vec_of n t.(start_index_counts) /\ vec_of n t.(end_index_counts) /\ vec_of n t.(len_counts) /\
  vec_of n t.(start_indices_sums) /\ vec_of n t.(start_indices_min_sums) /\
  vec_of n t.(end_indices_sums) /\ vec_of n t.(end_indices_max_sums).

Definition triple_of (n : Z) (p : list Z * list Z * list Z) : Prop :=
  vec_of n p.1.1 /\ vec_of n p.1.2 /\ vec_of n p.2.

(** An interval inside [n] allocations. *)
Definition interval_in (n : Z) (iv : Z * Z) : Prop := 0 <= iv.1 /\ iv.1 <= iv.2 /\ iv.2 < n.

Lemma add_interval_total n t iv :
  n < 2 ^ 63 -> interval_in n iv -> terms_of n t -> exists t', add_interval n t iv = Ok t' /\ terms_of n t'.
Proof.
  destruct iv as [s e]. intros Hn (H1 & H2 & H3) (T1 & T2 & T3 & T4 & T5 & T6 & T7). simpl in *.
  unfold add_interval. rewrite (usize_small (e - s + 1)), (usize_small (e - s + 1 - 1)) by lia.
  repeat vec_step n. by eexists.
Qed.

Lemma foldR_total {A B} (f : A -> B -> result A) (P : A -> Prop) (R : B -> Prop) l : forall a,
  (forall a b, P a -> R b -> exists a', f a b = Ok a' /\ P a') -> Forall R l -> P a ->
  exists a', foldR f a l = Ok a' /\ P a'.
Proof.
  induction l as [|b l IH]; intros a Hf Hl Ha; simpl; [by exists a|].
  apply Forall_cons in Hl as [Hb Hl]. destruct (Hf a b Ha Hb) as (a1 & -> & Ha1). simpl. by apply IH.
Qed.

Lemma range_Forall (R : Z -> Prop) lo hi : (forall i, lo <= i < hi -> R i) -> Forall R (range lo hi).
Proof. intros H. rewrite Forall_forall. intros i Hi%elem_of_range. by apply H. Qed.

Lemma mapR_total {A B} (f : A -> result B) l :
  Forall (λ a, exists b, f a = Ok b) l -> exists l', mapR f l = Ok l'.
Proof.
  induction 1 as [|a l [b Hb] _ [l' Hl]]; simpl; [by exists []|]. rewrite Hb, Hl. by eexists.
Qed.

Lemma reuse_counts_total n ivs :
  1 <= n < 2 ^ 63 -> Forall (interval_in n) ivs -> exists r, reuse_counts n ivs = Ok r.
Proof.
  intros Hn Hok. pose proof (vec_of_zeros n ltac:(lia)) as Hz. unfold reuse_counts.
  destruct (foldR_total (add_interval n) (terms_of n) (interval_in n) ivs (terms_init n))
    as (t & -> & T1 & T2 & T3 & T4 & T5 & T6 & T7); [|done|by split_and!|].
  { intros t iv Ht Hiv. apply add_interval_total; [lia|done|done]. }
  cbn [mbind result_bind]. do 7 vec_step n.
  destruct (foldR_total (prefix_step n t) (triple_of n) (λ i, 1 <= i < n) (range 1 n) (v, v, v0))
    as ([[snk ek1] llk] & -> & P1 & P2 & P3); [|by apply range_Forall|done|].
  { intros [[a b] c] i (Ha & Hb & Hc) Hi. simpl in *. unfold prefix_step. repeat vec_step n. by eexists. }
  cbn [mbind result_bind]. simpl in P1, P2, P3.
  destruct (foldR_total (xyz_step t (snk, ek1, llk)) (triple_of n) (λ i, 1 <= i < n) (range 1 n) (v1, v2, v0))
    as ([[x' y'] z'] & -> & X1 & X2 & X3); [|by apply range_Forall|done|].
  { intros [[a b] c] i (Ha & Hb & Hc) Hi. simpl in *. unfold xyz_step. repeat vec_step n. by eexists. }
  cbn [mbind result_bind]. simpl in X1, X2, X3. apply mapR_total, range_Forall. intros k Hk.
  repeat vec_step n. by eexists.
Qed.

Lemma intervals_loop_in es : forall frees clock,
  0 <= clock -> (forall x s, frees !! x = Some s -> 0 <= s <= clock) ->
  Forall (interval_in (clock + allocs es)) (intervals_loop es frees clock).
Proof.
  induction es as [|[a|a] es IH]; intros frees clock Hc Hf; [constructor| |];
    pose proof (allocs_nonneg es) as H0; unfold allocs in *; simpl.
  - replace (clock + (1 + sum_over alloc_incr es)) with ((clock + 1) + sum_over alloc_incr es) by lia.
    assert (IH' : Forall (interval_in (clock + 1 + sum_over alloc_incr es)) (intervals_loop es frees (clock + 1))).
    { apply IH; [lia|]. intros x s Hx. apply Hf in Hx. lia. }
    destruct (frees !! a) as [s|] eqn:Es; [|done]. constructor; [|done].
    apply Hf in Es. unfold interval_in. simpl. lia.
  - apply IH; [done|]. intros x s. rewrite lookup_insert_Some. intros [[_ <-]|[_ Hx]]; [lia|by apply Hf in Hx].
Qed.

(** *** A trace as the tuner keeps it

    Its events are the cells that have been written, and it counts the
    allocations among them. *)
Record trace_wf (t : Trace) (n : Z) : Prop := {
  tw_len : t.(tr_length) = Z.of_nat (length t.(tr_cells));
  tw_room : t.(tr_length) < t.(tr_cap);
  tw_cap : exists q, t.(tr_cap) = 256 * q /\ 64 <= q /\ t.(tr_cap) < 2 ^ 28;
  tw_count : t.(alloc_count) = allocs t.(tr_cells);
  tw_allocs : allocs t.(tr_cells) = n;
}.

Lemma trace_events_wf t n : trace_wf t n -> trace_events t = Ok t.(tr_cells).
Proof.
  intros [H1 H2 _ _ _]. unfold trace_events. rewrite H1.
  assert (H : forall k lo cells, lo + Z.of_nat (length cells) < t.(tr_cap) -> 0 <= lo ->
    (forall i e, cells !! i = Some e -> t.(tr_cells) !! (Z.to_nat lo + i)%nat = Some e) ->
    k = length cells -> mapR (trace_get t) (range lo (lo + Z.of_nat k)) = Ok cells).
  { induction k as [|k IH]; intros lo [|e cells] Hlt Hlo Hc Hk; [by rewrite range_nil by lia|done..|].
    injection Hk as Hk.
    simpl in Hlt. rewrite range_cons by lia. cbn [mapR].
    pose proof (Hc 0%nat e eq_refl) as He. rewrite Nat.add_0_r in He.
    assert (Eg : trace_get t lo = Ok e).
    { unfold trace_get. apply Z.leb_le in Hlo as Hlo'. assert (lo <? tr_cap t = true) as -> by (apply Z.ltb_lt; lia).
      rewrite Hlo', He. done. }
    rewrite Eg. cbn [mbind result_bind].
    replace (lo + Z.of_nat (S k)) with ((lo + 1) + Z.of_nat k) by lia.
    rewrite (IH (lo + 1) cells); [done|lia|lia| |done].
    intros i e' Hi. replace (Z.to_nat (lo + 1) + i)%nat with (Z.to_nat lo + S i)%nat by lia. by apply Hc. }
  rewrite <- (Z.add_0_l (Z.of_nat _)). apply H; [lia|lia|done|done].
Qed.

Lemma reuse_total t n : trace_wf t n -> 1 <= n -> exists m, reuse t = Ok m.
Proof.
  intros Hw Hn. unfold reuse, free_intervals. rewrite (trace_events_wf t n Hw). cbn [mbind result_bind].
  destruct Hw as [W1 W2 (q & W3 & W4 & W5) W6 W7].
  destruct (reuse_counts_total t.(alloc_count) (intervals_loop t.(tr_cells) ∅ 0)) as [r ->].
  - assert (allocs (tr_cells t) <= Z.of_nat (length (tr_cells t))).
    { clear. induction (tr_cells t) as [|[a|a] es IH]; unfold allocs in *; simpl; lia. }
    rewrite W6. lia.
  - rewrite W6. apply (intervals_loop_in _ ∅ 0); [lia|]. intros x s. by rewrite lookup_empty.
  - by eexists.
Qed.

(** A new event is appended. *)
Lemma write_cell_end cells e : write_cell cells (Z.of_nat (length cells)) e = cells ++ [e].
Proof.
  unfold write_cell. rewrite Nat2Z.id, Nat.sub_diag, app_nil_r, take_ge, drop_ge by lia. done.
Qed.

Lemma trace_store_wf e t n :
  trace_wf t n -> t.(tr_length) + 1 < t.(tr_cap) ->
  exists t', trace_store e t = Ok t' /\ trace_wf t' (n + alloc_incr e) /\
    t'.(tr_ptr) = t.(tr_ptr) /\ t'.(tr_cap) = t.(tr_cap).
Proof.
  intros [W1 W2 (q & W3 & W4 & W5) W6 W7] Hr. unfold trace_store.
  rewrite (proj2 (Z.ltb_lt _ _)) by done. eexists. split; [done|]. split; [|done].
  assert (Ha : allocs (tr_cells t ++ [e]) = allocs (tr_cells t) + alloc_incr e).
  { unfold allocs. rewrite sum_over_snoc. done. }
  assert (Hb : 0 <= allocs (tr_cells t) <= Z.of_nat (length (tr_cells t))).
  { clear. induction (tr_cells t) as [|[a|a] es IH]; unfold allocs in *; simpl; lia. }
  assert (Hi : 0 <= alloc_incr e <= 1) by (destruct e; simpl; lia).
  rewrite W1, write_cell_end. split; simpl.
  - rewrite length_app. simpl. rewrite usize_small by lia. lia.
  - rewrite usize_small by lia. lia.
  - by exists q.
  - rewrite Ha, W6. apply usize_small. lia.
  - by rewrite Ha, W7.
Qed.

(** ** Properties *)

(** C22: for a trace that starts with an allocation, [reuse] gives for every
    window length [k] the number of free intervals inside a window of length
    [k], averaged over all the windows: the linear-time computation with its
    prefix sums agrees with counting in every window. *)
Theorem reuse_averages_windows (t : Trace) a es :
  trace_events t = Ok (Alloc a :: es) -> t.(alloc_count) = allocs (Alloc a :: es) ->
  let ivs := intervals_loop (Alloc a :: es) ∅ 0 in
  t.(alloc_count) < 2 ^ 63 -> Z.of_nat (length ivs) * t.(alloc_count) < 2 ^ 64 ->
  reuse t = Ok (reuse_table t.(alloc_count)
                  (map (windows_total t.(alloc_count) ivs) (range 1 (t.(alloc_count) + 1)))).
Proof.
  intros Hev Hn ivs Hlt Hb. unfold reuse, free_intervals. rewrite Hev. cbn [mbind result_bind].
  assert (1 <= t.(alloc_count)).
  { rewrite Hn. unfold allocs. simpl. pose proof (allocs_nonneg es) as H. unfold allocs in H. lia. }
  rewrite reuse_counts_ok; [|lia|rewrite Hn; apply trace_intervals_ok]. cbn [mbind result_bind].
  f_equal. f_equal. apply map_ext_in. intros k Hk%list_elem_of_In%elem_of_range.
  apply usize_small. pose proof (windows_total_range t.(alloc_count) ivs k ltac:(lia)) as H'.
  unfold ivs in *. lia.
Qed.

(** The trace of the unit tests. *)
Lemma reuse_averages_windows_witness :
  let t := mkTrace None test_events INIT_TRACE_LENGTH 9 6 in
  reuse t = Ok (reuse_table 6 [2; 5; 7; 7; 5; 3]) /\
  map (windows_total 6 (intervals_loop test_events ∅ 0)) (range 1 7) = [2; 5; 7; 7; 5; 3].
Proof.
  split; [|by vm_compute].
  rewrite (reuse_averages_windows (mkTrace None test_events INIT_TRACE_LENGTH 9 6) 1 (tail test_events));
    [|by vm_compute..]. by vm_compute.
Defined.

(** When the sampled trace starts with a free, [reuse] miscounts.  In a trace
    whose only interval is that of an object that is freed before, and allocated
    again by, the first allocation, one window of each length contains it, but
    the code counts [k] windows of length [k]: a reuse of 3 in the only window of
    length 3. *)
Theorem reuse_miscounts_first_free :
  exists es, intervals_loop es ∅ 0 = [(0, 0)] /\ allocs es = 3 /\
    reuse_counts 3 (intervals_loop es ∅ 0) = Ok [1; 2; 3] /\
    map (windows_total 3 (intervals_loop es ∅ 0)) (range 1 4) = [1; 1; 1].
Proof.
  exists [Free 7; Alloc 7; Alloc 1; Alloc 2]. split; [by vm_compute|]. split; [by vm_compute|].
  split; by vm_compute.
Qed.
