(* ===== verification/Tuner.v ===== *)
(** * Histograms, liveness and the APF tuner

    Models [src/src/apf/histogram.rs], [src/src/apf/liveness_counter.rs] and
    [src/src/apf/mod.rs].  A tuner watches the allocations and frees of one
    size class of one thread, and asks for blocks or gives them back through
    [ApfEnv]. *)
From S2P Require Import Prelude Float Trace.

(** ** [Histogram] *)
Record Histogram : Type := mkHist {
  hist_ptr : Z;
  histogram : list Z;
  max_key : Z;
}.

Section Histogram.
Context {S : Type} {ENV : ApfEnv S}.

Definition hist_new : M S Histogram :=
  page ← env_allocate 8 (INIT_HISTOGRAM_LENGTH * 8);
  assertM (negb (page =? 0)) "Error initializing histogram";;
  mret (mkHist page (zeros INIT_HISTOGRAM_LENGTH) INIT_HISTOGRAM_LENGTH).

(** [while output <= failed_key { output *= 2 }]; 64 doublings overflow. *)
Definition hist_new_max (max_key failed_key : Z) : result Z :=
  match while 65 (λ out, out <=? failed_key) (λ out, usize (out * 2)) (usize (max_key * 2)) with
  | Some m => Ok m
  | None => Err OutOfFuel
  end.

Definition hist_grow (h : Histogram) (failed_key : Z) : M S Histogram :=
  new_max ← lift (hist_new_max h.(max_key) failed_key);
  page ← env_no_tuning (env_realloc h.(hist_ptr) (usize (new_max * 8)));
  assertM (negb (page =? 0)) "Error initializing histogram";;
  mret (mkHist page (take (Z.to_nat h.(max_key)) h.(histogram) ++ zeros (new_max - h.(max_key)))
          new_max).

Definition hist_add (h : Histogram) (key val : Z) : M S Histogram :=
  h ← (if usize (h.(max_key) - 1) <=? key then hist_grow h key else mret h);
  v ← lift (vec_add h.(histogram) key val);
  mret (mkHist h.(hist_ptr) v h.(max_key)).

Definition hist_increment (h : Histogram) (key : Z) : M S Histogram := hist_add h key 1.
End Histogram.

Definition hist_get (h : Histogram) (key : Z) : result Z :=
  if h.(max_key) <=? key then Ok 0 else vec_at h.(histogram) key.

Definition hist_count (h : Histogram) : Z := Z.of_nat (length h.(histogram)).

(** ** [LivenessCounter] *)
Record LivenessCounter : Type := mkLive {
  lc_n : Z;
  lc_m : Z;
  alloc_sum : Histogram;
  alloc_counts : Histogram;
  free_sum : Histogram;
  free_counts : Histogram;
}.

Section LivenessCounter.
Context {S : Type} {ENV : ApfEnv S}.

Definition lc_new : M S LivenessCounter :=
  a ← hist_new; b ← hist_new; c ← hist_new; d ← hist_new;
  mret (mkLive 0 0 a b c d).

Definition lc_alloc (l : LivenessCounter) : M S LivenessCounter :=
  a ← hist_add l.(alloc_sum) l.(lc_n) l.(lc_n);
  b ← hist_increment l.(alloc_counts) l.(lc_n);
  mret (mkLive l.(lc_n) (usize (l.(lc_m) + 1)) a b l.(free_sum) l.(free_counts)).

Definition lc_free (l : LivenessCounter) : M S LivenessCounter :=
  a ← hist_add l.(free_sum) l.(lc_n) l.(lc_n);
  b ← hist_increment l.(free_counts) l.(lc_n);
  mret (mkLive l.(lc_n) l.(lc_m) l.(alloc_sum) l.(alloc_counts) a b).

(** [h.add(n, h.get(n - 1))] *)
Definition hist_carry (h : Histogram) (n : Z) : M S Histogram :=
  v ← lift (hist_get h (n - 1)); hist_add h n v.

Definition lc_inc_timer (l : LivenessCounter) : M S LivenessCounter :=
  let n := usize (l.(lc_n) + 1) in
  ac ← hist_carry l.(alloc_counts) n;
  asum ← hist_carry l.(alloc_sum) n;
  fc ← hist_carry l.(free_counts) n;
  fs ← hist_carry l.(free_sum) n;
  mret (mkLive n l.(lc_m) asum ac fs fc).
End LivenessCounter.

Definition liveness (l : LivenessCounter) (k : Z) : result float :=
  let i := l.(lc_n) - k + 1 in
  if i <? 0 then Ok f32_zero
  else
    fc ← hist_get l.(free_counts) i;
    fs ← hist_get l.(free_sum) i;
    ac ← hist_get l.(alloc_counts) k;
    an ← hist_get l.(alloc_sum) l.(lc_n);
    ak ← hist_get l.(alloc_sum) k;
    let tmp1 := usize ((l.(lc_m) - fc) * i + fs) in
    let tmp2 := usize (ac * k + an - ak) in
    Ok (f32_div (f32_of_Z (usize (tmp1 + l.(lc_m) * k - tmp2))) (f32_of_Z i)).

(** ** [ApfTuner] *)
Record ApfTuner : Type := mkTuner {
  tuner_id : Z;
  l_counter : LivenessCounter;
  r_counter : ReuseCounter;
  time : Z;
  fetch_count : Z;
  record : option (list (Z * Z));
}.

Definition calculate_dapf `{AC : ApfConfig} (t : ApfTuner) : Z :=
  let goal := usize (TARGET_APF * usize (t.(fetch_count) + 1)) in
  if goal <=? t.(time) then TARGET_APF else goal - t.(time).

Definition demand (t : ApfTuner) (k : Z) : result (option float) :=
  if k >? t.(time) then Ok None
  else
    match rc_reuse_at t.(r_counter) k with
    | None => Ok None
    | Some r =>
        if USE_ALLOCATION_CLOCK then Ok (Some (f32_sub (f32_of_Z k) r))
        else
          lk ← liveness t.(l_counter) k;
          l0 ← liveness t.(l_counter) 0;
          Ok (Some (f32_sub (f32_sub lk l0) r))
    end.

Section ApfTuner.
Context {S : Type} {ENV : ApfEnv S} {AC : ApfConfig}.

Definition tuner_new (id : Z) (use_record : bool) : M S ApfTuner :=
  l ← lc_new;
  r ← rc_new REUSE_BURST_LENGTH REUSE_HIBERNATION_PERIOD;
  mret (mkTuner id l r 0 0 (if use_record then Some [] else None)).

Definition tuner_set_id (id : Z) (t : ApfTuner) : ApfTuner :=
  mkTuner id t.(l_counter) t.(r_counter) t.(time) t.(fetch_count) t.(record).

Definition count_fetch (t : ApfTuner) : ApfTuner :=
  mkTuner t.(tuner_id) t.(l_counter) t.(r_counter) t.(time)
    (usize (t.(fetch_count) + 1)) t.(record).

(** [malloc]: the answer says whether the demand could be computed. *)
Definition tuner_malloc (ptr : Z) (t : ApfTuner) : M S (bool * ApfTuner) :=
  let now := usize (t.(time) + 1) in
  l ← (if USE_ALLOCATION_CLOCK then mret t.(l_counter)
       else l ← lc_inc_timer t.(l_counter); lc_alloc l);
  r ← rc_alloc ptr t.(r_counter);
  r ← rc_inc_timer r;
  let t := mkTuner t.(tuner_id) l r now t.(fetch_count) t.(record) in
  free_blocks ← env_check t.(tuner_id);
  if free_blocks =? 0 then
    d ← lift (demand t (calculate_dapf t));
    match d with
    | None => mret (false, t)
    | Some d =>
        let rec' := match t.(record) with
                    | Some rec => Some (rec ++ [(t.(time), calculate_dapf t)])
                    | None => None
                    end in
        let t := mkTuner t.(tuner_id) t.(l_counter) t.(r_counter) t.(time)
                   t.(fetch_count) rec' in
        _ ← env_fetch t.(tuner_id) (f32_to_usize (f32_ceil d));
        mret (true, count_fetch t)
    end
  else mret (true, t).

(** [free] *)
Definition tuner_free (ptr : Z) (t : ApfTuner) : M S (bool * ApfTuner) :=
  r ← rc_free ptr t.(r_counter);
  t ← (if USE_ALLOCATION_CLOCK then
         mret (mkTuner t.(tuner_id) t.(l_counter) r t.(time) t.(fetch_count) t.(record))
       else
         r ← rc_inc_timer r;
         l ← lc_inc_timer t.(l_counter);
         l ← lc_free l;
         mret (mkTuner t.(tuner_id) l r (usize (t.(time) + 1)) t.(fetch_count) t.(record)));
  d ← lift (demand t (calculate_dapf t));
  match d with
  | None => mret (false, t)
  | Some d =>
      if float_ltb d f32_zero then mret (false, t)
      else
        n ← env_check t.(tuner_id);
        (if float_leb (f32_add (f32_mul (f32_of_Z 2) d) (f32_of_Z 1)) (f32_of_Z n) then
           _ ← env_ret t.(tuner_id) (u32 (f32_to_u32 (f32_ceil d) + 1)); mret tt
         else mret tt);;
        mret (true, t)
  end.
End ApfTuner.

(** ** When the tuner stays quiet

    Until the first burst of samples is complete, and as long as fewer
    allocations than the next window have been seen, the demand is unknown. *)
Lemma demand_no_reuse t k : rc_reuse t.(r_counter) = None -> demand t k = Ok None.
Proof.
  intros H. unfold demand, rc_reuse_at. rewrite H. by destruct (k >? time t).
Qed.

Lemma calculate_dapf_range `{AC : ApfConfig} t :
  0 < TARGET_APF -> 0 <= t.(time) -> 0 <= t.(fetch_count) ->
  TARGET_APF * (t.(fetch_count) + 1) < 2 ^ 64 ->
  0 < calculate_dapf t <= TARGET_APF * (t.(fetch_count) + 1).
Proof.
  intros H0 H1 H2 H3. unfold calculate_dapf.
  assert (t.(fetch_count) + 1 < 2 ^ 64) by nia.
  rewrite (usize_small (fetch_count t + 1)) by lia.
  rewrite usize_small by nia. destruct (Z.leb_spec (TARGET_APF * (fetch_count t + 1)) (time t)); nia.
Qed.

(** ** Properties *)

(** C23: [Histogram::grow] terminates: the doubling loop gives the least
    [max_key * 2^j], [j >= 1], above the key that failed, and does not wrap
    around for keys below 2^62. *)
Theorem histogram_grows_past_key max_key failed_key :
  1 <= max_key < 2 ^ 62 -> 0 <= failed_key < 2 ^ 62 ->
  exists m j, hist_new_max max_key failed_key = Ok m /\ 1 <= j /\ m = max_key * 2 ^ j /\
    failed_key < m /\ (m = max_key * 2 \/ m <= 2 * failed_key).
Proof.
  intros Hm Hf. unfold hist_new_max. rewrite (usize_small (max_key * 2)) by lia.
  set (I := λ out, (exists j, 1 <= j /\ out = max_key * 2 ^ j) /\
    (out = max_key * 2 \/ out <= 2 * failed_key)).
  assert (Hlog : forall out, 0 < out -> Z.log2 (out * 2) = Z.log2 out + 1).
  { intros out Ho. rewrite Z.mul_comm, Z.log2_double by done. lia. }
  destruct (while_rule I (λ out, 63 - Z.log2 out) (λ out, out <=? failed_key) (λ out, usize (out * 2)))
    with (fuel := 65%nat) (a := max_key * 2) as (m & -> & [(j & Hj & Em) Hb] & Hc).
  - intros out [(j & Hj & ->) _] Hle%Z.leb_le. assert (0 < 2 ^ j) by (apply Z.pow_pos_nonneg; lia).
    rewrite usize_small by nia. split; [|right; lia].
    exists (j + 1). rewrite Z.pow_add_r by lia. lia.
  - intros out [(j & Hj & ->) _] Hle%Z.leb_le. assert (0 < 2 ^ j) by (apply Z.pow_pos_nonneg; lia).
    assert (0 < max_key * 2 ^ j) by nia.
    rewrite usize_small by lia. rewrite Hlog by lia.
    pose proof (Z.log2_le_mono _ _ Hle).
    assert (Z.log2 failed_key < 62) by (apply Z.log2_lt_pow2; lia). lia.
  - split; [exists 1; lia|by left].
  - pose proof (Z.log2_nonneg (max_key * 2)). split; [|lia].
    assert (Z.log2 (max_key * 2) < 63); [|lia]. apply Z.log2_lt_pow2; lia.
  - apply Z.leb_gt in Hc. exists m, j. by repeat split.
Qed.

Lemma histogram_grows_past_key_witness : exists m j,
  hist_new_max 32 1000 = Ok m /\ 1 <= j /\ m = 32 * 2 ^ j /\ 1000 < m.
Proof.
  destruct (histogram_grows_past_key 32 1000) as (m & j & H1 & H2 & H3 & H4 & _); [lia|lia|].
  by exists m, j.
Defined.
