(* ===== verification/SingleAccess.v ===== *)
(** * One-time initialisation

    Models [src/src/single_access.rs]: any number of threads call
    [with(func)] (or [with_then(func, after)]) on one [SingleAccess]; each step
    of a thread reads or writes one of the three flags, and the steps of the
    threads interleave. *)
From S2P Require Import Prelude.

(** [struct SingleAccessInternal] *)
Record SingleAccess : Type := mkSA { access : bool; wait : bool; skip_flag : bool }.

Definition sa_new : SingleAccess := mkSA false true false.

(** ** Where a thread is in [with] / [with_then] *)
Inductive Pc : Type :=
  | ReadSkip       (* [if !self.skip] *)
  | CompareSwap    (* [self.access.compare_and_swap(false, true, ..)] *)
  | CallFunc       (* [func()] *)
  | ClearWait      (* [self.wait = false] *)
  | SetSkip        (* [self.skip = true] *)
  | CallAfter      (* [after()] *)
  | SpinWait       (* [while self.wait {}] *)
  | Returned.

#[global] Instance Pc_eq_dec : EqDecision Pc.
Proof. solve_decision. Defined.

(** The state of the system: the flags, the position of each thread, and how
    often [func] and [after] have run. *)
Record System : Type := mkSys {
  flags : SingleAccess;
  pcs : list Pc;
  func_runs : nat;
  after_runs : nat;
}.

Definition sys_start (threads : nat) : System :=
  mkSys sa_new (replicate threads ReadSkip) 0 0.

(** One step of one thread; [then_] tells [with_then] from [with]. *)
Definition thread_step (then_ : bool) (f : SingleAccess) (pc : Pc)
  : SingleAccess * Pc * nat * nat :=
  match pc with
  | ReadSkip => (f, if f.(skip_flag) then Returned else CompareSwap, 0%nat, 0%nat)
  | CompareSwap =>
      if f.(access) then (f, SpinWait, 0%nat, 0%nat)
      else (mkSA true f.(wait) f.(skip_flag), CallFunc, 0%nat, 0%nat)
  | CallFunc => (f, ClearWait, 1%nat, 0%nat)
  | ClearWait => (mkSA f.(access) false f.(skip_flag), SetSkip, 0%nat, 0%nat)
  | SetSkip => (mkSA f.(access) f.(wait) true, if then_ then CallAfter else SpinWait, 0%nat, 0%nat)
  | CallAfter => (f, SpinWait, 0%nat, 1%nat)
  | SpinWait => (f, if f.(wait) then SpinWait else Returned, 0%nat, 0%nat)
  | Returned => (f, Returned, 0%nat, 0%nat)
  end.

Inductive step (then_ : bool) : System -> System -> Prop :=
  | step_thread s i pc f' pc' d d' :
      s.(pcs) !! i = Some pc -> pc <> Returned ->
      thread_step then_ s.(flags) pc = (f', pc', d, d') ->
      step then_ s (mkSys f' (<[i := pc']> s.(pcs)) (s.(func_runs) + d) (s.(after_runs) + d')).

(** ** The invariant

    Exactly one thread is past the exchange and before the end of the
    initialisation, from the exchange on until [skip] is set. *)
Definition owner_pc (pc : Pc) : bool :=
  match pc with CallFunc | ClearWait | SetSkip | CallAfter => true | _ => false end.

Definition owners (l : list Pc) : list Pc := filter (λ pc, owner_pc pc = true) l.

(** What the flags and counters are, given the owner's position. *)
Definition phase (then_ : bool) (s : System) : Prop :=
  let f := s.(flags) in
  match owners s.(pcs) with
  | [] => (f.(access) = false /\ f.(wait) = true /\ f.(skip_flag) = false /\
           s.(func_runs) = 0%nat /\ s.(after_runs) = 0%nat) \/
          (f.(access) = true /\ f.(wait) = false /\ f.(skip_flag) = true /\
           s.(func_runs) = 1%nat /\ s.(after_runs) = if then_ then 1%nat else 0%nat)
  | [CallFunc] => f = mkSA true true false /\ s.(func_runs) = 0%nat /\ s.(after_runs) = 0%nat
  | [ClearWait] => f = mkSA true true false /\ s.(func_runs) = 1%nat /\ s.(after_runs) = 0%nat
  | [SetSkip] => f = mkSA true false false /\ s.(func_runs) = 1%nat /\ s.(after_runs) = 0%nat
  | [CallAfter] => f = mkSA true false true /\ s.(func_runs) = 1%nat /\ s.(after_runs) = 0%nat /\
                   then_ = true
  | _ => False
  end.

Record sys_ok (then_ : bool) (s : System) : Prop := {
  ok_phase : phase then_ s;
  ok_returned : Returned ∈ s.(pcs) -> s.(flags).(wait) = false;
  ok_spin : SpinWait ∈ s.(pcs) -> s.(flags).(access) = true;
}.

(** ** Lemmas *)
Lemma owners_middle l1 pc l2 :
  owners (l1 ++ pc :: l2) =
    owners l1 ++ (if owner_pc pc then [pc] else []) ++ owners l2.
Proof.
  unfold owners. rewrite filter_app, filter_cons.
  destruct (owner_pc pc) eqn:E; [by rewrite decide_True|].
  by rewrite decide_False by done.
Qed.

(** An owner is alone. *)
Lemma phase_owner then_ s l1 pc l2 :
  phase then_ s -> s.(pcs) = l1 ++ pc :: l2 -> owner_pc pc = true ->
  owners l1 = [] /\ owners l2 = [].
Proof.
  unfold phase. intros Hp Hl E. rewrite Hl, owners_middle, E in Hp.
  destruct (owners l1) as [|x o1]; simpl in Hp.
  - destruct (owners l2); [done|]. by destruct pc.
  - destruct x, o1; simpl in Hp; done.
Qed.

(** Before the exchange nobody owns the initialisation. *)
Lemma phase_unclaimed then_ s :
  phase then_ s -> s.(flags).(access) = false ->
  owners s.(pcs) = [] /\ s.(flags) = sa_new /\ s.(func_runs) = 0%nat /\ s.(after_runs) = 0%nat.
Proof.
  unfold phase. destruct s as [[a w k] ps fr ar]. simpl. intros Hp ->.
  destruct (owners ps) as [|x o].
  - destruct Hp as [(_ & -> & -> & -> & ->)|(Ha & _)]; done.
  - destruct x, o; try done; by destruct Hp as [Hp _].
Qed.

(** [skip] is set after [wait] is cleared. *)
Lemma phase_skip then_ s :
  phase then_ s -> s.(flags).(skip_flag) = true -> s.(flags).(wait) = false.
Proof.
  unfold phase. destruct s as [[a w k] ps fr ar]. simpl. intros Hp ->.
  destruct (owners ps) as [|x o].
  - destruct Hp as [(_ & _ & Hk & _)|(_ & Hw & _)]; done.
  - destruct x, o; try done; destruct Hp as [Hp _]; by injection Hp.
Qed.

Lemma sa_start_ok then_ n : sys_ok then_ (sys_start n).
Proof.
  assert (Ho : owners (replicate n ReadSkip) = []).
  { induction n as [|n IH]; [done|]. simpl. unfold owners. rewrite filter_cons.
    by rewrite decide_False by done. }
  split; simpl.
  - unfold phase. simpl. rewrite Ho. by left.
  - intros H. apply elem_of_replicate in H as [H _]. done.
  - intros H. apply elem_of_replicate in H as [H _]. done.
Qed.

Lemma elem_of_middle_change (x pc pc' : Pc) l1 l2 :
  x ∈ l1 ++ pc' :: l2 -> x = pc' \/ x ∈ l1 ++ pc :: l2.
Proof. set_solver. Qed.

(** A step of the owner: it is the only one. *)
#[local] Ltac owner_case Hown Hp :=
  let E1 := fresh "E" in let E2 := fresh "E" in
  destruct (Hown eq_refl) as [E1 E2]; rewrite E1, E2 in Hp; simpl in Hp; destruct_and? Hp; subst;
  split; simpl; [unfold phase; simpl; rewrite owners_middle, E1, E2; try done|try done|try done].

Lemma step_ok then_ s s' : sys_ok then_ s -> step then_ s s' -> sys_ok then_ s'.
Proof.
  intros [Hp Hr Hs] Hstep. destruct Hstep as [s i pc f' pc' d d' Hi Hne Ht].
  destruct (pcs_middle _ _ _ pc' Hi) as (l1 & l2 & Hl & ->).
  pose proof Hp as Hp0. unfold phase in Hp. rewrite Hl, owners_middle in Hp.
  assert (Hown : owner_pc pc = true -> owners l1 = [] /\ owners l2 = []).
  { intros. by eapply phase_owner. }
  assert (Hrest : forall x, x ∈ l1 ++ pc' :: l2 -> x = pc' \/ x ∈ pcs s).
  { intros x Hx. rewrite Hl. by apply elem_of_middle_change. }
  destruct s as [f ps fr ar]. simpl in *. subst ps.
  assert (Hin : pc ∈ l1 ++ pc :: l2) by set_solver.
  destruct pc; simpl in Ht; simplify_eq; simpl in *.
  - (* ReadSkip *)
    split; simpl.
    + unfold phase. simpl. rewrite owners_middle, !Nat.add_0_r.
      destruct (skip_flag f'); done.
    + intros [Hx|Hx]%Hrest; [|by apply Hr]. destruct (skip_flag f') eqn:E; [|done].
      by apply (phase_skip _ _ Hp0).
    + intros [Hx|Hx]%Hrest; [|by apply Hs]. by destruct (skip_flag f').
  - (* CompareSwap *)
    destruct (access f) eqn:Ea; simplify_eq.
    + split; simpl.
      * unfold phase. simpl. rewrite owners_middle, !Nat.add_0_r. rewrite Ea. exact Hp.
      * intros [Hx|Hx]%Hrest; [done|by apply Hr].
      * done.
    + split; simpl.
      * unfold phase. simpl. rewrite owners_middle, !Nat.add_0_r. simpl.
        destruct (phase_unclaimed _ _ Hp0 Ea) as (E & Ef & E1 & E2). simpl in *.
        rewrite owners_middle in E. simpl in E. apply app_nil in E as [-> ->].
        by subst.
      * intros [Hx|Hx]%Hrest; [done|by apply Hr].
      * done.
  - (* CallFunc *)
    owner_case Hown Hp. intros [Hx|Hx]%Hrest; [done|by apply Hr].
  - (* ClearWait *)
    owner_case Hown Hp.
  - (* SetSkip *)
    owner_case Hown Hp. destruct then_; [done|]. simpl. by right.
  - (* CallAfter *)
    owner_case Hown Hp. simpl. by right.
  - (* SpinWait *)
    split; simpl.
    + unfold phase. simpl. rewrite owners_middle, !Nat.add_0_r. by destruct (wait f').
    + intros [Hx|Hx]%Hrest; [|by apply Hr]. by destruct (wait f').
    + intros [Hx|Hx]%Hrest; [by apply Hs|by apply Hs].
Qed.

Lemma steps_ok then_ n s : rtc (step then_) (sys_start n) s -> sys_ok then_ s.
Proof.
  intros H. assert (Hok : sys_ok then_ (sys_start n)) by apply sa_start_ok.
  revert Hok. induction H as [|s1 s2 s3 H12 _ IH]; [done|].
  intros Hok. apply IH. by eapply step_ok.
Qed.

(** C30: however the steps of any number of threads interleave, [func] runs at
    most once (and so does [after]), and a thread that has returned from
    [with] returned after [func] had run to its end, exactly once. *)
Theorem single_access_once then_ n s :
  rtc (step then_) (sys_start n) s ->
  (s.(func_runs) <= 1)%nat /\ (s.(after_runs) <= s.(func_runs))%nat /\
  (Returned ∈ s.(pcs) -> s.(func_runs) = 1%nat).
Proof.
  intros H. apply steps_ok in H as [Hp Hr _]. unfold phase in Hp.
  destruct s as [f ps fr ar]. simpl in *.
  destruct (owners ps) as [|x o].
  - destruct Hp as [(_ & Hw & _ & -> & ->)|(_ & _ & _ & -> & ->)].
    + split; [lia|]. split; [lia|]. intros Hin. apply Hr in Hin. congruence.
    + destruct then_; (split; [lia|]; split; [lia|done]).
  - destruct x, o; try done; destruct Hp as (-> & -> & Ha); try destruct Ha as [Ha _]; subst;
      (split; [lia|]; split; [lia|]); intros Hin; apply Hr in Hin; done.
Qed.

Lemma single_access_once_witness :
  exists s, rtc (step false) (sys_start 2) s /\ Returned ∈ s.(pcs) /\ s.(func_runs) = 1%nat.
Proof.
  set (s := mkSys (mkSA true false true) [Returned; SpinWait] 1 0).
  assert (H : rtc (step false) (sys_start 2) s).
  { eapply rtc_l; [by apply (step_thread false _ 0 ReadSkip)|].
    eapply rtc_l; [by apply (step_thread false _ 0 CompareSwap)|].
    eapply rtc_l; [by apply (step_thread false _ 1 ReadSkip)|].
    eapply rtc_l; [by apply (step_thread false _ 1 CompareSwap)|].
    eapply rtc_l; [by apply (step_thread false _ 0 CallFunc)|].
    eapply rtc_l; [by apply (step_thread false _ 0 ClearWait)|].
    eapply rtc_l; [by apply (step_thread false _ 0 SetSkip)|].
    eapply rtc_l; [by apply (step_thread false _ 0 SpinWait)|].
    apply rtc_refl. }
  exists s. split; [exact H|]. split; [set_solver|].
  destruct (single_access_once false 2 s H) as (_ & _ & Hd). apply Hd. set_solver.
Defined.

(** A step of thread [i]. *)
Inductive step_by (then_ : bool) (i : nat) (s : System) : System -> Prop :=
  | step_by_thread pc f' pc' d d' :
      s.(pcs) !! i = Some pc -> pc <> Returned ->
      thread_step then_ s.(flags) pc = (f', pc', d, d') ->
      step_by then_ i s
        (mkSys f' (<[i := pc']> s.(pcs)) (s.(func_runs) + d) (s.(after_runs) + d')).

Lemma step_by_step then_ s s' : step then_ s s' <-> exists i, step_by then_ i s s'.
Proof.
  split.
  - intros [s0 i pc f' pc' d d' H1 H2 H3]. exists i. by econstructor.
  - intros [i [pc f' pc' d d' H1 H2 H3]]. by econstructor.
Qed.








