(* ===== verification/InfoDump.v ===== *)
(** * Allocation statistics

    Models [src/src/info_dump.rs], which the feature [track_allocation] adds:
    counters of the memory that was mapped and of the calls that were made.
    Printing them is I/O and is not modelled. *)
From S2P Require Import Prelude.

Record InfoDump : Type := mkDump {
  total_allocated_from_vm : Z;
  current_allocated_from_vm : Z;
  current_mem_allocated : Z;
  total_allocs : Z;
  total_frees : Z;
}.

Definition INFO_DUMP : InfoDump := mkDump 0 0 0 0 0.

Definition increase_allocated_from_vm (change : Z) : M InfoDump unit :=
  modify (λ d, mkDump (usize (d.(total_allocated_from_vm) + change))
                 (usize (d.(current_allocated_from_vm) + change))
                 d.(current_mem_allocated) d.(total_allocs) d.(total_frees)).

Definition decrease_allocated_from_vm (change : Z) : M InfoDump unit :=
  d ← get;
  assertM (change <=? d.(current_allocated_from_vm))
    "assertion failed: info_dump.current_allocated_from_vm >= change";;
  put (mkDump d.(total_allocated_from_vm) (usize (d.(current_allocated_from_vm) - change))
         d.(current_mem_allocated) d.(total_allocs) d.(total_frees)).

Definition log_malloc (size : Z) : M InfoDump unit :=
  modify (λ d, mkDump d.(total_allocated_from_vm) d.(current_allocated_from_vm)
                 (usize (d.(current_mem_allocated) + size)) (usize (d.(total_allocs) + 1))
                 d.(total_frees)).

Definition log_free (size : Z) : M InfoDump unit :=
  modify (λ d, mkDump d.(total_allocated_from_vm) d.(current_allocated_from_vm)
                 (usize (d.(current_mem_allocated) - size)) d.(total_allocs)
                 (usize (d.(total_frees) + 1))).

Definition get_info_dump : M InfoDump InfoDump := get.

(** ** The counters count *)
Inductive Logged : Type := LMalloc (size : Z) | LFree (size : Z).

Definition log (l : Logged) : M InfoDump unit :=
  match l with LMalloc n => log_malloc n | LFree n => log_free n end.

Definition logged_bytes (ls : list Logged) : Z :=
  foldr (λ l acc, match l with LMalloc n => n + acc | LFree n => acc - n end) 0 ls.

Definition logged_mallocs (ls : list Logged) : Z :=
  foldr (λ l acc, match l with LMalloc _ => 1 + acc | LFree _ => acc end) 0 ls.

(** After any sequence of logged calls, the bytes in use are those allocated
    less those freed and every call is counted, modulo the width of a [usize]. *)
Theorem log_counts ls d :
  exists d', forM ls log d = Ok (tt, d') /\
    usize d'.(current_mem_allocated) = usize (d.(current_mem_allocated) + logged_bytes ls) /\
    usize d'.(total_allocs) = usize (d.(total_allocs) + logged_mallocs ls) /\
    usize d'.(total_frees) =
      usize (d.(total_frees) + (Z.of_nat (length ls) - logged_mallocs ls)) /\
    d'.(current_allocated_from_vm) = d.(current_allocated_from_vm).
Proof.
  revert d. induction ls as [|l ls IH]; intros d.
  { exists d. simpl. rewrite !Z.add_0_r. done. }
  assert (Hs : exists d1, log l d = Ok (tt, d1)) by (destruct l; by eexists).
  destruct Hs as [d1 Hs]. destruct (IH d1) as (d' & E & H1 & H2 & H3 & H4). exists d'.
  rewrite (forM_cons l ls log _ _ Hs). split; [done|]. rewrite H1, H2, H3, H4.
  destruct l; simpl in Hs; injection Hs as <-; simpl; rewrite !usize_usize_add;
    repeat split; f_equal; lia.
Qed.
