(* ===== verification/Bootstrap.v ===== *)
(** * The bootstrap reserve

    Models [src/src/bootstrap.rs]: a bump allocator over segments, used while a
    thread is panicking or when the bootstrap flag is set. *)
From S2P Require Import Prelude MemInfo Mem.

Record BootstrapReserve : Type := mkBoot {
  boot_mem : list Segment;
  boot_next : Z;
  boot_avail : Z;
  boot_max : Z;
}.

Definition boot_new (size : Z) : BootstrapReserve := mkBoot [] 0 0 size.

Definition KB : Z := 1028.
Definition MB : Z := 1028 * KB.

Definition bootstrap_reserve_init : BootstrapReserve := boot_new (128 * KB).

Section Bootstrap.
Context {KN : Kernel}.

(** [SEGMENT_ALLOCATOR.allocate(size).unwrap_or_else(|_| exit(-1))] *)
Definition segment_or_exit (size : Z) : M Os Segment :=
  r ← allocate size;
  match r with
  | inl seg => mret seg
  | inr _ => fail (Exit (-1))
  end.

Definition boot_init (b : BootstrapReserve) : M Os BootstrapReserve :=
  seg ← segment_or_exit b.(boot_max);
  mret (mkBoot (b.(boot_mem) ++ [seg]) seg.(seg_ptr) b.(boot_max) b.(boot_max)).

Definition add_new_segment (request_size : Z) (b : BootstrapReserve)
  : M Os BootstrapReserve :=
  let size := Z.max b.(boot_max) request_size in
  seg ← segment_or_exit size;
  mret (mkBoot (b.(boot_mem) ++ [seg]) seg.(seg_ptr) size b.(boot_max)).

Definition boot_allocate (size : Z) (b : BootstrapReserve) : M Os (Z * BootstrapReserve) :=
  b ← (if size >? b.(boot_avail) then add_new_segment size b else mret b);
  mret (b.(boot_next),
        mkBoot b.(boot_mem) (b.(boot_next) + size) (b.(boot_avail) - size) b.(boot_max)).
End Bootstrap.

(** Iterating over a reference to an empty [Array] maps 0 bytes and panics. *)
Definition ptr_in_bootstrap (p : Z) (b : BootstrapReserve) : result bool :=
  match b.(boot_mem) with
  | [] => Err (Panic "called `Result::unwrap()` on an `Err` value")
  | _ => Ok (existsb (λ s, (s.(seg_ptr) <=? p) && (p <? s.(seg_ptr) + s.(seg_len)))
               b.(boot_mem))
  end.

(** ** Correctness

    The free part of the current segment is [boot_next, boot_next + boot_avail). *)
Record boot_ok (o : Os) (b : BootstrapReserve) : Prop := {
  boot_free : 0 <= b.(boot_avail);
  boot_in : exists seg, seg ∈ b.(boot_mem) /\ seg ∈ o.(segs) /\
    seg.(seg_ptr) <= b.(boot_next) /\
    b.(boot_next) + b.(boot_avail) <= seg.(seg_ptr) + seg.(seg_len);
  boot_segs : forall seg, seg ∈ b.(boot_mem) -> seg ∈ o.(segs);
  boot_max_pos : 0 < b.(boot_max);
}.

(** What has been handed out never meets what is still free. *)
Definition boot_given (b : BootstrapReserve) (p n : Z) : Prop :=
  exists seg, seg ∈ b.(boot_mem) /\ seg.(seg_ptr) <= p /\ p + n <= seg.(seg_ptr) + seg.(seg_len) /\
    disjoint_ranges p n b.(boot_next) b.(boot_avail).

Section BootstrapFacts.
Context {KN : Kernel}.

Lemma add_new_segment_ok o b size :
  os_ok o -> boot_ok o b -> 0 <= size ->
  (exists o' b', add_new_segment size b o = Ok (b', o') /\ os_ok o' /\ boot_ok o' b' /\
     size <= b'.(boot_avail) /\
     (forall seg, seg ∈ b.(boot_mem) -> seg ∈ b'.(boot_mem)) /\
     (exists seg, seg ∈ b'.(boot_mem) /\ seg.(seg_ptr) = b'.(boot_next) /\
        seg.(seg_len) = b'.(boot_avail) /\ Forall (seg_disjoint seg) o.(segs))) \/
  add_new_segment size b o = Err (Exit (-1)).
Proof.
  intros Ho [H1 H2 H3 H4] Hs. unfold add_new_segment, segment_or_exit, allocate.
  set (n := Z.max (boot_max b) size).
  destruct (map_segment_ok n false o) as (r & o' & Hr). pose proof (map_segment_inv _ _ _ _ _ Hr) as Hi.
  pose proof (map_segment_os_ok _ _ _ _ _ Ho Hr) as Ho'.
  destruct r as [seg|[sz e]].
  - left. destruct Hi as (Hl & [F1 F2 F3 F4 F5] & Eo). eexists o', _. split.
    { unfold mbind, M_bind. rewrite Hr. simpl. done. }
    split; [done|]. split; [|split; [simpl; lia|split; [set_solver|]]].
    + split; simpl; [lia| | |done].
      * exists seg. rewrite Eo. simpl. split; [set_solver|]. split; [set_solver|]. lia.
      * rewrite Eo. simpl. set_solver.
    + exists seg. simpl. rewrite Hl. split; [set_solver|]. done.
  - right. unfold mbind, M_bind. by rewrite Hr.
Qed.

(** C21: the bootstrap reserve hands out memory that is mapped, is not handed
    out twice and lies in one of its segments: [allocate(size)] either exits
    the process (no segment to be had) or returns a range of [size] bytes
    that is given from then on, and every range given before stays given. *)
Theorem bootstrap_allocate_fresh o b size p n :
  os_ok o -> boot_ok o b -> 0 <= size -> 0 <= n -> boot_given b p n ->
  (exists q o' b', boot_allocate size b o = Ok ((q, b'), o') /\ os_ok o' /\ boot_ok o' b' /\
     boot_given b' q size /\ boot_given b' p n /\ disjoint_ranges p n q size) \/
  boot_allocate size b o = Err (Exit (-1)).
Proof.
  intros Ho Hb Hs Hn (s0 & G1 & G2 & G3 & G4). unfold boot_allocate.
  destruct (Z.gtb_spec size (boot_avail b)) as [Hgt|Hle].
  - destruct (add_new_segment_ok o b size Ho Hb Hs)
      as [(o' & b' & E & Ho' & Hb' & Hav & Hmem & seg & Sin & Sp & Sl & Sd)|E].
    + left. eexists _, o', _. unfold mbind, M_bind. rewrite E.
      split; [done|]. split; [done|]. destruct Hb' as [B1 B2 B3 B4].
      assert (Hdis : disjoint_ranges p n (boot_next b') (boot_avail b')).
      { rewrite Forall_forall in Sd. specialize (Sd s0 (boot_segs _ _ Hb _ G1)).
        unfold seg_disjoint, disjoint_ranges in *. rewrite Sp, Sl in Sd.
        pose proof (page_span_ge (seg_len s0)). pose proof (page_span_ge (boot_avail b')). lia. }
      unfold disjoint_ranges in *.
      split; [|split; [|split; [|lia]]].
      * split; simpl; [lia| |done|done].
        exists seg. split; [done|]. split; [by apply B3|]. lia.
      * exists seg. simpl. split; [done|]. unfold disjoint_ranges. lia.
      * exists s0. simpl. split; [by apply Hmem|]. unfold disjoint_ranges. lia.
    + right. unfold mbind, M_bind. by rewrite E.
  - left. eexists _, o, _. split; [done|]. split; [done|]. simpl.
    destruct Hb as [B1 B2 B3 B4]. unfold disjoint_ranges in *.
    split; [|split; [|split; [|lia]]].
    + split; simpl; [lia| |done|done].
      destruct B2 as (seg & S1 & S2 & S3 & S4).
      exists seg. split; [done|]. split; [done|]. lia.
    + destruct B2 as (seg & S1 & S2 & S3 & S4).
      exists seg. simpl. split; [done|]. unfold disjoint_ranges. lia.
    + exists s0. simpl. split; [done|]. unfold disjoint_ranges. lia.
Qed.
End BootstrapFacts.

(** A reserve in use: one segment of which 64 bytes are given. *)
Definition boot_example : Os * BootstrapReserve :=
  let seg := mkSegment 8192 (128 * KB) in
  (mkOs ∅ [seg] 1, mkBoot [seg] (8192 + 64) (128 * KB - 64) (128 * KB)).

Lemma bootstrap_allocate_fresh_witness :
  exists q o' b', boot_allocate (KN := kernel_up) 100 boot_example.2 boot_example.1
                    = Ok ((q, b'), o') /\ disjoint_ranges 8192 64 q 100.
Proof.
  destruct (bootstrap_allocate_fresh (KN := kernel_up) boot_example.1 boot_example.2 100 8192 64)
    as [(q & o' & b' & H & _ & _ & _ & _ & D)|H].
  - constructor; repeat constructor; vm_compute; try done. by exists 2.
  - constructor; simpl; [vm_compute; done| |done|vm_compute; done].
    eexists. split; [by apply list_elem_of_here|]. split; [by apply list_elem_of_here|].
    by vm_compute.
  - done.
  - done.
  - eexists. split; [by apply list_elem_of_here|]. split; [by vm_compute|].
    split; [by vm_compute|]. left. by vm_compute.
  - by exists q, o', b'.
  - exfalso. vm_compute in H. discriminate H.
Defined.
