(* ===== verification/State.v ===== *)
(** * The state that the allocator's components share

    The static variables of [src/src/lib.rs], [src/src/page_map.rs],
    [src/src/pages.rs], [src/src/allocation_data/desc.rs] and
    [src/src/allocation_data/proc_heap.rs] form one record.  Descriptors live in
    mapped pages in the program; here they are a map from their addresses to
    their fields, and reading an address that holds no descriptor is a [Fault].

    The functions of the later files run on this state in the monad [M State],
    one call at a time: a compare-and-exchange of the code compares with the
    value that the same call has just loaded, and succeeds. *)
From S2P Require Import Prelude MemInfo SizeClasses Anchor Mem HashMap.

(** ** Descriptors ([struct Descriptor])

    A [DescriptorNode] is a pointer whose low 6 bits hold a counter.  The
    pointer [proc_heap] is null or points to an element of [HEAPS]: it is the
    index of that element. *)
Record Descriptor : Type := mkDesc {
  next_free : option Z;
  next_partial : option Z;
  anchor : Z;
  super_block : option Segment;
  proc_heap : option Z;
  d_block_size : Z;
  max_count : Z;
}.

#[global] Instance Descriptor_eq_dec : EqDecision Descriptor.
Proof. solve_decision. Defined.

Definition desc_default : Descriptor := mkDesc None None 0 None None 0 0.

(** [struct ProcHeap] *)
Record ProcHeap : Type := mkHeap {
  partial_list : option Z;
  ph_size_class_index : Z;
}.

(** ** The shared state

    [st_page_map] is [None] before [PageMap::init]; a page whose entry was
    never stored reads as the null pointer (the map is a fresh mapping). *)
Record State : Type := mkState {
  st_os : Os;
  st_sizes : SizeState;
  st_size_map : option (HashMap Z Z);
  st_descs : gmap Z Descriptor;
  st_avail : Z;
  st_page_map : option (gmap Z Z);
  st_heaps : option (list ProcHeap);
}.

Definition state_init : State :=
  mkState os_init size_state_uninit None ∅ 0 None None.

Definition set_os (o : Os) (s : State) : State :=
  mkState o s.(st_sizes) s.(st_size_map) s.(st_descs) s.(st_avail) s.(st_page_map) s.(st_heaps).
Definition set_sizes (z : SizeState) (s : State) : State :=
  mkState s.(st_os) z s.(st_size_map) s.(st_descs) s.(st_avail) s.(st_page_map) s.(st_heaps).
Definition set_size_map (m : option (HashMap Z Z)) (s : State) : State :=
  mkState s.(st_os) s.(st_sizes) m s.(st_descs) s.(st_avail) s.(st_page_map) s.(st_heaps).
Definition set_descs (d : gmap Z Descriptor) (s : State) : State :=
  mkState s.(st_os) s.(st_sizes) s.(st_size_map) d s.(st_avail) s.(st_page_map) s.(st_heaps).
Definition set_avail_desc (a : Z) (s : State) : State :=
  mkState s.(st_os) s.(st_sizes) s.(st_size_map) s.(st_descs) a s.(st_page_map) s.(st_heaps).
Definition set_page_map (p : option (gmap Z Z)) (s : State) : State :=
  mkState s.(st_os) s.(st_sizes) s.(st_size_map) s.(st_descs) s.(st_avail) p s.(st_heaps).
Definition set_heaps (h : option (list ProcHeap)) (s : State) : State :=
  mkState s.(st_os) s.(st_sizes) s.(st_size_map) s.(st_descs) s.(st_avail) s.(st_page_map) h.

Definition with_os {A} (c : M Os A) : M State A := zoom st_os set_os c.

(** ** Access to a descriptor through its address *)
Definition read_desc (p : Z) : M State Descriptor := λ s,
  match s.(st_descs) !! p with
  | Some d => Ok (d, s)
  | None => Err (Fault p)
  end.

Definition update_desc (p : Z) (f : Descriptor -> Descriptor) : M State unit := λ s,
  match s.(st_descs) !! p with
  | Some d => Ok (tt, set_descs (<[p := f d]> s.(st_descs)) s)
  | None => Err (Fault p)
  end.

Definition set_next_free (n : option Z) (d : Descriptor) : Descriptor :=
  mkDesc n d.(next_partial) d.(anchor) d.(super_block) d.(proc_heap) d.(d_block_size) d.(max_count).
Definition set_next_partial (n : option Z) (d : Descriptor) : Descriptor :=
  mkDesc d.(next_free) n d.(anchor) d.(super_block) d.(proc_heap) d.(d_block_size) d.(max_count).
Definition set_anchor (a : Z) (d : Descriptor) : Descriptor :=
  mkDesc d.(next_free) d.(next_partial) a d.(super_block) d.(proc_heap) d.(d_block_size) d.(max_count).
Definition set_super_block (b : option Segment) (d : Descriptor) : Descriptor :=
  mkDesc d.(next_free) d.(next_partial) d.(anchor) b d.(proc_heap) d.(d_block_size) d.(max_count).
Definition set_block_size (n : Z) (d : Descriptor) : Descriptor :=
  mkDesc d.(next_free) d.(next_partial) d.(anchor) d.(super_block) d.(proc_heap) n d.(max_count).

(** [desc.proc_heap = h; desc.block_size = b; desc.max_count = c] *)
Definition set_geometry (h : option Z) (b c : Z) (d : Descriptor) : Descriptor :=
  mkDesc d.(next_free) d.(next_partial) d.(anchor) d.(super_block) h b c.

(** [&SIZE_CLASSES[idx]] and [get_size_class(size)] *)
Definition size_class (idx : Z) : M State SizeClassData := λ s,
  match size_class_at s.(st_sizes) idx with
  | Ok c => Ok (c, s)
  | Err e => Err e
  end.

Definition size_class_of (size : Z) : M State Z := λ s,
  Ok (get_size_class s.(st_sizes) size, s).
