(* ===== verification/Pages.v ===== *)
(** * Page allocation

    Models the functions of [src/src/pages.rs] that the allocator calls:
    [page_alloc], [page_alloc_over_commit] and [page_free], with the map
    [SEGMENT_HOLDER] from the start of each mapping to its size.  The hash of a
    pointer ([DefaultHasher]) is a parameter. *)
From S2P Require Import Prelude MemInfo Mem HashMap State.

Section Pages.
Context {KN : Kernel} {HZ : Hash Z}.

(** [segment_holder.size_map = Some(HashMap::new())] when there is none *)
Definition holder_map : M State (HashMap Z Z) := λ s,
  match s.(st_size_map) with
  | Some m => Ok (m, s)
  | None => match hm_new with
            | Ok m => Ok (m, set_size_map (Some m) s)
            | Err e => Err e
            end
  end.

(** The body that both allocation functions share. *)
Definition page_alloc_with (alloc : Z -> M Os (Segment + AllocationError)) (size : Z)
  : M State (Z + AllocationError) :=
  if negb (Z.land size PAGE_MASK =? 0) then
    λ s, Ok (inr (AllocationFailed size (errno s.(st_os).(calls))), s)
  else
    _ ← holder_map;
    r ← with_os (alloc size);
    match r with
    | inr e => mret (inr e)
    | inl segment =>
        let ptr := segment.(seg_ptr) in
        m ← holder_map;
        '(_, m') ← lift (insert m ptr size);
        modify (set_size_map (Some m'));;
        mret (inl ptr)
    end.

Definition page_alloc (size : Z) : M State (Z + AllocationError) :=
  page_alloc_with allocate size.

Definition page_alloc_over_commit (size : Z) : M State (Z + AllocationError) :=
  page_alloc_with allocate_massive size.

Definition page_free (ptr : Z) : M State bool :=
  o ← gets st_size_map;
  m ← unwrap o "called `Option::unwrap()` on a `None` value";
  present ← lift (contains m ptr);
  if (present : bool) then
    size ← lift (hm_index m ptr);
    ret ← with_os (deallocate (mkSegment ptr size));
    '(_, m') ← lift (remove m ptr);
    modify (set_size_map (Some m'));;
    mret ret
  else mret false.

(** ** Correctness

  The table of sizes stays small enough for its hash map to grow: it is at
  most a few times the number of system calls made. *)
Definition CALLS_LIMIT : Z := 2 ^ 58.

Definition pages_ok (s : State) : Prop :=
  match s.(st_size_map) with
  | None => True
  | Some m => hm_ok m /\ 0 <= m.(hm_len) <= Z.of_nat s.(st_os).(calls) /\
              n_buckets m <= 4 * Z.of_nat s.(st_os).(calls) + 1005
  end.

(** [o'] is [o] with the new mapping [seg], whose bytes are 0. *)
Definition os_grow (o : Os) (seg : Segment) (o' : Os) : Prop :=
  fresh_segment o seg /\
  o' = mkOs (zero_range o.(mem) seg.(seg_ptr) (page_span seg.(seg_len)))
         (seg :: o.(segs)) (S o.(calls)).

(** The kernel refuses to map [size] bytes. *)
Definition refused (o : Os) (size : Z) (nr : bool) : Prop :=
  mmap o.(calls) o.(segs) size nr = MAP_FAILED.

(** [reach n k o o']: at most [k] system calls, none of which maps more than
  [n] bytes, lead from the mappings of [o] to those of [o'].  A call that is not
  a successful [mmap] adds no mapping. *)
Inductive reach (n : Z) : nat -> Os -> Os -> Prop :=
  | reach_same k o o' : o'.(segs) = o.(segs) -> o'.(calls) = o.(calls) -> reach n k o o'
  | reach_map k o seg o1 o' :
      fresh_segment o seg -> seg.(seg_len) <= n ->
      o1.(segs) = seg :: o.(segs) -> o1.(calls) = S o.(calls) -> reach n k o1 o' -> reach n (S k) o o'
  | reach_other k o o1 o' :
      (forall seg, seg ∈ o1.(segs) -> seg ∈ o.(segs)) ->
      o1.(calls) = S o.(calls) -> reach n k o1 o' -> reach n (S k) o o'.

(** No call of the allocator asks for more than 4 GiB at once. *)
Definition REQUEST_LIMIT : Z := 2 ^ 32.

(** After at most [k] such calls, the kernel refuses at most [n] bytes. *)
Definition refusal (n : Z) (k : nat) (o : Os) : Prop :=
  exists o' size nr, reach n k o o' /\ 0 < size <= n /\ refused o' size nr.

Lemma reach_refl n k o : reach n k o o.
Proof. by apply reach_same. Qed.

Lemma fresh_same o1 o2 seg :
  o2.(segs) = o1.(segs) -> o2.(calls) = o1.(calls) -> fresh_segment o1 seg -> fresh_segment o2 seg.
Proof. intros E1 E2 [F1 F2 F3 F4 F5 F6]. split; try done; by rewrite ?E1, ?E2. Qed.

Lemma reach_from_same n k o1 o2 o :
  o2.(segs) = o1.(segs) -> o2.(calls) = o1.(calls) -> reach n k o1 o -> reach n k o2 o.
Proof.
  intros E1 E2 H. destruct H as [k o1 o H1 H2|k o1 seg o3 o Hf Hn H1 H2 Hr|k o1 o3 o H1 H2 Hr].
  - apply reach_same; congruence.
  - eapply (reach_map n k o2 seg o3); [by eapply fresh_same|done|congruence..|done].
  - eapply (reach_other n k o2 o3); [intros seg Hs; rewrite E1; by apply H1|congruence|done].
Qed.

Lemma reach_trans n k j o o1 o2 : reach n k o o1 -> reach n j o1 o2 -> reach n (k + j) o o2.
Proof.
  intros H. revert j o2. induction H as [k o o' H1 H2|k o seg o1 o' Hf Hn H1 H2 Hr IH|k o o1 o' H1 H2 Hr IH];
    intros j o2 H'.
  - apply (reach_from_same n (k + j) o' o); [done..|]. clear H1 H2 o.
    revert k. induction H' as [j o o2 H1 H2|j o seg o1 o2 Hf Hn H1 H2 Hr IH|j o o1 o2 H1 H2 Hr IH]; intros k.
    + by apply reach_same.
    + rewrite <- plus_n_Sm. by eapply reach_map.
    + rewrite <- plus_n_Sm. by eapply reach_other.
  - eapply reach_map; [done..|]. by apply IH.
  - eapply reach_other; [done..|]. by apply IH.
Qed.

Lemma reach_mono n k j o o' : (k <= j)%nat -> reach n k o o' -> reach n j o o'.
Proof.
  intros Hle H. replace j with (k + (j - k))%nat by lia. eapply reach_trans; [done|apply reach_refl].
Qed.

Lemma reach_calls n k o o' : reach n k o o' -> (o.(calls) <= o'.(calls) <= o.(calls) + k)%nat.
Proof. induction 1; lia. Qed.

Lemma reach_grow n o seg o' : os_grow o seg o' -> seg.(seg_len) <= n -> reach n 1 o o'.
Proof. intros [Hf ->] Hn. eapply reach_map; [done|done| | |apply reach_refl]; done. Qed.

Lemma refuse_now n k o size nr : 0 < size <= n -> refused o size nr -> refusal n k o.
Proof. intros Hs Hr. exists o, size, nr. split; [apply reach_refl|done]. Qed.

Lemma refuse_later n k j o o' : reach n k o o' -> refusal n j o' -> refusal n (k + j) o.
Proof. intros H (o2 & size & nr & H2 & Hs). exists o2, size, nr. split; [by eapply reach_trans|done]. Qed.

Lemma refusal_mono n k j o : (k <= j)%nat -> refusal n k o -> refusal n j o.
Proof. intros Hle (o2 & size & nr & H2 & Hs). exists o2, size, nr. split; [by eapply reach_mono|done]. Qed.

Lemma map_segment_cases size nr o :
  (exists seg o', map_segment size nr o = Ok (inl seg, o') /\ seg.(seg_len) = size /\
     os_grow o seg o') \/
  (exists e, map_segment size nr o = Ok (inr e, mkOs o.(mem) o.(segs) (S o.(calls))) /\
     refused o size nr).
Proof.
  unfold refused. destruct (map_segment_ok size nr o) as (r & o' & H).
  pose proof (map_segment_inv _ _ _ _ _ H) as Hi. destruct r as [seg|[sz e]].
  - left. destruct Hi as (Hl & Hf & ->). exists seg. eexists. split; [done|].
    split; [done|]. split; [done|]. by rewrite Hl.
  - right. destruct Hi as (-> & ->). exists (AllocationFailed size e). split; [done|].
    unfold map_segment in H. by destruct (Z.eqb_spec (mmap (calls o) (segs o) size nr) MAP_FAILED).
Qed.

Lemma insert_growth (m : HashMap Z Z) k v :
  hm_ok m -> n_buckets m < 2 ^ 61 - 1 -> 0 <= hm_len m < 2 ^ 60 ->
  exists o m', insert m k v = Ok (o, m') /\ hm_ok m' /\ hm_len m' = hm_len m + 1 /\
    n_buckets m' <= Z.max (n_buckets m) (4 * hm_len m + 5).
Proof.
  intros Hok Hn Hl. destruct (insert_ok m k v Hok Hn) as (m' & Hi & Hok' & _ & L).
  rewrite usize_small in L by lia.
  exists (to_map m !! k), m'. split; [done|]. split; [done|]. split; [done|].
  by apply (insert_buckets m k v _ _ Hok Hn Hi).
Qed.

Lemma page_alloc_with_ok f nr size s :
  (forall o, f size o = map_segment size nr o) ->
  pages_ok s -> Z.of_nat s.(st_os).(calls) < CALLS_LIMIT -> Z.land size PAGE_MASK = 0 ->
  exists m', (exists seg o', page_alloc_with f size s =
        Ok (inl seg.(seg_ptr), set_size_map (Some m') (set_os o' s)) /\
      seg.(seg_len) = size /\ os_grow s.(st_os) seg o' /\
      pages_ok (set_size_map (Some m') (set_os o' s))) \/
    (exists e, refused s.(st_os) size nr /\ page_alloc_with f size s =
       Ok (inr e, set_size_map (Some m') (set_os (mkOs s.(st_os).(mem) s.(st_os).(segs)
                                                   (S s.(st_os).(calls))) s))).
Proof.
  intros Hf Hp Hc Hz. unfold page_alloc_with. rewrite Hz. simpl.
  assert (exists m0, holder_map s = Ok (m0, set_size_map (Some m0) s) /\
    hm_ok m0 /\ 0 <= m0.(hm_len) <= Z.of_nat s.(st_os).(calls) /\
    n_buckets m0 <= 4 * Z.of_nat s.(st_os).(calls) + 1005) as (m0 & Hh & Hok & Hlen & Hnb).
  { unfold holder_map, pages_ok in *. destruct (st_size_map s) as [m|] eqn:E.
    - exists m. split; [|done]. destruct s. simpl in *. by rewrite E.
    - destruct (with_capacity_ok (K := Z) (V := Z) INITIAL_CAPACITY) as (h & Hh & Hok & _ & N).
      { unfold INITIAL_CAPACITY. lia. }
      exists h. unfold hm_new. rewrite Hh. split; [done|]. split; [done|].
      unfold hm_with_capacity in Hh. simpl in Hh. injection Hh as <-.
      unfold INITIAL_CAPACITY in N. simpl. lia. }
  rewrite (bind_Ok _ _ _ _ _ Hh). unfold CALLS_LIMIT in Hc.
  destruct (map_segment_cases size nr (st_os s)) as [(seg & o' & Hm & Hl & Hg)|(e & Hm & Hr)].
  - destruct (insert_growth m0 (seg_ptr seg) size Hok) as (old & m' & Hi & Hok' & L' & N'); [lia..|].
    exists m'. left. exists seg, o'.
    assert (Hw : with_os (f size) (set_size_map (Some m0) s) =
      Ok (inl seg, set_os o' (set_size_map (Some m0) s))).
    { unfold with_os, zoom. simpl. by rewrite Hf, Hm. }
    rewrite (bind_Ok _ _ _ _ _ Hw).
    split; [|split; [done|split; [done|]]].
    + unfold mbind, M_bind, holder_map, lift, modify. simpl. rewrite Hi. done.
    + destruct Hg as [_ ->]. unfold pages_ok. simpl. split; [done|]. lia.
  - exists m0. right. exists e. split; [done|].
    assert (Hw : with_os (f size) (set_size_map (Some m0) s) =
      Ok (inr e, set_os (mkOs s.(st_os).(mem) s.(st_os).(segs) (S s.(st_os).(calls)))
                   (set_size_map (Some m0) s))).
    { unfold with_os, zoom. simpl. by rewrite Hf, Hm. }
    rewrite (bind_Ok _ _ _ _ _ Hw). done.
Qed.
End Pages.

(** Refusals are real: the kernel that maps upwards refuses nothing while the
    mappings that it may be asked for fit above the live ones. *)
Lemma kernel_up_reach n k o o' :
  0 <= n -> reach (KN := kernel_up) n k o o' ->
  segs_top o'.(segs) <= segs_top o.(segs) + Z.of_nat k * (n + 2 * PAGE).
Proof.
  change PAGE with 4096. intros Hn.
  induction 1 as [k o o' H1 H2|k o seg o1 o' Hf Hl H1 H2 Hr IH|k o o1 o' H1 H2 Hr IH].
  - rewrite H1. nia.
  - rewrite H1 in IH. simpl in IH. destruct Hf as [_ F2 F3 F4 _ [nr Ha]].
    simpl in Ha. unfold mmap_up in Ha.
    assert (E : seg_ptr seg = page_span (segs_top (segs o)) \/ seg_ptr seg = MAP_FAILED)
      by (destruct (_ && _) in Ha; [by left|by right]).
    destruct E as [E|E].
    + pose proof (page_span_lt (segs_top (segs o))). pose proof (page_span_lt (seg_len seg)).
      change PAGE with 4096 in *. lia.
    + pose proof (page_span_ge (seg_len seg)). change MAP_FAILED with (2 ^ 64 - 1) in E.
      change ADDR_LIMIT with (2 ^ 48) in F4. lia.
  - assert (segs_top o1.(segs) <= segs_top o.(segs)); [|lia].
    destruct (segs_top_ge (segs o)) as [Hp Hs]. apply segs_top_least; [done|].
    intros s Hin. rewrite Forall_forall in Hs. by apply Hs, H1.
Qed.

Theorem kernel_up_grants n k o :
  0 <= n -> segs_top o.(segs) + (Z.of_nat k + 1) * (n + 2 * PAGE) <= ADDR_LIMIT ->
  ~ refusal (KN := kernel_up) n k o.
Proof.
  intros Hn Hroom (o' & size & nr & Hr & Hs & Hf).
  pose proof (kernel_up_reach n k o o' Hn Hr) as Ht. unfold refused in Hf. simpl in Hf. unfold mmap_up in Hf.
  pose proof (page_span_lt (segs_top (segs o'))). pose proof (page_span_lt size).
  pose proof (page_span_ge (segs_top (segs o'))). pose proof (proj1 (segs_top_ge (segs o'))).
  change PAGE with 4096 in *. change ADDR_LIMIT with (2 ^ 48) in *.
  rewrite (proj2 (Z.ltb_lt 0 size)), (proj2 (Z.leb_le _ _)) in Hf by lia. cbn [andb] in Hf.
  change MAP_FAILED with (2 ^ 64 - 1) in Hf. lia.
Qed.
