(* ===== verification/PageHolder.v ===== *)
(** * The array of page holders

    Models [struct PageInfoHolder] of [src/src/pages.rs]: the mappings of the
    process in an array of slots with a free list threaded through it, and a
    hash map from the start of each mapping to its slot.  The storage of the
    array comes from [MmapMut::map_anon]; here it is a list, and whether a
    mapping of a given length can be had is the parameter [can_map].

    A call that finds the lock taken spins; with one call at a time nobody
    releases it, which is [OutOfFuel]. *)
From S2P Require Import Prelude MemInfo Mem Array HashMap State Pages.

Inductive MemoryOrFreePointer : Type :=
  | MapSlot (m : Segment)
  | SegSlot (s : Segment)
  | FreeSlot (next : option Z).

(** [PartialEq for MemoryOrFreePointer] *)
Definition slot_eq (a b : MemoryOrFreePointer) : bool :=
  match a, b with
  | MapSlot m1, MapSlot m2 => m1.(seg_ptr) =? m2.(seg_ptr)
  | FreeSlot n1, FreeSlot n2 => bool_decide (n1 = n2)
  | _, _ => false
  end.

Record Holder : Type := mkHolder {
  internals : option (list MemoryOrFreePointer);
  h_count : Z;
  h_capacity : Z;
  h_head : option Z;
  h_lock : bool;
  h_tree : option (HashMap Z Z);
}.

Definition INITIAL_PAGES : Z := 128.

(** [size_of::<MemoryOrFreePointer>()]: a tag and two words. *)
Definition SLOT_SIZE : Z := 24.

Definition holder_new : Holder := mkHolder None 0 0 None false None.

Definition size_for_capacity (capacity : Z) : Z := usize (capacity * SLOT_SIZE).

(** The process as the holder sees it. *)
Record HolderSt : Type := mkHolderSt { hs_os : Os; hs : Holder }.

Definition set_hs_os (o : Os) (s : HolderSt) : HolderSt := mkHolderSt o s.(hs).
Definition on_os {A} (c : M Os A) : M HolderSt A := zoom hs_os set_hs_os c.
Definition set_holder (h : Holder) : M HolderSt unit := modify (λ s, mkHolderSt s.(hs_os) h).

Definition with_lock (b : bool) (h : Holder) : Holder :=
  mkHolder h.(internals) h.(h_count) h.(h_capacity) h.(h_head) b h.(h_tree).

Definition grab : M HolderSt unit :=
  h ← gets hs;
  if h.(h_lock) then fail OutOfFuel else set_holder (with_lock true h).

Definition release : M HolderSt unit := h ← gets hs; set_holder (with_lock false h).

(** [initialize_slice]: the slots are visited from the last to the first;
    [first] tells the first one visited. *)
Fixpoint init_loop (i : nat) (capacity : Z) (prev : option Z) (first : bool)
    (acc : list MemoryOrFreePointer) : result (list MemoryOrFreePointer) :=
  match i with
  | O => Ok acc
  | S index =>
      let acc := FreeSlot prev :: acc in
      if first then init_loop index capacity (Some (usize (Z.of_nat index + capacity))) false acc
      else
        match prev with
        | Some p => init_loop index capacity (Some (usize (p - 1))) false acc
        | None => Err (Panic "called `Option::unwrap()` on a `None` value")
        end
  end.

(** [if let Free { next } = slice.last_mut().unwrap() { *next = self.head }] *)
Fixpoint set_last_next (head : option Z) (slots : list MemoryOrFreePointer)
    : result (list MemoryOrFreePointer) :=
  match slots with
  | [] => Err (Panic "called `Option::unwrap()` on a `None` value")
  | [FreeSlot _] => Ok [FreeSlot head]
  | [s] => Ok [s]
  | s :: rest => rest' ← set_last_next head rest; Ok (s :: rest')
  end.

Definition initialize_slice (capacity : Z) (head : option Z) (size : nat)
    : result (list MemoryOrFreePointer) :=
  slots ← init_loop size capacity head true [];
  set_last_next head slots.

Section PageHolder.
Context {KN : Kernel} {HZ : Hash Z} {MP : Mapping}.

Definition holder_init : M HolderSt unit :=
  grab;;
  let capacity := INITIAL_PAGES in
  let mem_size := size_for_capacity capacity in
  if negb (can_map mem_size) then fail (Panic "Memory map must be created")
  else
    tree ← lift (hm_with_capacity 10001);
    slots ← lift (initialize_slice 0 None (Z.to_nat (mem_size / SLOT_SIZE)));
    set_holder (mkHolder (Some slots) 0 capacity (Some 0) false (Some tree));;
    release.

Definition get_at_index (h : Holder) (index : Z) : option MemoryOrFreePointer :=
  match h.(internals) with
  | None => None
  | Some map => if h.(h_capacity) <=? index then None else map !! Z.to_nat index
  end.

(** [ptr] is given by its distance from the start of the array. *)
Definition get_index_from_pointer (h : Holder) (ptr : Z) : option Z :=
  match h.(internals) with
  | None => None
  | Some _ =>
      if ptr <? 0 then None
      else let i := ptr / SLOT_SIZE in if i <? h.(h_capacity) then Some i else None
  end.

Definition holder_grow : M HolderSt unit :=
  h ← gets hs;
  let new_capacity := usize (h.(h_capacity) * 2) in
  if negb (can_map (size_for_capacity new_capacity)) then fail (Panic "Should create")
  else
    prev_index ← unwrap h.(h_head) "called `Option::unwrap()` on a `None` value";
    old ← unwrap h.(internals) "called `Option::unwrap()` on a `None` value";
    slots ← lift (initialize_slice h.(h_capacity) (Some prev_index)
                    (Z.to_nat (new_capacity - h.(h_capacity))));
    set_holder (mkHolder (Some (old ++ slots)) h.(h_count) new_capacity (Some h.(h_capacity))
                  h.(h_lock) h.(h_tree)).

(** What follows the segment allocation in both [alloc] functions: the segment
  takes the slot at the head of the free list. *)
Definition put_segment (segment : Segment) : M HolderSt Z :=
  h ← gets hs;
  index ← unwrap h.(h_head) "called `Option::unwrap()` on a `None` value";
  slot ← unwrap (get_at_index h index) "called `Option::unwrap()` on a `None` value";
  next ← match slot with
         | FreeSlot None => fail (Panic "Previous pointer should not be null")
         | FreeSlot (Some n) => mret n
         | _ => fail (Panic "No more space in page container")
         end;
  slots ← unwrap h.(internals) "called `Option::unwrap()` on a `None` value";
  tree ← unwrap h.(h_tree) "called `Option::unwrap()` on a `None` value";
  '(_, tree') ← lift (insert tree segment.(seg_ptr) index);
  set_holder (mkHolder (Some (<[Z.to_nat index := SegSlot segment]> slots)) h.(h_count)
                h.(h_capacity) (Some next) h.(h_lock) (Some tree'));;
  mret index.

Definition count_up : M HolderSt unit :=
  h ← gets hs;
  set_holder (mkHolder h.(internals) (usize (h.(h_count) + 1)) h.(h_capacity) h.(h_head)
                h.(h_lock) h.(h_tree)).

Definition grow_if_full : M HolderSt unit :=
  h ← gets hs;
  if h.(h_count) =? usize (h.(h_capacity) - 1) then holder_grow else mret tt.

(** A refused segment is returned with [?], before the lock is released. *)
Definition holder_alloc (size : Z) : M HolderSt (Z + AllocationError) :=
  grab;;
  grow_if_full;;
  r ← on_os (allocate size);
  match r with
  | inr e => mret (inr e)
  | inl segment =>
      head ← put_segment segment;
      h ← gets hs;
      assertM (negb (bool_decide (h.(h_head) = Some head))) "Head should not be the same";;
      count_up;;
      release;;
      mret (inl segment.(seg_ptr))
  end.

Definition holder_alloc_overcommit (size : Z) : M HolderSt (Z + AllocationError) :=
  grab;;
  grow_if_full;;
  h ← gets hs;
  _ ← unwrap h.(h_head) "Head is null when it shouldn't be";
  r ← on_os (allocate_massive size);
  match r with
  | inr e => mret (inr e)
  | inl segment =>
      _ ← put_segment segment;
      count_up;;
      release;;
      mret (inl segment.(seg_ptr))
  end.

Definition holder_dealloc (page_ptr : Z) : M HolderSt bool :=
  grab;;
  h ← gets hs;
  let prev := h.(h_head) in
  tree ← unwrap h.(h_tree) "called `Option::unwrap()` on a `None` value";
  o ← lift (hm_get tree page_ptr);
  index ← unwrap o "Pointer must exist in map";
  match get_at_index h index with
  | None => mret false
  | Some mem =>
      slots ← unwrap h.(internals) "called `Option::unwrap()` on a `None` value";
      _ ← match mem with
          | SegSlot segment => on_os (deallocate segment)
          | _ => mret true
          end;
      let h1 := mkHolder (Some (<[Z.to_nat index := FreeSlot prev]> slots)) h.(h_count)
                  h.(h_capacity) h.(h_head) h.(h_lock) h.(h_tree) in
      '(_, tree') ← lift (remove tree page_ptr);
      set_holder (mkHolder h1.(internals) (usize (h.(h_count) - 1)) h.(h_capacity)
                    (get_index_from_pointer h1 (index * SLOT_SIZE)) h.(h_lock) (Some tree'));;
      release;;
      mret true
  end.

(** [get_free_list]: [fuel] bounds the length of the list. *)
Fixpoint free_list_loop (fuel : nat) (h : Holder) (ptr : option Z) : result (list (option Z)) :=
  match fuel with
  | O => Err OutOfFuel
  | S fuel' =>
      match ptr with
      | None => Ok [None]
      | Some i =>
          match get_at_index h i with
          | Some (FreeSlot next) => rest ← free_list_loop fuel' h next; Ok (ptr :: rest)
          | _ => Err (Panic "Free list inconsistent")
          end
      end
  end.

Definition get_free_list (h : Holder) : result (list (option Z)) :=
  free_list_loop (S (Z.to_nat h.(h_capacity))) h h.(h_head).
End PageHolder.

(** ** The slots that [initialize_slice] makes *)
Definition free_run (capacity : Z) (n : nat) (tail : option Z) : list MemoryOrFreePointer :=
  ((λ j, FreeSlot (Some (capacity + Z.of_nat j + 1))) <$> seq 0 (n - 1)) ++ [FreeSlot tail].

Lemma init_loop_ok capacity i : forall acc,
  0 <= capacity -> capacity + Z.of_nat i < 2 ^ 64 ->
  init_loop i capacity (Some (capacity + Z.of_nat i)) false acc =
    Ok (((λ j, FreeSlot (Some (capacity + Z.of_nat j + 1))) <$> seq 0 i) ++ acc).
Proof.
  induction i as [|i IH]; intros acc Hc Hi; [done|]. cbn [init_loop].
  replace (capacity + Z.of_nat (S i) - 1) with (capacity + Z.of_nat i) by lia.
  rewrite usize_small by lia. rewrite IH by lia.
  rewrite seq_S, fmap_app, <- app_assoc. cbn [fmap list_fmap app].
  by replace (capacity + Z.of_nat (S i)) with (capacity + Z.of_nat i + 1) by lia.
Qed.

Lemma set_last_next_ok head l x : set_last_next head (l ++ [FreeSlot x]) = Ok (l ++ [FreeSlot head]).
Proof.
  induction l as [|s l IH]; [done|]. simpl. rewrite IH. destruct l; simpl; by destruct s.
Qed.

Lemma initialize_slice_ok capacity head n :
  (0 < n)%nat -> 0 <= capacity -> capacity + Z.of_nat n < 2 ^ 64 ->
  initialize_slice capacity head n = Ok (free_run capacity n head).
Proof.
  intros Hn Hc Hs. unfold initialize_slice, free_run. destruct n as [|n]; [lia|].
  cbn [init_loop]. rewrite usize_small by lia. rewrite Z.add_comm, init_loop_ok by lia. simpl.
  rewrite Nat.sub_0_r. apply set_last_next_ok.
Qed.

Lemma free_run_length capacity n tail : (0 < n)%nat -> length (free_run capacity n tail) = n.
Proof. intros Hn. unfold free_run. rewrite length_app, length_fmap, length_seq. simpl. lia. Qed.

Lemma free_run_lookup capacity n tail j :
  (j < n)%nat -> free_run capacity n tail !! j =
    Some (FreeSlot (if decide (S j = n) then tail else Some (capacity + Z.of_nat j + 1))).
Proof.
  intros Hj. unfold free_run. case_decide as Hd.
  - rewrite lookup_app_r by (rewrite length_fmap, length_seq; lia).
    rewrite length_fmap, length_seq. by replace (j - (n - 1))%nat with 0%nat by lia.
  - rewrite lookup_app_l by (rewrite length_fmap, length_seq; lia).
    rewrite list_lookup_fmap, lookup_seq_lt by lia. done.
Qed.

(** ** The free list

    From the head, the [next] fields go through the slots [l]. *)
Fixpoint free_chain (slots : list MemoryOrFreePointer) (head : option Z) (l : list Z) : Prop :=
  match l with
  | [] => head = None
  | i :: l' => head = Some i /\ 0 <= i /\
      exists next, slots !! Z.to_nat i = Some (FreeSlot next) /\ free_chain slots next l'
  end.

Lemma free_chain_in slots head l i :
  free_chain slots head l -> i ∈ l -> 0 <= i /\ exists next, slots !! Z.to_nat i = Some (FreeSlot next).
Proof.
  revert head. induction l as [|j l IH]; intros head; simpl; [by intros _ ?%elem_of_nil|].
  intros (_ & Hj & n & Hn & Hc) [->|Hi]%elem_of_cons; [by eauto|by eapply IH].
Qed.

Lemma free_chain_insert slots head l i x :
  free_chain slots head l -> 0 <= i -> i ∉ l -> free_chain (<[Z.to_nat i := x]> slots) head l.
Proof.
  revert head. induction l as [|j l IH]; intros head; simpl; [done|].
  intros (-> & Hj & n & Hn & Hc) Hi [Hne Hl]%not_elem_of_cons. split; [done|]. split; [done|].
  exists n. rewrite list_lookup_insert_ne by lia. split; [done|]. by apply IH.
Qed.

Lemma free_chain_app slots more head l :
  free_chain slots head l -> free_chain (slots ++ more) head l.
Proof.
  revert head. induction l as [|j l IH]; intros head; simpl; [done|].
  intros (-> & Hj & n & Hn & Hc). split; [done|]. split; [done|]. exists n.
  split; [by apply lookup_app_l_Some|by apply IH].
Qed.

(** The new slots come before the old free list. *)
Lemma free_chain_run slots n head l :
  free_chain slots head l -> (0 < n)%nat ->
  free_chain (slots ++ free_run (Z.of_nat (length slots)) n head)
    (Some (Z.of_nat (length slots))) (seqZ (Z.of_nat (length slots)) (Z.of_nat n) ++ l).
Proof.
  intros Hc Hn. set (cap := Z.of_nat (length slots)).
  assert (H : forall m, (m < n)%nat ->
    free_chain (slots ++ free_run cap n head) (Some (cap + Z.of_nat (n - 1 - m)))
      (seqZ (cap + Z.of_nat (n - 1 - m)) (Z.of_nat m + 1) ++ l)).
  { induction m as [|m IH]; intros Hm; rewrite seqZ_cons by lia; simpl;
      (split; [done|]); (split; [lia|]); eexists.
    - rewrite lookup_app_r, free_run_lookup by lia. split; [by rewrite decide_True by lia|].
      by apply free_chain_app.
    - rewrite lookup_app_r, free_run_lookup by lia. split; [by rewrite decide_False by lia|].
      specialize (IH ltac:(lia)). fold cap in IH.
      replace (Z.of_nat (Z.to_nat (cap + Z.of_nat (n - 1 - S m)) - length slots))
        with (Z.of_nat (n - 1 - S m)) by lia.
      replace (cap + Z.of_nat (n - 1 - S m) + 1) with (cap + Z.of_nat (n - 1 - m)) by lia.
      replace (Z.succ (cap + Z.of_nat (n - 1 - S m))) with (cap + Z.of_nat (n - 1 - m)) by lia.
      by replace (Z.pred (Z.of_nat (S m) + 1)) with (Z.of_nat m + 1) by lia. }
  specialize (H (n - 1)%nat ltac:(lia)).
  replace (n - 1 - (n - 1))%nat with 0%nat in H by lia. rewrite Z.add_0_r in H.
  by replace (Z.of_nat (n - 1) + 1) with (Z.of_nat n) in H by lia.
Qed.

(** ** The invariant *)
Section HolderFacts.
Context {KN : Kernel} {HZ : Hash Z} {MP : Mapping}.

(** The holder with these slots, this tree and this free list. *)
Definition holder_of (slots : list MemoryOrFreePointer) (tree : HashMap Z Z) (fl : list Z)
    (lock : bool) : Holder :=
  mkHolder (Some slots) (Z.of_nat (length slots) - Z.of_nat (length fl)) (Z.of_nat (length slots))
    (head fl) lock (Some tree).

Record holder_inv (o : Os) (slots : list MemoryOrFreePointer) (tree : HashMap Z Z)
  (fl : list Z) : Prop := {
  hi_chain : free_chain slots (head fl) fl;
  hi_nodup : NoDup fl;
  hi_room : fl <> [];
  hi_tree : hm_ok tree;
  hi_used : forall i, (i < length slots)%nat -> Z.of_nat i ∉ fl -> exists seg, slots !! i = Some (SegSlot seg);
  hi_seg : forall i seg, slots !! i = Some (SegSlot seg) ->
    seg ∈ o.(segs) /\ to_map tree !! seg.(seg_ptr) = Some (Z.of_nat i);
  hi_back : forall p i, to_map tree !! p = Some i ->
    0 <= i /\ exists seg, slots !! Z.to_nat i = Some (SegSlot seg) /\ seg.(seg_ptr) = p;
}.

Lemma free_lt o slots tree fl i : holder_inv o slots tree fl -> i ∈ fl -> 0 <= i < Z.of_nat (length slots).
Proof.
  intros Hi Hin. destruct (free_chain_in _ _ _ _ (hi_chain _ _ _ _ Hi) Hin) as (H0 & n & Hn).
  apply lookup_lt_Some in Hn. lia.
Qed.

Lemma free_length o slots tree fl : holder_inv o slots tree fl -> (length fl <= length slots)%nat.
Proof.
  intros Hi. assert (Hs : fl ⊆ seqZ 0 (Z.of_nat (length slots))).
  { intros i Hin. apply elem_of_seqZ. pose proof (free_lt _ _ _ _ _ Hi Hin). lia. }
  pose proof (submseteq_length _ _ (NoDup_submseteq _ _ (hi_nodup _ _ _ _ Hi) Hs)) as Hl.
  rewrite length_seqZ in Hl. lia.
Qed.

(** Growing keeps the segments; at least two slots are free afterwards. *)
Lemma grow_if_full_ok o slots tree fl :
  holder_inv o slots tree fl -> 2 <= Z.of_nat (length slots) < 2 ^ 58 ->
  (length fl = 1%nat -> can_map (2 * Z.of_nat (length slots) * SLOT_SIZE) = true) ->
  exists slots' fl', grow_if_full (mkHolderSt o (holder_of slots tree fl true)) =
      Ok (tt, mkHolderSt o (holder_of slots' tree fl' true)) /\
    holder_inv o slots' tree fl' /\ (2 <= length fl')%nat /\
    (length slots <= length slots' <= 2 * length slots)%nat /\
    (forall seg, SegSlot seg ∈ slots' <-> SegSlot seg ∈ slots).
Proof.
  intros Hi Hcap Hmap. pose proof (free_length _ _ _ _ Hi) as Hle.
  pose proof Hi as [I1 I2 I3 I4 I5 I6 I7]. destruct fl as [|i fl]; [done|]. simpl in Hle.
  unfold grow_if_full. rewrite bind_gets. simpl. rewrite usize_small by lia.
  destruct (Z.eqb_spec (Z.of_nat (length slots) - Z.of_nat (S (length fl))) (Z.of_nat (length slots) - 1))
    as [He|Hne].
  2: { exists slots, (i :: fl). simpl. split; [done|]. split; [done|]. split; [lia|]. split; [lia|done]. }
  assert (fl = []) as -> by (destruct fl; [done|simpl in *; lia]).
  set (n := length slots). unfold holder_grow. rewrite bind_gets. cbn [hs holder_of h_capacity h_head internals].
  fold n in Hcap, Hmap |- *. rewrite usize_small by lia.
  assert (Hsz : size_for_capacity (Z.of_nat n * 2) = 2 * Z.of_nat n * SLOT_SIZE).
  { unfold size_for_capacity, SLOT_SIZE. rewrite usize_small by lia. lia. }
  rewrite Hsz, Hmap by done. cbn [negb].
  replace (Z.to_nat (Z.of_nat n * 2 - Z.of_nat n)) with n by lia.
  assert (Hini : initialize_slice (Z.of_nat n) (Some i) n = Ok (free_run (Z.of_nat n) n (Some i)))
    by (apply initialize_slice_ok; lia).
  exists (slots ++ free_run (Z.of_nat n) n (Some i)), (seqZ (Z.of_nat n) (Z.of_nat n) ++ [i]).
  assert (Hlen : length (free_run (Z.of_nat n) n (Some i)) = n) by (apply free_run_length; lia).
  assert (Hfree : forall k seg, free_run (Z.of_nat n) n (Some i) !! k <> Some (SegSlot seg)).
  { intros k seg Hk. assert (Hkn : (k < n)%nat) by (rewrite <- Hlen; by eapply lookup_lt_Some).
    rewrite free_run_lookup in Hk by done. discriminate. }
  split; [|split; [split|split; [|split]]].
  - unfold mbind, M_bind, unwrap, lift, set_holder, modify. simpl. rewrite Hini. do 3 f_equal.
    unfold holder_of. rewrite !length_app, length_seqZ, Hlen. simpl.
    rewrite seqZ_cons by lia. simpl. f_equal; lia.
  - pose proof (free_chain_run slots n (Some i) [i] I1 ltac:(lia)) as Hc. fold n in Hc.
    rewrite seqZ_cons in Hc |- * by lia. exact Hc.
  - apply NoDup_app. split; [apply NoDup_seqZ|]. split; [|done].
    intros x Hx Hxi. apply list_elem_of_singleton in Hxi as ->. apply elem_of_seqZ in Hx.
    pose proof (free_lt _ _ _ _ i Hi ltac:(set_solver)). lia.
  - intros H. by apply app_nil in H as [_ H].
  - done.
  - intros k Hk Hnot. rewrite length_app, Hlen in Hk. apply not_elem_of_app in Hnot as [N1 N2].
    rewrite elem_of_seqZ in N1. assert (Hkn : (k < n)%nat) by lia.
    destruct (I5 k Hkn N2) as (seg & Hs). exists seg. by apply lookup_app_l_Some.
  - intros k seg. rewrite lookup_app_Some. intros [Hk|[_ Hk]]; [by apply I6|by apply Hfree in Hk].
  - intros p k Hk. destruct (I7 p k Hk) as (H0 & seg & Hs & Hp). split; [done|]. exists seg.
    split; [by apply lookup_app_l_Some|done].
  - rewrite length_app, length_seqZ. simpl. lia.
  - rewrite length_app. lia.
  - intros seg. rewrite elem_of_app. split; [|by left]. intros [H|H]; [done|].
    apply list_elem_of_lookup_1 in H as (k & Hk). by apply Hfree in Hk.
Qed.

(** The segment takes the first free slot. *)
Lemma put_segment_ok o slots tree i j fl seg :
  holder_inv o slots tree (i :: j :: fl) -> n_buckets tree < 2 ^ 61 - 1 ->
  (forall t, t ∈ o.(segs) -> t.(seg_ptr) <> seg.(seg_ptr)) ->
  forall o', seg ∈ o'.(segs) -> (forall t, t ∈ o.(segs) -> t ∈ o'.(segs)) ->
  exists tree', put_segment seg (mkHolderSt o' (holder_of slots tree (i :: j :: fl) true)) =
      Ok (i, mkHolderSt o' (mkHolder (Some (<[Z.to_nat i := SegSlot seg]> slots))
               (Z.of_nat (length slots) - Z.of_nat (S (S (length fl)))) (Z.of_nat (length slots))
               (Some j) true (Some tree'))) /\
    i <> j /\ holder_inv o' (<[Z.to_nat i := SegSlot seg]> slots) tree' (j :: fl) /\
    (forall s, SegSlot s ∈ <[Z.to_nat i := SegSlot seg]> slots <-> SegSlot s ∈ slots \/ s = seg).
Proof.
  intros Hi Hn Hfresh o' Hin Hsub. pose proof (free_lt _ _ _ _ i Hi ltac:(set_solver)) as Hil.
  pose proof Hi as [I1 I2 I3 I4 I5 I6 I7]. destruct I1 as (_ & H0 & next & Hslot & Hc).
  apply NoDup_cons in I2 as [Nij I2].
  assert (next = Some j) as -> by (by destruct Hc as (-> & _)).
  destruct (insert_ok tree seg.(seg_ptr) i I4 Hn) as (tree' & Hins & Hok' & Hm & _).
  exists tree'. split; [|split; [set_solver|split; [split|]]].
  - unfold put_segment, get_at_index. rewrite bind_gets. simpl.
    unfold mbind, M_bind, unwrap, lift, set_holder, modify. simpl. rewrite Hslot. simpl. rewrite Hins.
    by rewrite (proj2 (Z.leb_gt _ _)) by lia.
  - by apply free_chain_insert.
  - done.
  - done.
  - done.
  - intros k Hk Hnot. rewrite length_insert in Hk. destruct (decide (k = Z.to_nat i)) as [->|Hne].
    + exists seg. apply list_lookup_insert_eq. lia.
    + rewrite list_lookup_insert_ne by done. apply I5; [done|]. apply not_elem_of_cons. split; [lia|done].
  - intros k s. rewrite list_lookup_insert_Some, Hm. intros [(<- & [= ->] & _)|[Hne Hk]].
    + rewrite lookup_insert_eq. split; [done|]. f_equal. lia.
    + destruct (I6 k s Hk) as [Hs Ht]. split; [by apply Hsub|].
      rewrite lookup_insert_ne; [done|]. by apply not_eq_sym, Hfresh.
  - intros p k. rewrite Hm, lookup_insert_Some. intros [[<- <-]|[Hne Hk]].
    + split; [done|]. exists seg. split; [apply list_lookup_insert_eq; lia|done].
    + destruct (I7 p k Hk) as (Hk0 & s & Hs & Hp). split; [done|]. exists s. split; [|done].
      rewrite list_lookup_insert_ne; [done|]. intros E. rewrite <- E, Hslot in Hs. discriminate.
  - intros s. rewrite !list_elem_of_lookup. setoid_rewrite list_lookup_insert_Some. split.
    + intros (k & [(_ & [= ->] & _)|[_ Hk]]); [by right|left; by exists k].
    + intros [(k & Hk)| ->]; [|exists (Z.to_nat i); left; split; [done|]; split; [done|lia]].
      exists k. right. split; [|done]. intros <-. rewrite Hslot in Hk. discriminate.
Qed.

(** [alloc] and [alloc_overcommit]: [nr] is the flag of the kernel call. *)
Definition holder_alloc_any (nr : bool) (size : Z) : M HolderSt (Z + AllocationError) :=
  if nr then holder_alloc_overcommit size else holder_alloc size.

Lemma mapped_not_refused size nr o seg o' :
  map_segment size nr o = Ok (inl seg, o') -> ~ refused o size nr.
Proof. unfold map_segment, refused. intros H E. rewrite E, Z.eqb_refl in H. discriminate. Qed.

Lemma holder_alloc_ok nr o slots tree fl size :
  holder_inv o slots tree fl -> os_ok o -> 2 <= Z.of_nat (length slots) < 2 ^ 58 ->
  n_buckets tree < 2 ^ 61 - 1 ->
  (length fl = 1%nat -> can_map (2 * Z.of_nat (length slots) * SLOT_SIZE) = true) ->
  (exists seg o' slots' tree' fl',
     holder_alloc_any nr size (mkHolderSt o (holder_of slots tree fl false)) =
       Ok (inl seg.(seg_ptr), mkHolderSt o' (holder_of slots' tree' fl' false)) /\
     ~ refused o size nr /\
     seg.(seg_len) = size /\ os_grow o seg o' /\ holder_inv o' slots' tree' fl' /\
     forall s, SegSlot s ∈ slots' <-> SegSlot s ∈ slots \/ s = seg) \/
  (exists e h', holder_alloc_any nr size (mkHolderSt o (holder_of slots tree fl false)) =
       Ok (inr e, mkHolderSt (mkOs o.(mem) o.(segs) (S o.(calls))) h') /\
     h'.(h_lock) = true /\ refused o size nr).
Proof.
  intros Hi Ho Hcap Hn Hmap.
  destruct (grow_if_full_ok o slots tree fl Hi Hcap Hmap) as (slots1 & fl1 & Hg & Hi1 & H2 & Hl1 & Hsame).
  destruct fl1 as [|i [|j fl1]]; simpl in H2; [lia|lia|].
  assert (Hgrab : grab (mkHolderSt o (holder_of slots tree fl false)) =
    Ok (tt, mkHolderSt o (holder_of slots tree fl true))) by done.
  pose proof (free_length _ _ _ _ Hi1) as Hfl. simpl in Hfl.
  destruct (map_segment_cases size nr o) as [(seg & o' & Hm & Hlen & Hgr)|(e & Hm & Hr)].
  - left. destruct Hgr as [Hf Ho'].
    destruct (put_segment_ok o slots1 tree i j fl1 seg Hi1 Hn) with (o' := o')
      as (tree' & Hput & Hij & Hi' & Hsegs); [|rewrite Ho'; set_solver|rewrite Ho'; set_solver|].
    { intros t Ht. by apply not_eq_sym, (fresh_ptr_ne o). }
    exists seg, o', (<[Z.to_nat i := SegSlot seg]> slots1), tree', (j :: fl1).
    split; [|split; [by eapply mapped_not_refused|split; [done|split; [done|split; [done|]]]]].
    + assert (Hos : on_os (map_segment size nr) (mkHolderSt o (holder_of slots1 tree (i :: j :: fl1) true)) =
        Ok (inl seg, mkHolderSt o' (holder_of slots1 tree (i :: j :: fl1) true)))
        by (exact (zoom_Ok _ _ _ _ _ _ Hm)).
      assert (Hcnt : usize (Z.of_nat (length slots1) - Z.of_nat (S (S (length fl1))) + 1) =
        Z.of_nat (length slots1) - Z.of_nat (S (length fl1))) by (rewrite usize_small by lia; lia).
      unfold holder_of. rewrite length_insert. cbn [length head hd_error].
      destruct nr; simpl; unfold holder_alloc_overcommit, holder_alloc, allocate_massive, allocate;
        rewrite (bind_Ok _ _ _ _ _ Hgrab), (bind_Ok _ _ _ _ _ Hg).
      * rewrite bind_gets, (bind_Ok _ _ _ i _ eq_refl), (bind_Ok _ _ _ _ _ Hos).
        rewrite (bind_Ok _ _ _ _ _ Hput). unfold count_up.
        unfold mbind, M_bind, set_holder, modify, release, gets. cbn [hs hs_os h_count internals h_capacity h_head h_lock h_tree with_lock mret M_ret].
        by rewrite Hcnt.
      * rewrite (bind_Ok _ _ _ _ _ Hos), (bind_Ok _ _ _ _ _ Hput). rewrite bind_gets. simpl.
        rewrite bool_decide_eq_false_2 by congruence. simpl. unfold count_up.
        unfold mbind, M_bind, set_holder, modify, release, gets. cbn [hs hs_os h_count internals h_capacity h_head h_lock h_tree with_lock mret M_ret].
        by rewrite Hcnt.
    + intros s. by rewrite Hsegs, Hsame.
  - right. exists e, (holder_of slots1 tree (i :: j :: fl1) true). split; [|split; [|done]].
    + assert (Hos : on_os (map_segment size nr) (mkHolderSt o (holder_of slots1 tree (i :: j :: fl1) true)) =
        Ok (inr e, mkHolderSt (mkOs o.(mem) o.(segs) (S o.(calls))) (holder_of slots1 tree (i :: j :: fl1) true)))
        by (exact (zoom_Ok _ _ _ _ _ _ Hm)).
      destruct nr; simpl; unfold holder_alloc_overcommit, holder_alloc, allocate_massive, allocate;
        rewrite (bind_Ok _ _ _ _ _ Hgrab), (bind_Ok _ _ _ _ _ Hg).
      * rewrite bind_gets, (bind_Ok _ _ _ i _ eq_refl), (bind_Ok _ _ _ _ _ Hos). reflexivity.
      * rewrite (bind_Ok _ _ _ _ _ Hos). reflexivity.
    + done.
Qed.

Lemma seg_slot_not_free o slots tree fl i seg :
  holder_inv o slots tree fl -> 0 <= i -> slots !! Z.to_nat i = Some (SegSlot seg) -> i ∉ fl.
Proof.
  intros Hi H0 Hs Hin. destruct (free_chain_in _ _ _ _ (hi_chain _ _ _ _ Hi) Hin) as (_ & n & Hn).
  rewrite Hs in Hn. discriminate.
Qed.

(** The slot of an unmapped segment goes to the head of the free list. *)
Lemma free_slot_ok o slots tree fl i seg tree' o' :
  holder_inv o slots tree fl -> 0 <= i -> slots !! Z.to_nat i = Some (SegSlot seg) ->
  hm_ok tree' -> to_map tree' = delete seg.(seg_ptr) (to_map tree) ->
  o'.(segs) = filter (λ t, t <> seg) o.(segs) ->
  holder_inv o' (<[Z.to_nat i := FreeSlot (head fl)]> slots) tree' (i :: fl) /\
  (forall s, SegSlot s ∈ <[Z.to_nat i := FreeSlot (head fl)]> slots <-> SegSlot s ∈ slots /\ s <> seg).
Proof.
  intros Hi H0 Hs Hok' Hm Ho'. pose proof (seg_slot_not_free _ _ _ _ _ _ Hi H0 Hs) as Hnot.
  pose proof (lookup_lt_Some _ _ _ Hs) as Hlt. pose proof Hi as [I1 I2 I3 I4 I5 I6 I7].
  assert (Huniq : forall k s, slots !! k = Some (SegSlot s) -> s.(seg_ptr) = seg.(seg_ptr) -> k = Z.to_nat i).
  { intros k s Hk Hp. destruct (I6 _ _ Hk) as [_ Ht]. destruct (I6 _ _ Hs) as [_ Ht'].
    rewrite Hp, Ht' in Ht. injection Ht. lia. }
  split; [split|].
  - simpl. split; [done|]. split; [done|]. exists (head fl).
    split; [by apply list_lookup_insert_eq|by apply free_chain_insert].
  - by constructor.
  - done.
  - done.
  - intros k Hk [Hne Hfl]%not_elem_of_cons. rewrite length_insert in Hk.
    rewrite list_lookup_insert_ne by lia. by apply I5.
  - intros k s. rewrite list_lookup_insert_Some. intros [(_ & H & _)|[Hne Hk]]; [discriminate|].
    destruct (I6 _ _ Hk) as [Hin Ht].
    assert (Hp : s.(seg_ptr) <> seg.(seg_ptr)) by (intros E; by rewrite (Huniq _ _ Hk E) in Hne).
    split; [|by rewrite Hm, lookup_delete_ne].
    rewrite Ho'. apply list_elem_of_filter. split; [congruence|done].
  - intros p k. rewrite Hm, lookup_delete_Some. intros [Hne Hk].
    destruct (I7 p k Hk) as (Hk0 & s & Hsl & <-). split; [done|]. exists s.
    rewrite list_lookup_insert_ne; [done|]. intros E. rewrite <- E, Hs in Hsl. by injection Hsl as <-.
  - intros s. rewrite !list_elem_of_lookup. setoid_rewrite list_lookup_insert_Some. split.
    + intros (k & [(_ & H & _)|[Hne Hk]]); [discriminate|]. split; [by exists k|].
      intros ->. by rewrite (Huniq _ _ Hk eq_refl) in Hne.
    + intros [(k & Hk) Hne]. exists k. right. split; [|done].
      intros <-. rewrite Hs in Hk. by injection Hk as ->.
Qed.

Lemma holder_dealloc_ok o slots tree fl p i :
  holder_inv o slots tree fl -> Z.of_nat (length slots) < 2 ^ 60 -> to_map tree !! p = Some i ->
  exists seg o' slots' tree',
    holder_dealloc p (mkHolderSt o (holder_of slots tree fl false)) =
      Ok (true, mkHolderSt o' (holder_of slots' tree' (i :: fl) false)) /\
    seg.(seg_ptr) = p /\ SegSlot seg ∈ slots /\
    o' = mkOs o.(mem) (filter (λ t, t <> seg) o.(segs)) (S o.(calls)) /\
    holder_inv o' slots' tree' (i :: fl) /\
    forall s, SegSlot s ∈ slots' <-> SegSlot s ∈ slots /\ s <> seg.
Proof.
  intros Hi Hcap Hp. destruct (hi_back _ _ _ _ Hi p i Hp) as (H0 & seg & Hs & Hptr).
  destruct (hi_seg _ _ _ _ Hi _ _ Hs) as [Hin _]. pose proof (lookup_lt_Some _ _ _ Hs) as Hlt.
  destruct (remove_ok tree p (hi_tree _ _ _ _ Hi)) as (tree' & Hr & Hok' & Hm & _).
  rewrite <- Hptr in Hm.
  destruct (free_slot_ok o slots tree fl i seg tree'
    (mkOs o.(mem) (filter (λ t, t <> seg) o.(segs)) (S o.(calls))) Hi H0 Hs Hok' Hm eq_refl) as [Hi' Hsegs].
  pose proof (free_length _ _ _ _ Hi') as Hlen. rewrite length_insert in Hlen. simpl in Hlen.
  exists seg. eexists _, _, tree'. split; [|split; [done|]; split; [by eapply list_elem_of_lookup_2|]; done].
  unfold holder_dealloc.
  assert (Hgrab : grab (mkHolderSt o (holder_of slots tree fl false)) =
    Ok (tt, mkHolderSt o (holder_of slots tree fl true))) by done.
  rewrite (bind_Ok _ _ _ _ _ Hgrab), bind_gets.
  assert (Hg : get_at_index (holder_of slots tree fl true) i = Some (SegSlot seg)).
  { unfold get_at_index. simpl. by rewrite (proj2 (Z.leb_gt _ _)) by lia. }
  assert (Hd : on_os (deallocate seg) (mkHolderSt o (holder_of slots tree fl true)) = Ok (true,
    mkHolderSt (mkOs o.(mem) (filter (λ t, t <> seg) o.(segs)) (S o.(calls))) (holder_of slots tree fl true)))
    by (exact (zoom_Ok _ _ _ _ _ _ (deallocate_live _ _ Hin))).
  assert (Hidx : (if i * SLOT_SIZE <? 0 then None
                  else if i * SLOT_SIZE / SLOT_SIZE <? Z.of_nat (length slots) then Some (i * SLOT_SIZE / SLOT_SIZE)
                  else None) = Some i).
  { rewrite Z.div_mul by (unfold SLOT_SIZE; lia).
    rewrite (proj2 (Z.ltb_ge _ _)) by (unfold SLOT_SIZE; lia). by rewrite (proj2 (Z.ltb_lt _ _)) by lia. }
  assert (Hcnt : usize (Z.of_nat (length slots) - Z.of_nat (length fl) - 1) =
    Z.of_nat (length slots) - Z.of_nat (S (length fl))) by (rewrite usize_small by lia; lia).
  rewrite (bind_Ok _ _ _ tree _ eq_refl).
  assert (Hget : lift (hm_get tree p) (mkHolderSt o (holder_of slots tree fl true)) =
    Ok (Some i, mkHolderSt o (holder_of slots tree fl true))).
  { unfold lift. by rewrite hm_get_map, Hp by apply Hi. }
  rewrite (bind_Ok _ _ _ _ _ Hget), (bind_Ok _ _ _ i _ eq_refl). cbn [hs]. rewrite Hg.
  rewrite (bind_Ok _ _ _ slots _ eq_refl), (bind_Ok _ _ _ _ _ Hd).
  unfold mbind, M_bind, lift, set_holder, modify, release, gets. rewrite Hr.
  unfold get_index_from_pointer, holder_of. cbn [hs hs_os h_count internals h_capacity h_head h_lock h_tree with_lock mret M_ret length head].
  rewrite length_insert, Hidx, Hcnt. reflexivity.
Qed.

Lemma holder_init_ok o :
  can_map (INITIAL_PAGES * SLOT_SIZE) = true ->
  exists slots tree, holder_init (mkHolderSt o holder_new) =
      Ok (tt, mkHolderSt o (holder_of slots tree (seqZ 0 INITIAL_PAGES) false)) /\
    holder_inv o slots tree (seqZ 0 INITIAL_PAGES) /\ Z.of_nat (length slots) = INITIAL_PAGES /\
    forall s, SegSlot s ∉ slots.
Proof.
  intros Hmap. destruct (with_capacity_ok (K := Z) (V := Z) 10001) as (tree & Ht & Hok & Hemp & _); [lia|].
  assert (Hini : initialize_slice 0 None 128 = Ok (free_run 0 128 None)) by (apply initialize_slice_ok; lia).
  assert (Hlen : length (free_run 0 128 None) = 128%nat) by done.
  assert (Hfree : forall k s, free_run 0 128 None !! k <> Some (SegSlot s)).
  { intros k s Hk. assert (Hkn : (k < 128)%nat) by (rewrite <- Hlen; by eapply lookup_lt_Some).
    rewrite free_run_lookup in Hk by done. discriminate. }
  exists (free_run 0 128 None), tree. split; [|split; [split|split]].
  - unfold holder_init. change (size_for_capacity INITIAL_PAGES) with (INITIAL_PAGES * SLOT_SIZE).
    unfold mbind, M_bind, grab, gets, set_holder, modify, lift, release. cbn [hs h_lock holder_new].
    rewrite Hmap. cbn [negb]. rewrite Ht. change (Z.to_nat (INITIAL_PAGES * SLOT_SIZE / SLOT_SIZE)) with 128%nat.
    rewrite Hini. reflexivity.
  - exact (free_chain_run [] 128 None [] eq_refl ltac:(lia)).
  - apply NoDup_seqZ.
  - done.
  - done.
  - intros i Hi Hnot. destruct Hnot. apply elem_of_seqZ. rewrite Hlen in Hi. unfold INITIAL_PAGES. lia.
  - intros i s Hk. destruct (Hfree _ _ Hk).
  - intros p i. by rewrite Hemp, lookup_empty.
  - done.
  - intros s (k & Hk)%list_elem_of_lookup. destruct (Hfree _ _ Hk).
Qed.
End HolderFacts.

(** ** Results *)

(** C33: the holder implements a set of mappings.  Starting it gives an empty
    one; on every state that satisfies the invariant, [alloc] and
    [alloc_overcommit] return the start of a new mapping and add it, growing the
    array when one free slot is left; [dealloc] of a mapping unmaps it and
    removes it, and no other; and all of them keep the invariant: the free list
    runs through exactly the unused slots. *)
Theorem page_holder_refines_set {KN : Kernel} {HZ : Hash Z} {MP : Mapping} o slots tree fl nr size p i :
  (can_map (INITIAL_PAGES * SLOT_SIZE) = true ->
   exists slots0 tree0, holder_init (mkHolderSt o holder_new) =
       Ok (tt, mkHolderSt o (holder_of slots0 tree0 (seqZ 0 INITIAL_PAGES) false)) /\
     holder_inv o slots0 tree0 (seqZ 0 INITIAL_PAGES) /\ forall s, SegSlot s ∉ slots0) /\
  (holder_inv o slots tree fl -> os_ok o -> 2 <= Z.of_nat (length slots) < 2 ^ 58 ->
   n_buckets tree < 2 ^ 61 - 1 ->
   (length fl = 1%nat -> can_map (2 * Z.of_nat (length slots) * SLOT_SIZE) = true) ->
   ~ refused o size nr ->
   exists seg o' slots' tree' fl',
     holder_alloc_any nr size (mkHolderSt o (holder_of slots tree fl false)) =
       Ok (inl seg.(seg_ptr), mkHolderSt o' (holder_of slots' tree' fl' false)) /\
     seg.(seg_len) = size /\ os_grow o seg o' /\ holder_inv o' slots' tree' fl' /\
     forall s, SegSlot s ∈ slots' <-> SegSlot s ∈ slots \/ s = seg) /\
  (holder_inv o slots tree fl -> Z.of_nat (length slots) < 2 ^ 60 -> to_map tree !! p = Some i ->
   exists seg o' slots' tree',
     holder_dealloc p (mkHolderSt o (holder_of slots tree fl false)) =
       Ok (true, mkHolderSt o' (holder_of slots' tree' (i :: fl) false)) /\
     seg.(seg_ptr) = p /\ SegSlot seg ∈ slots /\
     o'.(segs) = filter (λ t, t <> seg) o.(segs) /\
     holder_inv o' slots' tree' (i :: fl) /\
     forall s, SegSlot s ∈ slots' <-> SegSlot s ∈ slots /\ s <> seg).
Proof.
  split; [|split].
  - intros Hmap. destruct (holder_init_ok o Hmap) as (s0 & t0 & H1 & H2 & _ & H3). by exists s0, t0.
  - intros Hi Ho Hcap Hn Hmap Href.
    destruct (holder_alloc_ok nr o slots tree fl size Hi Ho Hcap Hn Hmap) as [(seg & o' & s' & t' & f' & H1 & _ & H2)|(e & h' & _ & _ & H)];
      [by exists seg, o', s', t', f'|by destruct (Href H)].
  - intros Hi Hcap Hp.
    destruct (holder_dealloc_ok o slots tree fl p i Hi Hcap Hp) as (seg & o' & s' & t' & H1 & H2 & H3 & -> & H4 & H5).
    by exists seg, (mkOs o.(mem) (filter (λ t, t <> seg) o.(segs)) (S o.(calls))), s', t'.
Qed.

(** When the kernel refuses a segment, [alloc] returns the error with [?] and
    keeps the lock: every later call spins. *)
Theorem refused_alloc_keeps_lock {KN : Kernel} {HZ : Hash Z} {MP : Mapping} o slots tree fl nr size size' :
  holder_inv o slots tree fl -> os_ok o -> 2 <= Z.of_nat (length slots) < 2 ^ 58 ->
  n_buckets tree < 2 ^ 61 - 1 ->
  (length fl = 1%nat -> can_map (2 * Z.of_nat (length slots) * SLOT_SIZE) = true) ->
  refused o size nr ->
  exists e s', holder_alloc_any nr size (mkHolderSt o (holder_of slots tree fl false)) = Ok (inr e, s') /\
    holder_alloc_any nr size' s' = Err OutOfFuel.
Proof.
  intros Hi Ho Hcap Hn Hmap Href.
  destruct (holder_alloc_ok nr o slots tree fl size Hi Ho Hcap Hn Hmap)
    as [(seg & o' & _ & _ & _ & _ & H & _)|(e & h' & Ha & Hl & _)].
  - by destruct (H Href).
  - exists e. eexists. split; [exact Ha|].
    destruct nr; simpl; unfold holder_alloc_overcommit, holder_alloc, grab;
      unfold mbind, M_bind, gets; cbn [hs]; by rewrite Hl.
Qed.

(** A witness: one mapping in two slots, and the kernel that maps upwards. *)
Definition holder_seg : Segment := mkSegment 8192 4096.
Definition holder_os : Os := mkOs ∅ [holder_seg] 1.
Definition holder_slots : list MemoryOrFreePointer := [SegSlot holder_seg; FreeSlot None].
Definition holder_tree : HashMap Z Z := mkMap [[]; []; [mkBucket 2 8192 0]] 1 1.

Lemma holder_witness_inv : holder_inv (HZ := id_hash) holder_os holder_slots holder_tree [1].
Proof.
  assert (Hmap : to_map holder_tree = {[8192 := 0]}) by done.
  split.
  - split; [done|]. split; [done|]. by exists None.
  - apply NoDup_singleton.
  - done.
  - split; [done| |apply NoDup_singleton].
    intros [|[|[|k]]] bs b Hk Hb; try done; injection Hk as <-.
    + by apply elem_of_nil in Hb.
    + by apply elem_of_nil in Hb.
    + by apply list_elem_of_singleton in Hb as ->.
  - intros [|[|k]] Hk Hnot; [by exists holder_seg|by destruct Hnot; left|simpl in Hk; lia].
  - intros [|[|k]] seg Hk; try done. injection Hk as <-. split; [by left|done].
  - intros q k. rewrite Hmap. intros [<- <-]%lookup_singleton_Some. split; [done|].
    by exists holder_seg.
Qed.

Lemma page_holder_refines_set_witness :
  exists seg o' slots' tree' fl',
    holder_alloc_any (KN := kernel_up) (HZ := id_hash) (MP := map_all) false 4096
      (mkHolderSt holder_os (holder_of holder_slots holder_tree [1] false)) =
      Ok (inl seg.(seg_ptr), mkHolderSt o' (holder_of slots' tree' fl' false)) /\
    forall s, SegSlot s ∈ slots' <-> SegSlot s ∈ holder_slots \/ s = seg.
Proof.
  destruct (page_holder_refines_set (KN := kernel_up) (HZ := id_hash) (MP := map_all)
    holder_os holder_slots holder_tree [1] false 4096 8192 0) as (_ & H & _).
  destruct (H holder_witness_inv) as (seg & o' & s' & t' & f' & H1 & _ & _ & _ & H2).
  - split; [repeat constructor|]. apply Forall_singleton.
    split; [done|]. split; [by exists 2|]. by vm_compute.
  - by vm_compute.
  - by vm_compute.
  - done.
  - by vm_compute.
  - by exists seg, o', s', t', f'.
Defined.
