(* ===== verification/Descriptor.v ===== *)
(** * Descriptors, tagged pointers and the list of free descriptors

    Models [src/src/allocation_data/desc.rs]: [DescriptorNode], a pointer to a
    descriptor whose low 6 bits (descriptors are aligned to a cache line) hold
    a counter, and [Descriptor::alloc] and [Descriptor::retire] over the free
    list [AVAILABLE_DESC]. *)
From S2P Require Import Prelude MemInfo Mem HashMap State Pages.

(** ** [DescriptorNode] *)
Definition node_set (desc : option Z) (count : Z) : Z :=
  match desc with
  | Some p => Z.lor p (Z.land count CACHE_LINE_MASK)
  | None => 0
  end.

Definition node_get_desc (node : Z) : option Z :=
  let fixed_ptr := Z.land node (not64 CACHE_LINE_MASK) in
  if fixed_ptr =? 0 then None else Some fixed_ptr.

Definition node_get_counter (node : Z) : Z := Z.land node CACHE_LINE_MASK.

(** [size_of::<Descriptor>()] on x86-64: two [Option<DescriptorNode>] of 16
    bytes, the anchor, an [Option<Segment>] of 24, the heap pointer and two
    [u32] make 80 bytes, rounded up to the alignment of 64. *)
Definition DESCRIPTOR_SIZE : Z := 128.

Section Descriptor.
Context {KN : Kernel} {HZ : Hash Z}.

(** [Descriptor::retire] *)
Definition retire (p : Z) : M State unit :=
  update_desc p (set_block_size 0);;
  old_head ← gets st_avail;
  update_desc p (set_next_free (Some old_head));;
  modify (set_avail_desc (node_set (Some p) (node_get_counter old_head + 1))).

(** [for descriptor in slice { .. }]: each descriptor's [next_free] points to
  the one after it; the last one visited is returned. *)
Fixpoint link_slice (prev : option Z) (slice : list Z) (ds : gmap Z Descriptor)
  : option Z * gmap Z Descriptor :=
  match slice with
  | [] => (prev, ds)
  | d :: rest =>
      link_slice (Some d) rest
        (match prev with
         | Some p => alter (set_next_free (Some d)) p ds
         | None => ds
         end)
  end.

(** The addresses of the [n] descriptors from [p]. *)
Definition desc_addrs (p n : Z) : list Z :=
  (λ i, p + i * DESCRIPTOR_SIZE) <$> range 0 n.

(** [Array::from_ptr]: each element is set to the default. *)
Definition write_defaults (addrs : list Z) (ds : gmap Z Descriptor) : gmap Z Descriptor :=
  foldr (λ a m, <[a := desc_default]> m) ds addrs.

(** [Descriptor::alloc] *)
Definition desc_alloc : M State Z :=
  old_head ← gets st_avail;
  match node_get_desc old_head with
  | None =>
      r ← page_alloc DESCRIPTOR_BLOCK_SZ;
      match r with
      | inr _ => fail (Panic "Creating a descriptor block failed")
      | inl page =>
          let addrs := desc_addrs page (DESCRIPTOR_BLOCK_SZ / DESCRIPTOR_SIZE) in
          ds ← gets st_descs;
          let '(prev, ds') := link_slice None (tail addrs) (write_defaults addrs ds) in
          prev ← unwrap prev "called `Option::unwrap()` on a `None` value";
          modify (set_descs (alter (set_next_free None) prev ds'));;
          modify (set_avail_desc (node_set (Some (page + DESCRIPTOR_SIZE)) 0));;
          mret page
      end
  | Some desc =>
      d ← read_desc desc;
      let new_head :=
        match d.(next_free) with
        | None => None
        | Some n =>
            match node_get_desc n with
            | Some d' => Some (node_set (Some d') (node_get_counter old_head))
            | None => Some (node_set None (node_get_counter old_head))
            end
        end in
      modify (set_avail_desc (default 0 new_head));;
      mret desc
  end.
End Descriptor.

(** ** Tagged pointers *)
Definition desc_aligned (a : Z) : Prop := 0 < a < ADDR_LIMIT /\ (64 | a).

Lemma node_set_eq p c : desc_aligned p -> node_set (Some p) c = p + c mod 64.
Proof.
  intros [Hp Hd]. unfold node_set. change CACHE_LINE_MASK with (2 ^ 6 - 1).
  rewrite land_low by lia. change (2 ^ 6) with 64.
  apply (lor_low _ _ 6); [lia|lia| |apply Z.mod_pos_bound; lia].
  change (2 ^ 6) with 64. by apply Z.mod_divide.
Qed.

Lemma node_get_desc_add p c :
  desc_aligned p -> 0 <= c < 64 -> node_get_desc (p + c) = Some p.
Proof.
  intros [Hp [q Hq]] Hc. unfold node_get_desc.
  change (not64 CACHE_LINE_MASK) with (2 ^ 64 - 2 ^ 6).
  change ADDR_LIMIT with (2 ^ 48) in Hp.
  rewrite land_clear_low by lia. change (2 ^ 6) with 64.
  assert ((p + c) mod 64 = c) as ->.
  { rewrite Hq, Z.add_comm, Z.mod_add by lia. by apply Z.mod_small. }
  replace (p + c - c) with p by lia. by destruct (Z.eqb_spec p 0); [lia|].
Qed.

Lemma node_get_desc_set p c : desc_aligned p -> node_get_desc (node_set (Some p) c) = Some p.
Proof.
  intros Hp. rewrite node_set_eq by done. apply node_get_desc_add; [done|].
  apply Z.mod_pos_bound. lia.
Qed.

Lemma node_get_desc_plain p : desc_aligned p -> node_get_desc p = Some p.
Proof. intros Hp. rewrite <- (Z.add_0_r p) at 1. by apply node_get_desc_add. Qed.

Lemma node_counter_set p c : desc_aligned p -> node_get_counter (node_set (Some p) c) = c mod 64.
Proof.
  intros Hp. rewrite node_set_eq by done. destruct Hp as [Hp [q Hq]]. unfold node_get_counter.
  change CACHE_LINE_MASK with (2 ^ 6 - 1). rewrite land_low by lia. change (2 ^ 6) with 64.
  rewrite Hq, Z.add_comm, Z.mod_add by lia. apply Z.mod_mod. lia.
Qed.

(** ** The free list

    [desc_chain ds node l]: from the tagged pointer [node], the [next_free]
    links go through the descriptors [l] and end. *)
Fixpoint desc_chain (ds : gmap Z Descriptor) (node : Z) (l : list Z) : Prop :=
  match l with
  | [] => node_get_desc node = None
  | p :: l' => node_get_desc node = Some p /\
      exists d, ds !! p = Some d /\ desc_chain ds (default 0 d.(next_free)) l'
  end.

Record desc_inv (ds : gmap Z Descriptor) (avail : Z) (free : list Z) : Prop := {
  free_chain : desc_chain ds avail free;
  free_nodup : NoDup free;
  desc_addr_ok : forall a, is_Some (ds !! a) -> desc_aligned a;
}.

Lemma desc_chain_frame ds ds' node l :
  (forall a, a ∈ l -> ds' !! a = ds !! a) -> desc_chain ds node l -> desc_chain ds' node l.
Proof.
  revert node. induction l as [|p l IH]; intros node Hf; simpl; [done|].
  intros (Hn & d & Hd & Hc). split; [done|]. exists d. rewrite Hf by set_solver.
  split; [done|]. apply IH; [set_solver|done].
Qed.

(** Only the link of the first node matters, not its counter. *)
Lemma desc_chain_head ds node node' l :
  node_get_desc node = node_get_desc node' -> desc_chain ds node l -> desc_chain ds node' l.
Proof. destruct l; simpl; [congruence|]. intros H [H1 H2]. split; [congruence|done]. Qed.

Lemma desc_chain_in_dom ds node l a : desc_chain ds node l -> a ∈ l -> is_Some (ds !! a).
Proof.
  revert node. induction l as [|p l IH]; intros node; simpl; [set_solver|].
  intros (_ & d & Hd & Hc) [->|Ha]%elem_of_cons; [by exists d|by eapply IH].
Qed.

Lemma link_slice_chain l : forall prev ds,
  NoDup (prev :: l) -> (forall a, a ∈ prev :: l -> is_Some (ds !! a) /\ desc_aligned a) ->
  exists last ds1, link_slice (Some prev) l ds = (Some last, ds1) /\
    let ds2 := alter (set_next_free None) last ds1 in
    desc_chain ds2 prev (prev :: l) /\
    (forall a, a ∉ prev :: l -> ds2 !! a = ds !! a) /\
    (forall a, is_Some (ds2 !! a) <-> is_Some (ds !! a)).
Proof.
  induction l as [|d l IH]; intros prev ds Hnd Hall.
  - exists prev, ds. split; [done|]. simpl.
    destruct (Hall prev) as [[dp Hdp] Hal]; [set_solver|].
    split; [|split].
    + split; [by apply node_get_desc_plain|]. exists (set_next_free None dp).
      split; [by rewrite lookup_alter_eq, Hdp|done].
    + intros a Ha. rewrite lookup_alter_ne by set_solver. done.
    + intros a. rewrite lookup_alter_is_Some. done.
  - simpl. apply NoDup_cons in Hnd as [Hnin Hnd].
    destruct (IH d (alter (set_next_free (Some d)) prev ds)) as (last & ds1 & HL & Hc & Ho & Hdom).
    { done. }
    { intros a Ha. destruct (Hall a) as [Hs Hal]; [set_solver|].
      by rewrite lookup_alter_is_Some. }
    exists last, ds1. split; [done|]. simpl in *.
    destruct (Hall prev) as [[dp Hdp] Hal]; [set_solver|].
    split; [|split].
    + split; [by apply node_get_desc_plain|]. exists (set_next_free (Some d) dp).
      split; [|exact Hc]. rewrite Ho by done. by rewrite lookup_alter_eq, Hdp.
    + intros a Ha. rewrite Ho by set_solver. by rewrite lookup_alter_ne by set_solver.
    + intros a. rewrite Hdom. by rewrite lookup_alter_is_Some.
Qed.

Lemma write_defaults_lookup addrs ds a :
  write_defaults addrs ds !! a = if decide (a ∈ addrs) then Some desc_default else ds !! a.
Proof.
  induction addrs as [|b l IH]; [done|]. unfold write_defaults in *. cbn [foldr].
  destruct (decide (b = a)) as [->|Hne].
  - rewrite lookup_insert_eq. by rewrite decide_True by set_solver.
  - rewrite lookup_insert_ne, IH by done. destruct (decide (a ∈ l)).
    + by rewrite decide_True by set_solver.
    + by rewrite decide_False by set_solver.
Qed.

(** The descriptors of a block: one for the caller, and the rest. *)
Definition DESCRIPTOR_COUNT : Z := DESCRIPTOR_BLOCK_SZ / DESCRIPTOR_SIZE.

Lemma desc_addrs_block page :
  desc_addrs page DESCRIPTOR_COUNT =
  page :: page + DESCRIPTOR_SIZE :: ((λ i, page + i * DESCRIPTOR_SIZE) <$> range 2 DESCRIPTOR_COUNT).
Proof.
  unfold desc_addrs. rewrite (range_cons 0) by done. rewrite (range_cons (0 + 1)) by done.
  rewrite !fmap_cons. replace (page + 0 * DESCRIPTOR_SIZE) with page by lia.
  by replace (page + (0 + 1) * DESCRIPTOR_SIZE) with (page + DESCRIPTOR_SIZE) by lia.
Qed.

Lemma elem_of_desc_addrs page a :
  a ∈ desc_addrs page DESCRIPTOR_COUNT ->
  exists i, 0 <= i < 512 /\ a = page + i * 128.
Proof.
  unfold desc_addrs. intros (i & -> & Hi)%list_elem_of_fmap.
  apply elem_of_range in Hi. by exists i.
Qed.

Lemma desc_addrs_nodup page : NoDup (desc_addrs page DESCRIPTOR_COUNT).
Proof.
  unfold desc_addrs. apply NoDup_fmap_2; [|apply NoDup_seqZ].
  intros i j H. unfold DESCRIPTOR_SIZE in H. lia.
Qed.

(** ** [Descriptor::alloc] and [Descriptor::retire] *)
Definition desc_home (ss : list Segment) (a : Z) : Prop :=
  exists seg, seg ∈ ss /\ seg.(seg_ptr) <= a /\ a + DESCRIPTOR_SIZE <= seg.(seg_ptr) + seg.(seg_len).

Record desc_alloc_post {KN : Kernel} {HZ : Hash Z} (s : State) (free : list Z)
    (p : Z) (s' : State) (free' : list Z) : Prop := {
  dap_inv : desc_inv s'.(st_descs) s'.(st_avail) free';
  dap_some : is_Some (s'.(st_descs) !! p);
  dap_new : p ∈ free \/ s.(st_descs) !! p = None;
  dap_not_free : p ∉ free';
  dap_free : forall a, a ∈ free' -> a ∈ free \/ s.(st_descs) !! a = None;
  dap_frame : forall a d, s.(st_descs) !! a = Some d -> s'.(st_descs) !! a = Some d;
  dap_os : (s'.(st_os) = s.(st_os) /\ s'.(st_descs) = s.(st_descs)) \/
    exists seg, os_grow s.(st_os) seg s'.(st_os) /\ seg.(seg_len) = DESCRIPTOR_BLOCK_SZ /\
      forall a, is_Some (s'.(st_descs) !! a) -> s.(st_descs) !! a = None ->
        seg.(seg_ptr) <= a /\ a + DESCRIPTOR_SIZE <= seg.(seg_ptr) + seg.(seg_len);
  dap_rest : s'.(st_sizes) = s.(st_sizes) /\ s'.(st_page_map) = s.(st_page_map) /\
    s'.(st_heaps) = s.(st_heaps);
  dap_pages : pages_ok s';
}.

Section DescriptorFacts.
Context {KN : Kernel} {HZ : Hash Z}.

(** Addresses in a fresh mapping hold no descriptor yet. *)
Lemma fresh_no_desc s seg a :
  (forall b, is_Some (s.(st_descs) !! b) -> desc_home s.(st_os).(segs) b) ->
  fresh_segment s.(st_os) seg ->
  seg.(seg_ptr) <= a -> a + DESCRIPTOR_SIZE <= seg.(seg_ptr) + seg.(seg_len) ->
  s.(st_descs) !! a = None.
Proof.
  intros Hh [_ _ _ _ Hd] H1 H2. destruct (s.(st_descs) !! a) as [d|] eqn:E; [|done].
  destruct (Hh a) as (t & Ht & T1 & T2); [by exists d|].
  rewrite Forall_forall in Hd. specialize (Hd t Ht).
  unfold seg_disjoint, disjoint_ranges, DESCRIPTOR_SIZE in *.
  pose proof (page_span_ge (seg_len seg)). pose proof (page_span_ge (seg_len t)). lia.
Qed.

Lemma fresh_desc_aligned o seg a :
  fresh_segment o seg -> seg.(seg_len) = DESCRIPTOR_BLOCK_SZ ->
  a ∈ desc_addrs seg.(seg_ptr) DESCRIPTOR_COUNT ->
  desc_aligned a /\ seg.(seg_ptr) <= a /\ a + DESCRIPTOR_SIZE <= seg.(seg_ptr) + seg.(seg_len).
Proof.
  intros [F1 F2 F3 F4 _] Hl Ha. apply elem_of_desc_addrs in Ha as (i & Hi & ->).
  rewrite Hl in *. change (page_span DESCRIPTOR_BLOCK_SZ) with 65536 in F4.
  change DESCRIPTOR_BLOCK_SZ with 65536. unfold DESCRIPTOR_SIZE.
  change PAGE with 4096 in F1. destruct F1 as [q Hq].
  split; [|lia]. split; [lia|]. exists (q * 64 + i * 2). lia.
Qed.

(** The free list is empty: a block of descriptors is mapped, and all but the
    first are put on the list. *)
Lemma desc_alloc_block s :
  desc_inv s.(st_descs) s.(st_avail) [] ->
  (forall b, is_Some (s.(st_descs) !! b) -> desc_home s.(st_os).(segs) b) ->
  pages_ok s -> Z.of_nat s.(st_os).(calls) < CALLS_LIMIT ->
  (exists p s' free', desc_alloc s = Ok (p, s') /\ desc_alloc_post s [] p s' free') \/
  (refused s.(st_os) DESCRIPTOR_BLOCK_SZ false /\
   desc_alloc s = Err (Panic "Creating a descriptor block failed")).
Proof.
  intros [Hc Hnd Ha] Hh Hp Hcalls. unfold desc_alloc. rewrite bind_gets. simpl in Hc.
  rewrite Hc. unfold page_alloc.
  destruct (page_alloc_with_ok allocate false DESCRIPTOR_BLOCK_SZ s)
    as (m & [(seg & o' & E & Hl & Hg & Hpo)|(e & Hr & E)]); [done|done|done|done| |].
  2:{ right. split; [done|]. by rewrite (bind_Ok _ _ _ _ _ E). }
  left. rewrite (bind_Ok _ _ _ _ _ E). clear E.
  set (s1 := set_size_map (Some m) (set_os o' s)) in *.
  set (page := seg_ptr seg).
  change (DESCRIPTOR_BLOCK_SZ / DESCRIPTOR_SIZE) with DESCRIPTOR_COUNT.
  cbv beta iota zeta. rewrite bind_gets. change (st_descs s1) with (st_descs s).
  rewrite desc_addrs_block. cbn [tail link_slice].
  set (first := page + DESCRIPTOR_SIZE). set (rest := _ <$> range 2 DESCRIPTOR_COUNT).
  assert (Haddrs : desc_addrs page DESCRIPTOR_COUNT = page :: first :: rest)
    by apply desc_addrs_block.
  clearbody rest. pose proof (desc_addrs_nodup page) as Hnd'. rewrite Haddrs in Hnd'.
  assert (Hin : forall a, a ∈ page :: first :: rest ->
    desc_aligned a /\ page <= a /\ a + DESCRIPTOR_SIZE <= page + seg_len seg).
  { intros a Hin. rewrite <- Haddrs in Hin. destruct Hg as [Hf _].
    by apply (fresh_desc_aligned _ _ _ Hf). }
  assert (Hnone : forall a, a ∈ page :: first :: rest -> st_descs s !! a = None).
  { intros a Hina. destruct (Hin a Hina) as (_ & H1 & H2). destruct Hg as [Hf _].
    by apply (fresh_no_desc s seg). }
  apply NoDup_cons in Hnd' as [Hpn Hnd'].
  destruct (link_slice_chain rest first (write_defaults (page :: first :: rest) (st_descs s)))
    as (last & ds1 & -> & Hchain & Hother & Hdom); [done| |].
  { intros a Hina. rewrite write_defaults_lookup, decide_True by by right.
    split; [done|]. apply Hin. by right. }
  set (ds2 := alter (set_next_free None) last ds1) in *.
  eexists page, _, (first :: rest). split; [reflexivity|].
  assert (Hlook : forall a, a ∉ page :: first :: rest -> ds2 !! a = st_descs s !! a).
  { intros a Hna. rewrite Hother by (intros ?; apply Hna; by right). rewrite write_defaults_lookup.
    by rewrite decide_False. }
  assert (Hsome : forall a, is_Some (ds2 !! a) -> is_Some (st_descs s !! a) \/ a ∈ page :: first :: rest).
  { intros a. rewrite Hdom, write_defaults_lookup. case_decide; [by right|by left]. }
  split; simpl; fold ds2.
  - split; [|done|].
    + eapply desc_chain_head; [|exact Hchain]. symmetry.
      change (Z.lor first (Z.land 0 CACHE_LINE_MASK)) with (node_set (Some first) 0).
      rewrite node_get_desc_set, node_get_desc_plain; [done| |]; apply Hin; right; left.
    + intros a [Hs|Hs]%Hsome; [by apply Ha|by apply Hin].
  - rewrite Hdom, write_defaults_lookup, decide_True by left. done.
  - right. apply Hnone. left.
  - done.
  - intros a Hina. right. apply Hnone. by right.
  - intros a d Had. rewrite Hlook; [done|]. intros Hina. rewrite Hnone in Had; done.
  - right. exists seg. split; [done|]. split; [done|].
    intros a [Hs|Hs]%Hsome Hno; [rewrite Hno in Hs; by destruct Hs|].
    destruct (Hin a Hs) as (_ & H1 & H2). done.
  - done.
  - done.
Qed.

(** The first descriptor of the free list is taken. *)
Lemma desc_alloc_pop s p free :
  desc_inv s.(st_descs) s.(st_avail) (p :: free) -> pages_ok s ->
  exists s', desc_alloc s = Ok (p, s') /\ desc_alloc_post s (p :: free) p s' free.
Proof.
  intros [Hc Hnd Ha] Hp. unfold desc_alloc. rewrite bind_gets. simpl in Hc.
  destruct Hc as (Hn & d & Hd & Hc). rewrite Hn.
  assert (Hrd : read_desc p s = Ok (d, s)) by (unfold read_desc; by rewrite Hd).
  rewrite (bind_Ok _ _ _ _ _ Hrd). apply NoDup_cons in Hnd as [Hpn Hnd].
  eexists. split; [reflexivity|].
  split; simpl; [|by exists d|left; left|done|intros a Hin; left; by right|done|by left|done|done].
  split; simpl; [|done|done]. eapply desc_chain_head; [|exact Hc].
  destruct (next_free d) as [n|]; [|done]. simpl in Hc |- *.
  destruct (node_get_desc n) as [q|] eqn:Eq; [|done].
  symmetry. cbn [default from_option id]. change (Z.lor q _) with (node_set (Some q) (node_get_counter (st_avail s))).
  apply node_get_desc_set. destruct free as [|f free]; simpl in Hc; [congruence|].
  destruct Hc as (Hq & d' & Hd' & _). simpl in Hq. rewrite Eq in Hq. injection Hq as ->.
  apply Ha. by exists d'.
Qed.

Lemma desc_alloc_ok s free :
  desc_inv s.(st_descs) s.(st_avail) free ->
  (forall b, is_Some (s.(st_descs) !! b) -> desc_home s.(st_os).(segs) b) ->
  pages_ok s -> Z.of_nat s.(st_os).(calls) < CALLS_LIMIT ->
  (exists p s' free', desc_alloc s = Ok (p, s') /\ desc_alloc_post s free p s' free') \/
  (refused s.(st_os) DESCRIPTOR_BLOCK_SZ false /\
   desc_alloc s = Err (Panic "Creating a descriptor block failed")).
Proof.
  intros Hdi Hh Hp Hcalls. destruct free as [|p free]; [by apply desc_alloc_block|].
  left. destruct (desc_alloc_pop s p free Hdi Hp) as (s' & H). by exists p, s', free.
Qed.

(** Retiring a used descriptor puts it at the head of the free list. *)
Lemma retire_ok s free p d :
  desc_inv s.(st_descs) s.(st_avail) free -> s.(st_descs) !! p = Some d -> p ∉ free ->
  exists s', retire p s = Ok (tt, s') /\
    desc_inv s'.(st_descs) s'.(st_avail) (p :: free) /\
    (forall a, a <> p -> s'.(st_descs) !! a = s.(st_descs) !! a) /\
    (forall a, is_Some (s'.(st_descs) !! a) <-> is_Some (s.(st_descs) !! a)) /\
    s'.(st_os) = s.(st_os) /\ s'.(st_sizes) = s.(st_sizes) /\
    s'.(st_page_map) = s.(st_page_map) /\ s'.(st_heaps) = s.(st_heaps) /\
    s'.(st_size_map) = s.(st_size_map).
Proof.
  intros [Hc Hnd Ha] Hd Hn. unfold retire, update_desc, gets, modify, mbind, M_bind.
  rewrite Hd. simpl. rewrite lookup_insert_eq. eexists. split; [reflexivity|]. simpl.
  rewrite insert_insert_eq.
  assert (Hal : desc_aligned p) by (apply Ha; by exists d).
  split; [|split; [|split]]; [split| | |done].
  - simpl. change (Z.lor p _) with (node_set (Some p) (node_get_counter (st_avail s) + 1)).
    split; [by apply node_get_desc_set|]. eexists. split; [by rewrite lookup_insert_eq|].
    simpl. eapply desc_chain_frame; [|exact Hc]. intros a Hin.
    apply lookup_insert_ne. set_solver.
  - by constructor.
  - intros a. rewrite lookup_insert_is_Some'. intros [<-|Hs]; [done|by apply Ha].
  - intros a Hne. by rewrite lookup_insert_ne.
  - intros a. rewrite lookup_insert_is_Some'. split; [intros [<-|Hs]; [by exists d|done]|by right].
Qed.
End DescriptorFacts.

(** ** Properties *)

(** a tagged pointer gives back what was stored in it: the descriptor, which
    is aligned to a cache line, and the counter modulo 64. *)
Theorem descriptor_node_roundtrip p c :
  desc_aligned p ->
  node_get_desc (node_set (Some p) c) = Some p /\ node_get_counter (node_set (Some p) c) = c mod 64.
Proof. intros Hp. split; [by apply node_get_desc_set|by apply node_counter_set]. Qed.

Lemma descriptor_node_roundtrip_witness :
  node_get_desc (node_set (Some 4224) 70) = Some 4224 /\ node_get_counter (node_set (Some 4224) 70) = 6.
Proof.
  destruct (descriptor_node_roundtrip 4224 70) as [H1 H2].
  - split; [by vm_compute|by exists 66].
  - split; [exact H1|rewrite H2; reflexivity].
Defined.

(** The pool of descriptors.  [desc_alloc] returns a descriptor that is not
    in use (it was free, or it is carved from a new block of descriptors), keeps
    the fields of all others, and fails only when the kernel refuses memory;
    [retire] puts the descriptor on top of the free list, from where the next
    [desc_alloc] takes it. *)
Theorem descriptor_pool {KN : Kernel} {HZ : Hash Z} s free :
  desc_inv s.(st_descs) s.(st_avail) free ->
  (forall b, is_Some (s.(st_descs) !! b) -> desc_home s.(st_os).(segs) b) ->
  pages_ok s -> Z.of_nat s.(st_os).(calls) < CALLS_LIMIT ->
  ((exists p s' free', desc_alloc s = Ok (p, s') /\
      desc_inv s'.(st_descs) s'.(st_avail) free' /\ p ∉ free' /\
      (p ∈ free \/ s.(st_descs) !! p = None) /\
      (forall a d, s.(st_descs) !! a = Some d -> s'.(st_descs) !! a = Some d)) \/
   (refused s.(st_os) DESCRIPTOR_BLOCK_SZ false /\
    desc_alloc s = Err (Panic "Creating a descriptor block failed"))) /\
  (forall p d, s.(st_descs) !! p = Some d -> p ∉ free ->
     exists s1 s2, retire p s = Ok (tt, s1) /\ desc_inv s1.(st_descs) s1.(st_avail) (p :: free) /\
       desc_alloc s1 = Ok (p, s2)).
Proof.
  intros Hi Hh Hp Hc. split.
  - destruct (desc_alloc_ok s free Hi Hh Hp Hc) as [(p & s' & free' & E & [])|H]; [left|by right].
    by exists p, s', free'.
  - intros p d Hd Hn. destruct (retire_ok s free p d Hi Hd Hn) as (s1 & Er & Hi1 & _).
    pose proof Hi1 as [[Hg (d1 & Hd1 & _)] _ _].
    exists s1. eexists. split; [done|]. split; [done|].
    unfold desc_alloc. rewrite bind_gets, Hg. by rewrite (bind_Ok _ _ _ d1 s1) by (unfold read_desc; by rewrite Hd1).
Qed.

Lemma descriptor_pool_witness :
  exists p s', desc_alloc (KN := kernel_up) (HZ := id_hash) state_init = Ok (p, s') /\ p <> 0.
Proof.
  destruct (proj1 (descriptor_pool (KN := kernel_up) (HZ := id_hash) state_init []
    ltac:(split; [reflexivity|constructor|intros a [d Hd]; discriminate Hd])
    ltac:(intros b [d Hd]; discriminate Hd) I ltac:(vm_compute; reflexivity)))
    as [(p & s' & free' & E & Hi & _ & _ & Hk)|[_ E]].
  - exists p, s'. split; [exact E|].
    assert (Hv : match desc_alloc (KN := kernel_up) (HZ := id_hash) state_init with
      Ok (q, _) => negb (q =? 0) | Err _ => false end = true) by (vm_compute; reflexivity).
    rewrite E in Hv. intros ->. discriminate Hv.
  - exfalso. assert (Hv : is_ok (desc_alloc (KN := kernel_up) (HZ := id_hash) state_init) = true)
      by (vm_compute; reflexivity).
    rewrite E in Hv. discriminate Hv.
Defined.
