(* ===== verification/PartialList.v ===== *)
(** * The partial list under concurrency

    [Alloc] models [list_pop_partial] and [list_push_partial] of
    [src/src/alloc.rs] as calls that run alone.  Here the same two loops are
    split into their atomic operations (a load of the list head, a load or a
    store of [next_partial], a compare-and-exchange that may also fail
    spuriously), and the operations of any number of threads interleave.

    Descriptors that are in use (taken off the list, or never put on it) form
    the set [outside]; a thread puts one of them on the list, as [flush_cache]
    does when it turns a full superblock into a partial one. *)
From S2P Require Import Prelude MemInfo Mem HashMap State Pages Descriptor.

(** ** Where a thread is *)
Inductive LPc : Type :=
  | LIdle
  | PopLoad                                (* [list.load(..)] *)
  | PopNext (old_head : Z)                 (* [old_desc.next_partial.load(..)] *)
  | PopCas (old_head : Z) (new_head : option Z)
  | PushLoad (desc : Z)                    (* [list.load(..)] *)
  | PushStore (desc : Z) (old_head : option Z)  (* [desc.next_partial.store(..)] *)
  | PushCas (desc : Z) (old_head : option Z).

Record PList : Type := mkPList {
  l_head : option Z;                (* [heap.partial_list] *)
  l_next : gmap Z (option Z);       (* [next_partial] of each descriptor *)
  l_outside : gset Z;
}.

(** What a step tells the outside: a completed operation. *)
Inductive LEvent : Type := Pushed (d : Z) | Popped (d : Z) | PoppedNone.

(** The next head that [list_pop_partial] computes: the node is taken apart and
    put together again. *)
Definition pop_new_head (next : option Z) : result (option Z) :=
  match next with
  | None => Ok None
  | Some node =>
      match node_get_desc node with
      | Some desc => Ok (Some (node_set (Some desc) (node_get_counter node)))
      | None => Err (Panic "called `Option::unwrap()` on a `None` value")
      end
  end.

(** The node that [list_push_partial] installs. *)
Definition push_new_head (desc : Z) (old_head : option Z) : Z :=
  node_set (Some desc) (match old_head with None => 0 | Some n => node_get_counter n + 1 end).

(** One atomic operation of a thread; [weak] is a spurious failure of
    [compare_exchange_weak]. *)
Definition thread_go (weak : bool) (s : PList) (pc : LPc) : result (PList * LPc * option LEvent) :=
  match pc with
  | LIdle => Ok (s, LIdle, None)
  | PopLoad =>
      match s.(l_head) with
      | None => Ok (s, LIdle, Some PoppedNone)
      | Some h => Ok (s, PopNext h, None)
      end
  | PopNext h =>
      match node_get_desc h with
      | None => Err (Panic "called `Option::unwrap()` on a `None` value")
      | Some d =>
          match s.(l_next) !! d with
          | None => Err (Fault d)
          | Some n => new ← pop_new_head n; Ok (s, PopCas h new, None)
          end
      end
  | PopCas h new =>
      if negb weak && bool_decide (s.(l_head) = Some h) then
        match node_get_desc h with
        | None => Err (Panic "called `Option::unwrap()` on a `None` value")
        | Some d => Ok (mkPList new s.(l_next) ({[d]} ∪ s.(l_outside)), LIdle, Some (Popped d))
        end
      else Ok (s, PopLoad, None)
  | PushLoad d => Ok (s, PushStore d s.(l_head), None)
  | PushStore d old =>
      Ok (mkPList s.(l_head) (<[d := old]> s.(l_next)) s.(l_outside), PushCas d old, None)
  | PushCas d old =>
      if negb weak && bool_decide (s.(l_head) = old) then
        Ok (mkPList (Some (push_new_head d old)) s.(l_next) s.(l_outside), LIdle, Some (Pushed d))
      else Ok (s, PushLoad d, None)
  end.

(** ** Interleavings

    [pop_in_flight d pc]: the thread has loaded a head that is [d], and has not
    yet done its compare-and-exchange. *)
Definition pop_in_flight (d : Z) (pc : LPc) : Prop :=
  match pc with
  | PopNext h | PopCas h _ => node_get_desc h = Some d
  | _ => False
  end.

#[global] Instance pop_in_flight_dec d pc : Decision (pop_in_flight d pc).
Proof. destruct pc; simpl; apply _. Defined.

(** [lstep calm]: with [calm], a descriptor is not put back on the list while a
    pop that has seen it at the head is in flight. *)
Inductive lstep (calm : bool) : PList * list LPc -> option LEvent -> PList * list LPc -> Prop :=
  | lstep_pop s pcs t :
      pcs !! t = Some LIdle -> lstep calm (s, pcs) None (s, <[t := PopLoad]> pcs)
  | lstep_push s pcs t d :
      pcs !! t = Some LIdle -> d ∈ s.(l_outside) ->
      (calm = true -> Forall (λ pc, ~ pop_in_flight d pc) pcs) ->
      lstep calm (s, pcs) None
        (mkPList s.(l_head) s.(l_next) (s.(l_outside) ∖ {[d]}), <[t := PushLoad d]> pcs)
  | lstep_go s pcs t pc weak s' pc' e :
      pcs !! t = Some pc -> thread_go weak s pc = Ok (s', pc', e) ->
      lstep calm (s, pcs) e (s', <[t := pc']> pcs).

(** [lreach calm start tr c]: from [start], steps that lead to [c]; the
    operations [tr] have completed, in this order. *)
Inductive lreach (calm : bool) (start : PList * list LPc) : list LEvent -> PList * list LPc -> Prop :=
  | lreach_start : lreach calm start [] start
  | lreach_step tr c e c' :
      lreach calm start tr c -> lstep calm c e c' ->
      lreach calm start (tr ++ match e with Some ev => [ev] | None => [] end) c'.

Definition plist_new (descs : gset Z) : PList := mkPList None (gset_to_gmap None descs) descs.

Definition l_start (descs : gset Z) (threads : nat) : PList * list LPc :=
  (plist_new descs, replicate threads LIdle).

(** ** The atomic stack *)
Inductive stack_step : list Z -> LEvent -> list Z -> Prop :=
  | stack_push l d : stack_step l (Pushed d) (d :: l)
  | stack_pop l d : stack_step (d :: l) (Popped d) l
  | stack_empty : stack_step [] PoppedNone [].

Inductive stack_runs : list LEvent -> list Z -> Prop :=
  | stack_nil : stack_runs [] []
  | stack_snoc tr l e l' : stack_runs tr l -> stack_step l e l' -> stack_runs (tr ++ [e]) l'.

(** ** The invariant *)

(** From the head, the [next_partial] links go through the descriptors [l]. *)
Fixpoint linked (next : gmap Z (option Z)) (head : option Z) (l : list Z) : Prop :=
  match head, l with
  | None, [] => True
  | Some h, d :: l' =>
      node_get_desc h = Some d /\ exists n, next !! d = Some n /\ linked next n l'
  | _, _ => False
  end.

(** The descriptor that a thread is putting on the list. *)
Definition push_desc (pc : LPc) : option Z :=
  match pc with
  | PushLoad d | PushStore d _ | PushCas d _ => Some d
  | _ => None
  end.

Definition pushing (pcs : list LPc) : list Z := omap push_desc pcs.

(** A node that the code made: a descriptor with a counter. *)
Definition node_ok (n : option Z) : Prop :=
  match n with
  | None => True
  | Some node => exists d c, desc_aligned d /\ node = node_set (Some d) c
  end.

(** What a thread knows: a pop whose descriptor is still on the list has its
    current successor; a push has stored the head that it compares with. *)
Definition pc_ok (s : PList) (all : gset Z) (l : list Z) (push : list Z) (pc : LPc) : Prop :=
  match pc with
  | PopNext h => node_ok (Some h) /\ exists d, node_get_desc h = Some d /\ d ∈ all /\ d ∉ push
  | PopCas h new =>
      node_ok (Some h) /\ node_ok new /\
      exists d, node_get_desc h = Some d /\ d ∉ push /\ (d ∈ l -> s.(l_next) !! d = Some new)
  | PushStore d old => node_ok old
  | PushCas d old => node_ok old /\ s.(l_next) !! d = Some old
  | _ => True
  end.

Record linv (all : gset Z) (c : PList * list LPc) (l : list Z) : Prop := {
  li_linked : linked c.1.(l_next) c.1.(l_head) l;
  li_all : l ++ pushing c.2 ++ elements c.1.(l_outside) ≡ₚ elements all;
  li_aligned : forall d, d ∈ all -> desc_aligned d;
  li_next : forall d, d ∈ all -> exists n, c.1.(l_next) !! d = Some n /\ node_ok n;
  li_head : node_ok c.1.(l_head);
  li_pcs : Forall (pc_ok c.1 all l (pushing c.2)) c.2;
}.

(** ** Nodes and links *)
Lemma node_ok_canon n :
  node_ok (Some n) -> exists d, node_get_desc n = Some d /\ desc_aligned d /\
    node_set (Some d) (node_get_counter n) = n.
Proof.
  intros (d & c & Hd & ->). exists d. split; [by apply node_get_desc_set|]. split; [done|].
  rewrite node_counter_set by done. rewrite !node_set_eq by done. rewrite Z.mod_mod by lia. done.
Qed.

Lemma pop_new_head_ok n : node_ok n -> pop_new_head n = Ok n.
Proof.
  destruct n as [n|]; [|done]. intros (d & Hd & _ & Hn)%node_ok_canon.
  unfold pop_new_head. by rewrite Hd, Hn.
Qed.

Lemma push_new_head_ok d old : desc_aligned d -> node_ok (Some (push_new_head d old)).
Proof. intros Hd. by eexists _, _. Qed.

Lemma linked_insert next h l d n :
  d ∉ l -> linked next h l -> linked (<[d := n]> next) h l.
Proof.
  revert h. induction l as [|x l IH]; intros h Hd; destruct h as [h|]; simpl; try done.
  apply not_elem_of_cons in Hd as [Hx Hd]. intros (H1 & n' & H2 & H3). split; [done|].
  exists n'. rewrite lookup_insert_ne by done. split; [done|]. by apply IH.
Qed.

Lemma linked_head next h l :
  linked next (Some h) l -> exists d l' n, l = d :: l' /\ node_get_desc h = Some d /\
    next !! d = Some n /\ linked next n l'.
Proof. destruct l as [|d l]; [done|]. intros (H1 & n & H2 & H3). by exists d, l, n. Qed.

Lemma linked_None next l : linked next None l -> l = [].
Proof. by destruct l. Qed.

(** ** One thread among the others *)
Lemma pushing_middle l1 pc l2 :
  pushing (l1 ++ pc :: l2) = pushing l1 ++ option_list (push_desc pc) ++ pushing l2.
Proof.
  unfold pushing. rewrite omap_app. f_equal. cbn. by destruct (push_desc pc).
Qed.

Lemma others_push l1 l2 pc z d :
  NoDup (pushing (l1 ++ pc :: l2)) -> push_desc pc = Some d -> z ∈ l1 ++ l2 -> push_desc z <> Some d.
Proof.
  intros Hnd Hpc Hz Hd. rewrite pushing_middle, Hpc in Hnd. simpl in Hnd.
  rewrite Permutation_app_comm in Hnd. simpl in Hnd. apply NoDup_cons in Hnd as [Hnd _].
  apply Hnd. rewrite elem_of_app. unfold pushing. rewrite !list_elem_of_omap.
  apply elem_of_app in Hz as [Hz|Hz]; [right|left]; by exists z.
Qed.

Section Inv.
Context {all : gset Z}.

Lemma linv_NoDup c l : linv all c l -> NoDup (l ++ pushing c.2 ++ elements c.1.(l_outside)).
Proof. intros H. rewrite (li_all _ _ _ H). apply NoDup_elements. Qed.

Lemma linv_in c l d :
  linv all c l -> d ∈ l ++ pushing c.2 ++ elements c.1.(l_outside) -> d ∈ all.
Proof. intros H. rewrite (li_all _ _ _ H). by rewrite elem_of_elements. Qed.

Lemma linv_apart c l d :
  linv all c l ->
  (d ∈ l -> d ∉ pushing c.2 /\ d ∉ c.1.(l_outside)) /\ (d ∈ pushing c.2 -> d ∉ c.1.(l_outside)) /\
  NoDup l /\ NoDup (pushing c.2).
Proof.
  intros H%linv_NoDup. apply NoDup_app in H as (N1 & N2 & (N3 & N4 & _)%NoDup_app).
  split; [|split; [|done]].
  - intros Hd. specialize (N2 d Hd). rewrite elem_of_app, elem_of_elements in N2. tauto.
  - intros Hd. specialize (N4 d Hd). by rewrite elem_of_elements in N4.
Qed.

(** A thread moves on without changing the list. *)
Lemma linv_move s l1 pc pc' l2 l :
  linv all (s, l1 ++ pc :: l2) l -> push_desc pc' = push_desc pc ->
  pc_ok s all l (pushing (l1 ++ pc :: l2)) pc' -> linv all (s, l1 ++ pc' :: l2) l.
Proof.
  intros [L1 L2 L3 L4 L5 L6] Hp Hok. simpl in *.
  assert (Hpush : pushing (l1 ++ pc' :: l2) = pushing (l1 ++ pc :: l2))
    by (by rewrite !pushing_middle, Hp).
  split; simpl; try done; rewrite Hpush; [done|].
  eapply Forall_others; [exact L6|done|done].
Qed.

(** A descriptor in use is about to be pushed. *)
Lemma linv_start_push s l1 l2 l d :
  linv all (s, l1 ++ LIdle :: l2) l -> d ∈ s.(l_outside) ->
  Forall (λ pc, ~ pop_in_flight d pc) (l1 ++ LIdle :: l2) ->
  linv all (mkPList s.(l_head) s.(l_next) (s.(l_outside) ∖ {[d]}), l1 ++ PushLoad d :: l2) l.
Proof.
  intros Hi Hd Hcalm. pose proof Hi as [L1 L2 L3 L4 L5 L6]. simpl in *.
  split; simpl; try done.
  - rewrite <- L2, !pushing_middle, (elements_take s.(l_outside) d) by done.
    simpl. apply Permutation_app_head, perm_slide.
  - eapply Forall_others; [apply Forall_and; split; [exact L6|exact Hcalm]| |done].
    intros z _ [Hz Hc]. rewrite pushing_middle in *. simpl in *.
    destruct z; simpl in *; try done.
    + destruct Hz as (H1 & d' & H2 & H3 & H4). split; [done|]. exists d'.
      split; [done|]. split; [done|]. intros H.
      assert (d' <> d) by (intros ->; by rewrite H2 in Hc). set_solver.
    + destruct Hz as (H1 & H2 & d' & H3 & H4 & H5). split; [done|]. split; [done|]. exists d'.
      split; [done|]. split; [|done]. intros H.
      assert (d' <> d) by (intros ->; by rewrite H3 in Hc). set_solver.
Qed.

(** A pop that has seen the head succeeds. *)
Lemma linv_pop s l1 l2 l h new :
  linv all (s, l1 ++ PopCas h new :: l2) l -> s.(l_head) = Some h ->
  exists d l', node_get_desc h = Some d /\ l = d :: l' /\
    linv all (mkPList new s.(l_next) ({[d]} ∪ s.(l_outside)), l1 ++ LIdle :: l2) l'.
Proof.
  intros Hi Hh. pose proof Hi as [L1 L2 L3 L4 L5 L6]. simpl in *. rewrite Hh in L1.
  apply linked_head in L1 as (d & l' & n & -> & Hd & Hn & Hl). exists d, l'. do 2 (split; [done|]).
  pose proof (Forall_elt _ _ _ L6) as (_ & Hnew & d' & Hd' & _ & Hs). simpl in Hd'.
  rewrite Hd in Hd'. injection Hd' as <-. rewrite Hs in Hn by set_solver. injection Hn as ->.
  destruct (proj1 (linv_apart _ _ d Hi)) as [A1 A2]; [set_solver|]. simpl in *.
  rewrite pushing_middle in *. simpl in *.
  split; simpl; try done.
  - rewrite <- L2, pushing_middle, (elements_union_singleton s.(l_outside)) by done. simpl.
    rewrite app_assoc. rewrite <- Permutation_middle. by rewrite <- app_assoc.
  - eapply Forall_others; [exact L6| |done]. rewrite pushing_middle. simpl.
    intros z _. destruct z; simpl; try done. intros (H1 & H2 & x & H3 & H4 & H5).
    split; [done|]. split; [done|]. exists x. split; [done|]. split; [done|]. set_solver.
Qed.

(** A push stores the head that it has loaded. *)
Lemma linv_store s l1 l2 l d old :
  linv all (s, l1 ++ PushStore d old :: l2) l ->
  linv all (mkPList s.(l_head) (<[d := old]> s.(l_next)) s.(l_outside), l1 ++ PushCas d old :: l2) l.
Proof.
  intros Hi. pose proof Hi as [L1 L2 L3 L4 L5 L6]. simpl in *.
  pose proof (Forall_elt _ _ _ L6) as Hold. simpl in Hold.
  destruct (linv_apart _ _ d Hi) as (A1 & _ & _ & A4). simpl in *.
  assert (Hin : d ∈ pushing (l1 ++ PushStore d old :: l2)) by (rewrite pushing_middle; set_solver).
  assert (Hl : d ∉ l) by (intros H; by destruct (A1 H)).
  split; simpl; try done.
  - by apply linked_insert.
  - by rewrite pushing_middle in *.
  - intros x Hx. destruct (decide (x = d)) as [->|Hne].
    + exists old. by rewrite lookup_insert_eq.
    + rewrite lookup_insert_ne by done. by apply L4.
  - eapply Forall_others; [exact L6| |simpl; by rewrite lookup_insert_eq].
    intros z Hz Hok. pose proof (others_push _ _ _ _ _ A4 eq_refl Hz) as Hne.
    rewrite pushing_middle in *. simpl in *. destruct z; simpl in *; try done.
    + destruct Hok as (H1 & H2 & x & H3 & H4 & H5). split; [done|]. split; [done|].
      exists x. split; [done|]. split; [done|]. intros Hx.
      rewrite lookup_insert_ne by (intros ->; done). by apply H5.
    + rewrite lookup_insert_ne by congruence. done.
Qed.

(** A push succeeds. *)
Lemma linv_push s l1 l2 l d old :
  linv all (s, l1 ++ PushCas d old :: l2) l -> s.(l_head) = old ->
  linv all (mkPList (Some (push_new_head d old)) s.(l_next) s.(l_outside), l1 ++ LIdle :: l2) (d :: l).
Proof.
  intros Hi Hh. pose proof Hi as [L1 L2 L3 L4 L5 L6]. simpl in *.
  pose proof (Forall_elt _ _ _ L6) as (_ & Hn). simpl in Hn.
  assert (Hin : d ∈ pushing (l1 ++ PushCas d old :: l2)) by (rewrite pushing_middle; set_solver).
  assert (Hd : d ∈ all) by (apply (linv_in _ _ _ Hi); simpl; set_solver).
  split; simpl; try done.
  - split; [by apply node_get_desc_set, L3|]. exists old. by rewrite Hh in L1.
  - rewrite <- L2, !pushing_middle. simpl. rewrite perm_slide.
    rewrite (app_assoc l _ (elements _)), (app_assoc l _ (d :: _)). apply Permutation_middle.
  - by apply push_new_head_ok, L3.
  - eapply Forall_others; [exact L6| |done]. rewrite !pushing_middle. simpl.
    intros z _. destruct z; simpl; try done.
    + intros (H1 & x & H2 & H3 & H4). split; [done|]. exists x. set_solver.
    + intros (H1 & H2 & x & H3 & H4 & H5). split; [done|]. split; [done|]. exists x.
      split; [done|]. split; [set_solver|]. intros [->|Hx]%elem_of_cons; [set_solver|by apply H5].
Qed.

(** Every atomic operation of a thread is defined. *)
Lemma linv_go s l1 l2 l pc weak :
  linv all (s, l1 ++ pc :: l2) l -> exists s' pc' e, thread_go weak s pc = Ok (s', pc', e) /\
    exists l', linv all (s', l1 ++ pc' :: l2) l' /\
      match e with None => l' = l | Some ev => stack_step l ev l' end.
Proof.
  intros Hi. pose proof Hi as [L1 L2 L3 L4 L5 L6]. simpl in *.
  pose proof (Forall_elt _ _ _ L6) as Hok. destruct pc as [| |h|h new|d|d old|d old]; simpl in *.
  - eexists _, _, _. split; [done|]. by exists l.
  - destruct (l_head s) as [h|] eqn:Hh; eexists _, _, _; (split; [done|]); exists l.
    + split; [|done]. apply (linv_move _ _ _ _ _ _ Hi); [done|]. simpl.
      apply linked_head in L1 as (d & l' & n & -> & Hd & _). split; [done|]. exists d.
      destruct (linv_apart _ _ d Hi) as (A1 & _). simpl in A1. destruct A1 as [A1 _]; [set_solver|].
      split; [done|]. split; [|done]. apply (linv_in _ _ _ Hi). set_solver.
    + apply linked_None in L1 as ->. split; [|constructor]. by apply (linv_move _ _ _ _ _ _ Hi).
  - destruct Hok as (Hn & d & Hd & Hall & Hp). rewrite Hd. destruct (L4 d Hall) as (n & Hnx & Hnok).
    rewrite Hnx, pop_new_head_ok by done. eexists _, _, _. split; [done|]. exists l. split; [|done].
    apply (linv_move _ _ _ _ _ _ Hi); [done|]. split; [done|]. split; [done|]. by exists d.
  - destruct (negb weak && bool_decide (l_head s = Some h)) eqn:Ec.
    + apply andb_prop in Ec as [_ Ec%bool_decide_eq_true_1].
      destruct (linv_pop _ _ _ _ _ _ Hi Ec) as (d & l' & Hd & -> & Hi'). rewrite Hd.
      eexists _, _, _. split; [done|]. exists l'. split; [done|constructor].
    + eexists _, _, _. split; [done|]. exists l. split; [|done]. by apply (linv_move _ _ _ _ _ _ Hi).
  - eexists _, _, _. split; [done|]. exists l. split; [|done]. by apply (linv_move _ _ _ _ _ _ Hi).
  - eexists _, _, _. split; [done|]. exists l. split; [|done]. by apply linv_store.
  - destruct (negb weak && bool_decide (l_head s = old)) eqn:Ec.
    + apply andb_prop in Ec as [_ Ec%bool_decide_eq_true_1]. eexists _, _, _. split; [done|].
      exists (d :: l). split; [by apply linv_push|constructor].
    + eexists _, _, _. split; [done|]. exists l. split; [|done]. by apply (linv_move _ _ _ _ _ _ Hi).
Qed.

Lemma linv_step c e c' l :
  linv all c l -> lstep true c e c' ->
  exists l', linv all c' l' /\ match e with None => l' = l | Some ev => stack_step l ev l' end.
Proof.
  intros Hi Hs. destruct Hs as [s pcs t Ht|s pcs t d Ht Hd Hc|s pcs t pc weak s' pc' e Ht Hg].
  - destruct (pcs_middle _ _ _ PopLoad Ht) as (l1 & l2 & -> & ->). exists l. split; [|done].
    by apply (linv_move _ _ _ _ _ _ Hi).
  - destruct (pcs_middle _ _ _ (PushLoad d) Ht) as (l1 & l2 & -> & ->). exists l. split; [|done].
    apply linv_start_push; [done|done|by apply Hc].
  - destruct (pcs_middle _ _ _ pc' Ht) as (l1 & l2 & -> & ->).
    destruct (linv_go _ _ _ _ _ weak Hi) as (s1 & pc1 & e1 & Hg1 & H).
    rewrite Hg in Hg1. by injection Hg1 as <- <- <-.
Qed.
End Inv.

Lemma linv_start descs n :
  (forall d, d ∈ descs -> desc_aligned d) -> linv descs (l_start descs n) [].
Proof.
  intros Ha. assert (Hp : pushing (replicate n LIdle) = []) by (by induction n).
  split; simpl; try done.
  - by rewrite Hp.
  - intros d Hd. exists None. split; [|done]. by apply lookup_gset_to_gmap_Some.
  - apply Forall_forall. by intros pc ->%elem_of_replicate_inv.
Qed.

Lemma lreach_linv descs n tr c :
  (forall d, d ∈ descs -> desc_aligned d) -> lreach true (l_start descs n) tr c ->
  exists l, linv descs c l /\ stack_runs tr l.
Proof.
  intros Ha. induction 1 as [|tr c e c' _ (l & Hi & Hr) Hs].
  - exists []. split; [by apply linv_start|constructor].
  - destruct (linv_step _ _ _ _ Hi Hs) as (l' & Hi' & He). exists l'. split; [done|].
    destruct e as [ev|]; [by econstructor|]. subst. by rewrite app_nil_r.
Qed.

(** ** Schedules *)
Inductive LAct : Type := StartPop (t : nat) | StartPush (t : nat) (d : Z) | Go (t : nat) (weak : bool).

Definition lact (calm : bool) (c : PList * list LPc) (a : LAct) : option (option LEvent * (PList * list LPc)) :=
  let '(s, pcs) := c in
  match a with
  | StartPop t =>
      match pcs !! t with Some LIdle => Some (None, (s, <[t := PopLoad]> pcs)) | _ => None end
  | StartPush t d =>
      match pcs !! t with
      | Some LIdle =>
          if bool_decide (d ∈ s.(l_outside)) &&
             (negb calm || bool_decide (Forall (λ pc, ~ pop_in_flight d pc) pcs)) then
            Some (None, (mkPList s.(l_head) s.(l_next) (s.(l_outside) ∖ {[d]}), <[t := PushLoad d]> pcs))
          else None
      | _ => None
      end
  | Go t weak =>
      match pcs !! t with
      | Some pc => match thread_go weak s pc with
                   | Ok (s', pc', e) => Some (e, (s', <[t := pc']> pcs))
                   | Err _ => None
                   end
      | None => None
      end
  end.

Lemma lact_sound calm c a e c' : lact calm c a = Some (e, c') -> lstep calm c e c'.
Proof.
  destruct c as [s pcs], a as [t|t d|t weak]; simpl; destruct (pcs !! t) as [pc|] eqn:Ht; try done.
  - destruct pc; try done. intros [= <- <-]. by constructor.
  - destruct pc; try done. destruct (bool_decide _ && _) eqn:Eb; [|done]. intros [= <- <-].
    apply andb_prop in Eb as [Hd%bool_decide_eq_true_1 Hc]. constructor; try done.
    intros ->. by apply (bool_decide_eq_true_1 _).
  - destruct (thread_go weak s pc) as [[[s' pc'] e']|] eqn:Hg; [|done]. intros [= <- <-].
    by econstructor.
Qed.

Fixpoint lrun (calm : bool) (as' : list LAct) (c : PList * list LPc) (tr : list LEvent)
    : option (list LEvent * (PList * list LPc)) :=
  match as' with
  | [] => Some (tr, c)
  | a :: rest =>
      match lact calm c a with
      | Some (e, c') => lrun calm rest c' (tr ++ match e with Some ev => [ev] | None => [] end)
      | None => None
      end
  end.

Lemma lrun_sound calm start as' : forall c tr r,
  lreach calm start tr c -> lrun calm as' c tr = Some r -> lreach calm start r.1 r.2.
Proof.
  induction as' as [|a as' IH]; simpl; intros c tr r Hc Hr; [by injection Hr as <-|].
  destruct (lact calm c a) as [[e c']|] eqn:Ea; [|done]. eapply IH; [|exact Hr].
  econstructor; [done|exact (lact_sound _ _ _ _ _ Ea)].
Qed.

(** Thread [t] pushes [d], and pops, without interruption. *)
Definition push_whole (t : nat) (d : Z) : list LAct := StartPush t d :: replicate 3 (Go t false).
Definition pop_whole (t : nat) : list LAct := StartPop t :: replicate 3 (Go t false).

(** ** Results *)

(** C24: the lock-free list of partial superblocks is linearizable, as long as no
    descriptor is put back while a pop that has seen it at the head is in
    flight: for any number of threads and every interleaving of their atomic
    operations, spurious failures included, the completed operations are, in
    their order, operations of an atomic stack; no thread fails; and no
    descriptor is lost or handed out twice (each is on the list, on its way to
    it, or in use). *)
Theorem partial_list_linearizable descs n tr c :
  (forall d, d ∈ descs -> desc_aligned d) -> lreach true (l_start descs n) tr c ->
  exists l, stack_runs tr l /\ linked c.1.(l_next) c.1.(l_head) l /\
    l ++ pushing c.2 ++ elements c.1.(l_outside) ≡ₚ elements descs /\
    forall t pc weak, c.2 !! t = Some pc -> is_ok (thread_go weak c.1 pc) = true.
Proof.
  intros Ha Hr. destruct (lreach_linv _ _ _ _ Ha Hr) as (l & Hi & Hs). exists l.
  split; [done|]. split; [apply Hi|]. split; [apply Hi|]. intros t pc weak Ht.
  destruct c as [s pcs]. simpl in Ht. destruct (pcs_middle _ _ _ pc Ht) as (l1 & l2 & -> & _).
  destruct (linv_go _ _ _ _ _ weak Hi) as (s' & pc' & e & Hg & _). simpl. by rewrite Hg.
Qed.

(** C25: without that discipline the list is not a stack.  Pops restore the
    counter that the next node had when it was pushed, so the counter of a node
    is its depth, and a head that was popped and pushed again at the same depth
    looks unchanged (the ABA problem): here a pop that was suspended before its
    compare-and-exchange installs a descriptor that is in use, which is then
    handed out a second time, and the descriptor 192 is lost. *)
Theorem partial_list_aba :
  exists tr c, lreach false (l_start {[64; 128; 192]} 2) tr c /\
    tr = [Pushed 128; Pushed 64; Popped 64; Popped 128; Pushed 192; Pushed 64; Popped 64; Popped 128] /\
    c.1.(l_head) = None /\ c.1.(l_outside) = {[64; 128]}.
Proof.
  set (sched := push_whole 0 128 ++ push_whole 0 64 ++ [StartPop 1; Go 1 false; Go 1 false] ++
    pop_whole 0 ++ pop_whole 0 ++ push_whole 0 192 ++ push_whole 0 64 ++ [Go 1 false] ++ pop_whole 1).
  destruct (lrun false sched (l_start {[64; 128; 192]} 2) []) as [[tr c]|] eqn:Er;
    [|vm_compute in Er; discriminate].
  exists tr, c. split; [exact (lrun_sound false _ sched _ _ _ (lreach_start _ _) Er)|].
  vm_compute in Er. injection Er as <- <-. split; [done|]. split; [done|]. by vm_compute.
Qed.

(** Thread 0 is interrupted in a push by a push of thread 1 and has to retry; a
    pop of thread 1 fails spuriously once. *)
Definition calm_schedule : list LAct :=
  [StartPush 0 64; Go 0 false] ++ push_whole 1 128 ++
  [Go 0 false; Go 0 false; Go 0 false; Go 0 false; Go 0 false] ++
  [StartPop 1; Go 1 false; Go 1 false; Go 1 true] ++ replicate 3 (Go 1 false).

Lemma partial_list_linearizable_witness :
  exists tr c, lreach true (l_start {[64; 128]} 2) tr c /\
    tr = [Pushed 128; Pushed 64; Popped 64] /\ exists l, stack_runs tr l.
Proof.
  destruct (lrun true calm_schedule (l_start {[64; 128]} 2) []) as [[tr c]|] eqn:Er;
    [|vm_compute in Er; discriminate].
  pose proof (lrun_sound true _ calm_schedule _ _ _ (lreach_start _ _) Er) as Hr.
  exists tr, c. split; [exact Hr|]. split; [vm_compute in Er; by injection Er as <- <-|].
  destruct (partial_list_linearizable {[64; 128]} 2 tr c) as (l & Hs & _); [|exact Hr|by exists l].
  intros d Hd. assert (d = 64 \/ d = 128) as [-> | ->] by set_solver; (split; [done|]).
  - by exists 1.
  - by exists 2.
Defined.
