(* ===== verification/PageMap.v ===== *)
(** * Heaps and the page map

    Models [src/src/allocation_data/proc_heap.rs] (the 40 heaps, one per size
    class), [src/src/page_map.rs] ([PageInfo] and the table from page numbers
    to descriptors) and the functions of [src/src/alloc.rs] that register
    superblocks in it. *)
From S2P Require Import Prelude MemInfo SizeClasses Mem HashMap State Pages.

(** ** Heaps *)
Definition heap_new (node index : Z) : ProcHeap := mkHeap (Some node) index.
Definition heap_new_none (index : Z) : ProcHeap := mkHeap None index.
Definition heap_default : ProcHeap := mkHeap None 0.

Definition heap_table : list ProcHeap := heap_new_none <$> range 0 MAX_SZ_IDX.

(** [size_of::<ProcHeap>()]: the list and the index in a cache line *)
Definition PROC_HEAP_SIZE : Z := 64.

Section Heaps.
Context {KN : Kernel}.

(** [init_heaps] writes the table into an anonymous mapping; [Heaps] holds it. *)
Definition init_heaps : M State unit :=
  r ← with_os (map_segment (PROC_HEAP_SIZE * MAX_SZ_IDX) false);
  match r with
  | inl _ => modify (set_heaps (Some heap_table))
  | inr _ => fail (Panic "Should be able to get the map")
  end.

(** [get_heaps]: the first call creates them. *)
Definition get_heaps : M State (list ProcHeap) :=
  o ← gets st_heaps;
  match o with
  | Some hs => mret hs
  | None => init_heaps;; mret heap_table
  end.

(** [get_heaps().get_heap_at_mut(index)] *)
Definition get_heap_at (index : Z) : M State ProcHeap :=
  hs ← get_heaps;
  if 0 <=? index then unwrap (hs !! Z.to_nat index) "index out of bounds"
  else fail (Panic "index out of bounds").

Definition update_heap_at (index : Z) (f : ProcHeap -> ProcHeap) : M State unit :=
  hs ← get_heaps; modify (set_heaps (Some (alter f (Z.to_nat index) hs))).

(** [ProcHeap::get_size_class] *)
Definition heap_get_size_class (h : ProcHeap) : M State SizeClassData :=
  size_class h.(ph_size_class_index).
End Heaps.

(** ** [PageInfo], a pointer to a descriptor *)
Definition PM_NHS : Z := 14.
Definition PM_NLS : Z := LG_PAGE.
Definition PM_SB : Z := 64 - PM_NHS - PM_NLS.
Definition PM_KEY_SHIFT : Z := PM_NLS.
Definition PM_KEY_MASK : Z := Z.shiftl 1 PM_SB - 1.
Definition SC_MASK : Z := Z.shiftl 1 6 - 1.
Definition PAGE_INFO_SIZE : Z := 8.
Definition PM_SZ : Z := Z.shiftl 1 PM_SB * PAGE_INFO_SIZE.

Definition page_info_default : Z := 0.

(** [PageInfo::set_ptr]; [PageInfo::set] is the same code. *)
Definition page_info_set_ptr (desc sc_idx : Z) : Z :=
  if negb (Z.land desc SC_MASK =? 0) || (MAX_SZ_IDX <=? sc_idx) then 0
  else Z.lor desc sc_idx.

Definition page_info_get_desc (info : Z) : option Z :=
  if info =? 0 then None else Some info.

Definition page_info_size_class_index (info : Z) : M State (option Z) :=
  match page_info_get_desc info with
  | None => mret None
  | Some p =>
      d ← read_desc p;
      if d.(d_block_size) >? MAX_SZ then mret (Some 0)
      else i ← size_class_of d.(d_block_size); mret (Some i)
  end.

Section PageMap.
Context {KN : Kernel} {HZ : Hash Z}.

(** ** The page map *)
Definition page_map_init : M State unit :=
  r ← page_alloc_over_commit PM_SZ;
  match r with
  | inl _ => modify (set_page_map (Some ∅))
  | inr _ => fail (Panic "Error creating memory map")
  end.

Definition addr_to_key (ptr : Z) : Z := Z.land (Z.shiftr ptr PM_KEY_SHIFT) PM_KEY_MASK.

Definition get_page_info (ptr : Z) : M State Z :=
  o ← gets st_page_map;
  m ← unwrap o "index out of bounds";
  mret (default page_info_default (m !! addr_to_key ptr)).

Definition set_page_info (ptr info : Z) : M State unit :=
  o ← gets st_page_map;
  m ← unwrap o "index out of bounds";
  modify (set_page_map (Some (<[addr_to_key ptr := info]> m))).

Definition get_page_info_for_ptr (ptr : Z) : M State Z := get_page_info ptr.

(** ** Registration *)
Definition update_page_map (heap : option Z) (ptr : Z) (desc : option Z)
    (size_class_index : Z) : M State unit :=
  if ptr =? 0 then fail (Panic "Pointer should not be null")
  else
    let info := page_info_set_ptr (default 0 desc) size_class_index in
    match heap with
    | None => set_page_info ptr info
    | Some h =>
        ph ← get_heap_at h;
        c ← size_class ph.(ph_size_class_index);
        assertM (Z.land c.(sb_size) PAGE_MASK =? 0) "sb_size must be a multiple of a page";;
        forM (range 0 (c.(sb_size) / PAGE)) (λ index,
          set_page_info (ptr + u32 (index * PAGE)) info)
    end.

Definition register_desc (p : Z) : M State unit :=
  d ← read_desc p;
  seg ← unwrap d.(super_block) "called `Option::unwrap()` on a `None` value";
  update_page_map d.(proc_heap) seg.(seg_ptr) (Some p) 0.

Definition unregister_desc (heap : option Z) (seg : Segment) : M State unit :=
  update_page_map heap seg.(seg_ptr) None 0.
End PageMap.

(** ** Correctness of registration *)
Lemma addr_to_key_eq a : 0 <= a < ADDR_LIMIT -> addr_to_key a = a / PAGE.
Proof.
  change ADDR_LIMIT with (2 ^ 48). intros Ha. unfold addr_to_key.
  change PM_KEY_MASK with (2 ^ 38 - 1). change PM_KEY_SHIFT with 12.
  rewrite land_low, Z.shiftr_div_pow2 by lia. change PAGE with (2 ^ 12).
  apply Z.mod_small. split; [apply Z.div_pos; lia|].
  apply Z.div_lt_upper_bound; lia.
Qed.

Lemma page_info_set_ptr_desc p :
  0 < p -> (64 | p) -> page_info_set_ptr p 0 = p /\ page_info_get_desc p = Some p.
Proof.
  intros H0 Hd. unfold page_info_set_ptr, page_info_get_desc.
  change SC_MASK with (2 ^ 6 - 1). rewrite land_low by lia. change (2 ^ 6) with 64.
  apply Z.mod_divide in Hd; [|lia]. rewrite Hd. simpl. rewrite Z.lor_0_r.
  by destruct (Z.eqb_spec p 0); [lia|].
Qed.

(** [m'] is [m] with the entries of the [n] pages from [ptr] set to [info]. *)
Definition pages_set (m m' : gmap Z Z) (ptr n info : Z) : Prop :=
  forall k, m' !! k = if decide (ptr / PAGE <= k < ptr / PAGE + n) then Some info else m !! k.

Lemma set_page_info_ok s m ptr info :
  s.(st_page_map) = Some m -> 0 <= ptr < ADDR_LIMIT ->
  exists m', set_page_info ptr info s = Ok (tt, set_page_map (Some m') s) /\
    pages_set m m' ptr 1 info.
Proof.
  intros Hm Hp. exists (<[ptr / PAGE := info]> m). unfold set_page_info.
  rewrite bind_gets, Hm. unfold unwrap. rewrite bind_mret.
  rewrite addr_to_key_eq by done. split; [done|]. intros k.
  destruct (decide (k = ptr / PAGE)) as [->|Hne].
  - rewrite lookup_insert_eq. by rewrite decide_True by lia.
  - rewrite lookup_insert_ne by done. by rewrite decide_False by lia.
Qed.

Lemma set_pages_ok n : forall lo m s ptr info,
  s.(st_page_map) = Some m -> (PAGE | ptr) -> 0 <= lo -> 0 <= ptr ->
  ptr + (lo + Z.of_nat n) * PAGE <= ADDR_LIMIT -> (lo + Z.of_nat n) * PAGE < 2 ^ 32 ->
  exists m', forM (range lo (lo + Z.of_nat n)) (λ index,
      set_page_info (ptr + u32 (index * PAGE)) info) s =
    Ok (tt, set_page_map (Some m') s) /\
    pages_set m m' (ptr + lo * PAGE) (Z.of_nat n) info.
Proof.
  induction n as [|n IH]; intros lo m s ptr info Hm Hd Hlo Hp Hlim H32.
  - rewrite range_nil by lia. exists m. split; [simpl; by destruct s; simpl in *; subst|].
    intros k. by rewrite decide_False by lia.
  - rewrite range_cons by lia. change PAGE with 4096 in *. change ADDR_LIMIT with (2 ^ 48) in *.
    cbn [forM]. rewrite u32_small by lia.
    destruct (set_page_info_ok s m (ptr + lo * 4096) info Hm) as (m1 & E & Hm1).
    { change ADDR_LIMIT with (2 ^ 48). lia. }
    rewrite (bind_Ok _ _ _ _ _ E).
    replace (lo + Z.of_nat (S n)) with ((lo + 1) + Z.of_nat n) by lia.
    destruct (IH (lo + 1) m1 (set_page_map (Some m1) s) ptr info) as (m' & -> & Hm'); try done; try lia.
    exists m'. split; [done|]. intros k. rewrite Hm', Hm1. change PAGE with 4096.
    destruct Hd as [q ->].
    replace ((q * 4096 + (lo + 1) * 4096) / 4096) with (q + lo + 1)
      by (replace (q * 4096 + (lo + 1) * 4096) with ((q + lo + 1) * 4096) by lia; by rewrite Z.div_mul).
    replace ((q * 4096 + lo * 4096) / 4096) with (q + lo)
      by (replace (q * 4096 + lo * 4096) with ((q + lo) * 4096) by lia; by rewrite Z.div_mul).
    repeat case_decide; try done; lia.
Qed.

(** The state has the 40 heaps, all with an empty partial list. *)
Definition heaps_empty (s : State) : Prop := s.(st_heaps) = Some heap_table.

Lemma heap_table_lookup i :
  0 <= i < MAX_SZ_IDX -> heap_table !! Z.to_nat i = Some (mkHeap None i).
Proof.
  intros Hi. unfold heap_table, range. rewrite list_lookup_fmap, lookup_seqZ_lt by lia.
  simpl. unfold heap_new_none. f_equal. f_equal. lia.
Qed.

Lemma get_heap_at_ok {KN : Kernel} s i :
  heaps_empty s -> 0 <= i < MAX_SZ_IDX -> get_heap_at i s = Ok (mkHeap None i, s).
Proof.
  intros Hh Hi. unfold get_heap_at.
  assert (E : get_heaps s = Ok (heap_table, s)) by (unfold get_heaps; by rewrite bind_gets, Hh).
  rewrite (bind_Ok _ _ _ _ _ E). rewrite (proj2 (Z.leb_le 0 i)) by lia.
  by rewrite heap_table_lookup.
Qed.

(** Registering a superblock sets the entry of each of its pages. *)
Lemma update_page_map_heap {KN : Kernel} s m h c ptr desc :
  heaps_empty s -> s.(st_page_map) = Some m -> 0 <= h < MAX_SZ_IDX ->
  size_class_at s.(st_sizes) h = Ok c -> (PAGE | c.(sb_size)) -> 0 <= c.(sb_size) < 2 ^ 32 ->
  0 < ptr -> (PAGE | ptr) -> ptr + c.(sb_size) <= ADDR_LIMIT ->
  exists m', update_page_map (Some h) ptr desc 0 s = Ok (tt, set_page_map (Some m') s) /\
    pages_set m m' ptr (c.(sb_size) / PAGE) (page_info_set_ptr (default 0 desc) 0).
Proof.
  intros Hh Hm Hi Hc [q Hq] Hsb Hp Hd Hlim. unfold update_page_map.
  destruct (Z.eqb_spec ptr 0); [lia|].
  rewrite (bind_Ok _ _ _ _ _ (get_heap_at_ok s h Hh Hi)).
  assert (Ec : size_class h s = Ok (c, s)) by (unfold size_class; by rewrite Hc).
  cbn [ph_size_class_index]. rewrite (bind_Ok _ _ _ _ _ Ec).
  change PAGE with 4096 in *. rewrite Hq in *. rewrite Z.div_mul by lia.
  assert (Z.land (q * 4096) PAGE_MASK = 0) as ->.
  { change PAGE_MASK with (2 ^ 12 - 1). rewrite land_low by lia. apply Z.mod_mul. lia. }
  destruct (set_pages_ok (Z.to_nat q) 0 m s ptr (page_info_set_ptr (default 0 desc) 0)) as (m' & E & Hm');
    try done; try (change PAGE with 4096; lia).
  exists m'. rewrite Z.add_0_l, Z2Nat.id in E by lia. simpl. split; [exact E|].
  replace (ptr + 0 * PAGE) with ptr in Hm' by lia. by rewrite Z2Nat.id in Hm' by lia.
Qed.

(** It never fails, wherever the superblock is. *)
Lemma set_pages_total l : forall s ptr info,
  is_Some s.(st_page_map) ->
  exists m', forM l (λ index, set_page_info (ptr + u32 (index * PAGE)) info) s =
    Ok (tt, set_page_map (Some m') s).
Proof.
  induction l as [|i l IH]; intros s ptr info [m Hm]; cbn [forM].
  { exists m. destruct s. simpl in Hm. by subst. }
  assert (E : exists m1, set_page_info (ptr + u32 (i * PAGE)) info s =
    Ok (tt, set_page_map (Some m1) s)).
  { unfold set_page_info. rewrite bind_gets, Hm. by eexists. }
  destruct E as (m1 & E). rewrite (bind_Ok _ _ _ _ _ E).
  destruct (IH (set_page_map (Some m1) s) ptr info) as (m' & ->); [by eexists|]. by exists m'.
Qed.

Lemma update_page_map_total {KN : Kernel} s m h c ptr desc :
  heaps_empty s -> s.(st_page_map) = Some m -> 0 <= h < MAX_SZ_IDX ->
  size_class_at s.(st_sizes) h = Ok c -> (PAGE | c.(sb_size)) -> 0 <= c.(sb_size) < 2 ^ 32 ->
  0 < ptr -> (PAGE | ptr) ->
  exists m', update_page_map (Some h) ptr desc 0 s = Ok (tt, set_page_map (Some m') s) /\
    (ptr + c.(sb_size) <= ADDR_LIMIT ->
     pages_set m m' ptr (c.(sb_size) / PAGE) (page_info_set_ptr (default 0 desc) 0)).
Proof.
  intros Hh Hm Hi Hc Hsb Hr Hp Hd.
  assert (E : exists m', update_page_map (Some h) ptr desc 0 s = Ok (tt, set_page_map (Some m') s)).
  { unfold update_page_map. destruct (Z.eqb_spec ptr 0); [lia|].
    rewrite (bind_Ok _ _ _ _ _ (get_heap_at_ok s h Hh Hi)).
    assert (Ec : size_class h s = Ok (c, s)) by (unfold size_class; by rewrite Hc).
    cbn [ph_size_class_index]. rewrite (bind_Ok _ _ _ _ _ Ec).
    assert (Z.land (sb_size c) PAGE_MASK = 0) as ->.
    { change PAGE_MASK with (2 ^ 12 - 1). rewrite land_low by lia. by apply Z.mod_divide. }
    apply set_pages_total. by eexists. }
  destruct E as (m' & E). exists m'. split; [done|]. intros Hlim.
  destruct (update_page_map_heap s m h c ptr desc) as (m2 & E2 & Hs); try done.
  rewrite E in E2. by injection E2 as ->.
Qed.

Lemma update_page_map_none {KN : Kernel} s m ptr desc :
  s.(st_page_map) = Some m -> 0 < ptr < ADDR_LIMIT ->
  exists m', update_page_map None ptr desc 0 s = Ok (tt, set_page_map (Some m') s) /\
    pages_set m m' ptr 1 (page_info_set_ptr (default 0 desc) 0).
Proof.
  intros Hm Hp. unfold update_page_map. destruct (Z.eqb_spec ptr 0); [lia|].
  apply set_page_info_ok; [done|lia].
Qed.

Lemma get_page_info_ok s m ptr :
  s.(st_page_map) = Some m -> 0 <= ptr < ADDR_LIMIT ->
  get_page_info_for_ptr ptr s = Ok (default 0 (m !! (ptr / PAGE)), s).
Proof.
  intros Hm Hp. unfold get_page_info_for_ptr, get_page_info.
  rewrite bind_gets, Hm. unfold unwrap. rewrite bind_mret.
  by rewrite addr_to_key_eq.
Qed.

(** ** Properties *)

(** C17: after a superblock is registered for its class, every address in it
    leads to its descriptor, and every address in another page leads where it led
    before. *)
Theorem registered_superblock_is_found {KN : Kernel} s m h c ptr d :
  heaps_empty s -> s.(st_page_map) = Some m -> 0 <= h < MAX_SZ_IDX ->
  size_class_at s.(st_sizes) h = Ok c -> (PAGE | c.(sb_size)) -> 0 <= c.(sb_size) < 2 ^ 32 ->
  0 < ptr -> (PAGE | ptr) -> ptr + c.(sb_size) <= ADDR_LIMIT -> 0 < d -> (64 | d) ->
  exists s', update_page_map (Some h) ptr (Some d) 0 s = Ok (tt, s') /\
    (forall a, ptr <= a < ptr + c.(sb_size) ->
       exists info, get_page_info_for_ptr a s' = Ok (info, s') /\ page_info_get_desc info = Some d) /\
    (forall a, 0 <= a < ADDR_LIMIT -> ~ (ptr <= a < ptr + c.(sb_size)) ->
       forall info, get_page_info_for_ptr a s = Ok (info, s) ->
         get_page_info_for_ptr a s' = Ok (info, s')).
Proof.
  intros Hh Hm Hidx Hc Hsb Hr Hp Hd Hlim H0 H64.
  destruct (update_page_map_heap s m h c ptr (Some d) Hh Hm Hidx Hc Hsb Hr Hp Hd Hlim) as (m' & E & Hset).
  exists (set_page_map (Some m') s). split; [done|].
  destruct (page_info_set_ptr_desc d H0 H64) as [Ei Eg]. simpl in Hset. rewrite Ei in Hset.
  destruct Hd as [q ->], Hsb as [z Hz]. change PAGE with 4096 in *.
  rewrite Hz, !Z.div_mul in Hset by lia. split.
  - intros a Ha. exists d. split; [|done].
    rewrite (get_page_info_ok _ m') by (done || lia). rewrite Hset.
    rewrite decide_True; [done|]. change PAGE with 4096. Z.to_euclidean_division_equations; lia.
  - intros a Ha Hout info Hinfo.
    rewrite (get_page_info_ok _ m) in Hinfo by (done || lia). injection Hinfo as <-.
    rewrite (get_page_info_ok _ m') by (done || lia). rewrite Hset.
    rewrite decide_False; [done|]. change PAGE with 4096. Z.to_euclidean_division_equations; lia.
Qed.

Lemma registered_superblock_is_found_witness :
  exists s s' d, update_page_map (KN := kernel_up) (Some 1) 8192 (Some 4096) 0 s = Ok (tt, s') /\
    get_page_info_for_ptr 8200 s' = Ok (d, s') /\ page_info_get_desc d = Some 4096.
Proof.
  destruct (init_size_class_ok 2) as (st & l & Hi & _); [unfold TARGET_APF_BOUND; lia|].
  assert (SI : SizeInit 2 st) by (split; [unfold TARGET_APF_BOUND; lia|exact Hi]). clear Hi.
  destruct (si_class (st := st) 1) as (c & Hc & Hok & Hb); [unfold MAX_SZ_IDX; lia|].
  assert (Hbs : block_size c = 8) by (vm_compute in Hb; by injection Hb).
  set (s := mkState os_init st None ∅ 0 (Some ∅) (Some heap_table)).
  destruct Hok as [K1 K2 K3 K4 K5 _].
  destruct (registered_superblock_is_found (KN := kernel_up) s ∅ 1 c 8192 4096)
    as (s' & E & Hin & _).
  - reflexivity.
  - reflexivity.
  - unfold MAX_SZ_IDX. lia.
  - exact Hc.
  - exact K2.
  - lia.
  - lia.
  - by exists 2.
  - change ADDR_LIMIT with (2 ^ 48). lia.
  - lia.
  - by exists 64.
  - assert (Hpage : 4096 <= sb_size c) by (destruct K2 as [q Hq]; change PAGE with 4096 in Hq; lia).
    destruct (Hin 8200) as (info & Hg & Hd); [lia|]. exists s, s', info.
    split; [exact E|]. split; [exact Hg|exact Hd].
Defined.
