(* ===== verification/Windows.v ===== *)
(** * The windows variant

    Models the code behind [cfg(windows)]: the implementation of [SegAllocator]
    over the process heap and [VirtualAlloc]
    ([src/src/pages/external_mem_reservation.rs]), the page functions above it
    ([src/src/pages.rs]) and the page map whose pages are committed on demand
    ([src/src/page_map.rs]).  The functions of the Win32 API are operations of
    the class [Win32], with what their documentation says of them as laws. *)
From S2P Require Import Prelude MemInfo Mem HashMap SizeClasses State Pages PageMap.

(** ** The process

    [win_blocks] are the live blocks of the process heap, [win_regions] the
    regions reserved with [VirtualAlloc], [committed] the numbers of the pages
    that are committed in them; [seg_lock] is the static [LOCK]. *)
Record Win : Type := mkWin {
  win_mem : gmap Z Z;
  win_blocks : list Segment;
  win_regions : list Segment;
  committed : gset Z;
  win_calls : nat;
  seg_lock : bool;
}.

Definition win_init : Win := mkWin ∅ [] [] ∅ 0 false.

Definition win_tick (w : Win) : Win :=
  mkWin w.(win_mem) w.(win_blocks) w.(win_regions) w.(committed) (S w.(win_calls)) w.(seg_lock).
Definition set_seg_lock (b : bool) (w : Win) : Win :=
  mkWin w.(win_mem) w.(win_blocks) w.(win_regions) w.(committed) w.(win_calls) b.
Definition set_win_mem (m : gmap Z Z) (w : Win) : Win :=
  mkWin m w.(win_blocks) w.(win_regions) w.(committed) w.(win_calls) w.(seg_lock).

(** The pages of a segment. *)
Definition pages_of (s : Segment) : gset Z :=
  list_to_set (range (s.(seg_ptr) / PAGE) (s.(seg_ptr) / PAGE + page_span s.(seg_len) / PAGE)).

Definition in_region (w : Win) (page : Z) : Prop :=
  exists r, r ∈ w.(win_regions) /\ r.(seg_ptr) <= page /\ page + PAGE <= r.(seg_ptr) + page_span r.(seg_len).

Definition MEM_COMMIT : Z := 4096.

(** ** The Win32 API

    Each call carries its number, as in [Kernel].  A result of 0 is [NULL] or
    [FALSE]; [VirtualQuery] gives the field [State] that it fills in, or [None]
    when it returns 0. *)
Class Win32 : Type := {
  GetProcessHeap : nat -> Z;
  HeapAlloc : nat -> Win -> Z -> Z;
  HeapFree : nat -> Win -> Z -> bool;
  HeapSummary : nat -> bool;
  VirtualReserve : nat -> Win -> Z -> Z;
  VirtualCommit : nat -> Win -> Z -> Z;
  VirtualQuery : nat -> Win -> Z -> option Z;
  VirtualFree : nat -> Win -> Z -> Z -> bool;
  win_errno : nat -> Z;
  GetProcessHeap_spec n m : GetProcessHeap n <> 0 -> GetProcessHeap m <> 0 -> GetProcessHeap n = GetProcessHeap m;
  HeapAlloc_spec n w size :
    let p := HeapAlloc n w size in
    p <> 0 -> (16 | p) /\ 0 < p /\ p + size <= ADDR_LIMIT /\
    Forall (λ b, disjoint_ranges p size b.(seg_ptr) b.(seg_len)) w.(win_blocks) /\
    Forall (λ r, disjoint_ranges p size r.(seg_ptr) (page_span r.(seg_len))) w.(win_regions);
  HeapFree_spec n w b : b ∈ w.(win_blocks) -> HeapFree n w b.(seg_ptr) = true;
  VirtualReserve_spec n w size :
    let p := VirtualReserve n w size in
    p <> 0 -> 0 < size /\ (65536 | p) /\ 0 < p /\ p + page_span size <= ADDR_LIMIT /\
    Forall (λ b, disjoint_ranges p (page_span size) b.(seg_ptr) b.(seg_len)) w.(win_blocks) /\
    Forall (λ r, disjoint_ranges p (page_span size) r.(seg_ptr) (page_span r.(seg_len))) w.(win_regions) /\
    Forall (λ k, ~ (p / PAGE <= k < p / PAGE + page_span size / PAGE)) (elements w.(committed));
  VirtualCommit_spec n w page : VirtualCommit n w page <> 0 -> VirtualCommit n w page = page /\ in_region w page;
  VirtualQuery_spec n w page :
    in_region w page -> exists st, VirtualQuery n w page = Some st /\
      (Z.lor st MEM_COMMIT = st <-> page / PAGE ∈ w.(committed));
  VirtualFree_size n w base size : size <> 0 -> VirtualFree n w base size = false;
  VirtualFree_base n w r : r ∈ w.(win_regions) -> VirtualFree n w r.(seg_ptr) 0 = true;
}.

(** A segment remembers the handle of the heap that it came from. *)
Record WinSegment : Type := mkWinSegment { ws_ptr : Z; ws_heap : Z; ws_len : Z }.

Inductive WinError : Type :=
  | NoHeap
  | HeapNotCreated (n : Z)
  | WinAllocationFailed (size err : Z).

(** ** [SegAllocator for SegmentAllocator] (windows) *)
Section WinSegAllocator.
Context {W32 : Win32} (debug_assertions : bool).

Definition get_process_heap : M Win Z := λ w, Ok (GetProcessHeap w.(win_calls), win_tick w).

(** [HeapAlloc(heap, HEAP_ZERO_MEMORY, size)] *)
Definition heap_alloc (size : Z) : M Win Z := λ w,
  let p := HeapAlloc w.(win_calls) w size in
  if p =? 0 then Ok (0, win_tick w)
  else Ok (p, mkWin (zero_range w.(win_mem) p size) (mkSegment p size :: w.(win_blocks))
                    w.(win_regions) w.(committed) (S w.(win_calls)) w.(seg_lock)).

Definition heap_summary : M Win bool := λ w, Ok (HeapSummary w.(win_calls), win_tick w).

(** [HeapFree(heap, 0, ptr)] *)
Definition heap_free (ptr : Z) : M Win bool := λ w,
  let r := HeapFree w.(win_calls) w ptr in
  let bs := if r then filter (λ b, b.(seg_ptr) <> ptr) w.(win_blocks) else w.(win_blocks) in
  Ok (r, mkWin w.(win_mem) bs w.(win_regions) w.(committed) (S w.(win_calls)) w.(seg_lock)).

(** [VirtualAlloc(null_mut(), size, MEM_RESERVE, PAGE_READWRITE)] *)
Definition virtual_reserve (size : Z) : M Win Z := λ w,
  let p := VirtualReserve w.(win_calls) w size in
  if p =? 0 then Ok (0, win_tick w)
  else Ok (p, mkWin w.(win_mem) w.(win_blocks) (mkSegment p size :: w.(win_regions))
                    w.(committed) (S w.(win_calls)) w.(seg_lock)).

(** [VirtualFree(base, size, MEM_RELEASE)] *)
Definition virtual_free (base size : Z) : M Win bool := λ w,
  let r := VirtualFree w.(win_calls) w base size in
  if r then
    let rs := filter (λ t, t.(seg_ptr) = base) w.(win_regions) in
    Ok (true, mkWin w.(win_mem) w.(win_blocks) (filter (λ t, t.(seg_ptr) <> base) w.(win_regions))
                (w.(committed) ∖ ⋃ (pages_of <$> rs)) (S w.(win_calls)) w.(seg_lock))
  else Ok (false, win_tick w).

(** [while LOCK.compare_and_swap(false, true, Ordering::Acquire) {}] *)
Fixpoint spin_lock (fuel : nat) : M Win unit :=
  match fuel with
  | O => fail OutOfFuel
  | S fuel' => λ w, if w.(seg_lock) then spin_lock fuel' w else Ok (tt, set_seg_lock true w)
  end.

Definition win_allocate (fuel : nat) (size : Z) : M Win (WinSegment + WinError) :=
  spin_lock fuel;;
  heap ← get_process_heap;
  if heap =? 0 then mret (inr NoHeap)
  else
    alloc ← heap_alloc size;
    modify (set_seg_lock false);;
    (if debug_assertions && negb (alloc =? 0) then
       ok ← heap_summary;
       if (ok : bool) then mret tt else fail (Panic "Unable to get the heap summary")
     else mret tt);;
    if alloc =? 0 then w ← get; mret (inr (WinAllocationFailed size (win_errno w.(win_calls))))
    else mret (inl (mkWinSegment alloc heap size)).

Definition win_allocate_massive (size : Z) : M Win (WinSegment + WinError) :=
  alloc ← virtual_reserve size;
  if alloc =? 0 then w ← get; mret (inr (WinAllocationFailed size (win_errno w.(win_calls))))
  else mret (inl (mkWinSegment alloc alloc size)).

Definition win_deallocate (segment : WinSegment) : M Win bool :=
  process_heap ← get_process_heap;
  if negb (segment.(ws_heap) =? process_heap) then virtual_free segment.(ws_heap) segment.(ws_len)
  else heap_free segment.(ws_ptr).
End WinSegAllocator.

(** ** Pages and the page map

    The map is its location, [mem_location]; its entries are in memory. *)
Record WinState : Type := mkWinState {
  wn_os : Win;
  wn_size_map : option (HashMap Z Z);
  wn_page_map : option Z;
}.

Definition set_wn_os (o : Win) (s : WinState) : WinState := mkWinState o s.(wn_size_map) s.(wn_page_map).
Definition set_wn_size_map (m : option (HashMap Z Z)) (s : WinState) : WinState :=
  mkWinState s.(wn_os) m s.(wn_page_map).
Definition set_wn_page_map (p : option Z) (s : WinState) : WinState :=
  mkWinState s.(wn_os) s.(wn_size_map) p.

Definition with_win {A} (c : M Win A) : M WinState A := zoom wn_os set_wn_os c.

(** The [n] bytes from [a] can be accessed: they are in a block of the heap, or
    in committed pages. *)
Definition accessible (w : Win) (a n : Z) : bool :=
  existsb (λ b, (b.(seg_ptr) <=? a) && (a + n <=? b.(seg_ptr) + b.(seg_len))) w.(win_blocks) ||
  (bool_decide (a / PAGE ∈ w.(committed)) && bool_decide ((a + n - 1) / PAGE ∈ w.(committed))).

Definition win_read_ptr (p : Z) : M Win Z := λ w,
  if accessible w p 8 then Ok (load 8 w.(win_mem) p, w) else Err (Fault p).

Definition win_write_ptr (p v : Z) : M Win unit := λ w,
  if accessible w p 8 then Ok (tt, set_win_mem (store 8 w.(win_mem) p v) w) else Err (Fault p).

Section WinPages.
Context {W32 : Win32} {HZ : Hash Z} (debug_assertions : bool).

Definition win_holder_map : M WinState (HashMap Z Z) := λ s,
  match s.(wn_size_map) with
  | Some m => Ok (m, s)
  | None => match hm_new with
            | Ok m => Ok (m, set_wn_size_map (Some m) s)
            | Err e => Err e
            end
  end.

Definition win_page_alloc_with (alloc : Z -> M Win (WinSegment + WinError)) (size : Z)
  : M WinState (Z + WinError) :=
  if negb (Z.land size PAGE_MASK =? 0) then
    λ s, Ok (inr (WinAllocationFailed size (win_errno s.(wn_os).(win_calls))), s)
  else
    _ ← win_holder_map;
    r ← with_win (alloc size);
    match r with
    | inr e => mret (inr e)
    | inl segment =>
        m ← win_holder_map;
        '(_, m') ← lift (insert m segment.(ws_ptr) size);
        modify (set_wn_size_map (Some m'));;
        mret (inl segment.(ws_ptr))
    end.

Definition win_page_alloc (fuel : nat) (size : Z) : M WinState (Z + WinError) :=
  win_page_alloc_with (win_allocate debug_assertions fuel) size.

Definition win_page_alloc_over_commit (size : Z) : M WinState (Z + WinError) :=
  win_page_alloc_with win_allocate_massive size.

(** The segment to free is rebuilt with the handle of the process heap. *)
Definition win_page_free (ptr : Z) : M WinState bool :=
  o ← gets wn_size_map;
  m ← unwrap o "called `Option::unwrap()` on a `None` value";
  present ← lift (contains m ptr);
  if (present : bool) then
    size ← lift (hm_index m ptr);
    process_heap ← with_win get_process_heap;
    ret ← with_win (win_deallocate (mkWinSegment ptr process_heap size));
    '(_, m') ← lift (remove m ptr);
    modify (set_wn_size_map (Some m'));;
    mret ret
  else mret false.

Definition win_page_map_init : M WinState unit :=
  r ← win_page_alloc_over_commit PM_SZ;
  match r with
  | inl map => modify (set_wn_page_map (Some map))
  | inr _ => fail (Panic "Error creating memory map")
  end.

(** [VirtualQuery], and the commit of a page that is not committed. *)
Definition commit_at (page : Z) : M Win Z := λ w,
  match VirtualQuery w.(win_calls) w page with
  | None => Err (Panic "Failed to query the virtual address")
  | Some st =>
      let w1 := win_tick w in
      if Z.lor st MEM_COMMIT =? st then Ok (page, w1)
      else
        let alloc := VirtualCommit w1.(win_calls) w1 page in
        if alloc =? 0 then Err (Panic "Couldn't commit page")
        else
          let m := if bool_decide (page / PAGE ∈ w1.(committed)) then w1.(win_mem)
                   else zero_range w1.(win_mem) (page_floor page) PAGE in
          Ok (alloc, mkWin m w1.(win_blocks) w1.(win_regions) ({[page / PAGE]} ∪ w1.(committed))
                       (S w1.(win_calls)) w1.(seg_lock))
  end.

Definition get_page (start_location key : Z) : Z := usize (start_location + key * PAGE).

Definition commit_page (start_location key : Z) : M Win Z := commit_at (get_page start_location key).

Definition commit_page_of_ptr (ptr : Z) : M Win Z :=
  commit_at (usize (Z.shiftl (addr_to_key ptr) PM_KEY_SHIFT)).

(** [&self.page_map[key]] *)
Definition entry_addr (base key : Z) : Z := base + key * PAGE_INFO_SIZE.

Definition win_get_page_info (ptr : Z) : M WinState Z :=
  o ← gets wn_page_map;
  base ← unwrap o "index out of bounds";
  let entry := entry_addr base (addr_to_key ptr) in
  _ ← with_win (commit_page_of_ptr entry);
  with_win (win_read_ptr entry).

Definition win_set_page_info (ptr info : Z) : M WinState unit :=
  o ← gets wn_page_map;
  base ← unwrap o "index out of bounds";
  let entry := entry_addr base (addr_to_key ptr) in
  _ ← with_win (commit_page_of_ptr entry);
  with_win (win_write_ptr entry info).
End WinPages.

(** ** Lemmas on the page map *)
Lemma addr_to_key_range p : 0 <= addr_to_key p < 2 ^ 38.
Proof.
  unfold addr_to_key. change PM_KEY_MASK with (2 ^ 38 - 1). rewrite land_low by lia.
  apply Z.mod_pos_bound. lia.
Qed.

(** The map at [base] holds [m]: an entry of a committed page is in memory, an
    entry of another page is null. *)
Record map_holds (s : WinState) (base : Z) (m : gmap Z Z) : Prop := {
  mh_loc : s.(wn_page_map) = Some base;
  mh_region : mkSegment base PM_SZ ∈ s.(wn_os).(win_regions);
  mh_base : exists q, base = q * 65536 /\ 0 < base /\ base + PM_SZ <= ADDR_LIMIT;
  mh_entries : forall k, 0 <= k < 2 ^ 38 -> default 0 (m !! k) =
    if decide (entry_addr base k / PAGE ∈ s.(wn_os).(committed))
    then load 8 s.(wn_os).(win_mem) (entry_addr base k) else 0;
}.

(** The page of an entry. *)
Record entry_page (base k page : Z) : Prop := {
  ep_key : usize (Z.shiftl (addr_to_key (entry_addr base k)) PM_KEY_SHIFT) = page;
  ep_num : entry_addr base k / PAGE = page / PAGE;
  ep_floor : page_floor page = page;
  ep_span : page <= entry_addr base k /\ entry_addr base k + 8 <= page + PAGE;
  ep_region : base <= page /\ page + PAGE <= base + PM_SZ;
}.

Lemma entry_page_of base k q :
  base = q * 65536 -> 0 < base -> base + PM_SZ <= ADDR_LIMIT -> 0 <= k < 2 ^ 38 ->
  entry_page base k ((16 * q + k / 512) * PAGE).
Proof.
  change ADDR_LIMIT with (2 ^ 48). change PM_SZ with (2 ^ 41). intros -> H0 Hlim Hk.
  assert (He : entry_addr (q * 65536) k = (16 * q + k / 512) * 4096 + 8 * (k mod 512)).
  { unfold entry_addr. change PAGE_INFO_SIZE with 8. pose proof (Z.div_mod k 512). lia. }
  pose proof (Z.mod_pos_bound k 512 ltac:(lia)) as Hm.
  assert (Hd : 0 <= k / 512 < 2 ^ 29).
  { split; [apply Z.div_pos; lia|]. apply Z.div_lt_upper_bound; lia. }
  assert (Hdiv : entry_addr (q * 65536) k / 4096 = 16 * q + k / 512).
  { rewrite He, Z.div_add_l by lia. rewrite (Z.div_small (8 * _)) by lia. lia. }
  assert (Hpd : (16 * q + k / 512) * 4096 / 4096 = 16 * q + k / 512) by (apply Z.div_mul; lia).
  split; change PAGE with 4096 in *; change PM_SZ with (2 ^ 41).
  - rewrite addr_to_key_eq by (change ADDR_LIMIT with (2 ^ 48); rewrite He; lia).
    change PAGE with 4096. rewrite Hdiv, Z.shiftl_mul_pow2 by (vm_compute; discriminate).
    change (2 ^ PM_KEY_SHIFT) with 4096. apply usize_small. lia.
  - by rewrite Hdiv, Hpd.
  - unfold page_floor. change PAGE with 4096. by rewrite Hpd.
  - rewrite He. lia.
  - lia.
Qed.

Lemma entry_page_apart base k page k' page' :
  entry_page base k page -> entry_page base k' page' -> page / PAGE <> page' / PAGE ->
  disjoint_ranges page PAGE (entry_addr base k') 8.
Proof.
  intros [_ _ F _ _] [_ _ F' [S1 S2] _] Hne. unfold page_floor, disjoint_ranges in *.
  change PAGE with 4096 in *.
  destruct (Z.lt_total (page / 4096) (page' / 4096)) as [|[|]]; lia.
Qed.

Lemma with_win_Ok {A} (c : M Win A) s a w :
  c s.(wn_os) = Ok (a, w) -> with_win c s = Ok (a, set_wn_os w s).
Proof. apply zoom_Ok. Qed.

Lemma with_win_Err {A} (c : M Win A) s e : c s.(wn_os) = Err e -> with_win c s = Err e.
Proof. apply zoom_Err. Qed.

Section WinPageMap.
Context {W32 : Win32} {HZ : Hash Z}.

(** The commit of the page of an entry keeps the map, and makes the entry
    accessible; it fails only when the system refuses to commit. *)
Definition commit_refused (w : Win) : Prop :=
  exists page, VirtualCommit (S w.(win_calls)) (win_tick w) page = 0.

Lemma commit_entry s base m k :
  map_holds s base m -> 0 <= k < 2 ^ 38 ->
  (exists page w', commit_page_of_ptr (entry_addr base k) s.(wn_os) = Ok (page, w') /\
     map_holds (set_wn_os w' s) base m /\ accessible w' (entry_addr base k) 8 = true /\
     entry_addr base k / PAGE ∈ w'.(committed)) \/
  (commit_page_of_ptr (entry_addr base k) s.(wn_os) = Err (Panic "Couldn't commit page") /\
   commit_refused s.(wn_os)).
Proof.
  intros [Hl Hr (q & Hq & H0 & Hlim) He] Hk.
  pose proof (entry_page_of base k q Hq H0 Hlim Hk) as Hp. set (page := (16 * q + k / 512) * PAGE) in *.
  destruct s as [w sm pm]. simpl in *.
  assert (Hin : in_region w page).
  { exists (mkSegment base PM_SZ). split; [done|]. destruct Hp. simpl.
    pose proof (page_span_ge PM_SZ). lia. }
  assert (Hacc : forall w', entry_addr base k / PAGE ∈ w'.(committed) ->
    accessible w' (entry_addr base k) 8 = true).
  { intros w' Hc. unfold accessible. apply orb_true_iff. right. apply andb_true_iff.
    split; apply bool_decide_eq_true; [done|].
    replace ((entry_addr base k + 8 - 1) / PAGE) with (entry_addr base k / PAGE); [done|].
    destruct Hp as [_ En F S _]. rewrite En. unfold page_floor in F. change PAGE with 4096 in *.
    Z.to_euclidean_division_equations; lia. }
  unfold commit_page_of_ptr. rewrite (ep_key _ _ _ Hp). unfold commit_at.
  destruct (VirtualQuery_spec (win_calls w) w page Hin) as (st & -> & Hst).
  destruct (Z.eqb_spec (Z.lor st MEM_COMMIT) st) as [Ec|Ec].
  - left. apply Hst in Ec. exists page, (win_tick w). split; [done|]. split; [by split; eauto|].
    rewrite <- (ep_num _ _ _ Hp) in Ec. split; [|done]. by apply Hacc.
  - assert (Hun : page / PAGE ∉ committed w) by (intros H; by apply Ec, Hst).
    destruct (Z.eqb_spec (VirtualCommit (win_calls (win_tick w)) (win_tick w) page) 0) as [Ez|Ez].
    { right. split; [done|]. by exists page. }
    left. eexists _, _. split; [done|].
    assert (Hc' : entry_addr base k / PAGE ∈ {[page / PAGE]} ∪ committed w)
      by (rewrite (ep_num _ _ _ Hp); set_solver).
    split; [|split; [by apply Hacc|done]]. split; simpl; try done; [by eauto|].
    rewrite bool_decide_false by done. rewrite (ep_floor _ _ _ Hp). intros k' Hk'.
    pose proof (entry_page_of base k' q Hq H0 Hlim Hk') as Hp'. rewrite (He k' Hk').
    destruct (decide (entry_addr base k' / PAGE = page / PAGE)) as [En|En].
    + rewrite En, decide_False, decide_True by set_solver. symmetry.
      assert (Hsame : page_floor ((16 * q + k' / 512) * PAGE) = page_floor page)
        by (unfold page_floor; rewrite <- (ep_num _ _ _ Hp'), En; done).
      rewrite (ep_floor _ _ _ Hp'), (ep_floor _ _ _ Hp) in Hsame.
      destruct Hp' as [_ _ _ S _]. rewrite Hsame in S.
      apply load_zero_range_in; change (Z.of_nat 8) with 8; lia.
    + destruct (decide (entry_addr base k' / PAGE ∈ committed w)) as [Hi|Hi].
      * rewrite decide_True by set_solver. symmetry. apply load_zero_range_out.
        eapply entry_page_apart; [done|done|]. rewrite <- (ep_num _ _ _ Hp'). congruence.
      * by rewrite decide_False by set_solver.
Qed.

Lemma win_get_page_info_ok s base m ptr :
  map_holds s base m ->
  (exists s', win_get_page_info ptr s = Ok (default 0 (m !! addr_to_key ptr), s') /\ map_holds s' base m) \/
  (win_get_page_info ptr s = Err (Panic "Couldn't commit page") /\ commit_refused s.(wn_os)).
Proof.
  intros Hm. pose proof (addr_to_key_range ptr) as Hk.
  assert (Hloc : wn_page_map s = Some base) by apply Hm.
  unfold win_get_page_info. rewrite bind_gets, Hloc. unfold unwrap. rewrite bind_mret.
  destruct (commit_entry s base m _ Hm Hk) as [(page & w' & Ec & Hm' & Ha & Hc)|[Ec Hr]].
  - left. eexists. rewrite (bind_Ok _ _ _ _ _ (with_win_Ok _ _ _ _ Ec)). split; [|exact Hm'].
    rewrite (mh_entries _ _ _ Hm' _ Hk). simpl. rewrite decide_True by done.
    erewrite with_win_Ok; [done|]. unfold win_read_ptr. simpl. by rewrite Ha.
  - right. split; [|done]. by rewrite (bind_Err _ _ _ _ (with_win_Err _ _ _ Ec)).
Qed.

Lemma win_set_page_info_ok s base m ptr info :
  map_holds s base m -> is_usize info ->
  (exists s', win_set_page_info ptr info s = Ok (tt, s') /\
     map_holds s' base (<[addr_to_key ptr := info]> m)) \/
  (win_set_page_info ptr info s = Err (Panic "Couldn't commit page") /\ commit_refused s.(wn_os)).
Proof.
  intros Hm Hi. pose proof (addr_to_key_range ptr) as Hk.
  assert (Hloc : wn_page_map s = Some base) by apply Hm.
  unfold win_set_page_info. rewrite bind_gets, Hloc. unfold unwrap. rewrite bind_mret.
  destruct (commit_entry s base m _ Hm Hk) as [(page & w' & Ec & Hm' & Ha & Hc)|[Ec Hr]].
  - left. eexists. rewrite (bind_Ok _ _ _ _ _ (with_win_Ok _ _ _ _ Ec)).
    erewrite with_win_Ok; [|unfold win_write_ptr; simpl; by rewrite Ha].
    split; [done|]. destruct Hm' as [L1 L2 L3 L4]. split; try done. intros k Hk'. simpl in *.
    destruct (decide (k = addr_to_key ptr)) as [->|Hne].
    + rewrite lookup_insert_eq, decide_True by done. simpl. by rewrite load_store_ptr.
    + rewrite lookup_insert_ne by done. rewrite (L4 k Hk').
      rewrite load_store_other; [done|]. unfold disjoint_ranges, entry_addr.
      change PAGE_INFO_SIZE with 8. change (Z.of_nat 8) with 8. lia.
  - right. split; [|done]. by rewrite (bind_Err _ _ _ _ (with_win_Err _ _ _ Ec)).
Qed.

(** The creation of the map. *)
Definition win_pages_ok (s : WinState) : Prop :=
  match s.(wn_size_map) with
  | None => True
  | Some m => hm_ok m /\ n_buckets m < 2 ^ 61 - 1
  end.

Lemma win_holder_map_ok s :
  win_pages_ok s -> exists m, win_holder_map s = Ok (m, set_wn_size_map (Some m) s) /\
    hm_ok m /\ n_buckets m < 2 ^ 61 - 1.
Proof.
  destruct s as [w [m|] pm]; unfold win_pages_ok, win_holder_map; cbn [wn_size_map]; intros Hp; [by exists m|].
  destruct (with_capacity_ok (K := Z) (V := Z) INITIAL_CAPACITY) as (h & Hh & Hok & _ & N).
  { unfold INITIAL_CAPACITY. lia. }
  exists h. unfold hm_new. rewrite Hh. split; [done|]. split; [done|].
  unfold INITIAL_CAPACITY in N. lia.
Qed.

Lemma win_page_alloc_with_ok f size s r w :
  win_pages_ok s -> Z.land size PAGE_MASK = 0 -> f size s.(wn_os) = Ok (r, w) ->
  exists m, win_page_alloc_with f size s =
    Ok (match r with inl seg => inl seg.(ws_ptr) | inr e => inr e end,
        mkWinState w (Some m) s.(wn_page_map)) /\ hm_ok m /\
    match r with inl seg => to_map m !! seg.(ws_ptr) = Some size | inr _ => True end.
Proof.
  intros Hp Hz Hf. destruct (win_holder_map_ok s Hp) as (m & Eh & Hok & Hn).
  unfold win_page_alloc_with. rewrite Hz. simpl. rewrite (bind_Ok _ _ _ _ _ Eh).
  rewrite (bind_Ok _ _ _ _ _ (with_win_Ok _ (set_wn_size_map (Some m) s) _ _ Hf)).
  destruct r as [seg|e]; [|by exists m].
  destruct (insert_ok m seg.(ws_ptr) size Hok Hn) as (m' & Ei & Hok' & Hm' & _).
  exists m'. split; [|split; [done|by rewrite Hm', lookup_insert_eq]].
  unfold mbind, M_bind, win_holder_map, lift, modify. simpl. by rewrite Ei.
Qed.

Lemma PM_SZ_pages : Z.land PM_SZ PAGE_MASK = 0.
Proof. done. Qed.

Lemma win_page_map_init_ok s :
  win_pages_ok s ->
  (exists base s', win_page_map_init s = Ok (tt, s') /\ map_holds s' base ∅) \/
  (win_page_map_init s = Err (Panic "Error creating memory map") /\
   VirtualReserve s.(wn_os).(win_calls) s.(wn_os) PM_SZ = 0).
Proof.
  intros Hp. unfold win_page_map_init, win_page_alloc_over_commit.
  set (w := wn_os s). set (p := VirtualReserve (win_calls w) w PM_SZ).
  destruct (Z.eqb_spec p 0) as [E0|E0].
  - right. split; [|done].
    destruct (win_page_alloc_with_ok win_allocate_massive PM_SZ s
      (inr (WinAllocationFailed PM_SZ (win_errno (S w.(win_calls))))) (win_tick w) Hp PM_SZ_pages) as (m & E & _).
    { unfold win_allocate_massive, mbind, M_bind, virtual_reserve. fold w p. by rewrite E0. }
    by rewrite (bind_Ok _ _ _ _ _ E).
  - left. destruct (VirtualReserve_spec (win_calls w) w PM_SZ E0) as (_ & [q Hq] & H0 & Hlim & _ & _ & Hc).
    fold p in Hq, H0, Hlim, Hc. apply Z.eqb_neq in E0.
    destruct (win_page_alloc_with_ok win_allocate_massive PM_SZ s (inl (mkWinSegment p p PM_SZ))
      (mkWin (win_mem w) (win_blocks w) (mkSegment p PM_SZ :: win_regions w) (committed w)
         (S (win_calls w)) (seg_lock w)) Hp PM_SZ_pages) as (m & E & _).
    { unfold win_allocate_massive, mbind, M_bind, virtual_reserve. fold w p. rewrite E0. by rewrite E0. }
    exists p. eexists. rewrite (bind_Ok _ _ _ _ _ E). split; [done|]. change (page_span PM_SZ) with PM_SZ in *.
    split; simpl; [done|set_solver|by exists q|]. intros k Hk. rewrite lookup_empty. simpl.
    rewrite decide_False; [done|]. rewrite Forall_forall in Hc. intros Hin.
    apply (Hc (entry_addr p k / PAGE)); [by apply elem_of_elements|].
    destruct (entry_page_of p k q Hq H0 Hlim Hk) as [_ En _ _ [R1 R2]].
    rewrite En. change (PM_SZ / PAGE) with (2 ^ 29). change PM_SZ with (2 ^ 41) in *. change PAGE with 4096 in *.
    Z.to_euclidean_division_equations; lia.
Qed.
End WinPageMap.

(** ** Segments *)
Section WinSegments.
Context {W32 : Win32} (debug_assertions : bool).

(** A segment of the process heap, when the heap exists and has room. *)
Lemma win_allocate_ok fuel size w :
  w.(seg_lock) = false -> GetProcessHeap w.(win_calls) <> 0 ->
  (debug_assertions = true -> HeapSummary (2 + w.(win_calls)) = true) ->
  let w1 := win_tick (set_seg_lock true w) in
  let p := HeapAlloc w1.(win_calls) w1 size in
  exists w', w'.(seg_lock) = false /\ w'.(win_regions) = w.(win_regions) /\
    win_allocate debug_assertions (S fuel) size w =
      Ok (if p =? 0 then inr (WinAllocationFailed size (win_errno w'.(win_calls)))
          else inl (mkWinSegment p (GetProcessHeap w.(win_calls)) size), w') /\
    if p =? 0 then w'.(win_blocks) = w.(win_blocks) /\ w'.(win_mem) = w.(win_mem)
    else w'.(win_blocks) = mkSegment p size :: w.(win_blocks) /\ w'.(win_mem) = zero_range w.(win_mem) p size.
Proof.
  intros Hl Hh Hs w1 p. unfold win_allocate.
  assert (El : spin_lock (S fuel) w = Ok (tt, set_seg_lock true w)) by (simpl; by rewrite Hl).
  rewrite (bind_Ok _ _ _ _ _ El).
  assert (Eh : get_process_heap (set_seg_lock true w) = Ok (GetProcessHeap (win_calls w), w1)) by done.
  rewrite (bind_Ok _ _ _ _ _ Eh). rewrite (proj2 (Z.eqb_neq _ _) Hh).
  unfold mbind, M_bind, heap_alloc. fold p. destruct (Z.eqb_spec p 0) as [E|E]; simpl.
  - rewrite andb_false_r. by exists (set_seg_lock false (win_tick w1)).
  - rewrite (proj2 (Z.eqb_neq _ _) E). simpl. rewrite andb_true_r.
    set (w2 := mkWin (zero_range (win_mem w) p size) (mkSegment p size :: win_blocks w)
                 (win_regions w) (committed w) (2 + win_calls w) false).
    destruct debug_assertions; simpl; [|by exists w2].
    specialize (Hs eq_refl). simpl in Hs. rewrite Hs. by exists (win_tick w2).
Qed.

(** The block of a segment of the process heap is returned to it. *)
Lemma win_deallocate_block w b heap :
  b ∈ w.(win_blocks) -> heap = GetProcessHeap w.(win_calls) ->
  win_deallocate (mkWinSegment b.(seg_ptr) heap b.(seg_len)) w =
    Ok (true, mkWin w.(win_mem) (filter (λ t, t.(seg_ptr) <> b.(seg_ptr)) w.(win_blocks))
                w.(win_regions) w.(committed) (2 + w.(win_calls)) w.(seg_lock)).
Proof.
  intros Hb ->. unfold win_deallocate, mbind, M_bind, get_process_heap. cbn [ws_heap ws_ptr].
  rewrite Z.eqb_refl. cbn [negb]. unfold heap_free. by rewrite HeapFree_spec.
Qed.
End WinSegments.

(** ** A concrete process, for evaluation

    Heap blocks and regions are placed after everything that is live, blocks at
    the next multiple of 16 with room for a header, regions at the next multiple
    of 65536. *)
Definition ceil_to (a x : Z) : Z := (x + a - 1) / a * a.

Definition win_top (w : Win) : Z :=
  foldr Z.max 65552 (
    ((λ b, b.(seg_ptr) + b.(seg_len)) <$> w.(win_blocks)) ++
    ((λ r, r.(seg_ptr) + page_span r.(seg_len)) <$> w.(win_regions)) ++
    ((λ k, (k + 1) * PAGE) <$> elements w.(committed))).

Definition in_regionb (w : Win) (page : Z) : bool :=
  existsb (λ r, (r.(seg_ptr) <=? page) && (page + PAGE <=? r.(seg_ptr) + page_span r.(seg_len))) w.(win_regions).

Lemma ceil_to_ge a x : 0 < a -> x <= ceil_to a x.
Proof.
  intros Ha. unfold ceil_to. pose proof (Z.div_mod (x + a - 1) a ltac:(lia)).
  pose proof (Z.mod_pos_bound (x + a - 1) a Ha). lia.
Qed.

Lemma foldr_max_ge d l x : x = d \/ x ∈ l -> x <= foldr Z.max d l.
Proof.
  induction l as [|y l IH]; simpl; intros [->|H]; [lia|by apply elem_of_nil in H| |].
  - specialize (IH (or_introl eq_refl)). lia.
  - apply elem_of_cons in H as [->|H]; [lia|]. specialize (IH (or_intror H)). lia.
Qed.

Lemma win_top_spec w :
  65552 <= win_top w /\
  Forall (λ b, b.(seg_ptr) + b.(seg_len) <= win_top w) w.(win_blocks) /\
  Forall (λ r, r.(seg_ptr) + page_span r.(seg_len) <= win_top w) w.(win_regions) /\
  Forall (λ k, (k + 1) * PAGE <= win_top w) (elements w.(committed)).
Proof.
  split; [apply foldr_max_ge; by left|].
  rewrite !Forall_forall. split_and!; intros x Hx; apply foldr_max_ge; right;
    rewrite !elem_of_app; [left|right; left|right; right]; apply list_elem_of_fmap; by exists x.
Qed.

Lemma in_regionb_true w page : in_regionb w page = true -> in_region w page.
Proof.
  unfold in_regionb. intros (r & Hr & [H1%Z.leb_le H2%Z.leb_le]%andb_true_iff)%existsb_exists.
  exists r. by rewrite list_elem_of_In.
Qed.

Definition win_place (a gap size span : Z) (w : Win) : Z :=
  let p := ceil_to a (win_top w + gap) in
  if (0 <? size) && (p + span <=? ADDR_LIMIT) then p else 0.

Lemma win_place_ok a gap size span w :
  0 < a -> 0 <= gap -> win_place a gap size span w <> 0 ->
  0 < size /\ (a | win_place a gap size span w) /\ win_top w <= win_place a gap size span w /\
  0 < win_place a gap size span w /\ win_place a gap size span w + span <= ADDR_LIMIT.
Proof.
  intros Ha Hg. unfold win_place. destruct (Z.ltb_spec 0 size); simpl; [|done].
  destruct (Z.leb_spec (ceil_to a (win_top w + gap) + span) ADDR_LIMIT); [|done]. intros _.
  pose proof (ceil_to_ge a (win_top w + gap) Ha). pose proof (proj1 (win_top_spec w)).
  split_and!; try lia. unfold ceil_to. apply Z.divide_factor_r.
Qed.

Program Definition win32_bump : Win32 := {|
    GetProcessHeap _ := 42;
    HeapAlloc _ w size := win_place 16 16 size size w;
    HeapFree _ _ _ := true;
    HeapSummary _ := true;
    VirtualReserve _ w size := win_place 65536 0 size (page_span size) w;
    VirtualCommit _ w page := if in_regionb w page then page else 0;
    VirtualQuery _ w page := Some (if bool_decide (page / PAGE ∈ w.(committed)) then 4096 else 8192);
    VirtualFree _ _ _ size := size =? 0;
    win_errno _ := 8;
  |}.
Next Obligation. done. Qed.
Next Obligation.
  intros n w size p Hp. simpl in p. destruct (win_place_ok 16 16 size size w ltac:(lia) ltac:(lia) Hp) as (_ & H1 & H2 & H3 & H4).
  destruct (win_top_spec w) as (_ & B & R & _). split_and!; try done.
  - eapply Forall_impl; [exact B|]. intros b Hb. right. simpl in Hb. fold p in H2. lia.
  - eapply Forall_impl; [exact R|]. intros b Hb. right. simpl in Hb. fold p in H2. lia.
Qed.
Next Obligation. done. Qed.
Next Obligation.
  intros n w size p Hp. simpl in p. destruct (win_place_ok 65536 0 size _ w ltac:(lia) ltac:(lia) Hp) as (H0 & H1 & H2 & H3 & H4).
  destruct (win_top_spec w) as (_ & B & R & C). fold p in H1, H2, H3, H4. split_and!; try done.
  - eapply Forall_impl; [exact B|]. intros b Hb. right. simpl in Hb. lia.
  - eapply Forall_impl; [exact R|]. intros b Hb. right. simpl in Hb. lia.
  - eapply Forall_impl; [exact C|]. intros k Hk [Hk1 _]. simpl in Hk. change PAGE with 4096 in *.
    pose proof (Z.div_le_lower_bound p 4096 (k + 1) ltac:(lia) ltac:(lia)). lia.
Qed.
Next Obligation.
  intros n w page. simpl. destruct (in_regionb w page) eqn:E; [|done]. intros _.
  split; [done|]. by apply in_regionb_true.
Qed.
Next Obligation.
  intros n w page _. eexists. split; [done|]. case_bool_decide; vm_compute Z.lor; split; done.
Qed.
Next Obligation. intros n w base size H. by apply Z.eqb_neq. Qed.
Next Obligation. done. Qed.

(** ** What the variant shares with unix, and where it goes wrong *)
Section WinProperties.
Context {W32 : Win32} {HZ : Hash Z} (debug_assertions : bool).

(** The map of the process and the map of [PageMap] have the same entries. *)
Definition same_map (s : WinState) (u : State) : Prop :=
  exists base m, map_holds s base m /\ u.(st_page_map) = Some m.

(** C18: the page map of windows, a reserved region whose pages are committed
    before each access, agrees with the one of unix: a new map is empty; a look-up
    gives what the unix look-up gives, and a store changes both maps alike.  No
    access faults: the only failures are the panics that follow a refusal of the
    system to reserve the region or to commit a page. *)
Theorem windows_page_map_agrees s u ptr info :
  is_usize info ->
  (win_pages_ok s -> u.(st_page_map) = Some ∅ ->
     (exists s', win_page_map_init s = Ok (tt, s') /\ same_map s' u) \/
     (win_page_map_init s = Err (Panic "Error creating memory map") /\
      VirtualReserve s.(wn_os).(win_calls) s.(wn_os) PM_SZ = 0)) /\
  (same_map s u ->
     (exists v s', win_get_page_info ptr s = Ok (v, s') /\ get_page_info ptr u = Ok (v, u) /\ same_map s' u) \/
     (win_get_page_info ptr s = Err (Panic "Couldn't commit page") /\ commit_refused s.(wn_os))) /\
  (same_map s u ->
     (exists s' u', win_set_page_info ptr info s = Ok (tt, s') /\
        set_page_info ptr info u = Ok (tt, u') /\ same_map s' u') \/
     (win_set_page_info ptr info s = Err (Panic "Couldn't commit page") /\ commit_refused s.(wn_os))).
Proof.
  intros Hi. split; [|split].
  - intros Hp Hu. destruct (win_page_map_init_ok s Hp) as [(base & s' & E & Hm)|H]; [left|by right].
    exists s'. split; [done|]. by exists base, ∅.
  - intros (base & m & Hm & Hu).
    destruct (win_get_page_info_ok s base m ptr Hm) as [(s' & E & Hm')|H]; [left|by right].
    exists (default 0 (m !! addr_to_key ptr)), s'. split; [done|]. split; [|by exists base, m].
    unfold get_page_info. rewrite bind_gets, Hu. done.
  - intros (base & m & Hm & Hu).
    destruct (win_set_page_info_ok s base m ptr info Hm Hi) as [(s' & E & Hm')|H]; [left|by right].
    exists s', (set_page_map (Some (<[addr_to_key ptr := info]> m)) u). split; [done|].
    split; [|by exists base, (<[addr_to_key ptr := info]> m)].
    unfold set_page_info. rewrite bind_gets, Hu. done.
Qed.

(** A segment from [page_alloc] is apart from everything live and reads as
    zeros; [page_free] gives it back. *)
Theorem windows_page_roundtrip fuel size s :
  win_pages_ok s -> s.(wn_os).(seg_lock) = false -> Z.land size PAGE_MASK = 0 ->
  (forall n, GetProcessHeap n <> 0) -> (forall n, HeapSummary n = true) ->
  (exists e s', win_page_alloc debug_assertions (S fuel) size s = Ok (inr e, s')) \/
  (exists p s' s'', win_page_alloc debug_assertions (S fuel) size s = Ok (inl p, s') /\
     s'.(wn_os).(seg_lock) = false /\
     Forall (λ b, disjoint_ranges p size b.(seg_ptr) b.(seg_len)) s.(wn_os).(win_blocks) /\
     (forall a, p <= a < p + size -> load8 s'.(wn_os).(win_mem) a = 0) /\
     win_page_free p s' = Ok (true, s'') /\
     forall b, b ∈ s''.(wn_os).(win_blocks) <-> b ∈ s.(wn_os).(win_blocks) /\ b.(seg_ptr) <> p).
Proof.
  intros Hp Hl Hz Hh Hs. unfold win_page_alloc.
  pose proof (win_allocate_ok debug_assertions fuel size s.(wn_os) Hl (Hh _) (λ _, Hs _)) as Ha. simpl in Ha.
  set (w1 := win_tick (set_seg_lock true s.(wn_os))) in *.
  set (p := HeapAlloc _ w1 size) in *. destruct Ha as (w' & Hl' & Hr' & Ea & Hb).
  destruct (Z.eqb_spec p 0) as [E0|E0].
  { left. destruct (win_page_alloc_with_ok _ size s _ _ Hp Hz Ea) as (m & E & _). by eexists _, _. }
  right. destruct Hb as [Hb Hm].
  destruct (win_page_alloc_with_ok _ size s _ _ Hp Hz Ea) as (m & E & Hok & Hin). simpl in E, Hin.
  destruct (HeapAlloc_spec _ w1 size E0) as (_ & _ & _ & Hd & _).
  assert (Ed : forall w, w.(win_blocks) = w'.(win_blocks) ->
    win_deallocate (mkWinSegment p (GetProcessHeap w.(win_calls)) size) w =
    Ok (true, mkWin w.(win_mem) (filter (λ t, t.(seg_ptr) <> p) w.(win_blocks)) w.(win_regions)
                w.(committed) (2 + w.(win_calls)) w.(seg_lock))).
  { intros w Hw. apply (win_deallocate_block w (mkSegment p size)); [|done]. rewrite Hw, Hb. set_solver. }
  destruct (remove_ok m p Hok) as (m2 & Er & _).
  eexists p, _, _. split; [exact E|]. split; [done|]. split; [exact Hd|]. split; [|split].
  - intros a Ha. simpl. rewrite Hm, load8_zero_range. by rewrite decide_True.
  - unfold win_page_free. rewrite bind_gets. cbn [wn_size_map unwrap]. rewrite bind_mret.
    assert (Ec : contains m p = Ok true).
    { unfold contains. rewrite hm_get_map by done. simpl. by rewrite Hin. }
    rewrite (bind_lift _ _ _ _ Ec).
    assert (Ex : hm_index m p = Ok size) by (unfold hm_index; rewrite hm_get_map by done; simpl; by rewrite Hin).
    rewrite (bind_lift _ _ _ _ Ex).
    assert (Eg : get_process_heap w' = Ok (GetProcessHeap (S (win_calls w')), win_tick w')).
    { unfold get_process_heap. f_equal. f_equal. by apply GetProcessHeap_spec. }
    rewrite (bind_Ok _ _ _ _ _ (with_win_Ok _ (mkWinState w' _ _) _ _ Eg)).
    rewrite (bind_Ok _ _ _ _ _ (with_win_Ok _ (set_wn_os (win_tick w') (mkWinState w' (Some m) _)) _ _
      (Ed (win_tick w') eq_refl))).
    unfold mbind, M_bind, lift, modify. rewrite Er. done.
  - intros b. simpl. rewrite list_elem_of_filter, Hb. rewrite elem_of_cons.
    split; [intros [? [->|?]]; simpl in *; [done|done]|]. intros [? ?]. split; [done|]. by right.
Qed.

(** When the process has no heap, [allocate] reports it with [LOCK] still
    taken: every later call spins for ever. *)
Theorem windows_no_heap_keeps_lock fuel size w :
  w.(seg_lock) = false -> GetProcessHeap w.(win_calls) = 0 ->
  exists w', win_allocate debug_assertions (S fuel) size w = Ok (inr NoHeap, w') /\
    forall fuel' size', win_allocate debug_assertions fuel' size' w' = Err OutOfFuel.
Proof.
  intros Hl Hh. exists (win_tick (set_seg_lock true w)). split.
  - unfold win_allocate, mbind, M_bind. simpl. rewrite Hl. unfold get_process_heap. simpl. by rewrite Hh.
  - intros fuel' size'. unfold win_allocate. apply bind_Err. induction fuel' as [|f IH]; [done|]. by simpl.
Qed.

(** [deallocate] never releases what [allocate_massive] reserved: it passes
    [VirtualFree] the length where [MEM_RELEASE] asks for 0. *)
Theorem windows_massive_never_released size w seg w' :
  win_allocate_massive size w = Ok (inl seg, w') -> GetProcessHeap w'.(win_calls) <> seg.(ws_heap) ->
  exists w'', win_deallocate seg w' = Ok (false, w'') /\ w''.(win_regions) = w'.(win_regions).
Proof.
  unfold win_allocate_massive, mbind, M_bind, virtual_reserve.
  destruct (Z.eqb_spec (VirtualReserve (win_calls w) w size) 0) as [E|E]; [done|].
  rewrite (proj2 (Z.eqb_neq _ _) E). intros [= <- <-] Hne. simpl in Hne.
  destruct (VirtualReserve_spec _ _ _ E) as (Hs & _).
  unfold win_deallocate, mbind, M_bind, get_process_heap. cbn [ws_heap ws_len win_calls].
  rewrite (proj2 (Z.eqb_neq _ _)) by done. cbn [negb]. unfold virtual_free.
  rewrite VirtualFree_size by lia. by eexists.
Qed.
End WinProperties.

Definition win_start : WinState := mkWinState win_init None None.

(** Two superblocks of 4 pages, registered page by page as [update_page_map]
    does, and the descriptor that is then found for the last block of 16 bytes of
    the first one. *)
Definition two_superblocks {W32 : Win32} {HZ : Hash Z} : M WinState (Z * Z * Z) :=
  win_page_map_init;;
  r1 ← win_page_alloc false 1 16384;
  r2 ← win_page_alloc false 1 16384;
  match r1, r2 with
  | inl p1, inl p2 =>
      forM (range 0 4) (λ i, win_set_page_info (p1 + i * PAGE) 4096);;
      forM (range 0 4) (λ i, win_set_page_info (p2 + i * PAGE) 8192);;
      info ← win_get_page_info (p1 + 16384 - 16);
      mret (p1, p2, info)
  | _, _ => fail (Panic "no memory")
  end.

Lemma windows_page_map_agrees_witness :
  exists s s' v u, win_page_map_init (W32 := win32_bump) (HZ := id_hash) win_start = Ok (tt, s) /\
    win_set_page_info (W32 := win32_bump) 81920 4096 s = Ok (tt, s') /\
    get_page_info 81920 u = Ok (v, u) /\ same_map s' u.
Proof.
  set (u0 := mkState os_init size_state_uninit None ∅ 0 (Some ∅) None).
  destruct (proj1 (windows_page_map_agrees (W32 := win32_bump) (HZ := id_hash) win_start u0 81920 4096
    ltac:(unfold is_usize; lia)) I eq_refl) as [(s & Es & Hs)|[E _]]; [|vm_compute in E; discriminate].
  destruct (proj2 (proj2 (windows_page_map_agrees (W32 := win32_bump) (HZ := id_hash) s u0 81920 4096
    ltac:(unfold is_usize; lia))) Hs) as [(s' & u' & E1 & E2 & Hs')|[E _]].
  - exists s, s', 4096, u'. split; [exact Es|]. split; [exact E1|]. split; [|exact Hs'].
    injection E2 as <-. reflexivity.
  - exfalso. vm_compute in Es. injection Es as <-. vm_compute in E. discriminate.
Defined.

(** [HeapAlloc] aligns to 16 bytes, not to pages: the end of one superblock and
    the start of the next share a page, and a block of the first leads to the
    descriptor of the second. *)
Theorem windows_superblocks_share_page :
  exists (W32 : Win32) (HZ : Hash Z) p1 p2 s,
    two_superblocks win_start = Ok ((p1, p2, 8192), s) /\ disjoint_ranges p1 16384 p2 16384.
Proof.
  exists win32_bump, id_hash, 2199023386640, 2199023403040. eexists. split; [vm_compute; reflexivity|].
  left. lia.
Qed.
