(* ===== verification/RangeMapping.v ===== *)
(** * A page map of ranges

    Models [src/src/independent_collections/range_mapping.rs]: a tree whose
    leaves are ranges of addresses with their [PageInfo], kept in one [Array].
    A node is referred to by a raw pointer into the array: the index of the node
    and the segment of the array it was made for, which the array leaves when a
    push makes it move.  An access through a pointer to a segment that was left
    is a [Fault]. *)
From S2P Require Import Prelude MemInfo SizeClasses Mem Array HashMap State Pages PageMap.

Record NodePtr : Type := mkNodePtr { np_segment : nat; np_index : Z }.

Inductive NodeInner : Type := Info (info : Z) | Children (less more : NodePtr).

(** [range] is [n_start..=n_end]. *)
Record Node : Type := mkNode { n_start : Z; n_end : Z; n_inner : NodeInner }.

(** [size_of::<Node>()]: the inclusive range takes three words, and so do the
    tag and the two pointers. *)
Program Definition node_layout : Layout := {| size_of := 48; align_lg := 3 |}.
  Solve Obligations with (lia || by exists 6).
#[local] Existing Instance node_layout.

Record PageRangeMapping : Type := mkRanges {
  r_head : option NodePtr;
  memory_array : Array Node;
  r_segment : nat;                 (* how often the array has moved *)
}.

(** [range.contains(&address)] *)
Definition in_range (n : Node) (address : Z) : bool := (n.(n_start) <=? address) && (address <=? n.(n_end)).

(** [&*ptr] and [ptr.write(node)] *)
Definition node_at (r : PageRangeMapping) (p : NodePtr) : result Node :=
  if (p.(np_segment) =? r.(r_segment))%nat
  then raw_read r.(memory_array).(arr_raw) p.(np_index)
  else Err (Fault p.(np_index)).

Definition node_write (p : NodePtr) (n : Node) (r : PageRangeMapping) : result PageRangeMapping :=
  if (p.(np_segment) =? r.(r_segment))%nat then
    let a := r.(memory_array) in
    raw ← raw_write a.(arr_raw) p.(np_index) n;
    Ok (mkRanges r.(r_head) (mkArray a.(arr_size) a.(arr_no_dealloc) raw) r.(r_segment))
  else Err (Fault p.(np_index)).

(** [create_parent_node(&self, other)], with the addresses of the two nodes *)
Definition create_parent_node (si : NodePtr) (self : Node) (oi : NodePtr) (other : Node) : Node :=
  let '(less, more) := if self.(n_end) <? other.(n_start) then (si, oi) else (oi, si) in
  mkNode (Z.min self.(n_start) other.(n_start)) (Z.max self.(n_end) other.(n_end))
    (Children less more).

(** [find_info] follows pointers, so its recursion is bounded by [fuel]. *)
Fixpoint find_info (fuel : nat) (r : PageRangeMapping) (self : NodePtr) (address : Z)
    : result (option Z) :=
  match fuel with
  | O => Err OutOfFuel
  | S fuel' =>
      n ← node_at r self;
      if in_range n address then
        match n.(n_inner) with
        | Info info => Ok (Some info)
        | Children less more =>
            nl ← node_at r less;
            if in_range nl address then find_info fuel' r less address
            else
              nm ← node_at r more;
              if in_range nm address then find_info fuel' r more address else Ok None
        end
      else Ok None
  end.

Definition ranges_new : PageRangeMapping := mkRanges None arr_new 0.

Section Ranges.
Context {MP : Mapping}.

Definition init_with_capacity (capacity : Z) (r : PageRangeMapping) : result PageRangeMapping :=
  a ← arr_with_capacity capacity;
  Ok (mkRanges r.(r_head) a (S r.(r_segment))).

(** A push into a full array moves it. *)
Definition create_range_node (start end_ info : Z) (r : PageRangeMapping)
    : result (NodePtr * PageRangeMapping) :=
  let a := r.(memory_array) in
  let segment := if arr_size a >=? arr_capacity a then S r.(r_segment) else r.(r_segment) in
  a' ← arr_push a (mkNode start end_ (Info info));
  Ok (mkNodePtr segment (arr_len a' - 1), mkRanges r.(r_head) a' segment).

Definition range_get_page_info (fuel : nat) (r : PageRangeMapping) (ptr : Z) : result (option Z) :=
  match r.(r_head) with
  | None => Ok None
  | Some head => find_info fuel r head ptr
  end.

(** The [while let] loop of [insert_node]: the node that it stops at.  The
    condition of the fourth branch compares [main_range.end()] with itself. *)
Fixpoint descend (fuel : nat) (r : PageRangeMapping) (main : Node) (ptr : NodePtr) : result NodePtr :=
  match fuel with
  | O => Err OutOfFuel
  | S fuel' =>
      n ← node_at r ptr;
      match n.(n_inner) with
      | Info _ => Ok ptr
      | Children less more =>
          nl ← node_at r less;
          nm ← node_at r more;
          if main.(n_end) <? nl.(n_start) then Ok less
          else if (nl.(n_start) <? main.(n_start)) && (nl.(n_end) >? main.(n_end)) then
            descend fuel' r main less
          else if main.(n_start) >? nm.(n_end) then Ok more
          else if (nm.(n_start) <? main.(n_start)) && (main.(n_end) >? main.(n_end)) then
            descend fuel' r main more
          else Ok ptr
      end
  end.

Definition insert_node (fuel : nat) (node : NodePtr) (r : PageRangeMapping) : result PageRangeMapping :=
  match r.(r_head) with
  | None => Ok (mkRanges (Some node) r.(memory_array) r.(r_segment))
  | Some head =>
      main ← node_at r node;
      ptr ← descend fuel r main head;
      n ← node_at r ptr;
      node_write ptr (create_parent_node node main ptr n) r
  end.

(** [create_range_node] and [insert_node] together *)
Definition add_range (fuel : nat) (start end_ info : Z) (r : PageRangeMapping) : result PageRangeMapping :=
  '(node, r') ← create_range_node start end_ info r;
  insert_node fuel node r'.

Definition set_page_info_for_ptr (fuel : nat) (ptr info : Z) (r : PageRangeMapping)
    : result PageRangeMapping :=
  add_range fuel ptr ptr info r.

(** [update_page_map]; [heap] is the size class of the heap. *)
Definition range_update_page_map (fuel : nat) (heap : option SizeClassData) (ptr : Z)
    (desc : option Z) (size_class_index : Z) (r : PageRangeMapping) : result PageRangeMapping :=
  let info := page_info_set_ptr (default 0 desc) size_class_index in
  match heap with
  | None => set_page_info_for_ptr fuel ptr info r
  | Some sc =>
      if negb (Z.land sc.(sb_size) PAGE_MASK =? 0) then
        Err (Panic "sb_size must be a multiple of a page")
      else add_range fuel ptr (usize (usize (ptr + sc.(sb_size)) - 1)) info r
  end.

(** ** Results *)

(** A push into an array that has room stores the value after the last one. *)
Lemma arr_push_room (a : Array Node) v :
  raw_wf a.(arr_raw) -> 0 <= a.(arr_size) < raw_capacity a.(arr_raw) -> a.(arr_size) < 2 ^ 62 ->
  arr_push a v = Ok (mkArray (a.(arr_size) + 1) a.(arr_no_dealloc)
    (mkRaw a.(arr_raw).(ra_segment) a.(arr_raw).(ra_no_dealloc)
       (<[Z.to_nat a.(arr_size) := Some v]> a.(arr_raw).(ra_cells)))).
Proof.
  intros Hwf Hr Hb. unfold arr_push. destruct (Z.geb_spec (arr_size a) (raw_capacity (arr_raw a))); [lia|].
  cbn [mbind result_bind]. unfold raw_wf in Hwf. rewrite raw_write_at by lia. simpl.
  by rewrite usize_small by lia.
Qed.

(** The array of a mapping with a given capacity. *)
Definition capacity_raw (capacity : Z) : RawArray Node :=
  mkRaw (Some (capacity * 48)) false (replicate (Z.to_nat capacity) None).

Lemma init_with_capacity_ok capacity r :
  0 < capacity -> capacity * 48 < 2 ^ 62 -> can_map (capacity * 48) = true ->
  init_with_capacity capacity r =
    Ok (mkRanges r.(r_head) (mkArray 0 false (capacity_raw capacity)) (S r.(r_segment))).
Proof.
  intros Hc Hb Hm. unfold init_with_capacity, arr_with_capacity, raw_with_capacity.
  unfold raw_reserve. cbn [ra_segment raw_new]. rewrite bool_decide_false by (by intros []).
  cbn [andb]. rewrite (actual_size capacity) by (simpl; lia). change size_of with 48.
  rewrite Hm. simpl. rewrite Z.div_mul by lia. unfold capacity_raw. by rewrite Nat.sub_0_r, take_nil.
Qed.

(** The first insertion puts the leaf in the first slot. *)
Definition one_range (capacity start end_ info : Z) : PageRangeMapping :=
  mkRanges (Some (mkNodePtr 1 0)) (mkArray 1 false (mkRaw (Some (capacity * 48)) false
    (<[0%nat := Some (mkNode start end_ (Info info))]> (replicate (Z.to_nat capacity) None)))) 1.

Lemma add_first fuel capacity start end_ info :
  0 < capacity ->
  add_range fuel start end_ info
    (mkRanges None (mkArray 0 false (capacity_raw capacity)) 1) =
  Ok (one_range capacity start end_ info).
Proof.
  intros Hc. unfold add_range, create_range_node. cbn [memory_array].
  rewrite arr_push_room.
  2: { unfold raw_wf, raw_capacity; simpl. rewrite length_replicate, Z.div_mul; lia. }
  2: { unfold raw_capacity. simpl. rewrite Z.div_mul; lia. }
  2: { simpl. lia. }
  unfold arr_capacity, raw_capacity. simpl. rewrite Z.div_mul by lia.
  by destruct (Z.geb_spec 0 capacity); [lia|].
Qed.

(** A mapping with one range answers for exactly that range. *)
Lemma one_range_found fuel capacity start end_ info address :
  0 < capacity -> (0 < fuel)%nat ->
  range_get_page_info fuel (one_range capacity start end_ info) address =
    Ok (if decide (start <= address <= end_) then Some info else None).
Proof.
  intros Hc Hf. destruct fuel as [|fuel]; [lia|]. unfold range_get_page_info, one_range.
  cbn [r_head find_info]. unfold node_at. cbn [np_segment r_segment Nat.eqb memory_array arr_raw np_index].
  erewrite raw_read_at; [|done|]. 2: { simpl. rewrite list_lookup_insert_eq; [done|]. rewrite length_replicate. lia. }
  cbn [mbind result_bind]. unfold in_range. simpl.
  destruct (Z.leb_spec start address), (Z.leb_spec address end_); simpl;
    by (rewrite decide_True by lia) || (rewrite decide_False by lia).
Qed.

(** The second insertion writes the parent of the new leaf and of the leaf that
    it stopped at over that leaf: the parent is its own child. *)
Lemma add_second fuel capacity s1 e1 i1 s2 e2 i2 :
  2 <= capacity -> (0 < fuel)%nat -> s1 <= e1 -> e1 < s2 -> s2 <= e2 ->
  exists r, add_range fuel s2 e2 i2 (one_range capacity s1 e1 i1) = Ok r /\
    r.(r_head) = Some (mkNodePtr 1 0) /\
    node_at r (mkNodePtr 1 0) = Ok (mkNode s1 e2 (Children (mkNodePtr 1 0) (mkNodePtr 1 1))).
Proof.
  intros Hc Hf H1 H12 H2. destruct fuel as [|fuel]; [lia|].
  unfold add_range, create_range_node, one_range. cbn [memory_array].
  rewrite arr_push_room.
  2: { unfold raw_wf, raw_capacity; simpl. rewrite length_insert, length_replicate, Z.div_mul; lia. }
  2: { unfold raw_capacity. simpl. rewrite Z.div_mul; lia. }
  2: { simpl. lia. }
  unfold arr_capacity, raw_capacity. cbn [arr_raw arr_size ra_segment r_segment r_head].
  change size_of with 48. rewrite Z.div_mul by lia. destruct (Z.geb_spec 1 capacity); [lia|].
  cbn [mbind result_bind arr_len arr_size arr_no_dealloc ra_no_dealloc ra_cells]. unfold insert_node.
  cbn [r_head]. set (r := mkRanges _ _ _). change (1 + 1 - 1) with 1.
  assert (Hn1 : node_at r (mkNodePtr 1 0) = Ok (mkNode s1 e1 (Info i1))).
  { apply raw_read_at; [done|]. simpl. rewrite list_lookup_insert_ne by done.
    apply list_lookup_insert_eq. rewrite length_replicate. lia. }
  assert (Hn2 : node_at r (mkNodePtr 1 1) = Ok (mkNode s2 e2 (Info i2))).
  { apply raw_read_at; [done|]. simpl. apply list_lookup_insert_eq.
    rewrite length_insert, length_replicate. lia. }
  rewrite Hn2. cbn [mbind result_bind descend]. rewrite Hn1. cbn [mbind result_bind n_inner].
  rewrite Hn1. cbn [mbind result_bind]. unfold create_parent_node. cbn [n_start n_end].
  rewrite (proj2 (Z.ltb_ge _ _)), Z.min_r, Z.max_l by lia.
  unfold node_write, r. cbn [np_segment r_segment Nat.eqb memory_array arr_raw].
  rewrite raw_write_at by (simpl; rewrite !length_insert, length_replicate; lia).
  eexists. split; [done|]. split; [done|]. apply raw_read_at; [done|]. simpl.
  apply list_lookup_insert_eq. rewrite !length_insert, length_replicate. lia.
Qed.

(** The second insertion destroys the tree: no look-up in the hull of the two
    ranges returns, whatever bound is put on the recursion. *)
Theorem range_mapping_loops capacity s1 e1 i1 s2 e2 i2 fuel1 address fuel :
  2 <= capacity -> capacity * 48 < 2 ^ 62 -> can_map (capacity * 48) = true ->
  (0 < fuel1)%nat -> s1 <= e1 -> e1 < s2 -> s2 <= e2 -> s1 <= address <= e2 ->
  exists r0 r1 r2, init_with_capacity capacity ranges_new = Ok r0 /\
    add_range fuel1 s1 e1 i1 r0 = Ok r1 /\ add_range fuel1 s2 e2 i2 r1 = Ok r2 /\
    range_get_page_info fuel r2 address = Err OutOfFuel.
Proof.
  intros Hc Hb Hm Hf H1 H12 H2 Ha. rewrite init_with_capacity_ok by (done || lia).
  destruct (add_second fuel1 capacity s1 e1 i1 s2 e2 i2) as (r2 & E2 & Hh & Hp); try done.
  eexists _, _, r2. split; [done|]. rewrite add_first by lia. split; [done|]. split; [done|].
  unfold range_get_page_info. rewrite Hh. clear E2.
  induction fuel as [|fuel IH]; [done|]. cbn [find_info]. rewrite Hp. cbn [mbind result_bind n_inner].
  assert (in_range (mkNode s1 e2 (Children (mkNodePtr 1 0) (mkNodePtr 1 1))) address = true) as Hin.
  { unfold in_range. simpl. by rewrite (proj2 (Z.leb_le s1 address)), (proj2 (Z.leb_le address e2)) by lia. }
  rewrite Hin, Hp. cbn [mbind result_bind]. rewrite Hin. exact IH.
Qed.
End Ranges.

(** The two insertions on a concrete mapping, and an array that was given no
    capacity: the second push moves it, and the head of the tree dangles. *)
Lemma range_mapping_loops_witness :
  exists r0 r1 r2, init_with_capacity (MP := map_all) 2 ranges_new = Ok r0 /\
    add_range (MP := map_all) 1 4096 8191 64 r0 = Ok r1 /\
    add_range (MP := map_all) 1 12288 16383 128 r1 = Ok r2 /\
    range_get_page_info 100 r2 5000 = Err OutOfFuel.
Proof. apply (range_mapping_loops (MP := map_all)); (lia || reflexivity). Defined.

Lemma range_mapping_dangles :
  (r ← add_range (MP := map_all) 9 4096 8191 64 ranges_new;
   add_range (MP := map_all) 9 12288 16383 128 r) = Err (Fault 0).
Proof. reflexivity. Qed.
