(* ===== verification/Alloc.v ===== *)
(** * Filling caches: partial lists and superblocks

    Models [src/src/alloc.rs]: the list of partially used superblocks of a
    heap, the four ways of filling a cache bin, and [compute_index].  A
    function that takes [&mut cache] and [&mut block_num] returns both. *)
From S2P Require Import Prelude MemInfo SizeClasses Anchor Mem Bin HashMap State.
From S2P Require Import Pages Descriptor PageMap.

Section Alloc.
Context {KN : Kernel} {HZ : Hash Z} {BR : BitRange}.

(** ** The partial list of a heap *)
Definition set_partial_list (l : option Z) (h : ProcHeap) : ProcHeap :=
  mkHeap l h.(ph_size_class_index).

Definition list_pop_partial (heap : Z) : M State (option Z) :=
  h ← get_heap_at heap;
  match h.(partial_list) with
  | None => mret None
  | Some old_head =>
      old_desc ← unwrap (node_get_desc old_head) "called `Option::unwrap()` on a `None` value";
      d ← read_desc old_desc;
      new_head ← match d.(next_partial) with
                 | None => mret None
                 | Some node =>
                     desc ← unwrap (node_get_desc node) "called `Option::unwrap()` on a `None` value";
                     mret (Some (node_set (Some desc) (node_get_counter node)))
                 end;
      update_heap_at heap (set_partial_list new_head);;
      mret (Some old_desc)
  end.

Definition list_push_partial (desc : Z) : M State unit :=
  d ← read_desc desc;
  match d.(proc_heap) with
  | None => fail (Fault 0)
  | Some heap =>
      h ← get_heap_at heap;
      let old_head := h.(partial_list) in
      let new_head :=
        node_set (Some desc) (match old_head with
                              | None => 0
                              | Some n => node_get_counter n + 1
                              end) in
      update_desc desc (set_next_partial old_head);;
      update_heap_at heap (set_partial_list (Some new_head))
  end.

Definition heap_push_partial (desc : Z) : M State unit := list_push_partial desc.
Definition heap_pop_partial (heap : Z) : M State (option Z) := list_pop_partial heap.

(** ** [malloc_from_partial]

  It calls itself after it has retired an empty descriptor, which the call
  has taken off the list: [fuel] bounds the length of the list. *)
Fixpoint malloc_from_partial (fuel : nat) (size_class_index : Z)
    (cache : ThreadCacheBin) (bn : Z) : M State (ThreadCacheBin * Z) :=
  match fuel with
  | O => fail OutOfFuel
  | S fuel' =>
      desc ← heap_pop_partial size_class_index;
      match desc with
      | None => mret (cache, bn)
      | Some p =>
          d ← read_desc p;
          let old_anchor := d.(anchor) in
          state ← lift (anchor_state old_anchor);
          if bool_decide (state = EMPTY) then
            retire p;;
            malloc_from_partial fuel' size_class_index cache bn
          else
            update_desc p (set_anchor (take_anchor d.(max_count) old_anchor));;
            let blocks_taken := count old_anchor in
            let av := avail old_anchor in
            seg ← unwrap d.(super_block) "called `Option::unwrap()` on a `None` value";
            assertM (av <=? d.(max_count)) "Avail: {}, Count {}";;
            let b := seg.(seg_ptr) + av * d.(d_block_size) in
            assertM (bin_get_block_num cache =? 0) "assertion failed";;
            cache' ← lift (push_list cache b blocks_taken);
            mret (cache', usize (bn + 1))
      end
  end.

(** The number of descriptors bounds the length of a partial list. *)
Definition partial_fuel (s : State) : nat := S (size s.(st_descs)).

(** ** [malloc_from_new_sb] *)
Definition malloc_from_new_sb (size_class_index : Z) (cache : ThreadCacheBin) (bn : Z)
  : M State (ThreadCacheBin * Z) :=
  _ ← get_heap_at size_class_index;
  sc ← size_class size_class_index;
  desc ← desc_alloc;
  let bs := sc.(block_size) in
  let mc := get_block_num sc in
  update_desc desc (set_geometry (Some size_class_index) bs (u32 mc));;
  r ← with_os (allocate sc.(sb_size));
  update_desc desc (set_super_block (match r with inl seg => Some seg | inr _ => None end));;
  d ← read_desc desc;
  seg ← unwrap d.(super_block) "called `Option::unwrap()` on a `None` value";
  let sb := seg.(seg_ptr) in
  with_os (write_ptr (sb + (usize (bs * mc) - bs)) USIZE_MAX);;
  cache' ← lift (push_list cache sb (u32 mc));
  update_desc desc (set_anchor (new_anchor mc));;
  register_desc desc;;
  mret (cache', usize (bn + mc)).

(** ** [malloc_count_from_partial] and [malloc_count_from_new_sb] *)
Fixpoint push_blocks (sb bs : Z) (idxs : list Z) (cache : ThreadCacheBin) (bn : Z)
  : M State (ThreadCacheBin * Z) :=
  match idxs with
  | [] => mret (cache, bn)
  | i :: idxs' =>
      cache' ← with_os (push_block cache (sb + i * bs));
      push_blocks sb bs idxs' cache' (usize (bn + 1))
  end.

Definition malloc_count_from_partial (size_class_index : Z) (cache : ThreadCacheBin)
    (bn cnt : Z) : M State (ThreadCacheBin * Z) :=
  desc ← heap_pop_partial size_class_index;
  match desc with
  | None => mret (cache, bn)
  | Some p =>
      d ← read_desc p;
      let old_anchor := d.(anchor) in
      let av := avail old_anchor in
      let new_avail := if av + cnt <? d.(max_count) then av + cnt else d.(max_count) in
      state ← lift (anchor_state old_anchor);
      if bool_decide (state = EMPTY) then
        retire p;;
        s ← get;
        malloc_from_partial (partial_fuel s) size_class_index cache bn
      else
        update_desc p (set_anchor (take_anchor new_avail old_anchor));;
        assertM (av <=? d.(max_count)) "Avail: {}, Count {}";;
        seg ← unwrap d.(super_block) "called `Option::unwrap()` on a `None` value";
        push_blocks seg.(seg_ptr) d.(d_block_size) (range av new_avail) cache bn
  end.

Definition malloc_count_from_new_sb (size_class_index : Z) (cache : ThreadCacheBin)
    (bn cnt : Z) : M State (ThreadCacheBin * Z) :=
  _ ← get_heap_at size_class_index;
  sc ← size_class size_class_index;
  desc ← desc_alloc;
  let bs := sc.(block_size) in
  let mc := get_block_num sc in
  let c := Z.min mc cnt in
  update_desc desc (set_geometry (Some size_class_index) bs (u32 mc));;
  r ← with_os (allocate (usize (bs * c)));
  update_desc desc (set_super_block (match r with inl seg => Some seg | inr _ => None end));;
  d ← read_desc desc;
  seg ← unwrap d.(super_block) "called `Option::unwrap()` on a `None` value";
  let sb := seg.(seg_ptr) in
  with_os (write_ptr (sb + (usize (bs * c) - bs)) USIZE_MAX);;
  cache' ← lift (push_list cache sb (u32 c));
  update_desc desc (set_anchor (new_anchor c));;
  register_desc desc;;
  mret (cache', usize (bn + mc)).

(** ** [compute_index]

  The macro [size_classes_match!] divides by the block size of the class as a
  constant; it panics when no class has the index. *)
Definition block_index (sb b bs : Z) : Z := u32 (u32 b - u32 sb) / bs.

Definition compute_index (sb b size_class_index : Z) : M State Z :=
  _ ← size_class size_class_index;
  match small_blocks !! Z.to_nat (size_class_index - 1) with
  | Some bs => if 1 <=? size_class_index then mret (block_index sb b bs)
               else fail (Panic "No size class found")
  | None => fail (Panic "No size class found")
  end.
End Alloc.

(** ** Correctness of [malloc_from_new_sb] *)
Lemma update_desc_ok s p f d :
  s.(st_descs) !! p = Some d ->
  update_desc p f s = Ok (tt, set_descs (<[p := f d]> s.(st_descs)) s).
Proof. intros H. unfold update_desc. by rewrite H. Qed.

Lemma read_desc_ok s p d : s.(st_descs) !! p = Some d -> read_desc p s = Ok (d, s).
Proof. intros H. unfold read_desc. by rewrite H. Qed.

(** The partial list of every heap is empty: nothing is taken from it. *)
Lemma malloc_from_partial_empty {KN : Kernel} {BR : BitRange} s i cache bn fuel :
  heaps_empty s -> 0 <= i < MAX_SZ_IDX ->
  malloc_from_partial (S fuel) i cache bn s = Ok ((cache, bn), s).
Proof.
  intros Hh Hi. cbn [malloc_from_partial]. unfold heap_pop_partial, list_pop_partial.
  rewrite bind_assoc. by rewrite (bind_Ok _ _ _ _ _ (get_heap_at_ok s i Hh Hi)).
Qed.

Section NewSuperblock.
Context {KN : Kernel} {HZ : Hash Z} {BR : BitRange}.

(** What the two functions share: a new superblock of class [i] with a segment
    of [len] bytes and [n] blocks for the bin. *)
Definition take_new_sb (i : Z) (len n : SizeClassData -> Z) (cache : ThreadCacheBin) (bn : Z)
    : M State (ThreadCacheBin * Z) :=
  _ ← get_heap_at i;
  sc ← size_class i;
  desc ← desc_alloc;
  let bs := sc.(block_size) in
  let mc := get_block_num sc in
  let c := n sc in
  update_desc desc (set_geometry (Some i) bs (u32 mc));;
  r ← with_os (allocate (len sc));
  update_desc desc (set_super_block (match r with inl seg => Some seg | inr _ => None end));;
  d ← read_desc desc;
  seg ← unwrap d.(super_block) "called `Option::unwrap()` on a `None` value";
  let sb := seg.(seg_ptr) in
  with_os (write_ptr (sb + (usize (bs * c) - bs)) USIZE_MAX);;
  cache' ← lift (push_list cache sb (u32 c));
  update_desc desc (set_anchor (new_anchor c));;
  register_desc desc;;
  mret (cache', usize (bn + mc)).

Lemma malloc_from_new_sb_take i cache bn :
  malloc_from_new_sb i cache bn = take_new_sb i sb_size get_block_num cache bn.
Proof. reflexivity. Qed.

Lemma malloc_count_from_new_sb_take i cache bn cnt :
  malloc_count_from_new_sb i cache bn cnt =
  take_new_sb i (λ sc, usize (sc.(block_size) * Z.min (get_block_num sc) cnt))
    (λ sc, Z.min (get_block_num sc) cnt) cache bn.
Proof. reflexivity. Qed.

(** What a new superblock of class [i] (entry [c]) changes: [s1] is the state
    in which the descriptor [p] has been obtained, [seg] the new segment, of
    [len] bytes and with [n] blocks.  The pages of a whole superblock are
    registered. *)
Record sb_post (i : Z) (c : SizeClassData) (len n p : Z) (seg : Segment)
    (s1 s' : State) : Prop := {
  sbp_len : seg.(seg_len) = len;
  sbp_fresh : fresh_segment s1.(st_os) seg;
  sbp_os : s'.(st_os) =
    mkOs (store 8 (zero_range s1.(st_os).(mem) seg.(seg_ptr) (page_span seg.(seg_len)))
            (seg.(seg_ptr) + (n - 1) * c.(block_size)) USIZE_MAX)
         (seg :: s1.(st_os).(segs)) (S s1.(st_os).(calls));
  sbp_desc : exists d, s'.(st_descs) !! p = Some d /\ d.(super_block) = Some seg /\
    d.(proc_heap) = Some i /\ d.(d_block_size) = c.(block_size) /\ d.(max_count) = c.(block_num);
  sbp_frame : forall a, a <> p -> s'.(st_descs) !! a = s1.(st_descs) !! a;
  sbp_page_map : exists m m', s1.(st_page_map) = Some m /\ s'.(st_page_map) = Some m' /\
    (seg.(seg_ptr) + c.(sb_size) <= ADDR_LIMIT ->
     pages_set m m' seg.(seg_ptr) (c.(sb_size) / PAGE) p);
  sbp_rest : s'.(st_sizes) = s1.(st_sizes) /\ s'.(st_heaps) = s1.(st_heaps) /\
    s'.(st_avail) = s1.(st_avail) /\ s'.(st_size_map) = s1.(st_size_map);
}.

Lemma class_sizes target c :
  class_ok target c -> 8 <= c.(block_size) ->
  0 < c.(block_num) < 2 ^ 32 - 1 /\ c.(block_num) * c.(block_size) < 2 ^ 32.
Proof. intros [H1 H2 H3 H4 _ _] H8. change MAX_SZ with 14336 in H1. nia. Qed.

Lemma take_new_sb_ok target s free i c len n cache bn :
  desc_inv s.(st_descs) s.(st_avail) free ->
  (forall b, is_Some (s.(st_descs) !! b) -> desc_home s.(st_os).(segs) b) ->
  pages_ok s -> Z.of_nat s.(st_os).(calls) < CALLS_LIMIT ->
  heaps_empty s -> is_Some s.(st_page_map) -> 0 <= i < MAX_SZ_IDX ->
  size_class_at s.(st_sizes) i = Ok c -> class_ok target c -> 8 <= c.(block_size) ->
  0 < n c <= c.(block_num) -> n c * c.(block_size) <= len c ->
  0 <= cache.(bin_block_num) -> 0 <= bn < 2 ^ 32 ->
  (exists p seg s1 s' free', cache.(bin_block_num) = 0 /\
     take_new_sb i len n cache bn s =
       Ok ((mkBin seg.(seg_ptr) (n c) cache.(bin_block_size), bn + c.(block_num)), s') /\
     desc_alloc_post s free p s1 free' /\ sb_post i c (len c) (n c) p seg s1 s') \/
  (exists msg, take_new_sb i len n cache bn s = Err (Panic msg) /\
     (0 < cache.(bin_block_num) \/ refused s.(st_os) DESCRIPTOR_BLOCK_SZ false \/
      exists p s1 free', desc_alloc_post s free p s1 free' /\ refused s1.(st_os) (len c) false)).
Proof.
  intros Hdi Hhome Hpo Hcalls Hheaps [m Hm] Hi Hc Hok H8 Hn Hlen Hcn Hbn.
  destruct (class_sizes target c Hok H8) as [Hmc Hsz].
  assert (Ec : forall s0, st_sizes s0 = st_sizes s -> size_class i s0 = Ok (c, s0)).
  { intros s0 E. unfold size_class. by rewrite E, Hc. }
  unfold take_new_sb. rewrite (bind_Ok _ _ _ _ _ (get_heap_at_ok s i Hheaps Hi)).
  rewrite (bind_Ok _ _ _ _ _ (Ec s eq_refl)).
  destruct (desc_alloc_ok s free Hdi Hhome Hpo Hcalls) as [(p & s1 & free' & Ed & Hdap)|[Hr Ed]].
  2:{ right. eexists. split; [by rewrite (bind_Err _ _ _ _ Ed)|by right; left]. }
  rewrite (bind_Ok _ _ _ _ _ Ed). cbv zeta.
  destruct (dap_some _ _ _ _ _ Hdap) as [d Hd].
  rewrite (bind_Ok _ _ _ _ _ (update_desc_ok _ _ _ _ Hd)).
  set (s2 := set_descs _ s1). unfold allocate.
  destruct (map_segment_cases (len c) false (st_os s2)) as [(seg & o' & Em & Hl & Hg)|(e & Em & Hr)];
    rewrite (bind_Ok _ _ _ _ _ (zoom_Ok st_os set_os _ s2 _ _ Em));
    erewrite bind_Ok by (apply update_desc_ok; simpl; apply lookup_insert_eq);
    erewrite bind_Ok by (apply read_desc_ok; simpl; apply lookup_insert_eq).
  2:{ right. eexists. split; [reflexivity|]. right; right. by exists p, s1, free'. }
  cbn [super_block set_super_block unwrap]. rewrite bind_mret.
  destruct Hg as [[F1 F2 F3 F4 F5] Eo].
  destruct Hok as [K1 K2 K3 K4 K5 K6]. unfold get_block_num in *.
  pose proof (page_span_ge (seg_len seg)) as Hspan.
  change ADDR_LIMIT with (2 ^ 48) in *.
  rewrite (usize_small (block_size c * n c)) by nia.
  replace (seg_ptr seg + (block_size c * n c - block_size c))
    with (seg_ptr seg + (n c - 1) * block_size c) by lia.
  erewrite bind_Ok.
  2:{ apply zoom_Ok. apply write_ptr_ok. simpl. rewrite Eo. simpl.
      apply mapped_true. exists seg. split; [left|]. nia. }
  unfold push_list. destruct (Z.gtb_spec (bin_block_num cache) 0) as [Hgt|Hle].
  { right. eexists. split; [by apply bind_Err|by left]. }
  assert (Hz : bin_block_num cache = 0) by lia. left. rewrite (u32_small (n c)) by lia.
  erewrite bind_Ok by reflexivity.
  erewrite bind_Ok by (apply update_desc_ok; simpl; apply lookup_insert_eq).
  unfold register_desc. rewrite bind_assoc.
  erewrite bind_Ok by (apply read_desc_ok; simpl; apply lookup_insert_eq).
  cbn [super_block set_super_block set_anchor unwrap proc_heap set_geometry].
  rewrite bind_assoc, bind_mret.
  destruct (dap_rest _ _ _ _ _ Hdap) as (R1 & R2 & R3).
  match goal with |- context [(update_page_map _ _ _ _ ≫= _) ?t] =>
    destruct (update_page_map_total t m i c (seg_ptr seg) (Some p)) as (m' & Eu & Hm')
  end.
  { unfold heaps_empty in *. cbn. by rewrite R3. }
  { cbn. by rewrite R2. }
  { done. } { cbn. by rewrite R1. } { done. } { lia. } { lia. } { done. }
  rewrite (bind_Ok _ _ _ _ _ Eu). rewrite usize_small by lia.
  destruct (desc_addr_ok _ _ _ (dap_inv _ _ _ _ _ Hdap) p (dap_some _ _ _ _ _ Hdap)) as [Hp64 Hpd].
  destruct (page_info_set_ptr_desc p) as [Ei _]; [lia|done|]. simpl in Hm'. rewrite Ei in Hm'.
  eexists p, seg, s1, _, free'. split; [done|]. split; [reflexivity|]. split; [done|].
  split; simpl; try done.
  - rewrite Eo. simpl. by rewrite Hl.
  - eexists. split; [by rewrite lookup_insert_eq|]. by rewrite u32_small by lia.
  - intros a Hne. by rewrite !lookup_insert_ne.
  - exists m, m'. split; [by rewrite R2|]. by split.
Qed.

(** What a new superblock of class [i] (entry [c]) changes: [s1] is the state
    in which the descriptor [p] has been obtained, [seg] the new segment. *)
Record new_sb_post (i : Z) (c : SizeClassData) (p : Z) (seg : Segment)
    (s1 s' : State) : Prop := {
  nsb_len : seg.(seg_len) = c.(sb_size);
  nsb_fresh : fresh_segment s1.(st_os) seg;
  nsb_os : s'.(st_os) =
    mkOs (store 8 (zero_range s1.(st_os).(mem) seg.(seg_ptr) (page_span seg.(seg_len)))
            (seg.(seg_ptr) + (c.(block_num) - 1) * c.(block_size)) USIZE_MAX)
         (seg :: s1.(st_os).(segs)) (S s1.(st_os).(calls));
  nsb_desc : exists d, s'.(st_descs) !! p = Some d /\ d.(super_block) = Some seg /\
    d.(proc_heap) = Some i /\ d.(d_block_size) = c.(block_size) /\ d.(max_count) = c.(block_num);
  nsb_frame : forall a, a <> p -> s'.(st_descs) !! a = s1.(st_descs) !! a;
  nsb_page_map : exists m m', s1.(st_page_map) = Some m /\ s'.(st_page_map) = Some m' /\
    pages_set m m' seg.(seg_ptr) (c.(sb_size) / PAGE) p;
  nsb_rest : s'.(st_sizes) = s1.(st_sizes) /\ s'.(st_heaps) = s1.(st_heaps) /\
    s'.(st_avail) = s1.(st_avail) /\ s'.(st_size_map) = s1.(st_size_map);
}.

Lemma malloc_from_new_sb_ok target s free i c cache bn :
  desc_inv s.(st_descs) s.(st_avail) free ->
  (forall b, is_Some (s.(st_descs) !! b) -> desc_home s.(st_os).(segs) b) ->
  pages_ok s -> Z.of_nat s.(st_os).(calls) < CALLS_LIMIT ->
  heaps_empty s -> is_Some s.(st_page_map) -> 0 <= i < MAX_SZ_IDX ->
  size_class_at s.(st_sizes) i = Ok c -> class_ok target c -> 8 <= c.(block_size) ->
  cache.(bin_block_num) = 0 -> 0 <= bn < 2 ^ 32 ->
  (exists p seg s1 s' free',
     malloc_from_new_sb i cache bn s =
       Ok ((mkBin seg.(seg_ptr) c.(block_num) cache.(bin_block_size), bn + c.(block_num)), s') /\
     desc_alloc_post s free p s1 free' /\ new_sb_post i c p seg s1 s') \/
  (exists msg, malloc_from_new_sb i cache bn s = Err (Panic msg) /\
     (refused s.(st_os) DESCRIPTOR_BLOCK_SZ false \/
      exists p s1 free', desc_alloc_post s free p s1 free' /\
        refused s1.(st_os) c.(sb_size) false)).
Proof.
  intros Hdi Hhome Hpo Hcalls Hheaps Hm Hi Hc Hok H8 Hcn Hbn. rewrite malloc_from_new_sb_take.
  destruct (class_sizes target c Hok H8) as [Hmc _]. pose proof Hok as [K1 K2 K3 K4 K5 K6].
  destruct (take_new_sb_ok target s free i c sb_size get_block_num cache bn)
    as [(p & seg & s1 & s' & free' & _ & E & Hd & Hp)|(msg & E & [H|H])]; try done; unfold get_block_num in *; try lia.
  2: { right. by exists msg. }
  left. exists p, seg, s1, s', free'. split; [exact E|]. split; [done|].
  destruct Hp as [P1 P2 P3 P4 P5 (m1 & m2 & P6 & P7 & P8) P9]. split; try done.
  exists m1, m2. split; [done|]. split; [done|]. apply P8.
  destruct P2 as [_ _ _ F _]. rewrite P1 in F. pose proof (page_span_ge (sb_size c)). lia.
Qed.
End NewSuperblock.
