(* ===== verification/ThreadCache.v ===== *)
(** * Thread caches

    Models the functions of [src/src/thread_cache.rs] on whole bins
    ([fill_cache], [flush_cache], and [check], [fetch] and [ret], which the
    tuners call) and the thread-local variables. *)
From S2P Require Import Prelude MemInfo SizeClasses Anchor Mem Bin HashMap State.
From S2P Require Import Pages Descriptor PageMap Alloc.

Section ThreadCache.
Context {KN : Kernel} {HZ : Hash Z} {BR : BitRange}.

Definition fill_cache (size_class_index : Z) (cache : ThreadCacheBin)
  : M State ThreadCacheBin :=
  s ← get;
  '(cache, bn) ← malloc_from_partial (partial_fuel s) size_class_index cache 0;
  '(cache, bn) ← (if bn =? 0 then malloc_from_new_sb size_class_index cache bn
                  else mret (cache, bn));
  if (bn =? 0) || (cache.(bin_block_num) =? 0)
  then fail (Panic "Didn't allocate any blocks to the cache")
  else
    sc ← size_class size_class_index;
    mret (mkBin cache.(block) cache.(bin_block_num) (Some sc.(block_size))).

(** ** [flush_cache]

  The inner loop follows at most [block_num] links, and every turn of the
  outer loop takes at least one block off the bin: [block_num] bounds both. *)
Fixpoint flush_tail (fuel : nat) (cache : ThreadCacheBin) (sb sb_end tail block_count : Z)
  : M State (Z * Z) :=
  if bin_get_block_num cache >? block_count then
    match fuel with
    | O => fail OutOfFuel
    | S fuel' =>
        ptr ← with_os (read_ptr tail);
        if (ptr <? sb) || (sb_end <=? ptr) then mret (tail, block_count)
        else flush_tail fuel' cache sb sb_end ptr (block_count + 1)
    end
  else mret (tail, block_count).

(** One turn of the outer loop; [None] is the early [return]. *)
Definition flush_step (size_class_index : Z) (sc : SizeClassData) (cache : ThreadCacheBin)
  : M State (option ThreadCacheBin) :=
  let head := peek_block cache in
  info ← get_page_info_for_ptr head;
  match page_info_get_desc info with
  | None => mret None
  | Some desc =>
      d ← read_desc desc;
      seg ← unwrap d.(super_block) "called `Option::unwrap()` on a `None` value";
      let sb := seg.(seg_ptr) in
      '(tail, block_count) ←
        flush_tail (Z.to_nat (bin_get_block_num cache)) cache sb (sb + sc.(sb_size)) head 1;
      next ← with_os (read_ptr tail);
      cache ← lift (pop_list cache next block_count);
      index ← compute_index sb head size_class_index;
      let old_anchor := d.(anchor) in
      with_os (write_ptr tail (sb + avail old_anchor * sc.(block_size)));;
      old_state ← lift (anchor_state old_anchor);
      let new_anchor := flush_anchor d.(max_count) index block_count old_state old_anchor in
      update_desc desc (set_anchor new_anchor);;
      new_state ← lift (anchor_state new_anchor);
      (if bool_decide (new_state = EMPTY) then
         unregister_desc (Some size_class_index) seg;;
         update_desc desc (set_super_block None);;
         _ ← with_os (deallocate seg);
         mret tt
       else if bool_decide (old_state = FULL) then heap_push_partial desc
       else mret tt);;
      mret (Some cache)
  end.

Fixpoint flush_loop (fuel : nat) (size_class_index : Z) (sc : SizeClassData)
    (cache : ThreadCacheBin) : M State (ThreadCacheBin * bool) :=
  if bin_get_block_num cache >? 0 then
    match fuel with
    | O => fail OutOfFuel
    | S fuel' =>
        r ← flush_step size_class_index sc cache;
        match r with
        | None => mret (cache, false)
        | Some cache' => flush_loop fuel' size_class_index sc cache'
        end
    end
  else mret (cache, true).

Definition flush_cache (size_class_index : Z) (cache : ThreadCacheBin)
  : M State ThreadCacheBin :=
  _ ← get_heap_at size_class_index;
  sc ← size_class size_class_index;
  '(cache, finished) ←
    flush_loop (Z.to_nat (bin_get_block_num cache)) size_class_index sc cache;
  mret (if (finished : bool) then mkBin cache.(block) cache.(bin_block_num) None else cache).

(** ** The operations given to the tuners, on the bin of their class *)
Definition check (cache : ThreadCacheBin) : Z := bin_get_block_num cache.

(** [while block_num < count { malloc_count_from_new_sb(..) }]: each turn adds
  at least one to [block_num]. *)
Fixpoint fetch_loop (fuel : nat) (size_class_index cnt : Z) (cache : ThreadCacheBin) (bn : Z)
  : M State ThreadCacheBin :=
  if bn <? cnt then
    match fuel with
    | O => fail OutOfFuel
    | S fuel' =>
        '(cache', bn') ← malloc_count_from_new_sb size_class_index cache bn cnt;
        fetch_loop fuel' size_class_index cnt cache' bn'
    end
  else mret cache.

Definition fetch (size_class_index cnt : Z) (cache : ThreadCacheBin)
  : M State ThreadCacheBin :=
  '(cache, bn) ← malloc_count_from_partial size_class_index cache 0 cnt;
  fetch_loop (Z.to_nat cnt) size_class_index cnt cache bn.

Fixpoint pop_blocks (n : nat) (cache : ThreadCacheBin) : M State ThreadCacheBin :=
  match n with
  | O => mret cache
  | S n' => '(_, cache') ← with_os (pop_block cache); pop_blocks n' cache'
  end.

Definition ret (cnt : Z) (cache : ThreadCacheBin) : M State ThreadCacheBin :=
  assertM (cnt <=? bin_get_block_num cache) "Trying to pop return more blocks than in cache";;
  pop_blocks (Z.to_nat cnt) cache.

(** ** [Drop for ThreadCache]: every bin whose block size is known is flushed.
  The thread-local bins are in a plain array, which has no destructor: no
  thread runs this function. *)
Fixpoint thread_cache_drop (bins : list ThreadCacheBin) : M State (list ThreadCacheBin) :=
  match bins with
  | [] => mret []
  | bin :: bins' =>
      bin ← match bin.(bin_block_size) with
            | Some sz =>
                s ← get; flush_cache (get_size_class s.(st_sizes) sz) bin
            | None => mret bin
            end;
      rest ← thread_cache_drop bins';
      mret (bin :: rest)
  end.
End ThreadCache.

(** ** Correctness of [fill_cache] when nothing has been flushed

    The bin gets all the blocks of a new superblock, as a list that starts with
    its first block. *)
Section FillCache.
Context {KN : Kernel} {HZ : Hash Z} {BR : BitRange}.

Lemma fill_cache_ok target s free i c cache :
  desc_inv s.(st_descs) s.(st_avail) free ->
  (forall b, is_Some (s.(st_descs) !! b) -> desc_home s.(st_os).(segs) b) ->
  pages_ok s -> Z.of_nat s.(st_os).(calls) < CALLS_LIMIT ->
  heaps_empty s -> is_Some s.(st_page_map) -> 0 <= i < MAX_SZ_IDX ->
  size_class_at s.(st_sizes) i = Ok c -> class_ok target c -> 8 <= c.(block_size) ->
  cache.(bin_block_num) = 0 ->
  (exists p seg s1 s' free',
     fill_cache i cache s =
       Ok (mkBin seg.(seg_ptr) c.(block_num) (Some c.(block_size)), s') /\
     desc_alloc_post s free p s1 free' /\ new_sb_post i c p seg s1 s') \/
  (exists msg, fill_cache i cache s = Err (Panic msg) /\
     (refused s.(st_os) DESCRIPTOR_BLOCK_SZ false \/
      exists p s1 free', desc_alloc_post s free p s1 free' /\
        refused s1.(st_os) c.(sb_size) false)).
Proof.
  intros Hdi Hhome Hpo Hcalls Hheaps Hm Hi Hc Hok H8 Hcn.
  unfold fill_cache. rewrite bind_get. unfold partial_fuel.
  rewrite (bind_Ok _ _ _ _ _ (malloc_from_partial_empty s i cache 0 _ Hheaps Hi)).
  cbv beta iota. rewrite Z.eqb_refl.
  destruct (malloc_from_new_sb_ok target s free i c cache 0) as
    [(p & seg & s1 & s' & free' & E & Hd & Hp)|(msg & E & Hr)]; try done.
  - left. exists p, seg, s1, s', free'. rewrite (bind_Ok _ _ _ _ _ E). cbv beta iota.
    destruct (class_sizes target c Hok H8) as [Hn _]. cbn [bin_block_num].
    destruct (Z.eqb_spec (0 + block_num c) 0); [lia|].
    destruct (Z.eqb_spec (block_num c) 0); [lia|]. cbn [orb].
    assert (Ec : size_class i s' = Ok (c, s')).
    { unfold size_class. destruct (nsb_rest _ _ _ _ _ _ Hp) as (-> & _).
      destruct (dap_rest _ _ _ _ _ Hd) as (-> & _). by rewrite Hc. }
    rewrite (bind_Ok _ _ _ _ _ Ec). done.
  - right. exists msg. by rewrite (bind_Err _ _ _ _ E).
Qed.
End FillCache.
