(* ===== verification/SuperBlock.v ===== *)
(** * A superblock under concurrency

    [ThreadCache] and [Alloc] model [flush_cache] ([src/src/thread_cache.rs]) and
    [malloc_from_partial] ([src/src/alloc.rs]) as calls that run alone.  Here
    what they do to the anchor of one superblock is split into atomic
    operations (loads of the anchor, the store of the link of the last block, the
    compare-and-exchange, which may fail spuriously when it is weak, the release
    of the superblock, the push to the partial list), and the operations of any
    number of threads interleave.

    A block that is in the bin of a thread or that a client uses is [held]; its
    first word may be written at any time, and any list of held blocks that
    their links make may be given back.  This is more than threads do:
    [ThreadBins] has the bins, with the walk of [flush_cache] that finds a
    batch, and every step of its threads is one of the steps here.  The partial
    list is a flag, with atomic push and pop: [PartialList] is about their
    inside.  Unregistering and unmapping a superblock is one operation.  The
    anchors are those of the sequential model ([take_anchor], [flush_anchor]). *)
From S2P Require Import Prelude MemInfo Anchor Alloc.

(** The fields of the descriptor that do not change while it is in use. *)
Record Geometry : Type := mkGeometry {
  g_super_block : Z;
  g_block_size : Z;
  g_max_count : Z;
  g_sb_size : Z;               (* [sb_size] of the size class *)
}.

Record Sb : Type := mkSb {
  sb_anchor : Z;               (* [desc.anchor] *)
  sb_super : option Z;         (* [desc.super_block] *)
  sb_link : gmap Z Z;          (* the first word of a block; fresh memory is zero *)
  sb_listed : bool;            (* the descriptor is in the partial list *)
  sb_retired : bool;           (* the descriptor has been retired *)
  sb_held : gset Z;
}.

(** ** Where a thread is

    [batch]: the blocks from [head] to [tail].  The blocks of [TakeBlocks] are not
    a variable of the code: they are those that the bin is about to get. *)
Inductive SPc : Type :=
  | SIdle
  | FlushLoad (super_block : Z) (batch : list Z)
  | FlushLink (super_block : Z) (batch : list Z) (old_anchor : Z)
  | FlushCas (super_block : Z) (batch : list Z) (old_anchor : Z)
  | FlushRelease                      (* the new anchor is [EMPTY] *)
  | FlushPush                         (* the old anchor was [FULL] *)
  | TakeLoad                          (* the descriptor has been popped *)
  | TakeCas (old_anchor : Z)
  | TakeRetire                        (* the anchor is [EMPTY] *)
  | TakeBlocks (old_anchor : Z) (taken : list Z).

(** What a step tells the outside: blocks given back, blocks given back that
    were the last ones, blocks taken, memory unmapped. *)
Inductive SEvent : Type :=
  | Flushed (batch : list Z)
  | Emptied (batch : list Z)
  | Took (blocks : list Z)
  | Unmapped (super_block : Z).

Definition word (link : gmap Z Z) (b : Z) : Z := default 0 (link !! b).

(** The [n] blocks from [b] on. *)
Fixpoint follow (link : gmap Z Z) (b : Z) (n : nat) : list Z :=
  match n with
  | O => []
  | S n' => b :: follow link (word link b) n'
  end.

Section SuperBlock.
Context {BR : BitRange} (g : Geometry).

Definition block_at (super_block i : Z) : Z := super_block + i * g.(g_block_size).
Definition blocks_of (super_block : Z) : list Z :=
  block_at super_block <$> range 0 g.(g_max_count).

(** The blocks that the old anchor counts. *)
Definition counted (s : Sb) (super_block old_anchor : Z) : list Z :=
  follow s.(sb_link) (block_at super_block (avail old_anchor)) (Z.to_nat (count old_anchor)).

(** One atomic operation of a thread in [flush_cache]; [weak] is a spurious failure
    of [compare_exchange_weak]. *)
Definition flush_go (weak : bool) (s : Sb) (pc : SPc) : result (Sb * SPc * option SEvent) :=
  match pc with
  | FlushLoad sb batch => Ok (s, FlushLink sb batch s.(sb_anchor), None)
  | FlushLink sb batch old =>
      let next := block_at sb (avail old) in
      Ok (mkSb s.(sb_anchor) s.(sb_super) (<[default 0 (last batch) := next]> s.(sb_link))
            s.(sb_listed) s.(sb_retired) s.(sb_held), FlushCas sb batch old, None)
  | FlushCas sb batch old =>
      old_state ← anchor_state old;
      let index := block_index sb (default 0 (head batch)) g.(g_block_size) in
      let new := flush_anchor g.(g_max_count) index (Z.of_nat (length batch)) old_state old in
      if negb weak && (s.(sb_anchor) =? old) then
        let s' := mkSb new s.(sb_super) s.(sb_link) s.(sb_listed) s.(sb_retired) s.(sb_held) in
        new_state ← anchor_state new;
        if bool_decide (new_state = EMPTY) then Ok (s', FlushRelease, Some (Emptied batch))
        else Ok (s', if bool_decide (old_state = FULL) then FlushPush else SIdle,
                 Some (Flushed batch))
      else Ok (s, FlushLoad sb batch, None)
  | FlushRelease =>
      match s.(sb_super) with
      | None => Err (Panic "called `Option::unwrap()` on a `None` value")
      | Some sb =>
          Ok (mkSb s.(sb_anchor) None s.(sb_link) s.(sb_listed) s.(sb_retired) s.(sb_held),
              SIdle, Some (Unmapped sb))
      end
  | FlushPush =>
      Ok (mkSb s.(sb_anchor) s.(sb_super) s.(sb_link) true s.(sb_retired) s.(sb_held), SIdle, None)
  | _ => Ok (s, pc, None)
  end.

(** One atomic operation of a thread in [malloc_from_partial]. *)
Definition take_go (s : Sb) (pc : SPc) : result (Sb * SPc * option SEvent) :=
  match pc with
  | TakeLoad => Ok (s, TakeCas s.(sb_anchor), None)
  | TakeCas old =>
      state ← anchor_state old;
      if bool_decide (state = EMPTY) then Ok (s, TakeRetire, None)
      else if s.(sb_anchor) =? old then
        let taken := counted s (default 0 s.(sb_super)) old in
        Ok (mkSb (take_anchor g.(g_max_count) old) s.(sb_super) s.(sb_link) s.(sb_listed)
              s.(sb_retired) s.(sb_held), TakeBlocks old taken, Some (Took taken))
      else Ok (s, TakeCas old, None)
  | TakeRetire =>
      Ok (mkSb s.(sb_anchor) s.(sb_super) s.(sb_link) s.(sb_listed) true s.(sb_held), SIdle, None)
  | TakeBlocks old _ =>
      match s.(sb_super) with
      | None => Err (Panic "called `Option::unwrap()` on a `None` value")
      | Some sb =>
          if avail old <=? g.(g_max_count) then
            Ok (mkSb s.(sb_anchor) s.(sb_super) s.(sb_link) s.(sb_listed) s.(sb_retired)
                  (list_to_set (counted s sb old) ∪ s.(sb_held)), SIdle, None)
          else Err (Panic "Avail: {}, Count {}")
      end
  | _ => Ok (s, pc, None)
  end.

Definition sb_go (weak : bool) (s : Sb) (pc : SPc) : result (Sb * SPc * option SEvent) :=
  match pc with
  | TakeLoad | TakeCas _ | TakeRetire | TakeBlocks _ _ => take_go s pc
  | _ => flush_go weak s pc
  end.

(** ** Interleavings

    With [reuse], a descriptor that has been retired may come back with a new
    superblock ([malloc_from_new_sb]).  [sstep_flush]: the page map leads from
    [head] to the descriptor, and the links lead from it to [n] more blocks.
    [sstep_other]: a store to memory that is not of the superblock. *)
Definition new_sb (super_block : Z) (held : gset Z) (link : gmap Z Z) (listed : bool) : Sb :=
  mkSb (new_anchor g.(g_max_count)) (Some super_block) link listed false
    (list_to_set (blocks_of super_block) ∪ held).

Inductive sstep (reuse : bool) : Sb * list SPc -> option SEvent -> Sb * list SPc -> Prop :=
  | sstep_write s pcs b w :
      b ∈ s.(sb_held) ->
      sstep reuse (s, pcs) None
        (mkSb s.(sb_anchor) s.(sb_super) (<[b := w]> s.(sb_link)) s.(sb_listed) s.(sb_retired)
           s.(sb_held), pcs)
  | sstep_other s pcs b w :
      b ∉ blocks_of g.(g_super_block) ->
      sstep reuse (s, pcs) None
        (mkSb s.(sb_anchor) s.(sb_super) (<[b := w]> s.(sb_link)) s.(sb_listed) s.(sb_retired)
           s.(sb_held), pcs)
  | sstep_flush s pcs t sb head n :
      pcs !! t = Some SIdle -> s.(sb_super) = Some sb ->
      let batch := follow s.(sb_link) head (S n) in
      NoDup batch -> Forall (λ b, b ∈ s.(sb_held)) batch ->
      sstep reuse (s, pcs) None
        (mkSb s.(sb_anchor) s.(sb_super) s.(sb_link) s.(sb_listed) s.(sb_retired)
           (s.(sb_held) ∖ list_to_set batch), <[t := FlushLoad sb batch]> pcs)
  | sstep_pop s pcs t :
      pcs !! t = Some SIdle -> s.(sb_listed) = true ->
      sstep reuse (s, pcs) None
        (mkSb s.(sb_anchor) s.(sb_super) s.(sb_link) false s.(sb_retired) s.(sb_held),
         <[t := TakeLoad]> pcs)
  | sstep_new s pcs sb :
      reuse = true -> s.(sb_retired) = true ->
      Forall (λ b, b ∉ s.(sb_held)) (blocks_of sb) ->
      sstep reuse (s, pcs) None (new_sb sb s.(sb_held) s.(sb_link) s.(sb_listed), pcs)
  | sstep_go s pcs t pc weak s' pc' e :
      pcs !! t = Some pc -> sb_go weak s pc = Ok (s', pc', e) ->
      sstep reuse (s, pcs) e (s', <[t := pc']> pcs).

Inductive sreach (reuse : bool) (start : Sb * list SPc) : list SEvent -> Sb * list SPc -> Prop :=
  | sreach_start : sreach reuse start [] start
  | sreach_step tr c e c' :
      sreach reuse start tr c -> sstep reuse c e c' ->
      sreach reuse start (tr ++ option_list e) c'.

(** A superblock that [malloc_from_new_sb] has made: all its blocks are in a bin. *)
Definition s_start (threads : nat) : Sb * list SPc :=
  (new_sb g.(g_super_block) ∅ ∅ false, replicate threads SIdle).
End SuperBlock.

(** ** The atomic superblock

    Blocks are given back in batches, and a batch takes the place of the one
    before it; taking gives the last batch.  When the batch and the one before
    it are all the blocks, the superblock is unmapped, once. *)
Inductive Slot : Type :=
  | SFull
  | SPartial (free : list Z)
  | SEmpty
  | SGone.

Definition slot_free (k : Slot) : option (list Z) :=
  match k with
  | SFull => Some []
  | SPartial l => Some l
  | SEmpty | SGone => None
  end.

Definition slot_state (k : Slot) : SuperBlockState :=
  match k with SFull => FULL | SPartial _ => PARTIAL | SEmpty | SGone => EMPTY end.

Inductive slot_step (g : Geometry) : Slot -> SEvent -> Slot -> Prop :=
  | slot_flush k l b :
      slot_free k = Some l -> Z.of_nat (length l + length b) <> g.(g_max_count) ->
      slot_step g k (Flushed b) (SPartial b)
  | slot_empty k l b :
      slot_free k = Some l -> Z.of_nat (length l + length b) = g.(g_max_count) ->
      slot_step g k (Emptied b) SEmpty
  | slot_take l : slot_step g (SPartial l) (Took l) SFull
  | slot_unmap : slot_step g SEmpty (Unmapped g.(g_super_block)) SGone.

Inductive slot_runs (g : Geometry) : list SEvent -> Slot -> Prop :=
  | slot_nil : slot_runs g [] SFull
  | slot_snoc tr k e k' :
      slot_runs g tr k -> slot_step g k e k' -> slot_runs g (tr ++ [e]) k'.

(** ** The invariant *)
Record geometry_ok (g : Geometry) : Prop := {
  go_max : 0 < g.(g_max_count) < 2 ^ 30;
  go_bs : 0 < g.(g_block_size);
  go_size : g.(g_max_count) * g.(g_block_size) < 2 ^ 32;
  go_fit : g.(g_max_count) * g.(g_block_size) <= g.(g_sb_size);
  go_base : 0 < g.(g_super_block);
}.

(** The blocks that a thread is giving back, or has taken. *)
Definition in_flight (pc : SPc) : list Z :=
  match pc with
  | FlushLoad _ b | FlushLink _ b _ | FlushCas _ b _ => b
  | TakeBlocks _ l => l
  | _ => []
  end.

Definition flying (pcs : list SPc) : list Z := pcs ≫= in_flight.

(** The threads that have the descriptor for themselves, off the partial list. *)
Definition token (pc : SPc) : nat :=
  match pc with FlushPush | TakeLoad | TakeCas _ | TakeRetire => 1 | _ => 0 end.

Definition releasing (pc : SPc) : nat := match pc with FlushRelease => 1 | _ => 0 end.

Definition tokens (c : Sb * list SPc) : nat :=
  (if c.1.(sb_listed) then 1 else 0) + sum_list_with token c.2.

(** Each block is linked to the next one. *)
Fixpoint chain (link : gmap Z Z) (l : list Z) : Prop :=
  match l with
  | x :: ((y :: _) as l') => word link x = y /\ chain link l'
  | _ => True
  end.

(** [live]: blocks that are not lost for ever, at first all the blocks. *)
Section Inv.
Context {BR : BitRange} {g : Geometry} (Hg : geometry_ok g).
Context {live : list Z} (Hlive : live ⊆+ blocks_of g g.(g_super_block)).
Let base := g.(g_super_block).
Let all := blocks_of g base.

Definition slot_blocks (k : Slot) : list Z :=
  match k with
  | SFull => []
  | SPartial l => l
  | SEmpty | SGone => all
  end.

Definition out (c : Sb * list SPc) : list Z := flying c.2 ++ elements c.1.(sb_held).

Definition slot_ok (s : Sb) (k : Slot) : Prop :=
  match k with
  | SFull => anchor_state s.(sb_anchor) = Ok FULL /\ count s.(sb_anchor) = 0
  | SPartial l =>
      anchor_state s.(sb_anchor) = Ok PARTIAL /\ avail s.(sb_anchor) <= g.(g_max_count) /\
      head l = Some (block_at g base (avail s.(sb_anchor))) /\
      count s.(sb_anchor) = Z.of_nat (length l) /\ chain s.(sb_link) l
  | SEmpty | SGone => anchor_state s.(sb_anchor) = Ok EMPTY
  end.

(** What a thread knows; [o] are the blocks that are held or in flight. *)
Definition flush_ok (link : gmap Z Z) (sb : Z) (b : list Z) : Prop :=
  sb = base /\ b <> [] /\ chain link b.

Definition spc_ok (link : gmap Z Z) (o : list Z) (k : Slot) (pc : SPc) : Prop :=
  match pc with
  | FlushLoad sb b => flush_ok link sb b
  | FlushLink sb b old | FlushCas sb b old =>
      flush_ok link sb b /\ exists st, anchor_state old = Ok st
  | TakeCas old =>
      exists st, anchor_state old = Ok st /\ st <> FULL /\
        (st = PARTIAL -> block_at g base (avail old) ∉ o) /\ (st = EMPTY -> slot_state k = EMPTY)
  | TakeRetire => slot_state k = EMPTY
  | TakeBlocks old l =>
      head l = Some (block_at g base (avail old)) /\ avail old <= g.(g_max_count) /\
      count old = Z.of_nat (length l) /\ chain link l
  | _ => True
  end.

Definition tokens_ok (k : Slot) (n : nat) : Prop :=
  match k with SFull => n = 0%nat | SPartial _ => n = 1%nat | _ => (n <= 1)%nat end.

Record sinv (c : Sb * list SPc) (k : Slot) : Prop := {
  si_slot : slot_ok c.1 k;
  si_owned : slot_blocks k ++ out c ⊆+ live;
  si_super : c.1.(sb_super) = match k with SGone => None | _ => Some base end;
  si_tokens : tokens_ok k (tokens c);
  si_release : sum_list_with releasing c.2 = match k with SEmpty => 1%nat | _ => 0%nat end;
  si_pcs : Forall (spc_ok c.1.(sb_link) (out c) k) c.2;
}.

(** *** Blocks and links *)
Lemma block_at_inj sb i j : block_at g sb i = block_at g sb j -> i = j.
Proof. unfold block_at. pose proof (go_bs _ Hg). nia. Qed.

Lemma NoDup_blocks sb : NoDup (blocks_of g sb).
Proof. apply NoDup_fmap_2_strong; [intros i j _ _; apply block_at_inj|apply NoDup_seqZ]. Qed.

Lemma length_blocks sb : Z.of_nat (length (blocks_of g sb)) = g.(g_max_count).
Proof.
  unfold blocks_of, range. rewrite length_fmap, length_seqZ. pose proof (go_max _ Hg). lia.
Qed.

Lemma elem_of_blocks b : b ∈ all -> exists i, 0 <= i < g.(g_max_count) /\ b = block_at g base i.
Proof. intros (i & -> & Hi%elem_of_range)%list_elem_of_fmap. by exists i. Qed.

Lemma block_index_at i :
  0 <= i < g.(g_max_count) -> block_index base (block_at g base i) g.(g_block_size) = i.
Proof.
  intros Hi. pose proof (go_bs _ Hg). pose proof (go_size _ Hg). unfold block_index, block_at.
  unfold u32, wrap. rewrite <- Zminus_mod, Z.mod_small by nia.
  replace (base + i * g_block_size g - base) with (i * g_block_size g) by lia.
  apply Z.div_mul. lia.
Qed.

Lemma word_insert_ne link x w b : b <> x -> word (<[x := w]> link) b = word link b.
Proof. intros H. unfold word. by rewrite lookup_insert_ne. Qed.

Lemma chain_cons link x l : chain link (x :: l) <-> (forall y, head l = Some y -> word link x = y) /\ chain link l.
Proof.
  destruct l as [|y l]; simpl; [naive_solver|]. split; [|naive_solver].
  intros [H1 H2]. split; [|done]. by intros z [= <-].
Qed.

(** A store to a block that is not in the list, or is its last one. *)
Lemma chain_insert link l x w :
  x ∉ l \/ (NoDup l /\ last l = Some x) -> chain link l -> chain (<[x := w]> link) l.
Proof.
  induction l as [|a l IH]; [done|]. intros Hx. rewrite !chain_cons. intros [H1 H2]. split.
  - intros y Hy. rewrite word_insert_ne; [by apply H1|]. intros ->.
    destruct Hx as [Hx|[Hn Hl]]; [set_solver|]. destruct l as [|b l]; [done|].
    apply NoDup_cons in Hn as [Hn _]. apply Hn, last_Some_elem_of. by rewrite last_cons_cons in Hl.
  - apply IH; [|done]. destruct Hx as [Hx|[Hn Hl]]; [left; set_solver|].
    destruct l as [|b l]; [left; set_solver|]. right. rewrite last_cons_cons in Hl.
    by apply NoDup_cons in Hn as [_ Hn].
Qed.

Lemma follow_chain link b n : chain link (follow link b n).
Proof.
  revert b. induction n as [|n IH]; intros b; [done|]. simpl follow. apply chain_cons.
  split; [|apply IH]. intros y. destruct n; simpl; [done|congruence].
Qed.

Lemma chain_follow link l b : head l = Some b -> chain link l -> follow link b (length l) = l.
Proof.
  revert b. induction l as [|a l IH]; intros b; [done|]. intros [= ->] [H1 H2]%chain_cons. simpl.
  f_equal. destruct l as [|c l]; [done|]. rewrite (H1 c eq_refl). by apply IH.
Qed.

(** *** One thread among the others *)
Lemma flying_middle l1 pc l2 : flying (l1 ++ pc :: l2) = flying l1 ++ in_flight pc ++ flying l2.
Proof. unfold flying. by rewrite bind_app, bind_cons. Qed.

Lemma sum_middle (f : SPc -> nat) l1 pc l2 :
  sum_list_with f (l1 ++ pc :: l2) = (f pc + sum_list_with f (l1 ++ l2))%nat.
Proof. rewrite !sum_list_with_app. simpl. lia. Qed.

Lemma flying_elem pcs pc b : pc ∈ pcs -> b ∈ in_flight pc -> b ∈ flying pcs.
Proof. intros H1 H2. apply list_elem_of_bind. by exists pc. Qed.

(** *** The blocks of the invariant *)
Lemma sub_NoDup {A} (l k : list A) : l ⊆+ k -> NoDup k -> NoDup l.
Proof. intros (k' & ->)%submseteq_Permutation Hk. by apply NoDup_app in Hk as [Hk _]. Qed.

Lemma owned_NoDup c k : sinv c k -> NoDup (slot_blocks k ++ out c).
Proof.
  intros H. eapply sub_NoDup; [etrans; [exact (si_owned _ _ H)|exact Hlive]|apply NoDup_blocks].
Qed.

Lemma elements_add (l : list Z) (X : gset Z) :
  NoDup (l ++ elements X) -> elements (list_to_set l ∪ X) ≡ₚ l ++ elements X.
Proof.
  intros (H1 & H2 & _)%NoDup_app. rewrite elements_disj_union.
  - by rewrite elements_list_to_set.
  - intros x Hx Hy. apply elem_of_list_to_set in Hx. apply (H2 x Hx). by apply elem_of_elements.
Qed.

Lemma elements_remove (l : list Z) (X : gset Z) :
  NoDup l -> Forall (λ b, b ∈ X) l -> elements X ≡ₚ l ++ elements (X ∖ list_to_set l).
Proof.
  intros Hl HX. rewrite <- elements_add.
  - apply elements_proper. intros x. rewrite Forall_forall in HX.
    destruct (decide (x ∈ l)); set_solver.
  - apply NoDup_app. split; [done|]. split; [set_solver|apply NoDup_elements].
Qed.

(** All the blocks are in the slot: none is held. *)
Lemma out_nil c k : sinv c k -> slot_blocks k = all -> out c = [].
Proof.
  intros H Hk. pose proof (submseteq_length _ _ (si_owned _ _ H)) as Hl.
  pose proof (submseteq_length _ _ Hlive) as Hl'. fold base all in Hl'.
  rewrite Hk, length_app in Hl. apply nil_length_inv. lia.
Qed.

Lemma flying_all c k b : sinv c k -> b ∈ flying c.2 -> b ∈ all.
Proof.
  intros H Hb. eapply elem_of_submseteq; [|exact Hlive].
  eapply elem_of_submseteq; [|exact (si_owned _ _ H)]. unfold out. set_solver.
Qed.

Lemma in_flight_NoDup c k pc : sinv c k -> pc ∈ c.2 -> NoDup (in_flight pc).
Proof.
  destruct c as [s pcs]. intros H Hpc. apply owned_NoDup in H. apply NoDup_app in H as (_ & _ & H).
  unfold out in H. simpl in *. apply NoDup_app in H as (H & _ & _). apply list_elem_of_split in Hpc as (l1 & l2 & ->).
  rewrite flying_middle in H. apply NoDup_app in H as (_ & _ & H). by apply NoDup_app in H as [H _].
Qed.

Lemma spc_ok_mono link link' o o' k k' pc :
  spc_ok link o k pc -> (chain link (in_flight pc) -> chain link' (in_flight pc)) ->
  token pc = 0%nat \/ o' ⊆ o /\ (slot_state k = EMPTY -> slot_state k' = EMPTY) ->
  spc_ok link' o' k' pc.
Proof.
  destruct pc; simpl; unfold flush_ok; try done; try naive_solver.
Qed.

Lemma others_ok link link' o o' k k' l1 pc pc' l2 :
  Forall (spc_ok link o k) (l1 ++ pc :: l2) ->
  (forall z, z ∈ l1 ++ l2 -> chain link (in_flight z) -> chain link' (in_flight z)) ->
  (forall z, z ∈ l1 ++ l2 -> token z = 0%nat) \/
    o' ⊆ o /\ (slot_state k = EMPTY -> slot_state k' = EMPTY) ->
  spc_ok link' o' k' pc' -> Forall (spc_ok link' o' k') (l1 ++ pc' :: l2).
Proof.
  intros H Hc Ho Hpc. apply (Forall_others _ _ _ _ _ _ H); [|done]. intros z Hz Hok.
  apply (spc_ok_mono _ _ _ _ _ _ _ Hok); [by apply Hc|]. destruct Ho as [Ho|Ho]; [left; auto|by right].
Qed.

(** *** The steps *)

(** A thread moves on without changing the superblock. *)
Lemma sinv_move s l1 pc pc' l2 k :
  sinv (s, l1 ++ pc :: l2) k -> in_flight pc' = in_flight pc -> token pc' = token pc ->
  releasing pc' = releasing pc -> spc_ok s.(sb_link) (out (s, l1 ++ pc :: l2)) k pc' ->
  sinv (s, l1 ++ pc' :: l2) k.
Proof.
  intros [S1 S2 S3 S4 S5 S6] Hf Ht Hr Hok.
  assert (Ho : out (s, l1 ++ pc' :: l2) = out (s, l1 ++ pc :: l2))
    by (unfold out; simpl; by rewrite !flying_middle, Hf).
  split; simpl in *; try done; try rewrite Ho; try done.
  - unfold tokens in *. simpl in *. by rewrite sum_middle, Ht, <- sum_middle.
  - by rewrite sum_middle, Hr, <- sum_middle.
  - apply (others_ok _ _ _ _ _ _ _ _ _ _ S6); auto.
Qed.

(** A store to a held block, to the last block of a batch, or elsewhere. *)
Lemma sinv_link s pcs k x w :
  sinv (s, pcs) k -> x ∈ out (s, pcs) \/ x ∉ all ->
  (forall pc, pc ∈ pcs -> x ∈ in_flight pc -> last (in_flight pc) = Some x) ->
  sinv (mkSb s.(sb_anchor) s.(sb_super) (<[x := w]> s.(sb_link)) s.(sb_listed) s.(sb_retired)
          s.(sb_held), pcs) k.
Proof.
  intros Hi Hx Hl. pose proof Hi as [S1 S2 S3 S4 S5 S6]. split; simpl in *; try done.
  - destruct k as [|l| |]; simpl in *; try done. destruct S1 as (A1 & A2 & A3 & A4 & A5).
    do 4 (split; [done|]). apply chain_insert; [|done]. left. intros Hxl.
    apply owned_NoDup in Hi. simpl in Hi. apply NoDup_app in Hi as (_ & Hi & _).
    destruct Hx as [Hx|Hx]; [by apply (Hi x Hxl)|]. apply Hx. eapply elem_of_submseteq; [|exact Hlive].
    eapply elem_of_submseteq; [|exact S2]. set_solver.
  - rewrite Forall_forall in *. intros pc Hpc. apply (spc_ok_mono _ _ _ _ _ _ _ (S6 _ Hpc)); [|by right].
    apply chain_insert. destruct (decide (x ∈ in_flight pc)); [right|by left].
    split; [by eapply in_flight_NoDup|auto].
Qed.

Lemma sinv_store_tail s l1 sb b old l2 k w :
  sinv (s, l1 ++ FlushLink sb b old :: l2) k -> b <> [] ->
  sinv (mkSb s.(sb_anchor) s.(sb_super) (<[default 0 (last b) := w]> s.(sb_link)) s.(sb_listed)
          s.(sb_retired) s.(sb_held), l1 ++ FlushLink sb b old :: l2) k.
Proof.
  intros Hi Hb. destruct (last b) as [x|] eqn:El; [|by apply last_None in El].
  assert (Hx : x ∈ b) by (by apply last_Some_elem_of). simpl. apply sinv_link; [done| |].
  - left. unfold out. simpl. rewrite flying_middle. set_solver.
  - intros pc Hpc Hxp. apply owned_NoDup in Hi. apply NoDup_app in Hi as (_ & _ & Hi).
    unfold out in Hi. simpl in Hi. rewrite flying_middle in Hi.
    apply NoDup_app in Hi as ((_ & N1 & (_ & N2 & _)%NoDup_app)%NoDup_app & _ & _).
    apply elem_of_app in Hpc as [Hpc|[->|Hpc]%elem_of_cons]; [|done|].
    + destruct (N1 x); [by eapply flying_elem|set_solver].
    + destruct (N2 x); [done|by eapply flying_elem].
Qed.

(** Blocks that are held become a batch. *)
Lemma sinv_flush s l1 l2 k b :
  sinv (s, l1 ++ SIdle :: l2) k -> NoDup b -> b <> [] -> Forall (λ x, x ∈ s.(sb_held)) b ->
  chain s.(sb_link) b ->
  sinv (mkSb s.(sb_anchor) s.(sb_super) s.(sb_link) s.(sb_listed) s.(sb_retired)
          (s.(sb_held) ∖ list_to_set b), l1 ++ FlushLoad base b :: l2) k.
Proof.
  intros [S1 S2 S3 S4 S5 S6] Hb Hne Hh Hc.
  assert (Ho : flying (l1 ++ FlushLoad base b :: l2) ++ elements (s.(sb_held) ∖ list_to_set b)
               ≡ₚ out (s, l1 ++ SIdle :: l2)).
  { unfold out. simpl. rewrite (elements_remove b s.(sb_held)) by done. rewrite !flying_middle.
    simpl. rewrite !(assoc_L app). f_equiv. rewrite <- !(assoc_L app). f_equiv.
    apply Permutation_app_comm. }
  split; simpl in *; try done.
  - unfold out at 1. simpl. by rewrite Ho.
  - unfold tokens in *. simpl in *. by rewrite sum_middle in *.
  - by rewrite sum_middle in *.
  - apply (others_ok _ _ _ _ _ _ _ _ _ _ S6); [done| |done]. right. split; [|done]. intros x. unfold out at 1. simpl.
    by rewrite Ho.
Qed.

(** The descriptor changes hands; the flags [listed] and [retired] are free. *)
Lemma sinv_token s l1 pc pc' l2 k listed' retired' :
  sinv (s, l1 ++ pc :: l2) k -> in_flight pc' = in_flight pc -> releasing pc' = releasing pc ->
  tokens_ok k (tokens (mkSb s.(sb_anchor) s.(sb_super) s.(sb_link) listed' retired' s.(sb_held),
                       l1 ++ pc' :: l2)) ->
  spc_ok s.(sb_link) (out (s, l1 ++ pc :: l2)) k pc' ->
  sinv (mkSb s.(sb_anchor) s.(sb_super) s.(sb_link) listed' retired' s.(sb_held),
        l1 ++ pc' :: l2) k.
Proof.
  intros [S1 S2 S3 S4 S5 S6] Hf Hr Ht Hok.
  assert (Ho : flying (l1 ++ pc' :: l2) = flying (l1 ++ pc :: l2)) by (by rewrite !flying_middle, Hf).
  split; simpl in *; try done; unfold out in *; simpl in *; try rewrite Ho; try done.
  - by rewrite sum_middle, Hr, <- sum_middle.
  - apply (others_ok _ _ _ _ _ _ _ _ _ _ S6); auto.
Qed.

Lemma sinv_state c k : sinv c k -> anchor_state c.1.(sb_anchor) = Ok (slot_state k).
Proof. intros H%si_slot. destruct k; simpl in *; naive_solver. Qed.

(** While a block is out, the superblock is in use. *)
Lemma sinv_live c k : sinv c k -> out c <> [] ->
  slot_free k = Some (slot_blocks k) /\ count c.1.(sb_anchor) = Z.of_nat (length (slot_blocks k)) /\
  slot_state k <> EMPTY /\ c.1.(sb_super) = Some base.
Proof.
  intros H Ho. pose proof (si_slot _ _ H) as Hk. pose proof (si_super _ _ H) as Hs.
  destruct k; simpl in *; try by (destruct Ho; eapply out_nil).
  all: naive_solver.
Qed.

Lemma out_flight s l1 pc l2 : in_flight pc <> [] -> out (s, l1 ++ pc :: l2) <> [].
Proof.
  unfold out. simpl. rewrite flying_middle. intros H Hn. apply app_eq_nil in Hn as [Hn _].
  apply app_eq_nil in Hn as [_ Hn]. by apply app_eq_nil in Hn as [Hn _].
Qed.

Lemma out_middle s l1 pc l2 :
  out (s, l1 ++ pc :: l2) ≡ₚ in_flight pc ++ out (s, l1 ++ l2).
Proof.
  unfold out. simpl. rewrite flying_middle. unfold flying. rewrite bind_app.
  rewrite !(assoc_L app). do 2 f_equiv. apply Permutation_app_comm.
Qed.

(** The first block of a batch is a block of the superblock. *)
Lemma batch_head s l1 pc l2 k : sinv (s, l1 ++ pc :: l2) k -> in_flight pc <> [] ->
  exists i, 0 <= i < g.(g_max_count) /\ head (in_flight pc) = Some (block_at g base i).
Proof.
  intros H Hne. pose proof (si_owned _ _ H) as Hs. rewrite out_middle in Hs.
  destruct (in_flight pc) as [|x b] eqn:Eb; [done|].
  destruct (elem_of_blocks x) as (i & Hi & ->); [|by exists i].
  eapply elem_of_submseteq; [|etrans; [exact Hs|exact Hlive]]. set_solver.
Qed.

Lemma batch_length s l1 pc l2 k : sinv (s, l1 ++ pc :: l2) k ->
  Z.of_nat (length (slot_blocks k) + length (in_flight pc)) +
    Z.of_nat (length (out (s, l1 ++ l2))) <= g.(g_max_count).
Proof.
  intros H. pose proof (si_owned _ _ H) as Hs%submseteq_length. rewrite out_middle in Hs.
  pose proof (submseteq_length _ _ Hlive) as Hl. fold base in Hl.
  rewrite !length_app in Hs. rewrite <- (length_blocks base). lia.
Qed.

(** The compare-and-exchange of [flush_cache] succeeds: the batch takes the place
    of what the anchor counted. *)
Lemma sinv_flushed s l1 l2 k b a' :
  sinv (s, l1 ++ FlushCas base b s.(sb_anchor) :: l2) k ->
  b <> [] -> chain s.(sb_link) b ->
  Z.of_nat (length (slot_blocks k) + length b) <> g.(g_max_count) ->
  a' = flush_anchor g.(g_max_count) (block_index base (default 0 (head b)) g.(g_block_size))
         (Z.of_nat (length b)) (slot_state k) s.(sb_anchor) ->
  anchor_state a' = Ok PARTIAL /\
  sinv (mkSb a' s.(sb_super) s.(sb_link) s.(sb_listed) s.(sb_retired) s.(sb_held),
        l1 ++ (if bool_decide (slot_state k = FULL) then FlushPush else SIdle) :: l2) (SPartial b).
Proof.
  intros Hi Hb Hc Hn ->. pose proof (sinv_state _ _ Hi) as Hst. simpl in Hst.
  destruct (sinv_live _ _ Hi) as (_ & Hcount & Hne & Hsup); [by apply out_flight|]. simpl in *.
  destruct (batch_head _ _ _ _ _ Hi Hb) as (i & Hi1 & Hh). simpl in Hh.
  pose proof (batch_length _ _ _ _ _ Hi) as Hlen. simpl in Hlen. pose proof (go_max _ Hg) as Hmax.
  rewrite Hh. simpl. rewrite block_index_at by done.
  destruct (flush_anchor_partial g.(g_max_count) i (Z.of_nat (length b)) (slot_state k) s.(sb_anchor))
    as (F1 & F2 & F3); [lia|done|].
  rewrite Z.mod_small in F2, F3 by lia.
  assert (Hp : (if bool_decide (slot_state k = FULL) then PARTIAL else slot_state k) = PARTIAL)
    by (by destruct k).
  rewrite Hp in F1. split; [done|]. destruct Hi as [S1 S2 S3 S4 S5 S6].
  rewrite out_middle in S2. simpl in S2.
  set (pc' := if bool_decide _ then _ else _).
  assert (Hpc : in_flight pc' = [] /\ releasing pc' = 0%nat) by (unfold pc'; by destruct k).
  assert (Ho : out (mkSb (flush_anchor (g_max_count g) i (Z.of_nat (length b)) (slot_state k)
      (sb_anchor s)) (sb_super s) (sb_link s) (sb_listed s) (sb_retired s) (sb_held s),
      l1 ++ pc' :: l2) ≡ₚ out (s, l1 ++ l2)).
  { unfold out. simpl. rewrite flying_middle. unfold flying. rewrite bind_app. by rewrite (proj1 Hpc). }
  split; simpl in *; try done.
  - rewrite F1, F2, F3, Hh. split; [done|]. split; [lia|done].
  - rewrite Ho. etrans; [|exact S2]. by apply submseteq_inserts_l.
  - unfold tokens in *. simpl in *. rewrite sum_middle in *. unfold pc'.
    destruct k; simpl in *; try done; lia.
  - rewrite sum_middle in *. rewrite (proj2 Hpc). destruct k; simpl in *; try done.
  - apply (others_ok _ _ _ _ _ _ _ _ _ _ S6); [done| |unfold pc'; by destruct k].
    right. split; [intros x; rewrite Ho, out_middle; set_solver|by destruct k].
Qed.

(** ... or the superblock is empty. *)
Lemma sinv_emptied s l1 l2 k b a' :
  sinv (s, l1 ++ FlushCas base b s.(sb_anchor) :: l2) k -> b <> [] ->
  Z.of_nat (length (slot_blocks k) + length b) = g.(g_max_count) -> anchor_state a' = Ok EMPTY ->
  sinv (mkSb a' s.(sb_super) s.(sb_link) s.(sb_listed) s.(sb_retired) s.(sb_held),
        l1 ++ FlushRelease :: l2) SEmpty.
Proof.
  intros Hi Hb Hn Ha. destruct (sinv_live _ _ Hi) as (_ & _ & Hne & Hsup); [by apply out_flight|].
  pose proof (batch_length _ _ _ _ _ Hi) as Hlen. simpl in *.
  destruct Hi as [S1 S2 S3 S4 S5 S6]. simpl in *.
  assert (Ho : out (s, l1 ++ l2) = []) by (apply nil_length_inv; lia).
  assert (Ho' : flying (l1 ++ FlushRelease :: l2) ++ elements s.(sb_held) = []).
  { rewrite flying_middle. simpl. rewrite <- Ho. unfold out, flying. simpl. by rewrite bind_app. }
  split; simpl in *; try done; unfold out; simpl; try rewrite Ho'.
  - rewrite app_nil_r. apply Permutation_submseteq. symmetry.
    apply (submseteq_length_Permutation _ _ Hlive).
    apply submseteq_length in S2. rewrite out_middle, !length_app in S2. simpl in S2.
    pose proof (length_blocks base). fold base. lia.
  - unfold tokens in *. simpl in *. rewrite sum_middle in *. simpl in *. destruct k; simpl in *; try done; lia.
  - rewrite sum_middle in *. simpl in *. destruct k; simpl in *; try done; lia.
  - apply (others_ok _ _ _ _ _ _ _ _ _ _ S6); [done| |done]. right. by split; [set_solver|].
Qed.

Lemma sinv_release s l1 l2 k :
  sinv (s, l1 ++ FlushRelease :: l2) k ->
  k = SEmpty /\
  sinv (mkSb s.(sb_anchor) None s.(sb_link) s.(sb_listed) s.(sb_retired) s.(sb_held),
        l1 ++ SIdle :: l2) SGone.
Proof.
  intros [S1 S2 S3 S4 S5 S6]. simpl in *. rewrite sum_middle in S5. simpl in S5.
  destruct k; try done. split; [done|]. unfold out in *. simpl in *. rewrite flying_middle in S2.
  split; simpl; try done.
  - unfold out. simpl. by rewrite flying_middle.
  - unfold tokens in *. simpl in *. by rewrite sum_middle in *.
  - rewrite sum_middle. simpl. lia.
  - unfold out. simpl. rewrite !flying_middle in *. apply (others_ok _ _ _ _ _ _ _ _ _ _ S6); [done|by right|done].
Qed.

(** The compare-and-exchange of [malloc_from_partial] succeeds: no other thread
    has the descriptor. *)
Lemma sinv_take s l1 l2 k :
  sinv (s, l1 ++ TakeCas s.(sb_anchor) :: l2) k -> slot_state k <> EMPTY ->
  exists l, k = SPartial l /\ counted g s base s.(sb_anchor) = l /\
    sinv (mkSb (take_anchor g.(g_max_count) s.(sb_anchor)) s.(sb_super) s.(sb_link) s.(sb_listed)
            s.(sb_retired) s.(sb_held), l1 ++ TakeBlocks s.(sb_anchor) l :: l2) SFull.
Proof.
  intros [S1 S2 S3 S4 S5 S6] Hne. simpl in *. unfold tokens in S4. simpl in S4.
  rewrite sum_middle in S4. simpl in S4. destruct k as [|l| |]; simpl in *; try done; try lia.
  destruct S1 as (A1 & A2 & A3 & A4 & A5). exists l. split; [done|]. split.
  { unfold counted. rewrite A4, Nat2Z.id. by apply chain_follow. }
  destruct (take_anchor_fields g.(g_max_count) s.(sb_anchor)) as (T1 & _ & T3).
  rewrite out_middle in S2. simpl in S2. split; simpl in *; try done.
  - rewrite out_middle. exact S2.
  - unfold tokens. simpl. rewrite sum_middle. simpl. lia.
  - rewrite sum_middle in *. exact S5.
  - apply (others_ok _ _ _ _ _ _ _ _ _ _ S6); [done| |done]. left. intros z Hz.
    assert (token z <= sum_list_with token (l1 ++ l2))%nat by (by apply sum_list_with_in).
    lia.
Qed.

(** The blocks taken are in the bin. *)
Lemma sinv_taken s l1 l2 k old l :
  sinv (s, l1 ++ TakeBlocks old l :: l2) k -> counted g s base old = l ->
  sinv (mkSb s.(sb_anchor) s.(sb_super) s.(sb_link) s.(sb_listed) s.(sb_retired)
          (list_to_set l ∪ s.(sb_held)), l1 ++ SIdle :: l2) k.
Proof.
  intros Hi Hl. pose proof (owned_NoDup _ _ Hi) as Hn. destruct Hi as [S1 S2 S3 S4 S5 S6].
  apply NoDup_app in Hn as (_ & _ & Hn). rewrite out_middle in Hn. unfold out in Hn. simpl in Hn.
  assert (Hn' : NoDup (l ++ elements s.(sb_held))).
  { rewrite Permutation_app_comm, <- app_assoc in Hn. apply NoDup_app in Hn as (_ & _ & Hn).
    by rewrite Permutation_app_comm. }
  assert (Ho : out (mkSb s.(sb_anchor) s.(sb_super) s.(sb_link) s.(sb_listed) s.(sb_retired)
          (list_to_set l ∪ s.(sb_held)), l1 ++ SIdle :: l2) ≡ₚ out (s, l1 ++ TakeBlocks old l :: l2)).
  { rewrite !out_middle. unfold out. simpl. rewrite (elements_add _ _ Hn').
    rewrite !(assoc_L app). f_equiv. apply Permutation_app_comm. }
  split; simpl in *; try done.
  - by rewrite Ho.
  - unfold tokens in *. simpl in *. by rewrite sum_middle in *.
  - by rewrite sum_middle in *.
  - apply (others_ok _ _ _ _ _ _ _ _ _ _ S6); [done| |done]. right.
    split; [|done]. intros x. by rewrite Ho.
Qed.

(** *** A thread's next operation succeeds and is one of the atomic superblock *)
Definition stutters (k : Slot) (e : option SEvent) (k' : Slot) : Prop :=
  match e with None => k' = k | Some ev => slot_step g k ev k' end.

Definition goes (weak : bool) (s : Sb) (l1 : list SPc) (pc : SPc) (l2 : list SPc) (k : Slot) : Prop :=
  exists s' pc' e, sb_go g weak s pc = Ok (s', pc', e) /\
    exists k', sinv (s', l1 ++ pc' :: l2) k' /\ stutters k e k'.

Lemma goes_stay weak s l1 pc pc' l2 k :
  sb_go g weak s pc = Ok (s, pc', None) -> sinv (s, l1 ++ pc' :: l2) k -> goes weak s l1 pc l2 k.
Proof. intros Hg' Hi. exists s, pc', None. split; [done|]. by exists k. Qed.

Lemma goes_flush_cas weak s l1 sb b old l2 k :
  sinv (s, l1 ++ FlushCas sb b old :: l2) k -> goes weak s l1 (FlushCas sb b old) l2 k.
Proof.
  intros Hi. pose proof (Forall_elt _ _ _ (si_pcs _ _ Hi)) as ((-> & Hb & Hc) & st & Hst).
  destruct (negb weak && (s.(sb_anchor) =? old)) eqn:Ec.
  2:{ apply (goes_stay _ _ _ _ (FlushLoad base b)).
      - simpl. by rewrite Hst; simpl; rewrite Ec.
      - by apply (sinv_move _ _ _ _ _ _ Hi). }
  pose proof Ec as [_ <-%Z.eqb_eq]%andb_prop.
  pose proof (sinv_state _ _ Hi) as Hst'. simpl in Hst'. rewrite Hst' in Hst. injection Hst as <-.
  destruct (sinv_live _ _ Hi) as (Hf & Hcount & _ & _); [by apply out_flight|]. simpl in Hcount.
  unfold goes. simpl sb_go. rewrite Hst'. simpl. rewrite Ec.
  destruct (decide (Z.of_nat (length (slot_blocks k) + length b) = g.(g_max_count))) as [Hn|Hn].
  - rewrite flush_anchor_empty by lia. simpl. eexists _, _, _. split; [done|]. exists SEmpty.
    split; [|by econstructor]. eapply sinv_emptied; [exact Hi|done|done|].
    apply flush_anchor_empty. lia.
  - destruct (sinv_flushed _ _ _ _ _ _ Hi Hb Hc Hn eq_refl) as [F1 F2]. rewrite F1. simpl.
    eexists _, _, _. split; [done|]. exists (SPartial b). split; [exact F2|by econstructor].
Qed.

Lemma goes_take_cas weak s l1 old l2 k :
  sinv (s, l1 ++ TakeCas old :: l2) k -> goes weak s l1 (TakeCas old) l2 k.
Proof.
  intros Hi. pose proof (Forall_elt _ _ _ (si_pcs _ _ Hi)) as Hok.
  destruct Hok as (st & Hst & _ & _ & He). destruct (decide (st = EMPTY)) as [->|Hne].
  { apply (goes_stay _ _ _ _ TakeRetire); [simpl; by rewrite Hst|].
    apply (sinv_move _ _ _ _ _ _ Hi); try done. by apply He. }
  unfold goes. simpl sb_go. rewrite Hst. simpl. rewrite bool_decide_eq_false_2 by done.
  destruct (Z.eqb_spec s.(sb_anchor) old) as [<-|Hold].
  2:{ eexists _, _, _. split; [done|]. by exists k. }
  pose proof (sinv_state _ _ Hi) as Hst'. simpl in Hst'. rewrite Hst' in Hst. injection Hst as <-.
  destruct (sinv_take _ _ _ _ Hi Hne) as (l & -> & Hl & Hi').
  pose proof (si_super _ _ Hi) as Hs. simpl in Hs. eexists _, _, _. split; [done|].
  exists SFull. rewrite Hs. simpl. rewrite Hl. rewrite Hs in Hi'. split; [exact Hi'|constructor].
Qed.

Lemma goes_take_blocks weak s l1 old l l2 k :
  sinv (s, l1 ++ TakeBlocks old l :: l2) k -> goes weak s l1 (TakeBlocks old l) l2 k.
Proof.
  intros Hi. pose proof (Forall_elt _ _ _ (si_pcs _ _ Hi)) as (Hh & Ha & Hn & Hc). simpl in Hc.
  assert (Hl : counted g s base old = l).
  { unfold counted. rewrite Hn, Nat2Z.id. by apply chain_follow. }
  destruct (sinv_live _ _ Hi) as (_ & _ & _ & Hs); [apply out_flight; by destruct l|]. simpl in Hs.
  unfold goes. simpl sb_go. rewrite Hs, (proj2 (Z.leb_le _ _) Ha), Hl.
  eexists _, _, _. split; [done|]. exists k. split; [|done]. rewrite <- Hs.
  by eapply sinv_taken.
Qed.

Lemma goes_load s l1 l2 k weak :
  sinv (s, l1 ++ TakeLoad :: l2) k -> goes weak s l1 TakeLoad l2 k.
Proof.
  intros Hi. apply (goes_stay _ _ _ _ (TakeCas s.(sb_anchor))); [done|].
  apply (sinv_move _ _ _ _ _ _ Hi); try done. exists (slot_state k).
  split; [by apply (sinv_state _ _ Hi)|]. pose proof (si_tokens _ _ Hi) as Ht.
  unfold tokens in Ht. simpl in Ht. rewrite sum_middle in Ht. simpl in Ht.
  split; [destruct k; simpl in *; try done; lia|]. split; [|done]. intros Hk. destruct k as [|l| |]; try done.
  destruct (si_slot _ _ Hi) as (_ & _ & Hh & _). simpl in Hh.
  apply owned_NoDup in Hi. apply NoDup_app in Hi as (_ & Hi & _). apply Hi.
  destruct l as [|x l]; [done|]. injection Hh as ->. set_solver.
Qed.

Lemma sinv_go weak s l1 pc l2 k : sinv (s, l1 ++ pc :: l2) k -> goes weak s l1 pc l2 k.
Proof.
  intros Hi. pose proof (Forall_elt _ _ _ (si_pcs _ _ Hi)) as Hok. simpl in Hok.
  destruct pc as [|sb b|sb b old|sb b old| | | |old| |old l].
  - by apply (goes_stay _ _ _ _ SIdle).
  - apply (goes_stay _ _ _ _ (FlushLink sb b s.(sb_anchor))); [done|].
    apply (sinv_move _ _ _ _ _ _ Hi); try done. split; [done|]. eexists. apply (sinv_state _ _ Hi).
  - destruct Hok as ((-> & Hb & Hc) & Hst). eexists _, _, None. split; [done|]. exists k.
    split; [|done].
    pose proof (sinv_store_tail _ _ _ _ _ _ _ (block_at g base (avail old)) Hi Hb) as Hi'.
    apply (sinv_move _ _ _ _ _ _ Hi'); try done. apply (Forall_elt _ _ _ (si_pcs _ _ Hi')).
  - by apply goes_flush_cas.
  - destruct (sinv_release _ _ _ _ Hi) as [-> Hi'].
    pose proof (si_super _ _ Hi) as Hs. simpl in Hs. eexists _, _, _. simpl. rewrite Hs. split; [done|]. exists SGone. split; [done|constructor].
  - eexists _, _, None. split; [done|]. exists k. split; [|done].
    apply (sinv_token _ _ _ _ _ _ _ _ Hi); try done. pose proof (si_tokens _ _ Hi) as Ht.
    unfold tokens in *. simpl in *. rewrite sum_middle in *. simpl in *.
    destruct (sb_listed s), k; simpl in *; try done; lia.
  - by apply goes_load.
  - by apply goes_take_cas.
  - eexists _, _, None. split; [done|]. exists k. split; [|done].
    apply (sinv_token _ _ _ _ _ _ _ _ Hi); try done. pose proof (si_tokens _ _ Hi) as Ht.
    unfold tokens in *. simpl in *. rewrite sum_middle in *. simpl in *.
    destruct k; simpl in *; try done; lia.
  - by apply goes_take_blocks.
Qed.

Lemma sinv_step c e c' k :
  sinv c k -> sstep g false c e c' -> exists k', sinv c' k' /\ stutters k e k'.
Proof.
  intros Hi Hs. destruct Hs as [s pcs b w Hb|s pcs b w Hb|s pcs t sb h n Ht Hsb batch Hn Hh|s pcs t Ht Hl|
    s pcs sb Hr|s pcs t pc weak s' pc' e Ht Hgo]; [| | | |done|].
  - exists k. split; [|done]. assert (Ho : b ∈ out (s, pcs)) by (unfold out; set_solver).
    apply sinv_link; [done|by left|]. intros pc Hpc Hin. apply owned_NoDup in Hi.
    apply NoDup_app in Hi as (_ & _ & (_ & Hi & _)%NoDup_app). destruct (Hi b); [|set_solver].
    by eapply flying_elem.
  - exists k. split; [|done]. apply sinv_link; [done|by right|]. intros pc Hpc Hin. destruct Hb.
    by eapply flying_all; [exact Hi|eapply flying_elem].
  - destruct (pcs_middle _ _ _ (FlushLoad sb batch) Ht) as (l1 & l2 & -> & ->). exists k.
    split; [|done]. assert (sb = base) as ->.
    { pose proof (si_super _ _ Hi) as Hs. simpl in Hs. rewrite Hsb in Hs. destruct k; naive_solver. }
    apply sinv_flush; try done. apply follow_chain.
  - destruct (pcs_middle _ _ _ TakeLoad Ht) as (l1 & l2 & -> & ->). exists k. split; [|done].
    apply (sinv_token _ _ _ _ _ _ _ _ Hi); try done. pose proof (si_tokens _ _ Hi) as Hk.
    unfold tokens in *. simpl in *. rewrite sum_middle in *. rewrite Hl in Hk. exact Hk.
  - destruct (pcs_middle _ _ _ pc' Ht) as (l1 & l2 & -> & ->).
    destruct (sinv_go weak _ _ _ _ _ Hi) as (s1 & pc1 & e1 & Hg1 & H).
    rewrite Hgo in Hg1. by injection Hg1 as <- <- <-.
Qed.

(** *** A take that has lost the race

  The anchor that the thread has loaded cannot come back: a flush installs the
  index of a block that it gives back, and the block at the old index cannot be
  given back, since no other thread has the descriptor to take it. *)
Definition stale (t : nat) (old : Z) (c : Sb * list SPc) : Prop :=
  c.2 !! t = Some (TakeCas old) /\ anchor_state old = Ok PARTIAL /\ c.1.(sb_anchor) <> old.

Lemma stale_flush s l1 sb b l2 k t old st :
  sinv (s, l1 ++ FlushCas sb b s.(sb_anchor) :: l2) k ->
  (l1 ++ FlushCas sb b s.(sb_anchor) :: l2) !! t = Some (TakeCas old) ->
  anchor_state old = Ok PARTIAL -> anchor_state s.(sb_anchor) = Ok st ->
  flush_anchor g.(g_max_count) (block_index sb (default 0 (head b)) g.(g_block_size))
    (Z.of_nat (length b)) st s.(sb_anchor) <> old.
Proof.
  intros Hi Ht Hold Hst Heq.
  pose proof (Forall_elt _ _ _ (si_pcs _ _ Hi)) as ((-> & Hb & _) & _).
  destruct (batch_head _ _ _ _ _ Hi Hb) as (i & Hi1 & Hh). simpl in Hh.
  rewrite Hh in Heq. simpl in Heq. rewrite block_index_at in Heq by done.
  destruct (decide (count s.(sb_anchor) + Z.of_nat (length b) = g.(g_max_count))) as [Hn|Hn].
  { rewrite <- Heq, flush_anchor_empty in Hold by done. done. }
  destruct (flush_anchor_partial _ i _ _ _ Hn Hst) as (_ & F2 & _). rewrite Heq in F2.
  pose proof (go_max _ Hg). rewrite Z.mod_small in F2 by lia.
  pose proof (Forall_lookup_1 _ _ _ _ (si_pcs _ _ Hi) Ht) as (st' & Hst' & _ & Hp & _).
  rewrite Hold in Hst'. injection Hst' as <-. apply (Hp eq_refl). rewrite F2, out_middle.
  simpl. destruct b as [|x b]; [done|]. injection Hh as ->. set_solver.
Qed.

Lemma stale_one s l1 pc l2 k t old :
  sinv (s, l1 ++ pc :: l2) k -> (l1 ++ pc :: l2) !! t = Some (TakeCas old) -> token pc <> 0%nat ->
  pc = TakeCas old /\ t = length l1.
Proof.
  intros Hi Ht Hpc. pose proof (si_tokens _ _ Hi) as Hk.
  assert (Hle : (tokens (s, l1 ++ pc :: l2) <= 1)%nat) by (destruct k; simpl in *; lia).
  unfold tokens in Hle. simpl in Hle. rewrite sum_middle in Hle.
  destruct (decide (t = length l1)) as [->|Hne].
  { rewrite list_lookup_middle in Ht by done. by injection Ht as ->. }
  assert (Hin : TakeCas old ∈ l1 ++ l2).
  { apply elem_of_app. apply lookup_app_Some in Ht as [Ht|[Hlt Ht]].
    - left. by eapply list_elem_of_lookup_2.
    - right. rewrite lookup_cons_ne_0 in Ht by lia. by eapply list_elem_of_lookup_2. }
  apply (sum_list_with_in _ token) in Hin. simpl in Hin. lia.
Qed.

(** Only two operations change the anchor. *)
Lemma go_anchor weak s pc s' pc' e :
  sb_go g weak s pc = Ok (s', pc', e) ->
  s'.(sb_anchor) = s.(sb_anchor) \/ pc = TakeCas s.(sb_anchor) \/
  exists sb b st, pc = FlushCas sb b s.(sb_anchor) /\ anchor_state s.(sb_anchor) = Ok st /\
    s'.(sb_anchor) = flush_anchor g.(g_max_count)
      (block_index sb (default 0 (head b)) g.(g_block_size)) (Z.of_nat (length b)) st s.(sb_anchor).
Proof.
  destruct pc as [|sb b|sb b old|sb b old| | | |old| |old l]; simpl; try (intros [= <- <- <-]; by left).
  - destruct (anchor_state old) as [st|] eqn:Est; simpl; [|done].
    destruct (negb weak && _) eqn:Ec; [|intros [= <- <- <-]; by left].
    apply andb_prop in Ec as [_ <-%Z.eqb_eq].
    destruct (anchor_state (flush_anchor _ _ _ _ _)) as [st'|]; simpl; [|done].
    intros H. right. right. exists sb, b, st. do 2 (split; [done|]).
    destruct (bool_decide (st' = EMPTY)); by injection H as <- <- <-.
  - destruct (sb_super s); [|done]. intros [= <- <- <-]. by left.
  - destruct (anchor_state old) as [st|]; simpl; [|done].
    destruct (bool_decide _); [intros [= <- <- <-]; by left|].
    destruct (Z.eqb_spec s.(sb_anchor) old) as [<-|]; [by right; left|].
    intros [= <- <- <-]. by left.
  - destruct (sb_super s); [|done]. destruct (avail old <=? _); [|done].
    intros [= <- <- <-]. by left.
Qed.

Lemma stale_step c e c' k t old :
  sinv c k -> stale t old c -> sstep g false c e c' -> stale t old c'.
Proof.
  intros Hi (Ht & Hold & Ha) Hs. unfold stale.
  destruct Hs as [s pcs b w Hb|s pcs b w Hb|s pcs u sb h n Hu|s pcs u Hu|s pcs sb Hr|
    s pcs u pc weak s' pc' e Hu Hgo]; simpl in *; [done|done| | |done|].
  1,2: rewrite list_lookup_insert_ne by (intros ->; congruence); done.
  destruct (decide (u = t)) as [->|Hne].
  - assert (pc = TakeCas old) as -> by congruence. simpl in Hgo. rewrite Hold in Hgo. simpl in Hgo.
    rewrite (proj2 (Z.eqb_neq _ _) Ha) in Hgo. injection Hgo as <- <- <-.
    rewrite list_lookup_insert_eq; [done|]. by eapply lookup_lt_Some.
  - rewrite list_lookup_insert_ne by done. do 2 (split; [done|]).
    apply lookup_split in Hu as (l1 & l2 & -> & Hu).
    destruct (go_anchor _ _ _ _ _ _ Hgo) as [-> | [-> | (sb & b & st & -> & Hst & ->)]]; [done| |].
    + destruct (stale_one _ _ _ _ _ _ _ Hi Ht) as [_ Hl]; [done|]. lia.
    + by eapply stale_flush.
Qed.
End Inv.

(** *** Reachable states *)
Section Reach.
Context {BR : BitRange} {g : Geometry} (Hg : geometry_ok g).

Lemma sinv_start n : sinv (g:=g) (live:=blocks_of g g.(g_super_block)) (s_start g n) SFull.
Proof.
  destruct (new_anchor_fields g.(g_max_count)) as (A1 & A2 & A3).
  assert (Hf : flying (replicate n SIdle) = []) by (by induction n).
  assert (Hz : forall f : SPc -> nat, f SIdle = 0%nat -> sum_list_with f (replicate n SIdle) = 0%nat)
    by (clear Hf; intros f Hf'; induction n; simpl; lia).
  split; simpl; try done.
  - unfold out. simpl. rewrite Hf, (right_id_L ∅ (∪)). simpl. rewrite elements_list_to_set; [done|].
    by apply NoDup_blocks.
  - unfold tokens. simpl. by rewrite Hz.
  - by rewrite Hz.
  - apply Forall_forall. by intros pc ->%elem_of_replicate_inv.
Qed.

Lemma sreach_sinv n tr c :
  sreach g false (s_start g n) tr c -> exists k, sinv (g:=g) (live:=blocks_of g g.(g_super_block)) c k /\ slot_runs g tr k.
Proof.
  induction 1 as [|tr c e c' _ (k & Hi & Hr) Hs].
  - exists SFull. split; [apply sinv_start|constructor].
  - destruct (sinv_step Hg (reflexivity _) _ _ _ _ Hi Hs) as (k' & Hi' & He). exists k'. split; [done|].
    destruct e as [ev|]; simpl in *; [by econstructor|]. subst. by rewrite app_nil_r.
Qed.

(** *** Blocks that are lost

  [flush_cache] replaces the count of the anchor: the blocks that it counted
  before are then nowhere. *)
Definition lost (c : Sb * list SPc) (b : Z) : Prop :=
  b ∈ blocks_of g g.(g_super_block) /\ b ∉ c.1.(sb_held) /\ b ∉ flying c.2 /\
  anchor_state c.1.(sb_anchor) <> Ok EMPTY /\
  (anchor_state c.1.(sb_anchor) = Ok PARTIAL ->
   b ∉ counted g c.1 g.(g_super_block) c.1.(sb_anchor)).

#[global] Instance lost_dec c b : Decision (lost c b).
Proof. unfold lost. apply _. Defined.





End Reach.

(** ** Schedules *)
Inductive SAct : Type :=
  | SWrite (b w : Z) | SFlush (t : nat) (head : Z) (n : nat) | SPop (t : nat) | SNew (sb : Z)
  | SGo (t : nat) (weak : bool).

Section Schedule.
Context {BR : BitRange} (g : Geometry).

Definition sact (reuse : bool) (c : Sb * list SPc) (a : SAct) : option (option SEvent * (Sb * list SPc)) :=
  let '(s, pcs) := c in
  match a with
  | SWrite b w =>
      if bool_decide (b ∈ s.(sb_held)) then
        Some (None, (mkSb s.(sb_anchor) s.(sb_super) (<[b := w]> s.(sb_link)) s.(sb_listed)
                       s.(sb_retired) s.(sb_held), pcs))
      else None
  | SFlush t head n =>
      let batch := follow s.(sb_link) head (S n) in
      match pcs !! t, s.(sb_super) with
      | Some SIdle, Some sb =>
          if bool_decide (NoDup batch) && bool_decide (Forall (λ b, b ∈ s.(sb_held)) batch) then
            Some (None, (mkSb s.(sb_anchor) s.(sb_super) s.(sb_link) s.(sb_listed) s.(sb_retired)
                           (s.(sb_held) ∖ list_to_set batch), <[t := FlushLoad sb batch]> pcs))
          else None
      | _, _ => None
      end
  | SPop t =>
      match pcs !! t, s.(sb_listed) with
      | Some SIdle, true =>
          Some (None, (mkSb s.(sb_anchor) s.(sb_super) s.(sb_link) false s.(sb_retired) s.(sb_held),
                       <[t := TakeLoad]> pcs))
      | _, _ => None
      end
  | SNew sb =>
      if reuse && s.(sb_retired) && bool_decide (Forall (λ b, b ∉ s.(sb_held)) (blocks_of g sb)) then
        Some (None, (new_sb g sb s.(sb_held) s.(sb_link) s.(sb_listed), pcs))
      else None
  | SGo t weak =>
      match pcs !! t with
      | Some pc => match sb_go g weak s pc with
                   | Ok (s', pc', e) => Some (e, (s', <[t := pc']> pcs))
                   | Err _ => None
                   end
      | None => None
      end
  end.

Lemma sact_sound reuse c a e c' : sact reuse c a = Some (e, c') -> sstep g reuse c e c'.
Proof.
  destruct c as [s pcs], a as [b w|t h n|t|sb|t weak]; cbn [sact].
  - destruct (bool_decide _) eqn:Eb; [|done]. intros [= <- <-]. constructor.
    exact (bool_decide_eq_true_1 _ Eb).
  - destruct (pcs !! t) as [[]|] eqn:Ht; try done. destruct (sb_super s) as [sb|] eqn:Hs; [|done].
    destruct (bool_decide (NoDup _) && _) eqn:Eb; [|done]. intros [= <- <-]. rewrite <- Hs.
    apply andb_prop in Eb as [H1%bool_decide_eq_true_1 H2%bool_decide_eq_true_1]. by constructor.
  - destruct (pcs !! t) as [[]|] eqn:Ht; try done. destruct (sb_listed s) eqn:Hs; [|done].
    intros [= <- <-]. by constructor.
  - destruct (reuse && sb_retired s && _) eqn:Eb; [|done]. intros [= <- <-].
    apply andb_prop in Eb as [[H1 H2]%andb_prop H3%bool_decide_eq_true_1]. by constructor.
  - destruct (pcs !! t) as [pc|] eqn:Ht; [|done].
    destruct (sb_go g weak s pc) as [[[s' pc'] e']|] eqn:Hg; [|done]. intros [= <- <-].
    by econstructor.
Qed.

Fixpoint srun (reuse : bool) (as' : list SAct) (c : Sb * list SPc) (tr : list SEvent)
    : option (list SEvent * (Sb * list SPc)) :=
  match as' with
  | [] => Some (tr, c)
  | a :: rest =>
      match sact reuse c a with
      | Some (e, c') => srun reuse rest c' (tr ++ option_list e)
      | None => None
      end
  end.

Lemma srun_sound reuse start as' : forall c tr r,
  sreach g reuse start tr c -> srun reuse as' c tr = Some r -> sreach g reuse start r.1 r.2.
Proof.
  induction as' as [|a as' IH]; simpl; intros c tr r Hc Hr; [by injection Hr as <-|].
  destruct (sact reuse c a) as [[e c']|] eqn:Ea; [|done]. eapply IH; [|exact Hr].
  econstructor; [done|exact (sact_sound _ _ _ _ _ Ea)].
Qed.
End Schedule.

(** Thread [t] gives back [n + 1] blocks without interruption. *)
Definition flush_whole (t : nat) (head : Z) (n : nat) : list SAct :=
  SFlush t head n :: replicate 4 (SGo t false).

(** A superblock of four blocks of 8 bytes. *)
Definition geo4 : Geometry := mkGeometry 4096 8 4 32.

Lemma geo4_ok : geometry_ok geo4.
Proof. by split. Qed.

(** Thread 0 has given back the block 4096; thread 1 has popped the descriptor and
    loaded the anchor when thread 0 gives back the block 4104. *)
Definition lost_race : list SAct :=
  flush_whole 0 4096 0 ++ [SPop 1; SGo 1 false] ++ flush_whole 0 4104 0.

(** ** Results *)

(** C27: [malloc_from_partial] loads the anchor once, before its loop.  A thread
    that has loaded it and finds a different one at its compare-and-exchange,
    because another thread has given back blocks in between, never leaves the
    loop, whatever the threads do. *)
Theorem lost_take_spins_forever {BR : BitRange} g n tr c t old tr' c' :
  geometry_ok g -> sreach g false (s_start g n) tr c ->
  c.2 !! t = Some (TakeCas old) -> anchor_state old <> Ok EMPTY -> c.1.(sb_anchor) <> old ->
  sreach g false c tr' c' -> c'.2 !! t = Some (TakeCas old) /\ c'.1.(sb_anchor) <> old.
Proof.
  intros Hg Hr Ht Hne Ha Hr'. destruct (sreach_sinv Hg _ _ _ Hr) as (k0 & Hi0 & _).
  assert (Hold : anchor_state old = Ok PARTIAL).
  { destruct (Forall_lookup_1 _ _ _ _ (si_pcs _ _ Hi0) Ht) as (st & Hst & Hf & _). by destruct st. }
  enough (exists k, sinv (g:=g) (live:=blocks_of g g.(g_super_block)) c' k /\ stale t old c') as (k & _ & H1 & _ & H2) by done.
  clear tr Hr. induction Hr' as [|tr c1 e c2 _ (k & Hi & Hs) Hstep]; [by exists k0|].
  destruct (sinv_step Hg (reflexivity _) _ _ _ _ Hi Hstep) as (k' & Hi' & _). exists k'. split; [done|].
  exact (stale_step Hg (reflexivity _) _ _ _ _ _ _ Hi Hs Hstep).
Qed.


(** On a concrete instance of the accessors of the anchor: *)
#[local] Existing Instance bit_range_u64.

(** After [lost_race], thread 1 takes a hundred more turns. *)
Lemma lost_take_spins_forever_witness :
  exists tr c tr' c' old, sreach geo4 false (s_start geo4 2) tr c /\ sreach geo4 false c tr' c' /\
    c.2 !! 1%nat = Some (TakeCas old) /\ c'.2 !! 1%nat = Some (TakeCas old).
Proof.
  destruct (srun geo4 false lost_race (s_start geo4 2) []) as [[tr c]|] eqn:Er;
    [|vm_compute in Er; discriminate].
  pose proof (srun_sound geo4 false _ lost_race _ _ _ (sreach_start _ _ _) Er) as Hr.
  destruct (srun geo4 false (replicate 100 (SGo 1 false)) c []) as [[tr' c']|] eqn:Er';
    [|vm_compute in Er; injection Er as <- <-; vm_compute in Er'; discriminate].
  pose proof (srun_sound geo4 false _ _ _ _ _ (sreach_start _ _ c) Er') as Hr'.
  assert (Hc : exists old, c.2 !! 1%nat = Some (TakeCas old) /\ anchor_state old = Ok PARTIAL /\
    (c.1.(sb_anchor) =? old) = false).
  { vm_compute in Er. injection Er as <- <-. eexists. split; [reflexivity|]. by vm_compute. }
  destruct Hc as (old & Ht & Hst & Ha). apply Z.eqb_neq in Ha.
  exists tr, c, tr', c', old. do 3 (split; [done|]).
  apply (lost_take_spins_forever geo4 2 tr c 1 old tr' c' geo4_ok Hr Ht); [|done|done].
  by rewrite Hst.
Defined.

