(* ===== verification/ThreadBins.v ===== *)
(** * The bins of threads over a concurrent superblock

    [SuperBlock] has the blocks that threads and clients use in one set, of which
    any linked list may be given back.  Here each thread has its
    [ThreadCacheBin] ([src/src/thread_cache.rs]), and clients hold blocks of their
    own: a client's block goes to the bin of the thread that frees it and blocks
    come out of a bin one by one; a thread flushes what the walk of [flush_cache]
    finds from the first block of its bin; what it takes from the partial
    list goes to its empty bin, and so do the blocks of a new superblock.  Blocks
    of other superblocks of the size class are in the bins too.

    The build is that of the feature [no_met_stack] of [src/Cargo.toml]: links are
    addresses in every bin.  Without it the walk of [flush_cache] does not follow
    the links that [pop_block] follows, and its batch may hold blocks of clients:
    [Findings] has the run.  APF is off: a bin that is full is flushed before a
    free, and no tuner fetches.  A thread reads the links of its own bin without
    interference, so that a walk is one operation; free and malloc of a block
    that stays in the thread are one operation each. *)
From S2P Require Import Prelude MemInfo Anchor Mem Bin Alloc SuperBlock.

(** [th_sb.(sb_held)]: the blocks that clients hold. *)
Record Threads : Type := mkThreads {
  th_sb : Sb;
  th_bins : list ThreadCacheBin;
  th_pcs : list SPc;
}.

Definition set_link (s : Sb) (link : gmap Z Z) : Sb :=
  mkSb s.(sb_anchor) s.(sb_super) link s.(sb_listed) s.(sb_retired) s.(sb_held).
Definition set_held (s : Sb) (held : gset Z) : Sb :=
  mkSb s.(sb_anchor) s.(sb_super) s.(sb_link) s.(sb_listed) s.(sb_retired) held.

(** ** Bins of linked blocks *)
Definition link_push (link : gmap Z Z) (c : ThreadCacheBin) (b : Z) : gmap Z Z * ThreadCacheBin :=
  (<[b := c.(block)]> link, mkBin b (u32 (c.(bin_block_num) + 1)) c.(bin_block_size)).

Definition link_pop (link : gmap Z Z) (c : ThreadCacheBin) : result (Z * ThreadCacheBin) :=
  if c.(bin_block_num) =? 0
  then Err (Panic "Attempting to pop a block from cache while cache is empty")
  else if c.(block) =? 0 then Ok (0, c)
  else Ok (c.(block), mkBin (word link c.(block)) (u32 (c.(bin_block_num) - 1)) c.(bin_block_size)).

(** The blocks after [tail], at most [n], up to the first that is not in the
    superblock. *)
Fixpoint walk (link : gmap Z Z) (super_block sb_size tail : Z) (n : nat) : list Z :=
  match n with
  | O => []
  | S n' =>
      let ptr := word link tail in
      if (ptr <? super_block) || (super_block + sb_size <=? ptr) then []
      else ptr :: walk link super_block sb_size ptr n'
  end.

(** The batch from the first block of the bin, and the bin without it. *)
Definition flush_batch (link : gmap Z Z) (super_block sb_size : Z) (c : ThreadCacheBin)
    : result (list Z * ThreadCacheBin) :=
  let head := peek_block c in
  let batch := head :: walk link super_block sb_size head (Z.to_nat (c.(bin_block_num) - 1)) in
  c' ← pop_list c (word link (default 0 (last batch))) (Z.of_nat (length batch));
  Ok (batch, c').

Section Threads.
Context {BR : BitRange} (g : Geometry).

(** The links of a new superblock, from its last block to its first. *)
Definition link_new (link : gmap Z Z) (super_block : Z) : gmap Z Z :=
  (foldr (λ i '(m, last),
      let current := super_block + u32 (g.(g_block_size) * i) in
      (<[current := last]> m, current)) (link, 0) (range 0 g.(g_max_count))).1.

(** [malloc_from_new_sb], when it has a descriptor and a superblock. *)
Definition new_bin (s : Sb) (c : ThreadCacheBin) (super_block : Z) : result (Sb * ThreadCacheBin) :=
  c' ← push_list c super_block (u32 g.(g_max_count));
  Ok (mkSb (new_anchor g.(g_max_count)) (Some super_block) (link_new s.(sb_link) super_block)
        s.(sb_listed) false s.(sb_held), c').

(** One operation of a thread in [flush_cache] or [malloc_from_partial]. *)
Definition bin_go (weak : bool) (s : Sb) (c : ThreadCacheBin) (pc : SPc)
    : result (Sb * ThreadCacheBin * SPc * option SEvent) :=
  match pc with
  | TakeBlocks old _ =>
      match s.(sb_super) with
      | None => Err (Panic "called `Option::unwrap()` on a `None` value")
      | Some sb =>
          if avail old <=? g.(g_max_count) then
            if c.(bin_block_num) =? 0 then
              c' ← push_list c (block_at g sb (avail old)) (u32 (count old));
              Ok (s, c', SIdle, None)
            else Err (Panic "assertion failed: `(left == right)`")
          else Err (Panic "Avail: {}, Count {}")
      end
  | _ => '(s', pc', e) ← sb_go g weak s pc; Ok (s', c, pc', e)
  end.

(** ** Interleavings *)
Definition idle (x : Threads) (t : nat) : option ThreadCacheBin :=
  match x.(th_pcs) !! t, x.(th_bins) !! t with
  | Some SIdle, Some c => Some c
  | _, _ => None
  end.

Definition bin_list (link : gmap Z Z) (c : ThreadCacheBin) : list Z :=
  follow link c.(block) (Z.to_nat c.(bin_block_num)).
Definition binned (link : gmap Z Z) (bins : list ThreadCacheBin) : list Z := bins ≫= bin_list link.

(** The blocks that are in bins or that clients hold. *)
Definition custody (x : Threads) : list Z :=
  binned x.(th_sb).(sb_link) x.(th_bins) ++ elements x.(th_sb).(sb_held).

Definition within (super_block b : Z) : Prop := super_block <= b < super_block + g.(g_sb_size).
Definition apart (super_block : Z) : Prop :=
  super_block + g.(g_sb_size) <= g.(g_super_block) \/ g.(g_super_block) + g.(g_sb_size) <= super_block.

#[global] Instance within_dec sb b : Decision (within sb b).
Proof. unfold within. apply _. Defined.
#[global] Instance apart_dec sb : Decision (apart sb).
Proof. unfold apart. apply _. Defined.

(** What happens next: a client writes to a block it holds; a client frees a
    block through thread [t], or gets one from its bin; a thread starts to flush
    its bin, or finds the descriptor in the partial list; with [reuse], a thread gets
    the retired descriptor and makes a new superblock; a thread goes on.  The last
    three are about other superblocks: a store to memory of one, a bin filled from
    one, a batch flushed to one. *)
Inductive CAct : Type :=
  | CWrite (b w : Z)
  | CFree (t : nat) (b : Z)
  | CMalloc (t : nat)
  | CFlush (t : nat)
  | CPop (t : nat)
  | CNew (t : nat) (super_block : Z)
  | CGo (t : nat) (weak : bool)
  | COtherWrite (b w : Z)
  | COtherFill (t : nat) (head : Z) (n : nat)
  | COtherFlush (t : nat) (super_block : Z).

Definition cact (reuse : bool) (x : Threads) (a : CAct) : option (option SEvent * Threads) :=
  let '(mkThreads s bins pcs) := x in
  match a with
  | CWrite b w =>
      if bool_decide (b ∈ s.(sb_held))
      then Some (None, mkThreads (set_link s (<[b := w]> s.(sb_link))) bins pcs)
      else None
  | CFree t b =>
      c ← idle x t;
      if bool_decide (b ∈ s.(sb_held)) && (c.(bin_block_num) <? g.(g_max_count)) then
        let '(link', c') := link_push s.(sb_link) c b in
        Some (None, mkThreads (set_held (set_link s link') (s.(sb_held) ∖ {[b]})) (<[t := c']> bins) pcs)
      else None
  | CMalloc t =>
      c ← idle x t;
      match link_pop s.(sb_link) c with
      | Ok (b, c') => Some (None, mkThreads (set_held s ({[b]} ∪ s.(sb_held))) (<[t := c']> bins) pcs)
      | Err _ => None
      end
  | CFlush t =>
      c ← idle x t;
      sb ← s.(sb_super);
      if (0 <? c.(bin_block_num)) && bool_decide (within sb c.(block)) then
        match flush_batch s.(sb_link) sb g.(g_sb_size) c with
        | Ok (batch, c') => Some (None, mkThreads s (<[t := c']> bins) (<[t := FlushLoad sb batch]> pcs))
        | Err _ => None
        end
      else None
  | CPop t =>
      c ← idle x t;
      if s.(sb_listed) && (c.(bin_block_num) =? 0) then
        Some (None, mkThreads (mkSb s.(sb_anchor) s.(sb_super) s.(sb_link) false s.(sb_retired) s.(sb_held))
                      bins (<[t := TakeLoad]> pcs))
      else None
  | CNew t sb =>
      c ← idle x t;
      if reuse && s.(sb_retired) && bool_decide (Forall (λ b, b ∉ custody x) (blocks_of g sb)) then
        match new_bin s c sb with
        | Ok (s', c') => Some (None, mkThreads s' (<[t := c']> bins) pcs)
        | Err _ => None
        end
      else None
  | CGo t weak =>
      pc ← pcs !! t;
      c ← bins !! t;
      match bin_go weak s c pc with
      | Ok (s', c', pc', e) => Some (e, mkThreads s' (<[t := c']> bins) (<[t := pc']> pcs))
      | Err _ => None
      end
  | COtherWrite b w =>
      if bool_decide (~ within g.(g_super_block) b) && bool_decide (b ∉ custody x)
      then Some (None, mkThreads (set_link s (<[b := w]> s.(sb_link))) bins pcs)
      else None
  | COtherFill t head n =>
      c ← idle x t;
      let l := follow s.(sb_link) head n in
      if (c.(bin_block_num) =? 0) && (Z.of_nat n <? 2 ^ 32) && bool_decide (NoDup l) &&
         bool_decide (Forall (λ b, 0 < b /\ ~ within g.(g_super_block) b /\ b ∉ custody x) l) then
        match push_list c head (Z.of_nat n) with
        | Ok c' => Some (None, mkThreads s (<[t := c']> bins) pcs)
        | Err _ => None
        end
      else None
  | COtherFlush t sb =>
      c ← idle x t;
      if (0 <? c.(bin_block_num)) && bool_decide (within sb c.(block)) && bool_decide (apart sb) then
        match flush_batch s.(sb_link) sb g.(g_sb_size) c with
        | Ok (_, c') => Some (None, mkThreads s (<[t := c']> bins) pcs)
        | Err _ => None
        end
      else None
  end.

Inductive creach (reuse : bool) (start : Threads) : list SEvent -> Threads -> Prop :=
  | creach_start : creach reuse start [] start
  | creach_step tr x a e x' :
      creach reuse start tr x -> cact reuse x a = Some (e, x') ->
      creach reuse start (tr ++ option_list e) x'.

(** Thread 0 has made the superblock; [n] other threads have empty bins. *)
Definition c_start (n : nat) : Threads :=
  mkThreads (mkSb (new_anchor g.(g_max_count)) (Some g.(g_super_block)) (link_new ∅ g.(g_super_block))
               false false ∅)
    (mkBin g.(g_super_block) g.(g_max_count) None :: replicate n bin_new) (replicate (S n) SIdle).

Fixpoint crun (reuse : bool) (acts : list CAct) (x : Threads) (tr : list SEvent)
    : option (list SEvent * Threads) :=
  match acts with
  | [] => Some (tr, x)
  | a :: rest =>
      match cact reuse x a with
      | Some (e, x') => crun reuse rest x' (tr ++ option_list e)
      | None => None
      end
  end.

Lemma crun_reach reuse start acts : forall x tr r,
  creach reuse start tr x -> crun reuse acts x tr = Some r -> creach reuse start r.1 r.2.
Proof.
  induction acts as [|a acts IH]; simpl; intros x tr r Hx Hr; [by injection Hr as <-|].
  destruct (cact reuse x a) as [[e x']|] eqn:Ea; [|done]. eapply IH; [|exact Hr].
  by econstructor.
Qed.
End Threads.

(** ** Lists of linked blocks *)
Lemma follow_insert link x w n : forall b,
  x ∉ follow link b n -> follow (<[x := w]> link) b n = follow link b n.
Proof.
  induction n as [|n IH]; intros b Hx; [done|]. simpl in *. f_equal.
  rewrite word_insert_ne by set_solver. apply IH. set_solver.
Qed.

Lemma follow_app link n m : forall b,
  follow link b (S n + m) =
  follow link b (S n) ++ follow link (word link (default 0 (last (follow link b (S n))))) m.
Proof.
  induction n as [|n IH]; intros b; [done|].
  change (follow link b (S (S n) + m)) with (b :: follow link (word link b) (S n + m)).
  rewrite IH. change (follow link b (S (S n))) with (b :: word link b :: follow link (word link (word link b)) n).
  by rewrite last_cons_cons.
Qed.

(** What the walk finds is the first part of the list. *)
Lemma walk_follow link sb size n : forall tail,
  let l := walk link sb size tail n in
  tail :: l = follow link tail (S (length l)) /\ (length l <= n)%nat /\
  Forall (λ b, sb <= b < sb + size) l.
Proof.
  induction n as [|n IH]; intros tail; simpl; [done|].
  destruct ((_ <? sb) || _) eqn:E; simpl; [split_and!; [done|lia|constructor]|].
  apply orb_false_iff in E as [E1%Z.ltb_ge E2%Z.leb_gt].
  destruct (IH (word link tail)) as (H1 & H2 & H3). split; [by f_equal|]. split; [lia|].
  constructor; [lia|done].
Qed.

Lemma flush_batch_spec link sb size c :
  0 < c.(bin_block_num) -> sb <= c.(block) < sb + size ->
  exists n c', flush_batch link sb size c = Ok (follow link c.(block) (S n), c') /\
    bin_list link c = follow link c.(block) (S n) ++ bin_list link c' /\
    Forall (λ b, sb <= b < sb + size) (follow link c.(block) (S n)) /\
    0 <= c'.(bin_block_num) <= c.(bin_block_num).
Proof.
  intros Hn Hb. unfold flush_batch, peek_block, pop_list.
  destruct (walk_follow link sb size (Z.to_nat (bin_block_num c - 1)) (block c)) as (H1 & H2 & H3).
  set (l := walk _ _ _ _ _) in *. exists (length l). eexists.
  assert (Hlen : Z.of_nat (length (block c :: l)) <= bin_block_num c) by (simpl; lia).
  rewrite (proj2 (Z.ltb_ge _ _) Hlen). change (_ ≫= ?f) with (f (mkBin (word link (default 0 (last (block c :: l))))
    (bin_block_num c - Z.of_nat (length (block c :: l))) (bin_block_size c))). cbv beta.
  split; [by rewrite H1|]. rewrite <- H1. split; [|split; [by constructor|simpl in *; lia]].
  unfold bin_list. simpl block. simpl bin_block_num. rewrite H1 at 1.
  replace (Z.to_nat (bin_block_num c)) with
    (S (length l) + Z.to_nat (bin_block_num c - Z.of_nat (length (block c :: l))))%nat
    by (simpl in *; lia).
  by rewrite follow_app, <- H1.
Qed.

Lemma link_push_list link c b :
  0 <= c.(bin_block_num) < 2 ^ 32 - 1 -> b ∉ bin_list link c ->
  let '(link', c') := link_push link c b in
  bin_list link' c' = b :: bin_list link c /\ c'.(bin_block_num) = c.(bin_block_num) + 1.
Proof.
  intros Hn Hb. unfold link_push, bin_list. simpl. unfold u32, wrap. rewrite Z.mod_small by lia.
  split; [|done]. replace (Z.to_nat (bin_block_num c + 1)) with (S (Z.to_nat (bin_block_num c))) by lia.
  simpl. f_equal. unfold word at 1. rewrite lookup_insert_eq. simpl. by apply follow_insert.
Qed.

Lemma link_pop_list link c :
  0 < c.(bin_block_num) < 2 ^ 32 -> c.(block) <> 0 ->
  exists c', link_pop link c = Ok (c.(block), c') /\ bin_list link c = c.(block) :: bin_list link c' /\
    c'.(bin_block_num) = c.(bin_block_num) - 1.
Proof.
  intros Hn Hb. unfold link_pop, bin_list. rewrite (proj2 (Z.eqb_neq _ _)) by lia.
  rewrite (proj2 (Z.eqb_neq _ _)) by done. eexists. split; [done|]. simpl. unfold u32, wrap.
  rewrite Z.mod_small by lia. split; [|done].
  by replace (Z.to_nat (bin_block_num c)) with (S (Z.to_nat (bin_block_num c - 1))) by lia.
Qed.

Lemma bin_list_empty link c : c.(bin_block_num) = 0 -> bin_list link c = [].
Proof. intros H. unfold bin_list. by rewrite H. Qed.

Lemma push_list_empty c b n :
  c.(bin_block_num) = 0 -> push_list c b n = Ok (mkBin b n c.(bin_block_size)).
Proof. intros H. unfold push_list. by rewrite H. Qed.

Lemma binned_middle link l1 c l2 :
  binned link (l1 ++ c :: l2) ≡ₚ bin_list link c ++ binned link (l1 ++ l2).
Proof.
  unfold binned. rewrite !bind_app, bind_cons. rewrite !(assoc_L app). f_equiv.
  apply Permutation_app_comm.
Qed.

Lemma binned_insert link bins x w :
  x ∉ binned link bins -> binned (<[x := w]> link) bins = binned link bins.
Proof.
  unfold binned. induction bins as [|c bins IH]; [done|]. rewrite !bind_cons. intros Hx.
  rewrite IH by set_solver. f_equal. apply follow_insert. unfold bin_list in Hx. set_solver.
Qed.

(** The links of a new superblock. *)
Section LinkNew.
Context {g : Geometry} (Hg : geometry_ok g).

Lemma link_new_loop (link : gmap Z Z) sb n : forall a,
  0 <= a -> a + Z.of_nat n <= g.(g_max_count) ->
  let r := foldr (λ i '(m, last),
      let current := sb + u32 (g.(g_block_size) * i) in (<[current := last]> m, current))
      (link, 0) (seqZ a (Z.of_nat n)) in
  (n <> O -> r.2 = block_at g sb a) /\
  follow r.1 (block_at g sb a) n = block_at g sb <$> seqZ a (Z.of_nat n).
Proof.
  induction n as [|n IH]; intros a Ha Hn; simpl foldr; [done|].
  rewrite seqZ_cons by lia. replace (Z.pred (Z.of_nat (S n))) with (Z.of_nat n) by lia.
  replace (Z.succ a) with (a + 1) by lia. simpl. destruct (IH (a + 1)) as [IH1 IH2]; [lia|lia|].
  destruct (foldr _ _ _) as [m last]. simpl in *. pose proof (go_size _ Hg). pose proof (go_bs _ Hg).
  assert (Hcur : sb + u32 (g_block_size g * a) = block_at g sb a).
  { unfold u32, wrap, block_at. rewrite Z.mod_small by nia. lia. }
  rewrite Hcur. split; [done|]. f_equal. destruct n as [|n]; [done|].
  unfold word at 1. rewrite lookup_insert_eq. simpl default. rewrite IH1 by done.
  rewrite follow_insert; [done|]. rewrite IH2. intros (i & Hi & Hin%elem_of_seqZ)%list_elem_of_fmap.
  apply (block_at_inj Hg) in Hi. lia.
Qed.

Lemma link_new_follow link sb :
  follow (link_new g link sb) sb (Z.to_nat g.(g_max_count)) = blocks_of g sb.
Proof.
  pose proof (go_max _ Hg). unfold link_new, blocks_of, range.
  replace (g_max_count g - 0) with (Z.of_nat (Z.to_nat (g_max_count g))) by lia.
  destruct (link_new_loop link sb (Z.to_nat (g_max_count g)) 0) as [_ H2]; [lia|lia|].
  rewrite <- H2. f_equal. unfold block_at. lia.
Qed.
End LinkNew.

(** ** The threads refine the superblock with one set of held blocks *)
Definition taking (pc : SPc) : bool :=
  match pc with TakeLoad | TakeCas _ | TakeRetire | TakeBlocks _ _ => true | _ => false end.

Section Simulation.
Context {BR : BitRange} {g : Geometry} (Hg : geometry_ok g).
Let base := g.(g_super_block).
Let all := blocks_of g base.

(** Only the blocks of this superblock are in the one set. *)
Definition held_of (l : list Z) : gset Z := list_to_set (filter (within g base) l).
Definition merged (x : Threads) : Sb * list SPc :=
  (set_held x.(th_sb) (held_of (custody x)), x.(th_pcs)).

Record cinv (x : Threads) : Prop := {
  ci_nodup : NoDup (custody x);
  ci_pos : Forall (λ b, 0 < b) (custody x);
  ci_bins : Forall (λ c, 0 <= c.(bin_block_num) < 2 ^ 32) x.(th_bins);
  ci_taking : forall t pc c, x.(th_pcs) !! t = Some pc -> x.(th_bins) !! t = Some c ->
    taking pc = true -> c.(bin_block_num) = 0;
}.

Definition simulated (x : Threads) (e : option SEvent) (x' : Threads) : Prop :=
  (sstep g false (merged x) e (merged x') \/ e = None /\ merged x' = merged x) /\ cinv x'.

Lemma elem_of_held_of b l : b ∈ held_of l <-> within g base b /\ b ∈ l.
Proof. unfold held_of. by rewrite elem_of_list_to_set, list_elem_of_filter. Qed.

Lemma held_of_perm l l' : l ≡ₚ l' -> held_of l = held_of l'.
Proof. intros H. apply set_eq. intros b. by rewrite !elem_of_held_of, H. Qed.

Lemma held_of_other l l' :
  Forall (λ b, ~ within g base b) l -> held_of (l ++ l') = held_of l'.
Proof.
  rewrite Forall_forall. intros H. apply set_eq. intros b. rewrite !elem_of_held_of, elem_of_app.
  naive_solver.
Qed.

Lemma blocks_within b : b ∈ all -> within g base b.
Proof.
  intros (i & Hi & ->)%elem_of_blocks. unfold within, block_at. pose proof (go_fit _ Hg).
  pose proof (go_bs _ Hg). fold base. nia.
Qed.

Section Inv.
Context (x : Threads) (k : Slot) (Hi : sinv (g:=g) (live:=all) (merged x) k) (Hx : cinv x).

Lemma merged_held b : b ∈ custody x -> within g base b -> b ∈ elements (sb_held (merged x).1).
Proof. intros H1 H2. apply elem_of_elements. simpl. by apply elem_of_held_of. Qed.

Lemma custody_all b : b ∈ custody x -> within g base b -> b ∈ all.
Proof.
  intros H1 H2. eapply elem_of_submseteq; [|exact (si_owned _ _ Hi)].
  pose proof (merged_held b H1 H2). unfold out. set_solver.
Qed.

Lemma flying_custody b : b ∈ flying x.(th_pcs) -> b ∈ all /\ b ∉ custody x.
Proof.
  intros H. pose proof (flying_all Hg (reflexivity _) _ _ _ Hi H) as Ha. split; [done|]. intros Hc.
  pose proof (owned_NoDup Hg (reflexivity _) _ _ Hi) as (_ & _ & (_ & Hn & _)%NoDup_app)%NoDup_app.
  apply (Hn b H). apply merged_held; [done|by apply blocks_within].
Qed.
End Inv.

(** A store to memory that is in no bin. *)
Lemma store_simulated s bins pcs b w :
  b ∉ binned s.(sb_link) bins -> b ∈ s.(sb_held) \/ ~ within g base b ->
  let x := mkThreads s bins pcs in
  let x' := mkThreads (set_link s (<[b := w]> s.(sb_link))) bins pcs in
  custody x' = custody x /\ sstep g false (merged x) None (merged x').
Proof.
  intros Hb Hw x x'. assert (Hc : custody x' = custody x).
  { unfold custody. simpl. by rewrite binned_insert. }
  split; [done|]. unfold merged. rewrite Hc. simpl. destruct (decide (within g base b)) as [Hin|Hin].
  - apply (sstep_write _ _ (set_held s (held_of (custody x)))). simpl. apply elem_of_held_of.
    split; [done|]. unfold custody. simpl. set_solver.
  - apply (sstep_other _ _ (set_held s (held_of (custody x)))). by intros H%blocks_within.
Qed.

Lemma taking_insert (pcs : list SPc) (bins : list ThreadCacheBin) (t : nat) pc' c' :
  (forall u pc c, pcs !! u = Some pc -> bins !! u = Some c -> taking pc = true -> c.(bin_block_num) = 0) ->
  (taking pc' = true -> c'.(bin_block_num) = 0) ->
  forall u pc c, <[t := pc']> pcs !! u = Some pc -> <[t := c']> bins !! u = Some c ->
    taking pc = true -> c.(bin_block_num) = 0.
Proof.
  intros H Ht u pc c Hp Hc. destruct (decide (u = t)) as [->|Hne].
  - apply list_lookup_insert_Some in Hp as [(_ & -> & _)|(? & _)]; [|done].
    apply list_lookup_insert_Some in Hc as [(_ & -> & _)|(? & _)]; done.
  - rewrite list_lookup_insert_ne in Hp by done. rewrite list_lookup_insert_ne in Hc by done. eauto.
Qed.

(** A thread changes its bin: what the invariant asks of the new custody. *)
Lemma cinv_update s s' bins pcs t c c' pc pc' :
  cinv (mkThreads s bins pcs) -> bins !! t = Some c -> pcs !! t = Some pc ->
  (taking pc' = true -> c'.(bin_block_num) = 0) -> 0 <= c'.(bin_block_num) < 2 ^ 32 ->
  let x' := mkThreads s' (<[t := c']> bins) (<[t := pc']> pcs) in
  NoDup (custody x') -> Forall (λ b, 0 < b) (custody x') -> cinv x'.
Proof.
  intros [H1 H2 H3 H4] Hc Hp Ht Hb x' Hn Hpos. split; [done|done| |].
  - by apply Forall_insert.
  - by apply taking_insert.
Qed.

Lemma idle_inv x t c : idle x t = Some c -> x.(th_pcs) !! t = Some SIdle /\ x.(th_bins) !! t = Some c.
Proof. unfold idle. by destruct (th_pcs x !! t) as [[]|], (th_bins x !! t); intros [= ->]. Qed.

Lemma cinv_idle s s' bins pcs t c c' :
  cinv (mkThreads s bins pcs) -> bins !! t = Some c -> pcs !! t = Some SIdle ->
  0 <= c'.(bin_block_num) < 2 ^ 32 ->
  let x' := mkThreads s' (<[t := c']> bins) pcs in
  NoDup (custody x') -> Forall (λ b, 0 < b) (custody x') -> cinv x'.
Proof.
  intros Hx Hc Hp Hb x' Hn Hpos. unfold x'. rewrite <- (list_insert_id pcs t SIdle Hp).
  by apply (cinv_update s s' bins pcs t c c' SIdle SIdle).
Qed.

(** The custody when the bin of a thread and the blocks of clients change. *)
Lemma custody_insert s s' bins pcs pcs' (t : nat) c c' :
  bins !! t = Some c -> s'.(sb_link) = s.(sb_link) -> exists rest,
  custody (mkThreads s bins pcs) ≡ₚ bin_list s.(sb_link) c ++ rest ++ elements s.(sb_held) /\
  custody (mkThreads s' (<[t := c']> bins) pcs') ≡ₚ
    bin_list s.(sb_link) c' ++ rest ++ elements s'.(sb_held).
Proof.
  intros Hc Hl. destruct (pcs_middle _ _ _ c' Hc) as (l1 & l2 & -> & ->).
  exists (binned s.(sb_link) (l1 ++ l2)). unfold custody. simpl. rewrite Hl.
  rewrite !binned_middle. by rewrite <- !(assoc_L app).
Qed.

Lemma NoDup_suffix {A} (l k r : list A) : l ≡ₚ k ++ r -> NoDup l -> NoDup r.
Proof. intros -> H. by apply NoDup_app in H as (_ & _ & H). Qed.

Lemma Forall_suffix {A} (P : A -> Prop) (l k r : list A) : l ≡ₚ k ++ r -> Forall P l -> Forall P r.
Proof. intros -> H. by apply Forall_app in H as [_ H]. Qed.

Section Actions.
Context (s : Sb) (bins : list ThreadCacheBin) (pcs : list SPc) (k : Slot).
Let x := mkThreads s bins pcs.
Context (Hi : sinv (g:=g) (live:=all) (merged x) k) (Hx : cinv x).

Lemma held_not_binned b : b ∈ s.(sb_held) -> b ∉ binned s.(sb_link) bins.
Proof.
  intros Hb Hn. pose proof (ci_nodup _ Hx) as (_ & H & _)%NoDup_app. apply (H b Hn).
  by apply elem_of_elements.
Qed.

Lemma sim_store b w : b ∉ binned s.(sb_link) bins -> b ∈ s.(sb_held) \/ ~ within g base b ->
  simulated x None (mkThreads (set_link s (<[b := w]> s.(sb_link))) bins pcs).
Proof.
  intros Hb Hw. destruct (store_simulated s bins pcs b w Hb Hw) as [Hc Hs]. split; [by left|].
  destruct Hx as [H1 H2 H3 H4]. split; rewrite ?Hc; done.
Qed.

Lemma sim_free (t : nat) b c :
  idle x t = Some c -> b ∈ s.(sb_held) -> c.(bin_block_num) < g.(g_max_count) ->
  let '(link', c') := link_push s.(sb_link) c b in
  simulated x None
    (mkThreads (set_held (set_link s link') (s.(sb_held) ∖ {[b]})) (<[t := c']> bins) pcs).
Proof.
  intros [Hp Hc]%idle_inv Hb Hn. simpl in Hp, Hc. pose proof (held_not_binned b Hb) as Hnb.
  destruct (store_simulated s bins pcs b c.(block) Hnb (or_introl Hb)) as [Hcu Hs].
  pose proof (go_max _ Hg) as Hmax. pose proof (Forall_lookup_1 _ _ _ _ (ci_bins _ Hx) Hc) as Hcn.
  assert (Hncl : b ∉ bin_list s.(sb_link) c).
  { intros H. apply Hnb. apply list_elem_of_bind. exists c. split; [done|]. by eapply list_elem_of_lookup_2. }
  pose proof (link_push_list s.(sb_link) c b ltac:(simpl in Hcn; lia) Hncl) as Hpl.
  unfold link_push in *. destruct Hpl as [Hl Hn'].
  set (s1 := set_link s (<[b := block c]> s.(sb_link))) in *.
  set (c' := mkBin b _ _) in *. set (x' := mkThreads _ _ _). fold x in Hcu.
  assert (Hperm : custody x' ≡ₚ custody x).
  { rewrite <- Hcu.
    destruct (custody_insert s1 (set_held s1 (s.(sb_held) ∖ {[b]})) bins pcs pcs t c c')
      as (rest & E1 & E2); [done..|].
    unfold x'. rewrite E1, E2. simpl sb_link. rewrite Hl. simpl sb_held.
    assert (bin_list (<[b := block c]> s.(sb_link)) c = bin_list s.(sb_link) c) as ->
      by (by apply follow_insert).
    rewrite (union_difference_singleton_L b s.(sb_held)) at 2 by done.
    rewrite elements_union_singleton by set_solver.
    rewrite !(assoc_L app). by rewrite <- Permutation_middle. }
  split.
  - left. unfold merged at 2. rewrite (held_of_perm _ _ Hperm), <- Hcu. exact Hs.
  - apply (cinv_idle _ _ _ _ _ _ _ Hx Hc Hp); [simpl in *; lia|..]; fold x'; rewrite Hperm; apply Hx.
Qed.

Lemma bin_custody (t : nat) c b : bins !! t = Some c -> b ∈ bin_list s.(sb_link) c -> b ∈ custody x.
Proof.
  intros Hc Hb. apply elem_of_app. left. apply list_elem_of_bind. exists c.
  split; [done|]. by eapply list_elem_of_lookup_2.
Qed.

(** A bin that is not empty starts with a block. *)
Lemma bin_head (t : nat) c : bins !! t = Some c -> 0 < c.(bin_block_num) ->
  0 < c.(block) /\ c.(block) ∈ custody x.
Proof.
  intros Hc Hn. assert (Hb : block c ∈ custody x).
  { apply (bin_custody t c _ Hc). unfold bin_list.
    replace (Z.to_nat (bin_block_num c)) with (S (Z.to_nat (bin_block_num c - 1))) by lia.
    simpl. set_solver. }
  split; [|done]. pose proof (ci_pos _ Hx) as H. rewrite Forall_forall in H. by apply H.
Qed.

Lemma sim_malloc (t : nat) b c c' :
  idle x t = Some c -> link_pop s.(sb_link) c = Ok (b, c') ->
  simulated x None (mkThreads (set_held s ({[b]} ∪ s.(sb_held))) (<[t := c']> bins) pcs).
Proof.
  intros [Hp Hc]%idle_inv Hpop. simpl in Hp, Hc.
  pose proof (Forall_lookup_1 _ _ _ _ (ci_bins _ Hx) Hc) as Hcn. simpl in Hcn.
  assert (Hn : 0 < bin_block_num c).
  { unfold link_pop in Hpop. destruct (Z.eqb_spec (bin_block_num c) 0); [done|lia]. }
  destruct (bin_head t c Hc Hn) as [Hpos _].
  destruct (link_pop_list s.(sb_link) c) as (c1 & Hpop' & Hl & Hn'); [lia..|].
  rewrite Hpop' in Hpop. injection Hpop as <- <-. set (x' := mkThreads _ _ _).
  assert (Hfresh : block c ∉ s.(sb_held)).
  { intros H. apply (held_not_binned _ H). apply list_elem_of_bind. exists c.
    split; [rewrite Hl; set_solver|]. by eapply list_elem_of_lookup_2. }
  assert (Hperm : custody x' ≡ₚ custody x).
  { destruct (custody_insert s (set_held s ({[block c]} ∪ s.(sb_held))) bins pcs pcs t c c1)
      as (rest & E1 & E2); [done..|].
    unfold x', x. rewrite E1, E2, Hl. simpl sb_held. rewrite elements_union_singleton by done.
    rewrite !(assoc_L app). by rewrite <- Permutation_middle. }
  split.
  - right. split; [done|]. unfold merged. by rewrite (held_of_perm _ _ Hperm).
  - apply (cinv_idle _ _ _ _ _ _ _ Hx Hc Hp); [lia|..]; fold x'; rewrite Hperm; apply Hx.
Qed.

(** A thread takes a batch off its bin. *)
Lemma flush_custody (t : nat) c sb pcs' :
  bins !! t = Some c -> 0 < c.(bin_block_num) -> within g sb c.(block) ->
  exists n c', let batch := follow s.(sb_link) c.(block) (S n) in
    flush_batch s.(sb_link) sb g.(g_sb_size) c = Ok (batch, c') /\
    Forall (within g sb) batch /\ custody x ≡ₚ batch ++ custody (mkThreads s (<[t := c']> bins) pcs') /\
    0 <= c'.(bin_block_num) < 2 ^ 32.
Proof.
  intros Hc Hn Hb. destruct (flush_batch_spec s.(sb_link) sb g.(g_sb_size) c Hn Hb) as (n & c' & H1 & H2 & H3 & H4).
  pose proof (Forall_lookup_1 _ _ _ _ (ci_bins _ Hx) Hc) as Hcn. simpl in Hcn.
  exists n, c'. split; [done|]. split; [done|]. split; [|lia].
  destruct (custody_insert s s bins pcs pcs' t c c') as (rest & E1 & E2); [done..|].
  unfold x. rewrite E1, E2, H2. by rewrite <- (assoc_L app).
Qed.

Lemma sim_flush (t : nat) c sb batch c' :
  idle x t = Some c -> s.(sb_super) = Some sb -> 0 < c.(bin_block_num) -> within g sb c.(block) ->
  flush_batch s.(sb_link) sb g.(g_sb_size) c = Ok (batch, c') ->
  simulated x None (mkThreads s (<[t := c']> bins) (<[t := FlushLoad sb batch]> pcs)).
Proof.
  intros [Hp Hc]%idle_inv Hsb Hn Hb Hfl. simpl in Hp, Hc.
  destruct (flush_custody t c sb (<[t := FlushLoad sb batch]> pcs) Hc Hn Hb) as (n & c1 & H1 & H2 & H3 & H4).
  rewrite H1 in Hfl. assert (c1 = c' /\ follow s.(sb_link) (block c) (S n) = batch) as [-> Hbt] by (by injection Hfl).
  assert (sb = base) as ->.
  { pose proof (si_super _ _ Hi) as Hs. simpl in Hs. rewrite Hsb in Hs. destruct k; naive_solver. }
  rewrite Hbt in *. set (x' := mkThreads s (<[t := c']> bins) (<[t := FlushLoad base batch]> pcs)) in *.
  pose proof (ci_nodup _ Hx) as Hnd. rewrite H3 in Hnd. apply NoDup_app in Hnd as (N1 & N2 & N3). split.
  - left. unfold merged. simpl.
    assert (Hset : held_of (custody x') = held_of (custody x) ∖ list_to_set batch).
    { apply set_eq. intros b. rewrite elem_of_difference, elem_of_list_to_set, !elem_of_held_of, H3, elem_of_app.
      split; [|tauto]. intros [Hw Hin]. split; [tauto|]. intros Hin2. by apply (N2 b). }
    rewrite Hset, <- Hbt. apply (sstep_flush g false (set_held s (held_of (custody x))) pcs t base (block c) n);
      cbn [set_held sb_link sb_held sb_super]; rewrite ?Hbt; [done..|].
    apply Forall_forall. intros b Hbb. apply elem_of_held_of. rewrite Forall_forall in H2.
    split; [by apply H2|].
    rewrite H3. set_solver.
  - apply (cinv_update _ _ _ _ _ _ _ _ _ Hx Hc Hp); [done|done|done|]. fold x'.
    eapply Forall_suffix; [exact H3|apply Hx].
Qed.

Lemma sim_pop (t : nat) c :
  idle x t = Some c -> s.(sb_listed) = true -> c.(bin_block_num) = 0 ->
  simulated x None (mkThreads (mkSb s.(sb_anchor) s.(sb_super) s.(sb_link) false s.(sb_retired) s.(sb_held))
                      bins (<[t := TakeLoad]> pcs)).
Proof.
  intros [Hp Hc]%idle_inv Hl Hn. simpl in Hp, Hc. split.
  - left. by apply (sstep_pop g false (set_held s (held_of (custody x)))).
  - destruct Hx as [H1 H2 H3 H4]. split; [done|done|done|]. simpl.
    rewrite <- (list_insert_id bins t c Hc). by apply taking_insert.
Qed.

Lemma sim_other_fill (t : nat) c head n :
  idle x t = Some c -> c.(bin_block_num) = 0 -> Z.of_nat n < 2 ^ 32 ->
  NoDup (follow s.(sb_link) head n) ->
  Forall (λ b, 0 < b /\ ~ within g base b /\ b ∉ custody x) (follow s.(sb_link) head n) ->
  simulated x None (mkThreads s (<[t := mkBin head (Z.of_nat n) c.(bin_block_size)]> bins) pcs).
Proof.
  intros [Hp Hc]%idle_inv Hn Hn2 Hnd Hall. simpl in Hp, Hc. set (c' := mkBin _ _ _). set (x' := mkThreads _ _ _).
  assert (Hperm : custody x' ≡ₚ follow s.(sb_link) head n ++ custody x).
  { destruct (custody_insert s s bins pcs pcs t c c') as (rest & E1 & E2); [done..|].
    unfold x', x. rewrite E1, E2. rewrite (bin_list_empty _ c Hn). unfold bin_list. simpl. by rewrite Nat2Z.id. }
  rewrite !Forall_and in Hall. destruct Hall as (A1 & A2 & A3). rewrite Forall_forall in A3. split.
  - right. split; [done|]. unfold merged. rewrite (held_of_perm _ _ Hperm).
    by rewrite held_of_other.
  - apply (cinv_idle _ _ _ _ _ _ _ Hx Hc Hp); [simpl; lia|..]; fold x'; rewrite Hperm.
    + apply NoDup_app. split; [done|]. split; [done|apply Hx].
    + apply Forall_app. split; [done|apply Hx].
Qed.

Lemma sim_other_flush (t : nat) c sb batch c' :
  idle x t = Some c -> 0 < c.(bin_block_num) -> within g sb c.(block) -> apart g sb ->
  flush_batch s.(sb_link) sb g.(g_sb_size) c = Ok (batch, c') ->
  simulated x None (mkThreads s (<[t := c']> bins) pcs).
Proof.
  intros [Hp Hc]%idle_inv Hn Hb Hap Hfl. simpl in Hp, Hc.
  destruct (flush_custody t c sb pcs Hc Hn Hb) as (n & c1 & H1 & H2 & H3 & H4).
  rewrite H1 in Hfl. assert (c1 = c') as -> by (by injection Hfl).
  set (x' := mkThreads s (<[t := c']> bins) pcs) in *. split.
  - right. split; [done|]. unfold merged. simpl. rewrite (held_of_perm _ _ H3), held_of_other; [done|].
    eapply Forall_impl; [exact H2|]. unfold within, apart in *. intros b. fold base in Hap. lia.
  - apply (cinv_idle _ _ _ _ _ _ _ Hx Hc Hp); [done|..]; fold x'.
    + eapply NoDup_suffix; [exact H3|apply Hx].
    + eapply Forall_suffix; [exact H3|apply Hx].
Qed.

(** An operation of a thread: the last one of a take. *)
Lemma take_blocks_custody (t : nat) old l c pcs' :
  pcs !! t = Some (TakeBlocks old l) -> bins !! t = Some c -> exists c',
  bin_go g false s c (TakeBlocks old l) = Ok (s, c', SIdle, None) /\
  s.(sb_super) = Some base /\ avail old <= g.(g_max_count) /\ counted g s base old = l /\
  0 <= c'.(bin_block_num) < 2 ^ 32 /\ Forall (λ b, b ∈ all /\ b ∉ custody x) l /\ NoDup l /\
  custody (mkThreads s (<[t := c']> bins) pcs') ≡ₚ l ++ custody x.
Proof.
  intros Hp Hc. pose proof (Forall_lookup_1 _ _ _ _ (si_pcs _ _ Hi) Hp) as (Hh & Ha & Hn & Hch).
  assert (Hin : TakeBlocks old l ∈ pcs) by (by eapply list_elem_of_lookup_2).
  assert (Hl : counted g s base old = l).
  { unfold counted. rewrite Hn, Nat2Z.id. by apply chain_follow. }
  pose proof (in_flight_NoDup Hg (reflexivity _) _ _ _ Hi Hin) as Hnd. simpl in Hnd.
  assert (Hall : Forall (λ b, b ∈ all /\ b ∉ custody x) l).
  { apply Forall_forall. intros b Hb. apply (flying_custody x k Hi). by eapply flying_elem. }
  assert (Hs : s.(sb_super) = Some base).
  { apply (sinv_live (reflexivity _) _ _ Hi). destruct l as [|b l]; [done|].
    intros Ho. assert (Hb : b ∈ out (merged x)); [|by rewrite Ho in Hb; set_solver].
    apply elem_of_app. left. eapply flying_elem; [exact Hin|]. simpl. set_solver. }
  assert (Hlen : Z.of_nat (length l) <= g.(g_max_count)).
  { rewrite <- (length_blocks Hg base). apply Nat2Z.inj_le, submseteq_length, NoDup_submseteq; [done|].
    intros b Hb. rewrite Forall_forall in Hall. by apply Hall. }
  pose proof (go_max _ Hg) as Hmax. pose proof (ci_taking _ Hx t _ c Hp Hc eq_refl) as Hc0.
  exists (mkBin (block_at g base (avail old)) (count old) c.(bin_block_size)). split.
  { simpl. rewrite Hs, (proj2 (Z.leb_le _ _) Ha), Hc0. simpl. rewrite push_list_empty by done.
    unfold u32, wrap. rewrite Z.mod_small by lia. done. }
  do 3 (split; [done|]). split; [simpl; lia|]. do 2 (split; [done|]).
  destruct (custody_insert s s bins pcs pcs' t c
    (mkBin (block_at g base (avail old)) (count old) c.(bin_block_size))) as (rest & E1 & E2); [done..|].
  unfold x. rewrite E1, E2, (bin_list_empty _ c Hc0). unfold bin_list, counted in *. simpl. by rewrite Hl.
Qed.

Lemma sim_take_blocks (t : nat) old l c weak s' c' pc' e :
  pcs !! t = Some (TakeBlocks old l) -> bins !! t = Some c ->
  bin_go g weak s c (TakeBlocks old l) = Ok (s', c', pc', e) ->
  simulated x e (mkThreads s' (<[t := c']> bins) (<[t := pc']> pcs)).
Proof.
  intros Hp Hc Hgo.
  destruct (take_blocks_custody t old l c (<[t := SIdle]> pcs) Hp Hc) as (c1 & Hg1 & Hs & Ha & Hl & Hn & Hall & Hnd & Hperm).
  change (bin_go g weak s c (TakeBlocks old l)) with (bin_go g false s c (TakeBlocks old l)) in Hgo.
  rewrite Hg1 in Hgo. injection Hgo as <- <- <- <-. set (x' := mkThreads s (<[t := c1]> bins) _) in *.
  rewrite Forall_forall in Hall. split.
  - left. unfold merged. rewrite (held_of_perm _ _ Hperm).
    assert (held_of (l ++ custody x) = list_to_set l ∪ held_of (custody x)) as ->.
    { apply set_eq. intros b. rewrite elem_of_union, elem_of_list_to_set, !elem_of_held_of, elem_of_app.
      split; [tauto|]. intros [Hb|Hb]; [|tauto]. split; [by apply blocks_within, Hall|by left]. }
    apply (sstep_go g false (set_held s (held_of (custody x))) pcs t (TakeBlocks old l) false); [done|].
    simpl. rewrite Hs, (proj2 (Z.leb_le _ _) Ha). rewrite <- Hl. unfold set_held. by rewrite Hs.
  - apply (cinv_update _ _ _ _ _ _ _ _ _ Hx Hc Hp); [done|done|..]; fold x'; rewrite Hperm.
    + apply NoDup_app. split; [done|]. split; [|apply Hx]. intros b Hb. by apply Hall.
    + apply Forall_app. split; [|apply Hx]. apply Forall_forall. intros b Hb.
      pose proof (blocks_within b (proj1 (Hall b Hb))) as Hw. pose proof (go_base _ Hg).
      unfold within, base in Hw. lia.
Qed.
End Actions.

(** ... and the others, which do not depend on what is held. *)
Lemma sb_go_held weak s h pc :
  (forall old l, pc <> TakeBlocks old l) ->
  sb_go g weak (set_held s h) pc =
  ('(s', pc', e) ← sb_go g weak s pc; Ok (set_held s' h, pc', e)).
Proof.
  intros Hpc. destruct pc as [|sb b|sb b old|sb b old| | | |old| |old l]; try done; simpl.
  - destruct (anchor_state old) as [st|]; simpl; [|done].
    destruct (negb weak && _); [|done]. destruct (anchor_state (flush_anchor _ _ _ _ _)); simpl; [|done].
    by destruct (bool_decide _).
  - by destruct (sb_super s).
  - destruct (anchor_state old) as [st|]; simpl; [|done]. destruct (bool_decide _); [done|].
    by destruct (sb_anchor s =? old).
  - by destruct (Hpc old l).
Qed.

Lemma bin_go_sb weak s c pc :
  (forall old l, pc <> TakeBlocks old l) ->
  bin_go g weak s c pc = ('(s', pc', e) ← sb_go g weak s pc; Ok (s', c, pc', e)).
Proof. intros Hpc. destruct pc; try done. by destruct (Hpc old_anchor taken). Qed.

Lemma sb_go_frame weak s pc s' pc' e :
  (forall old l, pc <> TakeBlocks old l) -> sb_go g weak s pc = Ok (s', pc', e) ->
  s'.(sb_held) = s.(sb_held) /\ (taking pc' = true -> taking pc = true) /\
  (s'.(sb_link) = s.(sb_link) \/
   exists sb b old w, pc = FlushLink sb b old /\ s'.(sb_link) = <[default 0 (last b) := w]> s.(sb_link)).
Proof.
  intros Hpc. destruct pc as [|sb b|sb b old|sb b old| | | |old| |old l]; simpl;
    try (intros [= <- <- <-]; by eauto 10).
  - destruct (anchor_state old) as [st|]; simpl; [|done].
    destruct (negb weak && _); [|intros [= <- <- <-]; eauto].
    destruct (anchor_state (flush_anchor _ _ _ _ _)); simpl; [|done].
    destruct (bool_decide _); intros [= <- <- <-]; simpl; [by eauto|].
    by destruct (bool_decide _); eauto.
  - destruct (sb_super s); [|done]. intros [= <- <- <-]. by eauto.
  - destruct (anchor_state old) as [st|]; simpl; [|done]. destruct (bool_decide _); [intros [= <- <- <-]; by eauto|].
    destruct (sb_anchor s =? old); intros [= <- <- <-]; by eauto.
  - by destruct (Hpc old l).
Qed.

Section Steps.
Context (s : Sb) (bins : list ThreadCacheBin) (pcs : list SPc) (k : Slot).
Let x := mkThreads s bins pcs.
Context (Hi : sinv (g:=g) (live:=all) (merged x) k) (Hx : cinv x).

(** The link that a flush stores is of a block on its way. *)
Lemma go_custody (t : nat) pc weak s' pc' e pcs' :
  pcs !! t = Some pc -> (forall old l, pc <> TakeBlocks old l) ->
  sb_go g weak s pc = Ok (s', pc', e) -> custody (mkThreads s' bins pcs') = custody x.
Proof.
  intros Hp Hpc Hgo. destruct (sb_go_frame _ _ _ _ _ _ Hpc Hgo) as (Hh & _ & Hl).
  unfold custody. simpl. rewrite Hh. f_equal. destruct Hl as [->|(sb & b & old & w & -> & ->)]; [done|].
  apply binned_insert. pose proof (Forall_lookup_1 _ _ _ _ (si_pcs _ _ Hi) Hp) as ((_ & Hb & _) & _).
  destruct (last b) as [y|] eqn:El; [|by apply last_None in El]. simpl. intros Hin.
  assert (Hf : y ∈ flying pcs).
  { eapply flying_elem; [by eapply list_elem_of_lookup_2|]. simpl. by apply last_Some_elem_of. }
  destruct (flying_custody x k Hi y Hf) as [_ Hy]. apply Hy. apply elem_of_app. by left.
Qed.

Lemma sim_go (t : nat) pc c weak s' c' pc' e :
  pcs !! t = Some pc -> bins !! t = Some c -> bin_go g weak s c pc = Ok (s', c', pc', e) ->
  simulated x e (mkThreads s' (<[t := c']> bins) (<[t := pc']> pcs)).
Proof.
  intros Hp Hc Hgo. assert (Hpc : (exists old l, pc = TakeBlocks old l) \/ forall old l, pc <> TakeBlocks old l)
    by (destruct pc; eauto).
  destruct Hpc as [(old & l & ->)|Hpc]; [by eapply sim_take_blocks|].
  assert (sb_go g weak s pc = Ok (s', pc', e) /\ c' = c) as [Hsb ->].
  { rewrite bin_go_sb in Hgo by done. destruct (sb_go g weak s pc) as [[[s1 pc1] e1]|]; [|done].
    by injection Hgo as <- <- <- <-. }
  rewrite (list_insert_id bins t c Hc). pose proof (go_custody t pc weak s' pc' e (<[t := pc']> pcs) Hp Hpc Hsb) as Hcu.
  destruct (sb_go_frame _ _ _ _ _ _ Hpc Hsb) as (_ & Ht & _). split.
  - left. unfold merged. rewrite Hcu. apply (sstep_go g false (set_held s (held_of (custody x))) pcs t pc weak); [done|].
    rewrite sb_go_held, Hsb by done. done.
  - destruct Hx as [H1 H2 H3 H4]. split; rewrite ?Hcu; try done. simpl.
    rewrite <- (list_insert_id bins t c Hc). apply taking_insert; [done|].
    intros Htk. by apply (H4 t pc c Hp Hc), Ht.
Qed.

Lemma sim_act a e x' : cact g false x a = Some (e, x') -> simulated x e x'.
Proof.
  destruct a as [b w|t b|t|t|t|t sb|t weak|b w|t h n|t sb]; unfold x; cbn [cact]; fold x.
  - case_bool_decide as Hb; [|done]. intros [= <- <-].
    apply sim_store; [done|by eapply held_not_binned|by left].
  - destruct (idle x t) as [c|] eqn:Hc; simpl; [|done]. case_bool_decide as Hb; simpl; [|done].
    destruct (Z.ltb_spec (bin_block_num c) g.(g_max_count)) as [Hn|]; [|done]. intros [= <- <-].
    by apply (sim_free s bins pcs k Hi Hx t b c).
  - destruct (idle x t) as [c|] eqn:Hc; simpl; [|done].
    destruct (link_pop _ c) as [[b c']|] eqn:Hpop; [|done]. intros [= <- <-]. by eapply sim_malloc.
  - destruct (idle x t) as [c|] eqn:Hc; simpl; [|done]. destruct (sb_super s) as [sb|] eqn:Hs; simpl; [|done].
    destruct (Z.ltb_spec 0 (bin_block_num c)) as [Hn|]; simpl; [|done]. case_bool_decide as Hb; [|done].
    destruct (flush_batch _ _ _ c) as [[batch c']|] eqn:Hf; [|done]. intros [= <- <-]. by eapply sim_flush.
  - destruct (idle x t) as [c|] eqn:Hc; simpl; [|done]. destruct (sb_listed s) eqn:Hl; simpl; [|done].
    destruct (Z.eqb_spec (bin_block_num c) 0) as [Hn|]; [|done]. intros [= <- <-]. by eapply sim_pop.
  - by destruct (idle x t).
  - destruct (pcs !! t) as [pc|] eqn:Hp; simpl; [|done]. destruct (bins !! t) as [c|] eqn:Hc; simpl; [|done].
    destruct (bin_go g weak s c pc) as [[[[s' c'] pc'] e']|] eqn:Hgo; [|done]. intros [= <- <-].
    by eapply sim_go.
  - case_bool_decide as Hb; simpl; [|done]. case_bool_decide as Hc; [|done]. intros [= <- <-].
    apply sim_store; [done| |by right]. intros H. apply Hc. apply elem_of_app. by left.
  - destruct (idle x t) as [c|] eqn:Hc; cbn [mbind option_bind]; [|done].
    destruct (Z.eqb_spec (bin_block_num c) 0) as [Hn|]; cbn [andb]; [|done].
    destruct (Z.ltb_spec (Z.of_nat n) (2 ^ 32)) as [Hn2|]; cbn [andb]; [|done].
    case_bool_decide as Hnd; simpl; [|done]. case_bool_decide as Hall; [|done].
    rewrite push_list_empty by done. intros [= <- <-]. by eapply sim_other_fill.
  - destruct (idle x t) as [c|] eqn:Hc; simpl; [|done].
    destruct (Z.ltb_spec 0 (bin_block_num c)) as [Hn|]; simpl; [|done]. case_bool_decide as Hb; simpl; [|done].
    case_bool_decide as Ha; [|done]. destruct (flush_batch _ _ _ c) as [[batch c']|] eqn:Hf; [|done].
    intros [= <- <-]. by eapply sim_other_flush.
Qed.
End Steps.

Lemma held_all : held_of all = list_to_set all ∪ ∅.
Proof.
  rewrite (right_id_L ∅ (∪)). apply set_eq. intros b. rewrite elem_of_held_of, elem_of_list_to_set.
  split; [tauto|]. intros Hb. split; [by apply blocks_within|done].
Qed.

Lemma cinv_start n : cinv (c_start g n) /\ custody (c_start g n) = all.
Proof.
  assert (Hb : custody (c_start g n) = all).
  { unfold custody, c_start, binned. cbn [th_sb th_bins sb_link sb_held]. rewrite bind_cons.
    unfold bin_list at 1. cbn [block bin_block_num]. rewrite (link_new_follow Hg). fold base all.
    assert (forall m, replicate n bin_new ≫= bin_list m = []) as ->
      by (intros m; clear; by induction n).
    by rewrite elements_empty, !app_nil_r. }
  split; [|done]. pose proof (go_max _ Hg). split; rewrite ?Hb.
  - by apply NoDup_blocks.
  - apply Forall_forall. intros b Hw%blocks_within. pose proof (go_base _ Hg). unfold within, base in Hw. lia.
  - simpl. constructor; [simpl; lia|]. apply Forall_replicate. simpl. lia.
  - simpl. intros t pc c Hp. apply (lookup_replicate_1 (S n)) in Hp as [-> _]. done.
Qed.

Lemma creach_inv n tr x :
  creach g false (c_start g n) tr x ->
  cinv x /\ exists k, sinv (g:=g) (live:=all) (merged x) k /\ slot_runs g tr k.
Proof.
  induction 1 as [|tr x a e x' _ (Hx & k & Hi & Hk) Ha].
  - destruct (cinv_start n) as [Hc Hall]. split; [done|]. exists SFull. split; [|constructor].
    pose proof (sinv_start Hg (S n)) as [S1 S2 S3 S4 S5 S6].
    unfold merged. rewrite Hall, held_all. split; try done. apply Forall_forall.
    by intros pc ->%elem_of_replicate_inv.
  - destruct x as [s bins pcs]. destruct (sim_act _ _ _ _ Hi Hx _ _ _ Ha) as [[Hs|[-> ->]] Hx'].
    + split; [done|]. destruct (sinv_step Hg (reflexivity _) _ _ _ _ Hi Hs) as (k' & Hi' & He).
      exists k'. split; [done|]. destruct e as [ev|]; simpl in *; [by econstructor|]. subst.
      by rewrite app_nil_r.
    + split; [done|]. exists k. split; [done|]. simpl. by rewrite app_nil_r.
Qed.

(** Every run of the threads is a run of [SuperBlock]. *)
Lemma start_merged n : sreach g false (s_start g (S n)) [] (merged (c_start g n)).
Proof.
  unfold merged. rewrite (proj2 (cinv_start n)), held_all. unfold c_start, link_new. simpl.
  assert (Hr : forall i, i ∈ range 0 (g_max_count g) -> 0 <= i < g_max_count g) by (intros i; apply elem_of_range).
  induction (range 0 (g_max_count g)) as [|i l IH]; simpl; [constructor|].
  specialize (IH ltac:(set_solver)). destruct (foldr _ _ _) as [m last]. simpl in *.
  apply (sreach_step _ _ _ [] _ None _ IH).
  unfold set_held. cbn [sb_anchor sb_super sb_link sb_listed sb_retired].
  pose proof (sstep_write g false (mkSb (new_anchor g.(g_max_count)) (Some base) m false false (list_to_set all ∪ ∅))
    (SIdle :: replicate n SIdle) (base + u32 (g.(g_block_size) * i)) last) as Hw.
  cbn [sb_anchor sb_super sb_link sb_listed sb_retired sb_held] in Hw. apply Hw.
  assert (Hi : 0 <= i < g_max_count g) by (apply Hr; set_solver).
  pose proof (go_size _ Hg). pose proof (go_bs _ Hg).
  rewrite (right_id_L ∅ (∪)). apply elem_of_list_to_set, list_elem_of_fmap. exists i.
  split; [|by apply elem_of_range]. unfold u32, wrap, block_at. rewrite Z.mod_small by nia. fold base. lia.
Qed.

Lemma creach_sreach n tr x :
  creach g false (c_start g n) tr x -> sreach g false (s_start g (S n)) tr (merged x).
Proof.
  induction 1 as [|tr x a e x' Hr IH Ha]; [apply start_merged|].
  destruct (creach_inv n tr x Hr) as (Hx & k & Hi & _). destruct x as [s bins pcs].
  destruct (sim_act _ _ _ _ Hi Hx _ _ _ Ha) as [[Hs|[-> ->]] _]; [by econstructor|].
  simpl. by rewrite app_nil_r.
Qed.

(** What the invariants say of a thread's next operations. *)
Section Progress.
Context (x : Threads) (k : Slot) (Hi : sinv (g:=g) (live:=all) (merged x) k) (Hx : cinv x).
Lemma custody_NoDup : NoDup (slot_blocks (g:=g) k ++ flying x.(th_pcs) ++ custody x).
Proof.
  pose proof (owned_NoDup Hg (reflexivity _) _ _ Hi) as (N1 & N2 & (N3 & N4 & _)%NoDup_app)%NoDup_app.
  apply NoDup_app. split; [done|]. split.
  - intros b Hb [Hf|Hcu]%elem_of_app; apply (N2 b Hb); unfold out; apply elem_of_app; [by left|right].
    apply merged_held; [done|]. apply blocks_within. eapply elem_of_submseteq; [|exact (si_owned _ _ Hi)].
    set_solver.
  - apply NoDup_app. split; [done|]. split; [|apply Hx]. intros b Hb. by apply (flying_custody x k Hi).
Qed.
Context (t : nat) (c : ThreadCacheBin) (Hc : x.(th_bins) !! t = Some c).

Lemma bin_go_ok pc weak :
  x.(th_pcs) !! t = Some pc -> is_ok (bin_go g weak x.(th_sb) c pc) = true.
Proof.
  destruct x as [s bins pcs]. simpl in *. intros Hp.
  assert (Hpc : (exists old l, pc = TakeBlocks old l) \/ forall old l, pc <> TakeBlocks old l)
    by (destruct pc; eauto).
  destruct Hpc as [(old & l & ->)|Hpc].
  { destruct (take_blocks_custody s bins pcs k Hi Hx t old l c pcs Hp Hc) as (c' & Hgo & _).
    change (bin_go g weak s c (TakeBlocks old l)) with (bin_go g false s c (TakeBlocks old l)).
    by rewrite Hgo. }
  pose proof Hp as (l1 & l2 & Hm & _)%(pcs_middle _ _ _ pc). unfold merged in Hi. simpl in Hi.
  rewrite Hm in Hi. destruct (sinv_go Hg (reflexivity _) weak _ _ _ _ _ Hi) as (s' & pc' & e & Hgo & _).
  rewrite sb_go_held in Hgo by done.
  rewrite bin_go_sb by done. by destruct (sb_go g weak s pc) as [[[? ?] ?]|].
Qed.

Lemma pop_ok : 0 < c.(bin_block_num) ->
  exists b c', link_pop x.(th_sb).(sb_link) c = Ok (b, c') /\ b <> 0 /\
    bin_list x.(th_sb).(sb_link) c = b :: bin_list x.(th_sb).(sb_link) c'.
Proof.
  destruct x as [s bins pcs]. simpl in *. intros Hn.
  pose proof (Forall_lookup_1 _ _ _ _ (ci_bins _ Hx) Hc) as Hcn. simpl in Hcn.
  destruct (bin_head s bins pcs k Hi Hx t c Hc Hn) as [Hpos _].
  destruct (link_pop_list s.(sb_link) c) as (c' & H1 & H2 & _); [lia..|].
  exists (block c), c'. split; [done|]. split; [lia|done].
Qed.

Lemma flush_start_ok : 0 < c.(bin_block_num) -> within g base c.(block) ->
  x.(th_sb).(sb_super) = Some base /\
  exists batch c', flush_batch x.(th_sb).(sb_link) base g.(g_sb_size) c = Ok (batch, c') /\
    batch <> [] /\ Forall (within g base) batch /\
    bin_list x.(th_sb).(sb_link) c = batch ++ bin_list x.(th_sb).(sb_link) c'.
Proof.
  destruct x as [s bins pcs]. simpl in *. intros Hn Hb. split.
  - destruct (bin_head s bins pcs k Hi Hx t c Hc Hn) as [_ Hcu].
    apply (sinv_live (reflexivity _) _ _ Hi). intros Ho.
    pose proof (merged_held _ _ Hcu Hb) as H. unfold out in Ho. apply app_eq_nil in Ho as [_ Ho].
    rewrite Ho in H. set_solver.
  - destruct (flush_batch_spec s.(sb_link) base g.(g_sb_size) c Hn Hb) as (n & c' & H1 & H2 & H3 & _).
    by exists (follow s.(sb_link) (block c) (S n)), c'.
Qed.
End Progress.
End Simulation.

(** ** Schedules *)

(** Thread [t] flushes what its walk finds, and takes, without interruption. *)
Definition flush_now (t : nat) : list CAct := CFlush t :: replicate 4 (CGo t false).
Definition take_now (t : nat) : list CAct := CPop t :: replicate 3 (CGo t false).

(** The four blocks of the superblock are handed out by thread 0; thread 1 frees the
    first and the last around a block of another superblock, thread 0 the others;
    both flush at the same time, with a retry and a spurious failure, and thread 1
    takes what the last flush has left. *)
Definition busy_schedule : list CAct :=
  replicate 4 (CMalloc 0) ++ [COtherFill 1 8192 1; CMalloc 1] ++
  [CFree 1 4096; CFree 1 8192; CWrite 4104 77; CFree 1 4120; CFree 0 4104; CFree 0 4112] ++
  [CFlush 1; CGo 1 false; CGo 1 false] ++ flush_now 0 ++
  [CGo 1 false; CGo 1 false; CGo 1 false; CGo 1 true; CGo 1 false; CGo 1 false; CGo 1 false] ++
  [COtherFlush 1 8192; CMalloc 1] ++ take_now 1.

(** Thread 1 has got the blocks of thread 0 from its clients.  Thread 0 has given back
    the last block and is about to release the superblock when thread 1 finds it
    empty, retires its descriptor, gets it again for a new superblock and hands out
    its blocks. *)
Definition release_race : list CAct :=
  replicate 4 (CMalloc 0) ++ [CFree 1 4096; CFree 1 4104; CFree 1 4112] ++ flush_now 1 ++
  [CFree 0 4120; CFlush 0] ++ replicate 3 (CGo 0 false) ++ take_now 1 ++ [CNew 1 12288] ++
  replicate 4 (CMalloc 1) ++ [CGo 0 false].

(** ** Results *)

(** C26: in a build with [no_met_stack] (not the default one) and with APF off (no
    [malloc_count_from_partial]), under every interleaving
    of the atomic operations of any number of threads in [flush_cache] and
    [malloc_from_partial], of frees and mallocs through their bins, of stores of
    the clients to blocks they hold and of traffic with other superblocks, spurious
    failures included, and until its descriptor is used again, a superblock behaves
    like the atomic one: completed operations are, in their order, operations of it;
    no block is in two places (free, on its way, in a bin, or held by a client); at
    most one thread or the partial list has the descriptor; a superblock is unmapped
    only when no block of it is out; no thread fails; a bin with blocks gives its
    first one, and a flush gives back a first part of it. *)
Theorem superblock_linearizable {BR : BitRange} g n tr x :
  geometry_ok g -> creach g false (c_start g n) tr x ->
  let s := x.(th_sb) in
  exists k, slot_runs g tr k /\ anchor_state s.(sb_anchor) = Ok (slot_state k) /\
    NoDup (slot_blocks (g:=g) k ++ flying x.(th_pcs) ++ custody x) /\
    Forall (λ b, b ∈ blocks_of g g.(g_super_block)) (slot_blocks (g:=g) k ++ flying x.(th_pcs)) /\
    (forall b, b ∈ custody x -> within g g.(g_super_block) b -> b ∈ blocks_of g g.(g_super_block)) /\
    (tokens (s, x.(th_pcs)) <= 1)%nat /\
    (s.(sb_super) = None ->
     flying x.(th_pcs) = [] /\ Forall (λ b, ~ within g g.(g_super_block) b) (custody x)) /\
    forall t pc c, x.(th_pcs) !! t = Some pc -> x.(th_bins) !! t = Some c ->
      (forall weak, is_ok (bin_go g weak s c pc) = true) /\
      (0 < c.(bin_block_num) ->
       exists b c', link_pop s.(sb_link) c = Ok (b, c') /\ b <> 0 /\
         bin_list s.(sb_link) c = b :: bin_list s.(sb_link) c') /\
      (0 < c.(bin_block_num) -> within g g.(g_super_block) c.(block) ->
       s.(sb_super) = Some g.(g_super_block) /\
       exists batch c', flush_batch s.(sb_link) g.(g_super_block) g.(g_sb_size) c = Ok (batch, c') /\
         batch <> [] /\ Forall (within g g.(g_super_block)) batch /\
         bin_list s.(sb_link) c = batch ++ bin_list s.(sb_link) c').
Proof.
  intros Hg Hr s. destruct (creach_inv Hg _ _ _ Hr) as (Hx & k & Hi & Hk). exists k. split; [done|].
  split; [by apply (sinv_state _ _ Hi)|]. split; [by apply custody_NoDup|]. split.
  { apply Forall_forall. intros b Hb. eapply elem_of_submseteq; [|exact (si_owned _ _ Hi)].
    unfold out. simpl. set_solver. }
  split; [by apply (custody_all Hg x k)|].
  split.
  { pose proof (si_tokens _ _ Hi) as Ht. change (tokens (merged x)) with (tokens (s, x.(th_pcs))) in Ht.
    destruct k; cbn [tokens_ok] in Ht; lia. }
  split.
  - intros Hs. pose proof (si_super _ _ Hi) as Hs'. simpl in Hs'. fold s in Hs'. rewrite Hs in Hs'.
    destruct k; try done. pose proof (out_nil (reflexivity _) _ _ Hi eq_refl) as [H1 H2]%app_eq_nil.
    split; [done|]. apply Forall_forall. intros b Hb Hw. pose proof (merged_held x b Hb Hw) as H.
    rewrite H2 in H. set_solver.
  - intros t pc c Hp Hc. split; [intros weak; by apply (bin_go_ok Hg x k Hi Hx t c Hc)|].
    split; [by apply (pop_ok Hg x k Hi Hx t c Hc)|by apply (flush_start_ok Hg x k Hi Hx t c Hc)].
Qed.

(** On a concrete instance of the accessors of the anchor: *)
#[local] Existing Instance bit_range_u64.

(** C29: [flush_cache] releases the superblock that the descriptor has after the
    compare-and-exchange: when the descriptor has been retired and used again in
    between, that is the new superblock of another thread.  Here it is unmapped
    while clients hold all its blocks, and the old one never is. *)
Theorem flush_unmaps_held_superblock :
  exists tr x, creach geo4 true (c_start geo4 1) tr x /\
    tr = [Flushed [4112; 4104; 4096]; Emptied [4120]; Unmapped 12288] /\
    x.(th_sb).(sb_held) = list_to_set (blocks_of geo4 12288) /\ x.(th_sb).(sb_super) = None.
Proof.
  destruct (crun geo4 true release_race (c_start geo4 1) []) as [[tr x]|] eqn:Er;
    [|vm_compute in Er; discriminate].
  exists tr, x. split; [exact (crun_reach geo4 true _ release_race _ _ _ (creach_start _ _ _) Er)|].
  vm_compute in Er. injection Er as <- <-. by split_and!; vm_compute.
Qed.

Lemma superblock_linearizable_witness :
  exists tr x, creach geo4 false (c_start geo4 1) tr x /\
    tr = [Flushed [4112; 4104]; Flushed [4120]; Took [4120]] /\ exists k, slot_runs geo4 tr k.
Proof.
  destruct (crun geo4 false busy_schedule (c_start geo4 1) []) as [[tr x]|] eqn:Er;
    [|vm_compute in Er; discriminate].
  pose proof (crun_reach geo4 false _ busy_schedule _ _ _ (creach_start _ _ _) Er) as Hr.
  exists tr, x. split; [exact Hr|]. split; [vm_compute in Er; by injection Er as <- <-|].
  destruct (superblock_linearizable geo4 1 tr x geo4_ok Hr) as (k & Hk & _). by exists k.
Defined.
