(* ===== verification/Lib.v ===== *)
(** * The allocator

    Models [src/src/lib.rs] and the thread-local part of
    [src/src/thread_cache.rs]: initialisation, [do_malloc],
    [do_aligned_alloc], [allocate_to_cache], [do_realloc], [do_free] and the
    functions on top of them.

    The tuners allocate their arrays with the allocator they tune.  The
    functions here take the operations that a tuner may call as an argument
    [E : ApfEnv World]; [lib_env n] ties the knot with at most [n] nested
    calls.  Two are enough: the first allocation of a thread creates its
    tuners, whose own allocations find the tuners already being created, and
    all later allocations of a tuner are large, which involves no tuner. *)
From S2P Require Import Prelude MemInfo SizeClasses Anchor Mem Float Bin Trace Tuner.
From S2P Require Import SingleAccess Bootstrap HashMap State Pages Descriptor.
From S2P Require Import PageMap Alloc ThreadCache.

(** ** Thread-local variables *)
Record Tls : Type := mkTls {
  thread_cache : list ThreadCacheBin;
  skip : bool;
  skip_tuners : Z;
  apf_tuners : list ApfTuner;
  apf_init : bool;
  panicking : bool;
}.

Definition tls_new : Tls :=
  mkTls (replicate (Z.to_nat MAX_SZ_IDX) bin_new) false 1 [] false false.

(** ** The state as one thread sees it *)
Record World : Type := mkWorld {
  w_state : State;
  w_tls : Tls;
  w_malloc_init : SingleAccess;
  w_use_apf : bool;
  w_use_bootstrap : bool;
  w_bootstrap : BootstrapReserve;
}.

Definition world_init : World :=
  mkWorld state_init tls_new sa_new true false bootstrap_reserve_init.

Definition set_state_w (s : State) (w : World) : World :=
  mkWorld s w.(w_tls) w.(w_malloc_init) w.(w_use_apf) w.(w_use_bootstrap) w.(w_bootstrap).
Definition set_tls (t : Tls) (w : World) : World :=
  mkWorld w.(w_state) t w.(w_malloc_init) w.(w_use_apf) w.(w_use_bootstrap) w.(w_bootstrap).
Definition set_malloc_init (f : SingleAccess) (w : World) : World :=
  mkWorld w.(w_state) w.(w_tls) f w.(w_use_apf) w.(w_use_bootstrap) w.(w_bootstrap).
Definition set_use_apf (b : bool) (w : World) : World :=
  mkWorld w.(w_state) w.(w_tls) w.(w_malloc_init) b w.(w_use_bootstrap) w.(w_bootstrap).
Definition set_use_bootstrap (val : bool) (w : World) : World :=
  mkWorld w.(w_state) w.(w_tls) w.(w_malloc_init) w.(w_use_apf) val w.(w_bootstrap).
Definition set_bootstrap (b : BootstrapReserve) (w : World) : World :=
  mkWorld w.(w_state) w.(w_tls) w.(w_malloc_init) w.(w_use_apf) w.(w_use_bootstrap) b.

Definition set_cache (c : list ThreadCacheBin) (t : Tls) : Tls :=
  mkTls c t.(skip) t.(skip_tuners) t.(apf_tuners) t.(apf_init) t.(panicking).
Definition set_skip (b : bool) (t : Tls) : Tls :=
  mkTls t.(thread_cache) b t.(skip_tuners) t.(apf_tuners) t.(apf_init) t.(panicking).
Definition set_skip_tuners (n : Z) (t : Tls) : Tls :=
  mkTls t.(thread_cache) t.(skip) n t.(apf_tuners) t.(apf_init) t.(panicking).
Definition set_apf_tuners (l : list ApfTuner) (t : Tls) : Tls :=
  mkTls t.(thread_cache) t.(skip) t.(skip_tuners) l t.(apf_init) t.(panicking).
Definition set_apf_init (b : bool) (t : Tls) : Tls :=
  mkTls t.(thread_cache) t.(skip) t.(skip_tuners) t.(apf_tuners) b t.(panicking).

Definition heap {A} (c : M State A) : M World A := zoom w_state set_state_w c.
Definition os {A} (c : M Os A) : M World A := heap (with_os c).
Definition modify_tls (f : Tls -> Tls) : M World unit :=
  modify (λ w, set_tls (f w.(w_tls)) w).

(** [thread_cache.get_mut(i).unwrap()], and storing the bin back *)
Definition get_bin (i : Z) : M World ThreadCacheBin :=
  t ← gets w_tls;
  if 0 <=? i then unwrap (t.(thread_cache) !! Z.to_nat i) "called `Option::unwrap()` on a `None` value"
  else fail (Panic "called `Option::unwrap()` on a `None` value").
Definition put_bin (i : Z) (c : ThreadCacheBin) : M World unit :=
  modify_tls (λ t, set_cache (<[Z.to_nat i := c]> t.(thread_cache)) t).

(** [no_tuning(func)] *)
Definition no_tuning {A} (func : M World A) : M World A :=
  modify_tls (λ t, set_skip_tuners (usize (t.(skip_tuners) + 1)) t);;
  ret ← func;
  modify_tls (λ t, if t.(skip_tuners) >? 0 then set_skip_tuners (t.(skip_tuners) - 1) t else t);;
  mret ret.

Definition RECORDED_SC : Z := 41.

(** [option_env!("USE_APF")] at build time *)
Class LibConfig : Type := USE_APF_ENV : option string.

Section Lib.
Context {KN : Kernel} {HZ : Hash Z} {BR : BitRange} {AC : ApfConfig} {LC : LibConfig}.

(** ** Initialisation *)
Definition init_malloc : M World unit :=
  heap (s ← get; z ← lift (init_size_class TARGET_APF s.(st_sizes)); modify (set_sizes z));;
  heap page_map_init;;
  modify (λ w, if bool_decide (USE_APF_ENV = Some "false"%string) then set_use_apf false w else w);;
  heap (forM (range 0 MAX_SZ_IDX) (λ idx,
          _ ← get_heap_at idx; update_heap_at idx (λ _, mkHeap None idx)));;
  w ← get;
  b ← os (boot_init w.(w_bootstrap));
  modify (set_bootstrap b).

(** [MALLOC_INIT_S.with(|| init_malloc())], called by one thread at a time:
  a call that finds the initialisation claimed but not finished would spin. *)
Definition malloc_init : M World unit :=
  f ← gets w_malloc_init;
  if f.(skip_flag) then mret tt
  else
    (if f.(access) then mret tt
     else modify (set_malloc_init (mkSA true f.(wait) f.(skip_flag)));;
          init_malloc;;
          modify (set_malloc_init (mkSA true false true)));;
    f ← gets w_malloc_init;
    if f.(wait) then fail OutOfFuel else mret tt.

(** ** The tuners of the thread *)
Section Tuned.
Context {E : ApfEnv World}.

Fixpoint push_tuners (is' : list Z) : M World unit :=
  match is' with
  | [] => mret tt
  | i :: rest =>
      t ← tuner_new i (i =? RECORDED_SC);
      modify_tls (λ l, set_apf_tuners (l.(apf_tuners) ++ [t]) l);;
      push_tuners rest
  end.

Definition init_tuners : M World unit :=
  no_tuning (
    push_tuners (range 0 MAX_SZ_IDX);;
    modify_tls (set_apf_init true);;
    modify_tls (set_skip_tuners 0)).

(** [apf_tuners.get_mut(i).unwrap().op(ptr)] *)
Definition with_tuner (i : Z) (op : ApfTuner -> M World (bool * ApfTuner)) : M World unit :=
  t ← gets w_tls;
  a ← unwrap (t.(apf_tuners) !! Z.to_nat i) "called `Option::unwrap()` on a `None` value";
  '(_, a') ← op a;
  modify_tls (λ l, set_apf_tuners (<[Z.to_nat i := a']> l.(apf_tuners)) l).

(** The first allocation of a thread creates its tuners; the one of the class
  is told of the allocation. *)
Definition record_malloc (size_class_index ptr : Z) : M World unit :=
  w ← get;
  if w.(w_use_apf) then
    (if w.(w_tls).(skip) then mret tt
     else
       modify_tls (set_skip true);;
       t ← gets w_tls;
       (if t.(apf_init) then mret tt else init_tuners;; modify_tls (set_apf_init true));;
       t ← gets w_tls;
       assertM t.(apf_init) "assertion failed");;
    t ← gets w_tls;
    if t.(skip_tuners) =? 0 then with_tuner size_class_index (tuner_malloc ptr) else mret tt
  else mret tt.

(** ** [allocate_to_cache] *)
Definition allocate_to_cache (size size_class_index : Z) : M World Z :=
  w ← get;
  if w.(w_tls).(panicking) || w.(w_use_bootstrap) then
    '(p, b) ← os (boot_allocate size w.(w_bootstrap));
    modify (set_bootstrap b);;
    mret p
  else
    cache ← get_bin size_class_index;
    cache ← (if bin_get_block_num cache =? 0 then
               c ← heap (fill_cache size_class_index cache);
               put_bin size_class_index c;;
               if c.(bin_block_num) =? 0 then fail (Panic "Cache didn't fill") else mret c
             else mret cache);
    '(ptr, cache) ← os (pop_block cache);
    put_bin size_class_index cache;;
    record_malloc size_class_index ptr;;
    mret ptr.

(** ** [do_malloc]

  A large allocation has a descriptor and a segment of its own. *)
Definition malloc_large (size : Z) : M State Z :=
  let pages := page_ceiling size in
  desc ← desc_alloc;
  update_desc desc (set_geometry None (u32 pages) 1);;
  r ← with_os (allocate pages);
  update_desc desc (set_super_block (match r with inl seg => Some seg | inr _ => None end));;
  update_desc desc (set_anchor (set_state FULL anchor_default));;
  register_desc desc;;
  d ← read_desc desc;
  seg ← unwrap d.(super_block) "called `Option::unwrap()` on a `None` value";
  mret seg.(seg_ptr).

Definition do_malloc (size : Z) : M World Z :=
  malloc_init;;
  if size >? MAX_SZ then heap (malloc_large size)
  else
    i ← heap (size_class_of size);
    allocate_to_cache size i.

(** ** [do_aligned_alloc] *)
Definition aligned_large (align size : Z) : M State Z :=
  let size := Z.max size (MAX_SZ + 1) in
  let need_more_pages := align >? PAGE in
  let size := if need_more_pages then usize (size + align) else size in
  let pages := page_ceiling size in
  r ← with_os (allocate pages);
  match r with
  | inr _ => mret 0
  | inl seg =>
      desc ← desc_alloc;
      update_desc desc (set_geometry None (u32 pages) 1);;
      update_desc desc (set_super_block (Some seg));;
      update_desc desc (set_anchor (set_state FULL anchor_default));;
      register_desc desc;;
      if need_more_pages then
        let ptr := align_addr seg.(seg_ptr) align in
        update_page_map None ptr (Some desc) 0;;
        mret ptr
      else mret seg.(seg_ptr)
  end.

Definition do_aligned_alloc (align size : Z) : M World Z :=
  if negb (is_power_of_two align) then mret 0
  else
    let size := align_size size align in
    malloc_init;;
    if size >? PAGE then heap (aligned_large align size)
    else
      i ← heap (size_class_of size);
      allocate_to_cache size i.

(** [allocate_type::<T>()] and [allocate_val(val)], for a type of [size] bytes;
  [bytes] are the bytes of the value. *)
Definition allocate_type (size align : Z) : M World Z := do_aligned_alloc align size.

Fixpoint write_bytes (p : Z) (bytes : list Z) : M Os unit :=
  match bytes with
  | [] => mret tt
  | b :: bytes' => write_u8 p b;; write_bytes (p + 1) bytes'
  end.

Definition allocate_val (size align : Z) (bytes : list Z) : M World Z :=
  ptr ← allocate_type size align;
  (if ptr =? 0 then mret tt else os (write_bytes ptr bytes));;
  mret ptr.

(** ** [do_free] *)
Definition free_large (ptr desc : Z) : M State unit :=
  d ← read_desc desc;
  seg ← unwrap d.(super_block) "called `Option::unwrap()` on a `None` value";
  unregister_desc None seg;;
  (if negb (ptr =? seg.(seg_ptr)) then unregister_desc None seg else mret tt);;
  update_desc desc (set_super_block None);;
  _ ← with_os (deallocate seg);
  retire desc.

Definition record_free (size_class_index ptr : Z) : M World unit :=
  w ← get;
  if w.(w_use_apf) && w.(w_tls).(apf_init) && (w.(w_tls).(skip_tuners) =? 0)
  then with_tuner size_class_index (tuner_free ptr)
  else mret tt.

Definition push_to_cache (ptr size_class_index : Z) : M World unit :=
  w ← get;
  cache ← get_bin size_class_index;
  cache ← (if w.(w_use_apf) then mret cache
           else
             sc ← heap (size_class size_class_index);
             if sc.(cache_block_num) <=? bin_get_block_num cache then
               c ← heap (flush_cache size_class_index cache);
               put_bin size_class_index c;; mret c
             else mret cache);
  cache ← os (push_block cache ptr);
  put_bin size_class_index cache.

Definition free_to_cache (ptr size_class_index : Z) : M World unit :=
  record_free size_class_index ptr;; push_to_cache ptr size_class_index.

Definition do_free (ptr : Z) : M World unit :=
  if ptr =? 0 then mret tt
  else
    info ← heap (get_page_info_for_ptr ptr);
    match page_info_get_desc info with
    | None => mret tt
    | Some desc =>
        i ← heap (page_info_size_class_index info);
        match i with
        | None => heap (free_large ptr desc)
        | Some i => if i =? 0 then heap (free_large ptr desc) else free_to_cache ptr i
        end
    end.

(** ** [get_allocation_size] and [do_realloc] *)
Definition get_allocation_size (ptr : Z) : M State (option Z) :=
  info ← get_page_info_for_ptr ptr;
  match page_info_get_desc info with
  | None => mret None
  | Some desc => d ← read_desc desc; mret (Some d.(d_block_size))
  end.

Definition do_realloc (ptr size : Z) : M World Z :=
  if ptr =? 0 then do_malloc size
  else
    new_size_class ← heap (size_class_of size);
    o ← heap (get_allocation_size ptr);
    match o with
    | None => do_malloc size
    | Some old_size =>
        old_size_class ← heap (size_class_of old_size);
        if (negb (old_size_class =? 0) && (old_size_class =? new_size_class)) ||
           ((old_size_class =? 0) && (new_size_class =? 0) && (size <? old_size))
        then mret ptr
        else
          ret ← do_malloc size;
          (if negb (ret =? 0) && negb (ret =? ptr) then os (memcpy ret ptr old_size) else mret tt);;
          do_free ptr;;
          mret ret
    end.
End Tuned.

(** ** The operations given to the tuners *)
Definition tuner_check (id : Z) : M World Z := c ← get_bin id; mret (check c).

Definition tuner_fetch (id cnt : Z) : M World bool :=
  c ← get_bin id; c ← heap (fetch id cnt c); put_bin id c;; mret false.

Definition tuner_ret (id cnt : Z) : M World bool :=
  c ← get_bin id; c ← heap (ret cnt c); put_bin id c;; mret true.

Fixpoint lib_env (n : nat) : ApfEnv World :=
  match n with
  | O => {| env_allocate _ _ := fail OutOfFuel; env_realloc _ _ := fail OutOfFuel;
            env_free _ := fail OutOfFuel; env_check := tuner_check;
            env_fetch := tuner_fetch; env_ret := tuner_ret; env_no_tuning := @no_tuning |}
  | S n' => {| env_allocate align size := do_aligned_alloc (E := lib_env n') align size;
               env_realloc := do_realloc (E := lib_env n');
               env_free := do_free (E := lib_env n'); env_check := tuner_check;
               env_fetch := tuner_fetch; env_ret := tuner_ret; env_no_tuning := @no_tuning |}
  end.

Definition NESTING : nat := 2.
End Lib.
