(* ===== verification/Heap.v ===== *)
(** * The invariant of the heap

    What every segment and every block is for, and the invariant that relates
    this bookkeeping to the allocator's state, for any number of threads.  The
    partial lists are empty: the invariant describes the runs in which no bin
    has been flushed. *)
From S2P Require Import Prelude MemInfo SizeClasses Anchor Mem Bin Trace Tuner.
From S2P Require Import SingleAccess Bootstrap HashMap State Pages Descriptor.
From S2P Require Import PageMap Alloc ThreadCache Lib.

(** ** Bookkeeping

    A mapped segment is a superblock of a class with its descriptor, a large
    allocation (its descriptor, the pointer given to the client and the
    length), or memory of the allocator itself. *)
Inductive Role : Type :=
  | SuperBlock (i d : Z)
  | Large (d ptr len : Z)
  | Meta.

Definition role_desc (r : Role) : option Z :=
  match r with SuperBlock _ d => Some d | Large d _ _ => Some d | Meta => None end.

(** [roles] maps the start of a segment to its role; [owner] maps a block of a
    superblock to its class and to the thread whose cache holds it, or to
    [None] when the client holds it; [free] are the free descriptors. *)
Record Ghost : Type := mkGhost {
  roles : gmap Z Role;
  owner : gmap Z (Z * option nat);
  free_descs : list Z;
}.

(** The entry of a page in the page map. *)
Definition page_entry (s : State) (k : Z) : option Z :=
  match s.(st_page_map) with Some m => m !! k | None => None end.

(** The page numbers of a segment. *)
Definition seg_page (seg : Segment) (k : Z) : Prop :=
  seg.(seg_ptr) / PAGE <= k < seg.(seg_ptr) / PAGE + page_span seg.(seg_len) / PAGE.

(** The descriptor [d] is in use for [seg], with the given block size. *)
Definition desc_used (s : State) (free : list Z) (d : Z) (seg : Segment) (bs : Z) : Prop :=
  d ∉ free /\ exists de, s.(st_descs) !! d = Some de /\
    de.(super_block) = Some seg /\ de.(d_block_size) = bs.

Definition role_ok (s : State) (free : list Z) (p : Z) (r : Role) : Prop :=
  match r with
  | SuperBlock i d =>
      1 <= i < MAX_SZ_IDX /\ exists c, size_class_at s.(st_sizes) i = Ok c /\
      mkSegment p c.(sb_size) ∈ s.(st_os).(segs) /\
      desc_used s free d (mkSegment p c.(sb_size)) c.(block_size) /\
      forall k, seg_page (mkSegment p c.(sb_size)) k -> page_entry s k = Some d
  | Large d ptr len =>
      mkSegment p len ∈ s.(st_os).(segs) /\ p <= ptr < p + len /\ MAX_SZ < len < 2 ^ 32 /\
      desc_used s free d (mkSegment p len) len /\ page_entry s (ptr / PAGE) = Some d
  | Meta => mkSegment p DESCRIPTOR_BLOCK_SZ ∈ s.(st_os).(segs)
  end.

(** Block [b] is a block of a superblock of class [i]. *)
Definition block_home (s : State) (g : Ghost) (b i : Z) : Prop :=
  exists p d c, g.(roles) !! p = Some (SuperBlock i d) /\
    size_class_at s.(st_sizes) i = Ok c /\ b ∈ sb_blocks p c.(block_size) c.(block_num).

Definition bin_ok (s : State) (g : Ghost) (t : nat) (i : Z) (c : ThreadCacheBin) : Prop :=
  exists l, bin_holds s.(st_os) c l /\ NoDup l /\
    (forall b, b ∈ l <-> g.(owner) !! b = Some (i, Some t)) /\
    (c.(bin_block_size) = None \/
     exists cl, size_class_at s.(st_sizes) i = Ok cl /\ c.(bin_block_size) = Some cl.(block_size)).

Section Invariant.
Context {KN : Kernel} {HZ : Hash Z} (target : Z).

Record heap_inv (s : State) (caches : gmap nat (list ThreadCacheBin)) (g : Ghost) : Prop := {
  i_os : os_ok s.(st_os);
  i_sizes : SizeInit target s.(st_sizes);
  i_heaps : heaps_empty s;
  i_pages : pages_ok s;
  i_page_map : is_Some s.(st_page_map);
  i_desc : desc_inv s.(st_descs) s.(st_avail) g.(free_descs);
  i_home : forall a, is_Some (s.(st_descs) !! a) ->
    exists p, g.(roles) !! p = Some Meta /\ p <= a /\ a + DESCRIPTOR_SIZE <= p + DESCRIPTOR_BLOCK_SZ;
  i_roles : forall p r, g.(roles) !! p = Some r -> role_ok s g.(free_descs) p r;
  i_distinct : forall p p' r r' d, g.(roles) !! p = Some r -> g.(roles) !! p' = Some r' ->
    role_desc r = Some d -> role_desc r' = Some d -> p = p';
  i_owner : forall b i o, g.(owner) !! b = Some (i, o) -> block_home s g b i;
  i_bins : forall t cs, caches !! t = Some cs -> forall i, 1 <= i < MAX_SZ_IDX ->
    exists c, cs !! Z.to_nat i = Some c /\ bin_ok s g t i c;
}.

(** ** Live memory: what the client holds, with its capacity *)
Inductive live (s : State) (g : Ghost) (b cap : Z) : Prop :=
  | live_small i c :
      g.(owner) !! b = Some (i, None) -> size_class_at s.(st_sizes) i = Ok c ->
      cap = c.(block_size) -> live s g b cap
  | live_large p d len :
      g.(roles) !! p = Some (Large d b len) -> cap = p + len - b -> live s g b cap.

(** ** Geometry *)
Lemma segs_apart o seg seg' :
  os_ok o -> seg ∈ o.(segs) -> seg' ∈ o.(segs) -> seg = seg' \/ seg_disjoint seg seg'.
Proof.
  intros [Hd _] H H'. destruct (decide (seg = seg')); [by left|right].
  induction Hd as [|x l Hx _ IH]; [by apply elem_of_nil in H|].
  rewrite Forall_forall in Hx.
  apply elem_of_cons in H as [->|H]; apply elem_of_cons in H' as [->|H']; [done|by apply Hx| |auto].
  specialize (Hx _ H). unfold seg_disjoint, disjoint_ranges in *. tauto.
Qed.

(** Segments with different starts do not overlap. *)
Lemma segs_ptr_apart o seg seg' :
  os_ok o -> seg ∈ o.(segs) -> seg' ∈ o.(segs) -> seg.(seg_ptr) <> seg'.(seg_ptr) ->
  seg_disjoint seg seg'.
Proof. intros Ho H H' Hne. destruct (segs_apart o seg seg' Ho H H') as [->|]; done. Qed.

Lemma segs_ptr_eq o seg seg' :
  os_ok o -> seg ∈ o.(segs) -> seg' ∈ o.(segs) -> seg.(seg_ptr) = seg'.(seg_ptr) -> seg = seg'.
Proof.
  intros Ho H H' He. destruct (segs_apart o seg seg' Ho H H') as [|Hd]; [done|].
  destruct (seg_wf o seg Ho H) as (_ & _ & L & _). destruct (seg_wf o seg' Ho H') as (_ & _ & L' & _).
  pose proof (page_span_pos _ L). pose proof (page_span_pos _ L').
  unfold seg_disjoint, disjoint_ranges in Hd. lia.
Qed.

(** Disjoint page-aligned segments have no page in common. *)
Lemma seg_page_disjoint seg seg' k :
  (PAGE | seg.(seg_ptr)) -> (PAGE | seg'.(seg_ptr)) -> seg_disjoint seg seg' ->
  seg_page seg k -> seg_page seg' k -> False.
Proof.
  intros [q Hq] [q' Hq'] Hd. unfold seg_page, seg_disjoint, disjoint_ranges in *.
  destruct (page_span_divide (seg_len seg)) as [n Hn].
  destruct (page_span_divide (seg_len seg')) as [n' Hn'].
  rewrite Hq, Hq', Hn, Hn' in *. change PAGE with 4096 in *. rewrite !Z.div_mul by lia. lia.
Qed.

Lemma seg_page_of seg a :
  (PAGE | seg.(seg_ptr)) -> seg.(seg_ptr) <= a < seg.(seg_ptr) + seg.(seg_len) ->
  seg_page seg (a / PAGE).
Proof.
  intros [q Hq] Ha. unfold seg_page. pose proof (page_span_ge (seg_len seg)) as Hs.
  destruct (page_span_divide (seg_len seg)) as [n Hn]. rewrite Hq, Hn in *.
  change PAGE with 4096 in *. rewrite !Z.div_mul by lia.
  split; [apply Z.div_le_lower_bound; lia|]. apply Z.div_lt_upper_bound; lia.
Qed.

(** The range of a block lies in its superblock. *)
Lemma sb_block_range c p b :
  class_ok target c -> b ∈ sb_blocks p c.(block_size) c.(block_num) ->
  p <= b /\ b + c.(block_size) <= p + c.(sb_size).
Proof.
  intros [K1 _ _ K4 _ _] (k & Hk & ->)%elem_of_sb_blocks. rewrite K4. nia.
Qed.

Section Facts.
Context {s : State} {caches : gmap nat (list ThreadCacheBin)} {g : Ghost}.
Hypothesis Hinv : heap_inv s caches g.

Lemma class_of_index i : 1 <= i < MAX_SZ_IDX ->
  exists c, size_class_at s.(st_sizes) i = Ok c /\ class_ok target c /\
    8 <= c.(block_size) /\ (8 | c.(block_size)) /\ get_size_class s.(st_sizes) c.(block_size) = i.
Proof.
  intros Hi. pose proof (i_sizes _ _ _ Hinv) as SI.
  destruct (si_class i Hi) as (c & Hc & Hok & _). exists c.
  destruct (class_own_size i c Hi Hc) as (H8 & Hd & Hg). done.
Qed.

(** Everything known of a block. *)
Lemma owner_block b i o :
  g.(owner) !! b = Some (i, o) ->
  1 <= i < MAX_SZ_IDX /\
  exists p d c, g.(roles) !! p = Some (SuperBlock i d) /\
    size_class_at s.(st_sizes) i = Ok c /\ class_ok target c /\ 8 <= c.(block_size) /\
    get_size_class s.(st_sizes) c.(block_size) = i /\
    mkSegment p c.(sb_size) ∈ s.(st_os).(segs) /\
    b ∈ sb_blocks p c.(block_size) c.(block_num) /\
    p <= b /\ b + c.(block_size) <= p + c.(sb_size).
Proof.
  intros H. destruct (i_owner _ _ _ Hinv b i o H) as (p & d & c & Hr & Hc & Hb).
  destruct (i_roles _ _ _ Hinv _ _ Hr) as (Hi & c' & Hc' & Hseg & _).
  rewrite Hc in Hc'. injection Hc' as <-.
  destruct (class_of_index i Hi) as (c' & Hc' & Hok & H8 & _ & Hg).
  rewrite Hc in Hc'. injection Hc' as <-.
  split; [done|]. exists p, d, c. do 7 (split; [done|]). by apply sb_block_range.
Qed.

(** Distinct blocks, whoever owns them, do not overlap. *)
Lemma blocks_apart b i o c b' i' o' c' :
  g.(owner) !! b = Some (i, o) -> g.(owner) !! b' = Some (i', o') -> b <> b' ->
  size_class_at s.(st_sizes) i = Ok c -> size_class_at s.(st_sizes) i' = Ok c' ->
  disjoint_ranges b c.(block_size) b' c'.(block_size).
Proof.
  intros H H' Hne Hc Hc'.
  destruct (owner_block _ _ _ H) as (Hi & p & d & c1 & R & C & K & H8 & _ & S & B & B1 & B2).
  destruct (owner_block _ _ _ H') as (Hi' & p' & d' & c1' & R' & C' & K' & H8' & _ & S' & B' & B1' & B2').
  rewrite Hc in C. injection C as <-. rewrite Hc' in C'. injection C' as <-.
  destruct (decide (p = p')) as [<-|Hp].
  - rewrite R in R'. injection R' as <- <-. rewrite Hc in Hc'. injection Hc' as <-.
    eapply sb_blocks_apart; try done. lia.
  - pose proof (segs_ptr_apart _ _ _ (i_os _ _ _ Hinv) S S' Hp) as Hd.
    unfold seg_disjoint, disjoint_ranges in *. simpl in Hd.
    pose proof (page_span_ge (sb_size c)). pose proof (page_span_ge (sb_size c')). lia.
Qed.

(** Two roles at different starts: their segments do not overlap. *)
Lemma large_apart p d ptr len b i o c :
  g.(roles) !! p = Some (Large d ptr len) -> g.(owner) !! b = Some (i, o) ->
  size_class_at s.(st_sizes) i = Ok c ->
  disjoint_ranges p (page_span len) b c.(block_size).
Proof.
  intros R H Hc.
  destruct (i_roles _ _ _ Hinv _ _ R) as (S & _).
  destruct (owner_block _ _ _ H) as (_ & p' & d' & c' & R' & C' & _ & _ & _ & S' & _ & B1 & B2).
  rewrite Hc in C'. injection C' as <-.
  assert (p <> p') by (intros ->; rewrite R in R'; done).
  pose proof (segs_ptr_apart _ _ _ (i_os _ _ _ Hinv) S S') as Hd. simpl in Hd.
  specialize (Hd ltac:(done)). unfold seg_disjoint, disjoint_ranges in *. simpl in Hd.
  pose proof (page_span_ge (sb_size c)). lia.
Qed.

(** Live allocations do not overlap. *)
Lemma live_apart b cap b' cap' :
  live s g b cap -> live s g b' cap' -> b <> b' -> disjoint_ranges b cap b' cap'.
Proof.
  intros [i c H Hc ->|p d len R ->] [i' c' H' Hc' ->|p' d' len' R' ->] Hne.
  - by eapply blocks_apart.
  - pose proof (large_apart _ _ _ _ _ _ _ _ R' H Hc) as Hd.
    destruct (i_roles _ _ _ Hinv _ _ R') as (_ & Hp & _).
    unfold disjoint_ranges in *. pose proof (page_span_ge len'). lia.
  - pose proof (large_apart _ _ _ _ _ _ _ _ R H' Hc') as Hd.
    destruct (i_roles _ _ _ Hinv _ _ R) as (_ & Hp & _).
    unfold disjoint_ranges in *. pose proof (page_span_ge len). lia.
  - destruct (i_roles _ _ _ Hinv _ _ R) as (S & Hp & _).
    destruct (i_roles _ _ _ Hinv _ _ R') as (S' & Hp' & _).
    assert (p <> p') by (intros <-; rewrite R in R'; congruence).
    pose proof (segs_ptr_apart _ _ _ (i_os _ _ _ Hinv) S S') as Hd. simpl in Hd.
    specialize (Hd ltac:(done)). unfold seg_disjoint, disjoint_ranges in *. simpl in Hd.
    pose proof (page_span_ge len). pose proof (page_span_ge len'). lia.
Qed.

(** Live memory is mapped, above 0 and below the address limit. *)
Lemma live_mapped b cap :
  live s g b cap -> 0 < b /\ b + cap <= ADDR_LIMIT /\ 0 < cap /\
    mapped s.(st_os).(segs) b cap = true.
Proof.
  intros [i c H Hc ->|p d len R ->].
  - destruct (owner_block _ _ _ H) as (_ & p & d & c' & R & C & K & H8 & _ & S & _ & B1 & B2).
    rewrite Hc in C. injection C as <-.
    destruct (seg_wf _ _ (i_os _ _ _ Hinv) S) as (W1 & _ & _ & W4). simpl in *.
    pose proof (page_span_ge (sb_size c)).
    split; [lia|]. split; [lia|]. split; [lia|].
    apply mapped_true. exists (mkSegment p (sb_size c)). simpl. split; [done|]. lia.
  - destruct (i_roles _ _ _ Hinv _ _ R) as (S & Hp & _).
    destruct (seg_wf _ _ (i_os _ _ _ Hinv) S) as (W1 & _ & _ & W4). simpl in *.
    pose proof (page_span_ge len).
    split; [lia|]. split; [lia|]. split; [lia|].
    apply mapped_true. exists (mkSegment p len). simpl. split; [done|]. lia.
Qed.

(** The first word of a block is mapped. *)
Lemma owner_mapped b i o :
  g.(owner) !! b = Some (i, o) -> 0 < b < ADDR_LIMIT /\ mapped s.(st_os).(segs) b 8 = true.
Proof.
  intros H. destruct (owner_block _ _ _ H) as (_ & p & d & c & R & C & K & H8 & _ & S & _ & B1 & B2).
  destruct (seg_wf _ _ (i_os _ _ _ Hinv) S) as (W1 & _ & _ & W4). simpl in *.
  pose proof (page_span_ge (sb_size c)). split; [lia|].
  apply mapped_true. exists (mkSegment p (sb_size c)). simpl. split; [done|]. lia.
Qed.

(** What the page map says of a live pointer. *)
Lemma page_of_live b cap :
  live s g b cap ->
  exists d de bs seg, page_entry s (b / PAGE) = Some d /\ 0 < d /\ (64 | d) /\
    s.(st_descs) !! d = Some de /\ de.(d_block_size) = bs /\ d ∉ g.(free_descs) /\
    de.(super_block) = Some seg.
Proof.
  intros [i c H Hc ->|p d len R ->].
  - destruct (owner_block _ _ _ H) as (_ & p & d & c' & R & C & K & H8 & _ & S & _ & B1 & B2).
    destruct (i_roles _ _ _ Hinv _ _ R) as (_ & c2 & C2 & S2 & (Hf & de & Hde & Hsb & Hbs) & Hpg).
    rewrite C in C2. injection C2 as <-.
    destruct (seg_wf _ _ (i_os _ _ _ Hinv) S) as (W1 & W2 & _ & W4).
    exists d, de, (block_size c'), (mkSegment p (sb_size c')). split.
    { apply Hpg. apply seg_page_of; [done|]. simpl. lia. }
    destruct (desc_addr_ok _ _ _ (i_desc _ _ _ Hinv) d) as [Hd1 Hd2]; [by exists de|].
    split; [lia|]. done.
  - destruct (i_roles _ _ _ Hinv _ _ R) as (S & Hp & _ & (Hf & de & Hde & Hsb & Hbs) & Hpg).
    exists d, de, len, (mkSegment p len). split; [done|].
    destruct (desc_addr_ok _ _ _ (i_desc _ _ _ Hinv) d) as [Hd1 Hd2]; [by exists de|].
    split; [lia|]. done.
Qed.

Lemma inv_desc_home b : is_Some (s.(st_descs) !! b) -> desc_home s.(st_os).(segs) b.
Proof.
  intros H. destruct (i_home _ _ _ Hinv b H) as (p & R & H1 & H2).
  pose proof (i_roles _ _ _ Hinv _ _ R) as S. simpl in S. by exists (mkSegment p DESCRIPTOR_BLOCK_SZ).
Qed.
End Facts.
End Invariant.
