(* ===== verification/HeapOps.v ===== *)
(** * The operations preserve the heap invariant *)
From S2P Require Import Prelude MemInfo SizeClasses Anchor Mem Bin Trace Tuner.
From S2P Require Import SingleAccess Bootstrap HashMap State Pages Descriptor.
From S2P Require Import PageMap Alloc ThreadCache Lib Heap.

(** ** Frames *)
Record os_frame (o o' : Os) : Prop := {
  of_segs : forall seg, seg ∈ o.(segs) -> seg ∈ o'.(segs);
  of_mem : forall a, mapped o.(segs) a 1 = true -> load8 o'.(mem) a = load8 o.(mem) a;
}.

Lemma os_frame_refl o : os_frame o o.
Proof. by split. Qed.

Lemma mapped_byte ss b n a :
  mapped ss b n = true -> b <= a < b + n -> mapped ss a 1 = true.
Proof.
  rewrite !mapped_true. intros (seg & Hs & H1 & H2) Ha. exists seg.
  split; [done|]. lia.
Qed.

Lemma os_frame_trans o1 o2 o3 : os_frame o1 o2 -> os_frame o2 o3 -> os_frame o1 o3.
Proof.
  intros [S1 M1] [S2 M2]. split; [auto|]. intros a Ha. rewrite M2, M1; [done|done|].
  eapply mapped_mono; [|done]. auto.
Qed.

Lemma os_frame_load o o' b :
  os_frame o o' -> mapped o.(segs) b 8 = true ->
  load 8 o'.(mem) b = load 8 o.(mem) b /\ mapped o'.(segs) b 8 = true.
Proof.
  intros [S1 M1] Hm. split; [|by eapply mapped_mono].
  apply load_ext. intros a Ha. apply M1. by eapply mapped_byte.
Qed.

Lemma fresh_not_mapped {KN : Kernel} o seg a :
  fresh_segment o seg -> seg.(seg_ptr) <= a < seg.(seg_ptr) + page_span seg.(seg_len) ->
  mapped o.(segs) a 1 = false.
Proof.
  intros [_ _ _ _ Hd] Ha. destruct (mapped (segs o) a 1) eqn:E; [|done].
  apply mapped_true in E as (t & Ht & H1 & H2). rewrite Forall_forall in Hd.
  specialize (Hd t Ht). unfold seg_disjoint, disjoint_ranges in Hd. lia.
Qed.

Lemma os_grow_frame {KN : Kernel} o seg o' : os_grow o seg o' -> os_frame o o'.
Proof.
  intros [Hf ->]. split; simpl; [by right|]. intros a Ha. rewrite load8_zero_range.
  case_decide as Hd; [|done]. by rewrite (fresh_not_mapped o seg a Hf Hd) in Ha.
Qed.

Lemma os_grow_ok {KN : Kernel} o seg o' : os_ok o -> os_grow o seg o' -> os_ok o'.
Proof. intros Ho [Hf ->]. by apply fresh_os_ok. Qed.

Lemma bin_ok_frame s s' g g' t i c :
  bin_ok s g t i c -> s'.(st_sizes) = s.(st_sizes) ->
  (forall b, g.(owner) !! b = Some (i, Some t) ->
     load 8 s'.(st_os).(mem) b = load 8 s.(st_os).(mem) b /\
     mapped s'.(st_os).(segs) b 8 = true) ->
  (forall b, g'.(owner) !! b = Some (i, Some t) <-> g.(owner) !! b = Some (i, Some t)) ->
  bin_ok s' g' t i c.
Proof.
  intros (l & [B1 B2 B3 B4] & Hnd & Hl & Hbs) Hs Hm Ho. exists l.
  split; [|split; [done|split; [|by rewrite Hs]]].
  - split; [|done|done|].
    + eapply chain_frame; [|done]. intros b Hb. apply Hm. by apply Hl.
    + rewrite Forall_forall. intros b Hb. apply Hm. by apply Hl.
  - intros b. by rewrite Ho.
Qed.

Lemma role_ok_frame s s' f f' p r :
  os_ok s.(st_os) -> role_ok s f p r -> s'.(st_sizes) = s.(st_sizes) ->
  (forall len, mkSegment p len ∈ s.(st_os).(segs) -> mkSegment p len ∈ s'.(st_os).(segs)) ->
  (forall d, role_desc r = Some d -> d ∉ f -> d ∉ f' /\ s'.(st_descs) !! d = s.(st_descs) !! d) ->
  (forall len k, role_desc r <> None -> mkSegment p len ∈ s.(st_os).(segs) ->
     seg_page (mkSegment p len) k -> page_entry s' k = page_entry s k) ->
  role_ok s' f' p r.
Proof.
  intros Ho Hr Hs Hseg Hd Hpg. destruct r as [i d|d ptr len|]; simpl in *.
  - destruct Hr as (Hi & c & Hc & S & (Hf & de & Hde) & Hk). split; [done|]. exists c.
    rewrite Hs. split; [done|]. split; [auto|].
    destruct (Hd d eq_refl Hf) as [Hf' E]. split.
    + split; [done|]. exists de. by rewrite E.
    + intros k Hkk. rewrite (Hpg (sb_size c)); auto.
  - destruct Hr as (S & Hp & Hl & (Hf & de & Hde) & Hk).
    destruct (Hd d eq_refl Hf) as [Hf' E]. split; [auto|]. split; [done|]. split; [done|].
    split; [split; [done|]; exists de; by rewrite E|].
    rewrite (Hpg len); [done|done|done|]. apply seg_page_of; [|done].
    by apply (seg_wf _ _ Ho S).
  - auto.
Qed.

Section Ops.
Context {KN : Kernel} {HZ : Hash Z} {BR : BitRange} {target : Z}.
  Abbreviation inv := (heap_inv target).

(** A fresh mapping has no role yet, and none of the known pages. *)
Lemma role_seg s caches g p r :
  inv s caches g -> g.(roles) !! p = Some r -> exists len, mkSegment p len ∈ s.(st_os).(segs).
Proof.
  intros Hi R. pose proof (i_roles _ _ _ _ Hi _ _ R) as H. destruct r; simpl in H.
  - destruct H as (_ & c & _ & S & _). by exists (sb_size c).
  - destruct H as (S & _). by eexists.
  - by eexists.
Qed.

Lemma fresh_no_role s caches g seg :
  inv s caches g -> fresh_segment s.(st_os) seg -> g.(roles) !! seg.(seg_ptr) = None.
Proof.
  intros Hi Hf. destruct (g.(roles) !! seg_ptr seg) as [r|] eqn:R; [|done].
  destruct (role_seg _ _ _ _ _ Hi R) as [len S].
  by destruct (fresh_ptr_ne _ _ _ (i_os _ _ _ _ Hi) Hf S).
Qed.

Lemma fresh_seg_page o seg seg' k :
  os_ok o -> fresh_segment o seg -> seg' ∈ o.(segs) -> seg_page seg k -> seg_page seg' k -> False.
Proof.
  intros Ho [F1 F2 F3 F4 Hd] S. apply seg_page_disjoint; [done|by apply (seg_wf _ _ Ho S)|].
  rewrite Forall_forall in Hd. by apply Hd.
Qed.

(** The blocks of the old superblocks are not in a fresh mapping. *)
Lemma fresh_no_owner s caches g seg b i o :
  inv s caches g -> fresh_segment s.(st_os) seg -> g.(owner) !! b = Some (i, o) ->
  ~ (seg.(seg_ptr) <= b < seg.(seg_ptr) + page_span seg.(seg_len)).
Proof.
  intros Hi Hf H Hb. destruct (owner_mapped target Hi _ _ _ H) as [_ Hm].
  eapply mapped_byte in Hm; [|split; [reflexivity|lia]].
  by rewrite (fresh_not_mapped _ _ _ Hf Hb) in Hm.
Qed.

(** *** Obtaining a descriptor *)
Record ghost_ext (g g1 : Ghost) : Prop := {
  ge_roles : forall q r, g.(roles) !! q = Some r -> g1.(roles) !! q = Some r;
  ge_meta : forall q r, g1.(roles) !! q = Some r -> g.(roles) !! q = Some r \/ r = Meta;
  ge_owner : g1.(owner) = g.(owner);
}.

(** Every segment keeps its role, and the client its blocks. *)
Record ghost_kept (g g' : Ghost) : Prop := {
  gk_roles : forall q r, g.(roles) !! q = Some r -> g'.(roles) !! q = Some r;
  gk_owner : forall b i, g.(owner) !! b = Some (i, None) -> g'.(owner) !! b = Some (i, None);
}.

Lemma ghost_kept_trans g g1 g2 : ghost_kept g g1 -> ghost_kept g1 g2 -> ghost_kept g g2.
Proof. intros [] []. split; eauto. Qed.

Lemma ghost_ext_kept g g1 : ghost_ext g g1 -> ghost_kept g g1.
Proof. intros [H1 _ H2]. split; [done|]. by rewrite H2. Qed.

Lemma live_ghost_ext s s1 g g1 b cap :
  ghost_ext g g1 -> s1.(st_sizes) = s.(st_sizes) -> live s1 g1 b cap <-> live s g b cap.
Proof.
  intros [E1 E2 E3] Hs. split.
  - intros [i c H Hc ->|p d len R ->].
    + eapply live_small; [by rewrite <- E3|by rewrite <- Hs|done].
    + eapply live_large; [|done]. by destruct (E2 _ _ R).
  - intros [i c H Hc ->|p d len R ->].
    + eapply live_small; [by rewrite E3|by rewrite Hs|done].
    + eapply live_large; [|done]. by apply E1.
Qed.

(** The descriptor obtained serves no segment. *)
Lemma desc_alloc_unused s caches g p s1 free' q r :
  inv s caches g -> desc_alloc_post s g.(free_descs) p s1 free' ->
  g.(roles) !! q = Some r -> role_desc r <> Some p.
Proof.
  intros Hi Hd R E. pose proof (i_roles _ _ _ _ Hi _ _ R) as H.
  assert (Hu : p ∉ g.(free_descs) /\ is_Some (st_descs s !! p)).
  { destruct r; simpl in *; simplify_eq.
    - destruct H as (_ & c & _ & _ & (Hf & de & Hde & _) & _). split; [done|by exists de].
    - destruct H as (_ & _ & _ & (Hf & de & Hde & _) & _). split; [done|by exists de]. }
  destruct Hu as [Hf [de Hde]]. destruct (dap_new _ _ _ _ _ Hd); [done|congruence].
Qed.

Lemma os_grow_frame_or s free p s1 free' :
  desc_alloc_post s free p s1 free' -> os_frame s.(st_os) s1.(st_os).
Proof.
  intros Hd. destruct (dap_os _ _ _ _ _ Hd) as [[-> _]|(seg & Hg & _)];
    [apply os_frame_refl|by eapply os_grow_frame].
Qed.

(** A descriptor that serves a segment exists and is not free. *)
Lemma role_desc_used s caches g q r d :
  inv s caches g -> g.(roles) !! q = Some r -> role_desc r = Some d -> exists de, s.(st_descs) !! d = Some de.
Proof.
  intros Hi R E. pose proof (i_roles _ _ _ _ Hi _ _ R) as H. destruct r; simpl in *; simplify_eq.
  - destruct H as (_ & c & _ & _ & (_ & de & Hde & _) & _). by exists de.
  - destruct H as (_ & _ & _ & (_ & de & Hde & _) & _). by exists de.
Qed.

(** The roles once a descriptor has been taken: a block of descriptors may
    have been mapped. *)
Definition desc_roles (s s1 : State) (g : Ghost) (free' : list Z) (rs : gmap Z Role) : Prop :=
  ghost_ext g (mkGhost rs g.(owner) free') /\ os_ok s1.(st_os) /\
  (forall a, is_Some (s1.(st_descs) !! a) -> exists q, rs !! q = Some Meta /\ q <= a /\
     a + DESCRIPTOR_SIZE <= q + DESCRIPTOR_BLOCK_SZ) /\
  (forall q, rs !! q = Some Meta -> g.(roles) !! q = Some Meta \/
     mkSegment q DESCRIPTOR_BLOCK_SZ ∈ s1.(st_os).(segs)) /\
  (forall t, t ∈ s.(st_os).(segs) -> g.(roles) !! t.(seg_ptr) = None -> rs !! t.(seg_ptr) = None).

Lemma desc_alloc_roles s caches g p s1 free' :
  inv s caches g -> desc_alloc_post s g.(free_descs) p s1 free' -> exists rs, desc_roles s s1 g free' rs.
Proof.
  intros Hi Hd. destruct (dap_os _ _ _ _ _ Hd) as [[E1 E2]|(seg & Hg & Hl & Hnew)].
  - exists g.(roles). split; [by split; auto|]. rewrite E1, E2.
    split; [apply Hi|]. split; [apply Hi|]. split; [by left|done].
  - exists (<[seg.(seg_ptr) := Meta]> g.(roles)). destruct Hg as [Hf Eo].
    pose proof (fresh_no_role _ _ _ _ Hi Hf) as Hnr. split; [split|split; [|split; [|split]]].
    + intros q r R. simpl. rewrite lookup_insert_ne; [done|]. intros <-. congruence.
    + simpl. intros q r R. apply lookup_insert_Some in R as [(_ & <-)|(_ & R)]; auto.
    + done.
    + rewrite Eo. apply fresh_os_ok; [apply Hi|done].
    + intros a Ha. destruct (st_descs s !! a) as [de|] eqn:E.
      * destruct (i_home _ _ _ _ Hi a) as (q & R & Hq); [by exists de|].
        exists q. rewrite lookup_insert_ne; [done|]. intros <-. congruence.
      * exists (seg_ptr seg). rewrite lookup_insert_eq, <- Hl. split; [done|]. by apply Hnew.
    + intros q R. apply lookup_insert_Some in R as [(<- & _)|(_ & R)]; [|by left].
      right. rewrite Eo. simpl. rewrite <- Hl. destruct seg. left.
    + intros t Ht Hno. rewrite lookup_insert_ne; [done|].
      intros E. by apply (fresh_ptr_ne _ _ _ (i_os _ _ _ _ Hi) Hf Ht).
Qed.

Lemma inv_desc_alloc s caches g p s1 free' :
  inv s caches g -> desc_alloc_post s g.(free_descs) p s1 free' ->
  exists g1, inv s1 caches g1 /\ ghost_ext g g1 /\ g1.(free_descs) = free' /\
    (forall q r, g1.(roles) !! q = Some r -> role_desc r <> Some p) /\
    (forall t, t ∈ s.(st_os).(segs) -> g.(roles) !! t.(seg_ptr) = None ->
       g1.(roles) !! t.(seg_ptr) = None).
Proof.
  intros Hi Hd. pose proof (os_grow_frame_or _ _ _ _ _ Hd) as Hof.
  destruct (dap_rest _ _ _ _ _ Hd) as (R1 & R2 & R3).
  destruct (desc_alloc_roles _ _ _ _ _ _ Hi Hd) as (rs & Hext & Hos & Hhome & Hmeta & Hnone).
  exists (mkGhost rs g.(owner) free').
  assert (Hunused : forall q r, rs !! q = Some r -> role_desc r <> Some p).
  { intros q r R. destruct (ge_meta _ _ Hext q r R) as [R' | ->]; [|done].
    by eapply desc_alloc_unused. }
  split; [|done]. split; simpl; try done.
  - rewrite R1. apply Hi.
  - unfold heaps_empty. rewrite R3. apply Hi.
  - apply Hd.
  - rewrite R2. apply Hi.
  - apply Hd.
  - intros q r R. destruct (ge_meta _ _ Hext q r R) as [R' | ->].
    + eapply (role_ok_frame s); [apply Hi|by apply (i_roles _ _ _ _ Hi)|done| | |].
      * intros len S. by apply Hof.
      * intros d E Hnf. destruct (role_desc_used _ _ _ _ _ _ Hi R' E) as [de Hde].
        split; [|rewrite Hde; by apply (dap_frame _ _ _ _ _ Hd)].
        intros Hin. apply (dap_free _ _ _ _ _ Hd) in Hin as [|Hno]; [done|congruence].
      * intros len k _ _ _. unfold page_entry. by rewrite R2.
    + simpl. destruct (Hmeta q R) as [R'|S]; [|done]. apply Hof. apply (i_roles _ _ _ _ Hi _ _ R').
  - intros q q' r r' d R R' E E'.
    destruct (ge_meta _ _ Hext q r R) as [Q | ->]; [|done].
    destruct (ge_meta _ _ Hext q' r' R') as [Q' | ->]; [|done].
    by eapply (i_distinct _ _ _ _ Hi).
  - intros b i o H. destruct (i_owner _ _ _ _ Hi b i o H) as (q & d & c & R & Hc & Hb).
    exists q, d, c. rewrite R1. split; [by apply (ge_roles _ _ Hext)|done].
  - intros t cs Hcs i Hii. destruct (i_bins _ _ _ _ Hi t cs Hcs i Hii) as (c & Hc & Hb).
    exists c. split; [done|]. eapply bin_ok_frame; [done|done| |done].
    intros b H. apply os_frame_load; [done|]. by apply (owner_mapped target Hi _ _ _ H).
Qed.

(** *** A new superblock for the bin of class [i] of thread [t] *)
Definition give_blocks (o : gmap Z (Z * option nat)) (i : Z) (t : nat) (bs : list Z) :=
  foldr (λ b m, <[b := (i, Some t)]> m) o bs.

Lemma give_blocks_lookup o i t bs b :
  give_blocks o i t bs !! b = if decide (b ∈ bs) then Some (i, Some t) else o !! b.
Proof.
  induction bs as [|x bs IH]; [done|]. unfold give_blocks in *. cbn [foldr].
  destruct (decide (x = b)) as [->|Hne].
  - rewrite lookup_insert_eq. by rewrite decide_True by left.
  - rewrite lookup_insert_ne, IH by done. destruct (decide (b ∈ bs)).
    + by rewrite decide_True by by right.
    + rewrite decide_False; [done|]. intros [?|?]%elem_of_cons; congruence.
Qed.

Section NewSb.
Context {s1 s' : State} {caches : gmap nat (list ThreadCacheBin)} {g1 : Ghost}.
Context {i p : Z} {c : SizeClassData} {seg : Segment} {t : nat}.
Hypothesis Hi : inv s1 caches g1.
Hypothesis Hpost : new_sb_post i c p seg s1 s'.
Hypothesis Hidx : 1 <= i < MAX_SZ_IDX.
Hypothesis Hc : size_class_at s1.(st_sizes) i = Ok c.
Hypothesis Hp : p ∉ g1.(free_descs).
Hypothesis Hsome : is_Some (s1.(st_descs) !! p).
Hypothesis Hunused : forall q r, g1.(roles) !! q = Some r -> role_desc r <> Some p.

Let blocks : list Z := sb_blocks seg.(seg_ptr) c.(block_size) c.(block_num).
Let g' : Ghost := mkGhost (<[seg.(seg_ptr) := SuperBlock i p]> g1.(roles))
                    (give_blocks g1.(owner) i t blocks) g1.(free_descs).

Lemma nsb_class : class_ok target c /\ 8 <= c.(block_size).
Proof.
  destruct (class_of_index target Hi i Hidx) as (c' & Hc' & Hok & H8 & _).
  rewrite Hc in Hc'. by injection Hc' as <-.
Qed.

Lemma nsb_block_in b : b ∈ blocks ->
  seg.(seg_ptr) <= b /\ b + c.(block_size) <= seg.(seg_ptr) + seg.(seg_len).
Proof.
  intros Hb. destruct nsb_class as [Hok _].
  destruct (sb_block_range target c _ b Hok Hb). rewrite (nsb_len _ _ _ _ _ _ Hpost). lia.
Qed.

Lemma nsb_block_new b : b ∈ blocks -> g1.(owner) !! b = None.
Proof.
  intros Hb. destruct (g1.(owner) !! b) as [[j o]|] eqn:E; [|done]. exfalso.
  eapply (fresh_no_owner _ _ _ seg); [done|apply Hpost|done|].
  destruct (nsb_block_in b Hb). pose proof (page_span_ge (seg_len seg)).
  destruct nsb_class. lia.
Qed.

(** The marker of the last block is inside the new segment. *)
Lemma nsb_frame_os : os_frame s1.(st_os) s'.(st_os).
Proof.
  pose proof (nsb_fresh _ _ _ _ _ _ Hpost) as Hf. rewrite (nsb_os _ _ _ _ _ _ Hpost).
  split; simpl; [by right|]. intros a Ha. destruct nsb_class as [Hok H8].
  destruct (class_sizes target c Hok H8) as [Hn _].
  assert (Hout : ~ (seg_ptr seg <= a < seg_ptr seg + page_span (seg_len seg))).
  { intros Hin. by rewrite (fresh_not_mapped _ _ _ Hf Hin) in Ha. }
  destruct (nsb_block_in (seg_ptr seg + (block_num c - 1) * block_size c)) as [L1 L2].
  { apply elem_of_sb_blocks. exists (block_num c - 1). lia. }
  pose proof (page_span_ge (seg_len seg)).
  rewrite load8_store_other by lia. rewrite load8_zero_range. by rewrite decide_False.
Qed.

Lemma nsb_chain : chain (Some c.(block_size)) s'.(st_os).(mem) seg.(seg_ptr) blocks.
Proof.
  destruct nsb_class as [Hok H8]. destruct (class_sizes target c Hok H8) as [Hn _].
  destruct (nsb_fresh _ _ _ _ _ _ Hpost) as [F1 F2 F3 F4 F5].
  pose proof (page_span_ge (seg_len seg)). pose proof (nsb_len _ _ _ _ _ _ Hpost) as Hl.
  destruct Hok as [K1 K2 K3 K4 K5 K6].
  apply new_sb_chain; [lia|lia|lia|lia|]. intros k Hk.
  rewrite (nsb_os _ _ _ _ _ _ Hpost). simpl.
  rewrite load_store_other by (unfold disjoint_ranges; nia).
  apply load_zero_range_in; simpl; nia.
Qed.

(** The bin holds all the blocks, in order. *)
Lemma nsb_bin_holds :
  bin_holds s'.(st_os) (mkBin seg.(seg_ptr) c.(block_num) (Some c.(block_size))) blocks.
Proof.
  destruct nsb_class as [Hok H8]. destruct (class_sizes target c Hok H8) as [Hn _].
  split; simpl.
  - apply nsb_chain.
  - unfold blocks. rewrite sb_blocks_length by lia. done.
  - unfold blocks. rewrite sb_blocks_length by lia. lia.
  - rewrite Forall_forall. intros b Hb. destruct (nsb_block_in b Hb).
    rewrite (nsb_os _ _ _ _ _ _ Hpost). apply mapped_true. simpl.
    exists seg. split; [left|]. pose proof (page_span_ge (seg_len seg)). lia.
Qed.

(** ... which were not mapped before. *)
Lemma nsb_block_fresh b a :
  b ∈ blocks -> b <= a < b + c.(block_size) -> mapped s1.(st_os).(segs) a 1 = false.
Proof.
  intros Hb Ha. destruct (nsb_block_in b Hb). apply (fresh_not_mapped _ seg); [apply Hpost|].
  pose proof (page_span_ge (seg_len seg)). lia.
Qed.

Lemma nsb_bin_ok :
  (forall b, g1.(owner) !! b <> Some (i, Some t)) ->
  bin_ok s' g' t i (mkBin seg.(seg_ptr) c.(block_num) (Some c.(block_size))).
Proof.
  intros Hnone. destruct nsb_class as [Hok H8].
  exists blocks. split; [exact nsb_bin_holds|split; [|split]].
  - apply sb_blocks_nodup. lia.
  - intros b. simpl. rewrite give_blocks_lookup. destruct (decide (b ∈ blocks)); [done|].
    split; [done|]. intros H. by apply Hnone in H.
  - right. exists c. destruct (nsb_rest _ _ _ _ _ _ Hpost) as (-> & _). done.
Qed.

Lemma nsb_pages seg' k :
  seg' ∈ s1.(st_os).(segs) -> seg_page seg' k -> page_entry s' k = page_entry s1 k.
Proof.
  intros S Hk. destruct (nsb_page_map _ _ _ _ _ _ Hpost) as (m & m' & E1 & E2 & Hm).
  unfold page_entry. rewrite E1, E2, Hm.
  destruct nsb_class as [[_ K2 _ _ _ _] _].
  rewrite decide_False; [done|]. intros Hin.
  eapply (fresh_seg_page _ seg seg' k); [apply Hi|apply Hpost|done| |done].
  unfold seg_page. rewrite (nsb_len _ _ _ _ _ _ Hpost).
  assert (page_span (sb_size c) = sb_size c) as ->; [|done].
  unfold page_span. destruct K2 as [q ->]. change PAGE with 4096.
  replace (q * 4096 + 4096 - 1) with (4095 + q * 4096) by lia.
  rewrite Z.div_add by lia. done.
Qed.

Lemma nsb_own_pages k : seg_page (mkSegment seg.(seg_ptr) c.(sb_size)) k -> page_entry s' k = Some p.
Proof.
  destruct (nsb_page_map _ _ _ _ _ _ Hpost) as (m & m' & E1 & E2 & Hm).
  unfold seg_page, page_entry. simpl. rewrite E2, Hm. intros Hk.
  rewrite decide_True; [done|]. destruct nsb_class as [[_ [q Hq] _ _ _ _] _].
  assert (page_span (sb_size c) = sb_size c) as E; [|by rewrite E in Hk].
  unfold page_span. rewrite Hq. change PAGE with 4096.
  replace (q * 4096 + 4096 - 1) with (4095 + q * 4096) by lia.
  rewrite Z.div_add by lia. done.
Qed.

Lemma nsb_kept : ghost_kept g1 g'.
Proof.
  pose proof (fresh_no_role _ _ _ _ Hi (nsb_fresh _ _ _ _ _ _ Hpost)) as Hnr. split.
  - intros q r R. simpl. rewrite lookup_insert_ne; [done|]. intros <-. congruence.
  - intros b j H. simpl. rewrite give_blocks_lookup, decide_False; [done|]. intros Hb.
    rewrite nsb_block_new in H; done.
Qed.

Lemma nsb_role q r : g'.(roles) !! q = Some r -> role_ok s' g'.(free_descs) q r.
Proof.
  destruct (nsb_rest _ _ _ _ _ _ Hpost) as (R1 & _).
  intros R. simpl in R. apply lookup_insert_Some in R as [(<- & <-)|(Hne & R)].
  - simpl. split; [done|]. exists c. rewrite R1. split; [done|].
    destruct (nsb_desc _ _ _ _ _ _ Hpost) as (d & Hd & D1 & D2 & D3 & _).
    pose proof (nsb_len _ _ _ _ _ _ Hpost) as Hl.
    assert (seg = mkSegment (seg_ptr seg) (sb_size c)) as Es by (rewrite <- Hl; by destruct seg).
    split; [|split; [|apply nsb_own_pages]].
    + rewrite (nsb_os _ _ _ _ _ _ Hpost), <- Es. left.
    + split; [done|]. exists d. by rewrite <- Es.
  - eapply (role_ok_frame s1); [apply Hi|by apply (i_roles _ _ _ _ Hi)|done| | |].
    + intros len S. by apply nsb_frame_os.
    + intros d E Hnf. split; [done|]. apply (nsb_frame _ _ _ _ _ _ Hpost).
      intros ->. by apply (Hunused _ _ R).
    + intros len k _ S Hk. by eapply nsb_pages.
Qed.

Lemma nsb_distinct q q' r r' d :
  g'.(roles) !! q = Some r -> g'.(roles) !! q' = Some r' ->
  role_desc r = Some d -> role_desc r' = Some d -> q = q'.
Proof.
  intros Q Q' E E'. simpl in Q, Q'.
  apply lookup_insert_Some in Q as [(<- & <-)|(Hne & Q)];
    apply lookup_insert_Some in Q' as [(<- & <-)|(Hne' & Q')]; simpl in *; simplify_eq; try done.
  - exfalso. by apply (Hunused _ _ Q').
  - exfalso. by apply (Hunused _ _ Q).
  - by eapply (i_distinct _ _ _ _ Hi).
Qed.

(** The other bins stay. *)
Lemma nsb_other_bin t' cs' j :
  caches !! t' = Some cs' -> 1 <= j < MAX_SZ_IDX -> (t', j) <> (t, i) ->
  exists c', cs' !! Z.to_nat j = Some c' /\ bin_ok s' g' t' j c'.
Proof.
  intros Hcs' Hj Hne. destruct (i_bins _ _ _ _ Hi t' cs' Hcs' j Hj) as (c' & Hc' & Hb). exists c'.
  split; [done|]. eapply bin_ok_frame; [done|exact (proj1 (nsb_rest _ _ _ _ _ _ Hpost))| |].
  - intros b H. apply os_frame_load; [apply nsb_frame_os|]. by apply (owner_mapped target Hi _ _ _ H).
  - intros b. simpl. rewrite give_blocks_lookup. case_decide as Hd; [|done].
    rewrite nsb_block_new by done. split; congruence.
Qed.

Lemma nsb_live b cap : live s' g' b cap <-> live s1 g1 b cap.
Proof.
  destruct (nsb_rest _ _ _ _ _ _ Hpost) as (R1 & _). split.
  - intros [j c' H Hc' ->|q d len R ->].
    + simpl in H. rewrite give_blocks_lookup in H. case_decide; [done|].
      eapply live_small; [done|by rewrite <- R1|done].
    + simpl in R. apply lookup_insert_Some in R as [(_ & ?)|(_ & R)]; [done|].
      by eapply live_large.
  - intros [j c' H Hc' ->|q d len R ->].
    + eapply live_small; [by apply nsb_kept|by rewrite R1|done].
    + eapply live_large; [by apply nsb_kept|done].
Qed.

Lemma inv_new_sb cs :
  caches !! t = Some cs -> (forall b, g1.(owner) !! b <> Some (i, Some t)) ->
  (Z.to_nat i < length cs)%nat ->
  pages_ok s' ->
  inv s' (<[t := <[Z.to_nat i := mkBin seg.(seg_ptr) c.(block_num) (Some c.(block_size))]> cs]> caches) g' /\
  (forall b cap, live s' g' b cap <-> live s1 g1 b cap) /\
  ghost_kept g1 g'.
Proof.
  intros Hcs Hnone Hlen Hpok. split; [|split; [apply nsb_live|apply nsb_kept]].
  destruct (nsb_rest _ _ _ _ _ _ Hpost) as (R1 & R2 & R3 & R4).
  assert (Hds : forall a, is_Some (s'.(st_descs) !! a) -> is_Some (s1.(st_descs) !! a)).
  { intros a Ha. destruct (decide (a = p)) as [->|Hne]; [done|]. by rewrite (nsb_frame _ _ _ _ _ _ Hpost) in Ha. }
  split; [..|exact nsb_role|exact nsb_distinct| |]; simpl.
  - rewrite (nsb_os _ _ _ _ _ _ Hpost). apply fresh_os_ok; [apply Hi|apply Hpost].
  - rewrite R1. apply Hi.
  - unfold heaps_empty. rewrite R2. apply Hi.
  - done.
  - destruct (nsb_page_map _ _ _ _ _ _ Hpost) as (m & m' & _ & E & _). rewrite E. by eexists.
  - destruct (i_desc _ _ _ _ Hi) as [D1 D2 D3]. rewrite R3. split; [|done|].
    + eapply desc_chain_frame; [|done]. intros a Ha. apply (nsb_frame _ _ _ _ _ _ Hpost).
      intros ->. done.
    + intros a Ha. by apply D3, Hds.
  - intros a Ha. destruct (i_home _ _ _ _ Hi a (Hds a Ha)) as (q & R & Hq).
    exists q. split; [by apply nsb_kept|done].
  - intros b j o H. rewrite give_blocks_lookup in H. destruct (decide (b ∈ blocks)).
    + simplify_eq. exists (seg_ptr seg), p, c. simpl. by rewrite lookup_insert_eq, R1.
    + destruct (i_owner _ _ _ _ Hi b j o H) as (q & d & c' & R & Hc' & Hb).
      exists q, d, c'. rewrite R1. split; [by apply nsb_kept|done].
  - intros t' cs' Hcs' j Hj. apply lookup_insert_Some in Hcs' as [(<- & <-)|(Hne & Hcs')].
    + destruct (decide (j = i)) as [->|Hji].
      * eexists. split; [by rewrite list_lookup_insert_eq|]. by apply nsb_bin_ok.
      * rewrite list_lookup_insert_ne by lia. apply nsb_other_bin; [done|done|congruence].
    + apply nsb_other_bin; [done|done|congruence].
Qed.
End NewSb.

(** *** Moving one block between the client and a bin

    Memory changes at most inside the block. *)
Definition set_owner (g : Ghost) (b i : Z) (w : option nat) : Ghost :=
  mkGhost g.(roles) (<[b := (i, w)]> g.(owner)) g.(free_descs).

Lemma inv_move_block s m' caches g t i cs c c' b w w' :
  inv s caches g -> caches !! t = Some cs -> g.(owner) !! b = Some (i, w) ->
  size_class_at s.(st_sizes) i = Ok c ->
  (w = None \/ w = Some t) -> (w' = None \/ w' = Some t) ->
  (forall a, ~ (b <= a < b + c.(block_size)) -> load8 m' a = load8 s.(st_os).(mem) a) ->
  let s' := set_os (mkOs m' s.(st_os).(segs) s.(st_os).(calls)) s in
  bin_ok s' (set_owner g b i w') t i c' ->
  inv s' (<[t := <[Z.to_nat i := c']> cs]> caches) (set_owner g b i w').
Proof.
  intros Hi Hcs Hb Hc Hw Hw' Hm s' Hbin.
  destruct (owner_block target Hi _ _ _ Hb) as (Hidx & _).
  assert (Hload : forall x j o, x <> b -> g.(owner) !! x = Some (j, o) ->
    load 8 m' x = load 8 s.(st_os).(mem) x /\ mapped s.(st_os).(segs) x 8 = true).
  { intros x j o Hne Hx. split; [|by apply (owner_mapped target Hi _ _ _ Hx)].
    destruct (owner_block target Hi _ _ _ Hx) as (_ & _ & _ & cx & _ & Hcx & _ & H8 & _).
    pose proof (blocks_apart target Hi _ _ _ _ _ _ _ _ Hx Hb Hne Hcx Hc) as Hd.
    apply load_ext. intros a Ha. apply Hm. unfold disjoint_ranges in Hd. lia. }
  destruct Hi as [I1 I2 I3 I4 I5 I6 I7 I8 I9 I10 I11]. split; simpl; try done.
  - destruct I1 as [J1 J2]. by split.
  - intros x j o Hx. apply lookup_insert_Some in Hx as [(<- & E)|(Hne & Hx)].
    + injection E as <- <-. by apply (I10 b i w).
    + by apply (I10 x j o).
  - intros t' cs' Hcs' j Hj.
    assert (Hother : t' <> t \/ j <> i -> forall c0, bin_ok s g t' j c0 ->
      bin_ok s' (set_owner g b i w') t' j c0).
    { intros Hne c0 Hc0.
      assert (Hsame : forall x, owner (set_owner g b i w') !! x = Some (j, Some t') <->
        g.(owner) !! x = Some (j, Some t')).
      { intros x. simpl. destruct (decide (x = b)) as [->|Hx].
        - rewrite lookup_insert_eq, Hb.
          split; intros [= -> ->]; destruct Hw, Hw'; simplify_eq; by destruct Hne.
        - by rewrite lookup_insert_ne. }
      eapply bin_ok_frame; [done|done| |done].
      intros x Hx. apply (Hload x j (Some t')); [|done]. intros ->.
      apply Hsame in Hx. simpl in Hx. rewrite lookup_insert_eq in Hx. injection Hx as -> ->.
      destruct Hw'; simplify_eq. by destruct Hne. }
    apply lookup_insert_Some in Hcs' as [(<- & <-)|(Hne & Hcs')].
    + destruct (decide (j = i)) as [->|Hji].
      * destruct (I11 t cs Hcs i Hj) as (c0 & Hc0 & _). exists c'.
        split; [|done]. apply list_lookup_insert_eq. by eapply lookup_lt_Some.
      * rewrite list_lookup_insert_ne by lia.
        destruct (I11 t cs Hcs j Hj) as (c0 & Hc0 & Hb0). exists c0. split; [done|]. auto.
    + destruct (I11 t' cs' Hcs' j Hj) as (c0 & Hc0 & Hb0). exists c0. split; [done|]. auto.
Qed.

Lemma owner_not_large s caches g b i o p d len :
  inv s caches g -> g.(owner) !! b = Some (i, o) -> g.(roles) !! p = Some (Large d b len) -> False.
Proof.
  intros Hi Hb R. destruct (owner_block target Hi _ _ _ Hb) as (_ & _ & _ & c & _ & Hc & _ & H8 & _).
  pose proof (large_apart target Hi _ _ _ _ _ _ _ _ R Hb Hc) as Hd.
  destruct (i_roles _ _ _ _ Hi _ _ R) as (_ & Hp & _). unfold disjoint_ranges in Hd.
  pose proof (page_span_ge len). lia.
Qed.

(** Popping hands the top block to the client. *)
Lemma inv_pop s caches g t i cs c cl :
  inv s caches g -> caches !! t = Some cs -> 1 <= i < MAX_SZ_IDX ->
  cs !! Z.to_nat i = Some c -> c.(bin_block_num) <> 0 ->
  size_class_at s.(st_sizes) i = Ok cl ->
  exists b c', pop_block c s.(st_os) = Ok ((b, c'), s.(st_os)) /\
    g.(owner) !! b = Some (i, Some t) /\
    inv s (<[t := <[Z.to_nat i := c']> cs]> caches) (set_owner g b i None) /\
    forall x cap, live s (set_owner g b i None) x cap <->
      live s g x cap \/ (x = b /\ cap = cl.(block_size)).
Proof.
  intros Hi Hcs Hidx Hc Hn Hcl.
  destruct (i_bins _ _ _ _ Hi t cs Hcs i Hidx) as (c0 & Hc0 & l & Hh & Hnd & Hl & Hbs).
  rewrite Hc in Hc0. injection Hc0 as <-.
  destruct l as [|b l]; [destruct Hh as [_ Hcnt _ _]; done|].
  assert (Hb : g.(owner) !! b = Some (i, Some t)) by (apply Hl; left).
  destruct (class_of_index target Hi i Hidx) as (c1 & Hc1 & [K1 _ _ _ _ _] & _).
  rewrite Hcl in Hc1. injection Hc1 as <-. change MAX_SZ with 14336 in K1.
  destruct (pop_block_holds _ _ _ _ Hh) as (c' & Hpop & Ebs & Hh').
  { intros n E. destruct Hbs as [Hbs|(c2 & Hc2 & Hbs)]; [congruence|].
    rewrite Hcl in Hc2. injection Hc2 as <-.
    rewrite Hbs in E. injection E as <-. lia. }
  exists b, c'. split; [done|]. split; [done|].
  apply NoDup_cons in Hnd as [Hnin Hnd].
  assert (Es : s = set_os (mkOs (mem (st_os s)) (segs (st_os s)) (calls (st_os s))) s)
    by (by destruct s as [[]]).
  split.
  - rewrite Es. eapply inv_move_block; [done|done|done|done|by right|by left|done|].
    rewrite <- Es. exists l. split; [done|]. split; [done|]. split; [|by rewrite Ebs].
    intros x. simpl. destruct (decide (x = b)) as [->|Hx].
    + rewrite lookup_insert_eq. split; done.
    + rewrite lookup_insert_ne, <- Hl, elem_of_cons by done. naive_solver.
  - intros x cap. split.
    + intros [j cj H Hj ->|p d len R ->]; [|left; by eapply live_large].
      simpl in H. apply lookup_insert_Some in H as [(<- & E)|(Hne & H)].
      * right. simplify_eq. rewrite Hcl in Hj. by simplify_eq.
      * left. by eapply live_small.
    + intros [[j cj H Hj ->|p d len R ->]|[-> ->]].
      * eapply live_small; [|done|done]. simpl. rewrite lookup_insert_ne; [done|].
        intros ->. congruence.
      * by eapply live_large.
      * eapply live_small; [|done|done]. simpl. apply lookup_insert_eq.
Qed.

(** Pushing takes a block of the client back. *)
Lemma inv_push s caches g t i cs c cl b :
  inv s caches g -> caches !! t = Some cs -> 1 <= i < MAX_SZ_IDX ->
  cs !! Z.to_nat i = Some c -> c.(bin_block_num) < 2 ^ 32 - 2 ->
  g.(owner) !! b = Some (i, None) -> size_class_at s.(st_sizes) i = Ok cl ->
  exists c' m', push_block c b s.(st_os) =
      Ok (c', mkOs m' s.(st_os).(segs) s.(st_os).(calls)) /\
    let s' := set_os (mkOs m' s.(st_os).(segs) s.(st_os).(calls)) s in
    inv s' (<[t := <[Z.to_nat i := c']> cs]> caches) (set_owner g b i (Some t)) /\
    (forall a, ~ (b <= a < b + cl.(block_size)) -> load8 m' a = load8 s.(st_os).(mem) a) /\
    forall x cap, live s' (set_owner g b i (Some t)) x cap <-> live s g x cap /\ x <> b.
Proof.
  intros Hi Hcs Hidx Hc Hn Hb Hcl.
  destruct (i_bins _ _ _ _ Hi t cs Hcs i Hidx) as (c0 & Hc0 & l & Hh & Hnd & Hl & Hbs).
  rewrite Hc in Hc0. injection Hc0 as <-.
  destruct (owner_mapped target Hi _ _ _ Hb) as [Hrange Hmap].
  destruct (owner_block target Hi _ _ _ Hb) as (_ & _ & _ & c1 & _ & Hc1 & _ & H8 & _).
  rewrite Hcl in Hc1. injection Hc1 as <-.
  destruct (push_block_holds _ _ _ b Hh Hrange Hmap) as (c' & o' & Hpush & -> & Ebs & Hh').
  { destruct Hh as [_ Hcnt _ _]. lia. }
  { rewrite Forall_forall. intros x Hx. apply Hl in Hx.
    assert (Hne : b <> x) by congruence.
    pose proof (blocks_apart target Hi _ _ _ _ _ _ _ _ Hb Hx Hne Hcl Hcl) as Hd.
    unfold disjoint_ranges in *. lia. }
  exists c', (store 8 (mem (st_os s)) b (push_link c b)). split; [done|].
  assert (Hmem : forall a, ~ (b <= a < b + block_size cl) ->
    load8 (store 8 (mem (st_os s)) b (push_link c b)) a = load8 (mem (st_os s)) a).
  { intros a Ha. apply load8_store_other. lia. }
  split; [|split; [done|]].
  - eapply inv_move_block; [done|done|done|done|by left|by right|done|].
    exists (b :: l). split; [done|]. split; [|split; [|by rewrite Ebs]].
    + constructor; [|done]. intros Hin. apply Hl in Hin. congruence.
    + intros x. simpl. rewrite elem_of_cons. destruct (decide (x = b)) as [->|Hx].
      * rewrite lookup_insert_eq. split; auto.
      * rewrite lookup_insert_ne, <- Hl by done. naive_solver.
  - intros x cap. split.
    + intros [j cj H Hj ->|p d len R ->].
      * simpl in H. apply lookup_insert_Some in H as [(<- & E)|(Hne & H)]; [done|].
        split; [|done]. by eapply live_small.
      * split; [by eapply live_large|]. intros ->. by eapply owner_not_large.
    + intros [[j cj H Hj ->|p d len R ->] Hne].
      * eapply live_small; [|done|done]. simpl. by rewrite lookup_insert_ne.
      * by eapply live_large.
Qed.
End Ops.
