(* ===== verification/LargeOps.v ===== *)
(** * Large allocations preserve the heap invariant *)
From S2P Require Import Prelude MemInfo SizeClasses Anchor Mem Bin Trace Tuner.
From S2P Require Import SingleAccess Bootstrap HashMap State Pages Descriptor.
From S2P Require Import PageMap Alloc ThreadCache Lib Heap HeapOps.

Section LargeOps.
Context {KN : Kernel} {HZ : Hash Z} {BR : BitRange} {target : Z}.
  Abbreviation inv := (heap_inv target).

Lemma pages_ok_calls s s' :
  pages_ok s -> s'.(st_size_map) = s.(st_size_map) ->
  (s.(st_os).(calls) <= s'.(st_os).(calls))%nat -> pages_ok s'.
Proof.
  unfold pages_ok. intros H -> Hc. destruct (st_size_map s) as [m|]; [|done].
  destruct H as (H1 & H2 & H3). split; [done|]. lia.
Qed.

(** *** Roles and bins that a change does not touch *)
Lemma bins_frame s s' caches g g' :
  inv s caches g -> os_frame s.(st_os) s'.(st_os) -> s'.(st_sizes) = s.(st_sizes) ->
  g'.(owner) = g.(owner) ->
  forall t cs, caches !! t = Some cs -> forall i, 1 <= i < MAX_SZ_IDX ->
  exists c, cs !! Z.to_nat i = Some c /\ bin_ok s' g' t i c.
Proof.
  intros Hi Hof Hs Ho t cs Hcs i Hii.
  destruct (i_bins _ _ _ _ Hi t cs Hcs i Hii) as (c & Hc & Hb). exists c. split; [done|].
  eapply bin_ok_frame; [done|done| |by rewrite Ho].
  intros b H. apply os_frame_load; [done|]. by apply (owner_mapped target Hi _ _ _ H).
Qed.

Lemma owner_frame s s' g g' :
  (forall b i o, g.(owner) !! b = Some (i, o) -> block_home s g b i) ->
  s'.(st_sizes) = s.(st_sizes) -> g'.(owner) = g.(owner) ->
  (forall p i d, g.(roles) !! p = Some (SuperBlock i d) -> g'.(roles) !! p = Some (SuperBlock i d)) ->
  forall b i o, g'.(owner) !! b = Some (i, o) -> block_home s' g' b i.
Proof.
  intros Ho Hs Eo Hr b i o H. rewrite Eo in H.
  destruct (Ho b i o H) as (p & d & c & R & Hc & Hb). exists p, d, c. rewrite Hs.
  split; [by apply Hr|done].
Qed.

(** *** A mapping without a role yet *)
Lemma inv_os_grow s caches g seg o' :
  inv s caches g -> os_grow s.(st_os) seg o' ->
  inv (set_os o' s) caches g /\ (forall x cap, live (set_os o' s) g x cap <-> live s g x cap).
Proof.
  intros Hi Hg. pose proof (os_grow_frame _ _ _ Hg) as Hof. split.
  - split; simpl; try apply Hi.
    + by eapply os_grow_ok; [apply Hi|].
    + eapply pages_ok_calls; [apply Hi|done|]. destruct Hg as [_ ->]. simpl. lia.
    + intros q r R. eapply (role_ok_frame s); [apply Hi|by apply (i_roles _ _ _ _ Hi)|done| |done|done].
      intros len S. by apply Hof.
    + by apply (bins_frame s _ _ g).
  - intros x cap. split.
    + intros [i c H Hc ->|p d len R ->]; [by eapply live_small|by eapply live_large].
    + intros [i c H Hc ->|p d len R ->]; [by eapply live_small|by eapply live_large].
Qed.

(** *** Giving a segment to the client *)
Definition add_large (g : Ghost) (seg : Segment) (p ptr : Z) : Ghost :=
  mkGhost (<[seg.(seg_ptr) := Large p ptr seg.(seg_len)]> g.(roles)) g.(owner) g.(free_descs).

Record large_step (s s' : State) (seg : Segment) (p ptr : Z) : Prop := {
  ls_os : s'.(st_os) = s.(st_os);
  ls_rest : s'.(st_sizes) = s.(st_sizes) /\ s'.(st_heaps) = s.(st_heaps) /\
    s'.(st_avail) = s.(st_avail) /\ s'.(st_size_map) = s.(st_size_map);
  ls_frame : forall a, a <> p -> s'.(st_descs) !! a = s.(st_descs) !! a;
  ls_desc : exists de, s'.(st_descs) !! p = Some de /\ de.(super_block) = Some seg /\
    de.(d_block_size) = seg.(seg_len);
  ls_page_map : is_Some s'.(st_page_map);
  ls_pages : forall k, ~ seg_page seg k -> page_entry s' k = page_entry s k;
  ls_entry : page_entry s' (ptr / PAGE) = Some p;
}.

Lemma live_add_large s s' g seg p ptr x cap :
  g.(roles) !! seg.(seg_ptr) = None -> s'.(st_sizes) = s.(st_sizes) ->
  live s' (add_large g seg p ptr) x cap <->
    live s g x cap \/ (x = ptr /\ cap = seg.(seg_ptr) + seg.(seg_len) - ptr).
Proof.
  intros Hnr R1. split.
  - intros [i c H Hc ->|q d len R ->].
    + left. eapply live_small; [done|by rewrite <- R1|done].
    + simpl in R. apply lookup_insert_Some in R as [(<- & E)|(Hne & R)].
      * right. by simplify_eq.
      * left. by eapply live_large.
  - intros [[i c H Hc ->|q d len R ->]|[-> ->]].
    + eapply live_small; [done|by rewrite R1|done].
    + eapply live_large; [|done]. simpl. rewrite lookup_insert_ne; [done|congruence].
    + eapply live_large; [|done]. simpl. by rewrite lookup_insert_eq.
Qed.

Lemma inv_add_large s s' caches g seg p ptr :
  inv s caches g -> seg ∈ s.(st_os).(segs) -> g.(roles) !! seg.(seg_ptr) = None ->
  p ∉ g.(free_descs) -> is_Some (s.(st_descs) !! p) ->
  (forall q r, g.(roles) !! q = Some r -> role_desc r <> Some p) ->
  large_step s s' seg p ptr ->
  seg.(seg_ptr) <= ptr < seg.(seg_ptr) + seg.(seg_len) -> MAX_SZ < seg.(seg_len) < 2 ^ 32 ->
  inv s' caches (add_large g seg p ptr) /\
  forall x cap, live s' (add_large g seg p ptr) x cap <->
    live s g x cap \/ (x = ptr /\ cap = seg.(seg_ptr) + seg.(seg_len) - ptr).
Proof.
  intros Hi S Hnr Hpf Hps Hun [L1 (R1 & R2 & R3 & R4) L3 L4 L5 L6 L7] Hptr Hlen.
  assert (Hroles : forall q r, roles g !! q = Some r -> roles (add_large g seg p ptr) !! q = Some r).
  { intros q r R. simpl. rewrite lookup_insert_ne; [done|]. intros <-. congruence. }
  assert (Hdom : forall a, is_Some (st_descs s' !! a) -> is_Some (st_descs s !! a)).
  { intros a Ha. destruct (decide (a = p)) as [->|Hne]; [done|]. by rewrite L3 in Ha. }
  split; [|intros x cap; by apply live_add_large].
  split; simpl; try done.
  - rewrite L1. apply Hi.
  - rewrite R1. apply Hi.
  - unfold heaps_empty. rewrite R2. apply Hi.
  - eapply pages_ok_calls; [apply Hi|done|by rewrite L1].
  - destruct (i_desc _ _ _ _ Hi) as [D1 D2 D3]. rewrite R3. split; [|done|auto].
    eapply desc_chain_frame; [|done]. intros a Ha. apply L3. intros ->. done.
  - intros a Ha. destruct (i_home _ _ _ _ Hi a (Hdom a Ha)) as (q & R & Hq).
    exists q. split; [by apply Hroles|done].
  - intros q r R. apply lookup_insert_Some in R as [(<- & <-)|(Hne & R)].
    + simpl. rewrite L1. destruct seg as [sp sl]. simpl in *.
      split; [done|]. split; [done|]. split; [done|]. split; [by split|done].
    + eapply (role_ok_frame s); [apply Hi|by apply (i_roles _ _ _ _ Hi)|done| | |].
      * by rewrite L1.
      * intros d E Hnf. split; [done|]. apply L3. intros ->. by apply (Hun _ _ R).
      * intros len k _ S' Hk. apply L6. intros Hk'.
         eapply (seg_page_disjoint seg (mkSegment q len) k); [| | |done|done].
         -- by apply (seg_wf _ _ (i_os _ _ _ _ Hi) S).
         -- by apply (seg_wf _ _ (i_os _ _ _ _ Hi) S').
         -- by apply (segs_ptr_apart _ _ _ (i_os _ _ _ _ Hi) S S').
  - intros q q' r r' d Q Q' E E'.
    apply lookup_insert_Some in Q as [(<- & <-)|(Hne & Q)];
      apply lookup_insert_Some in Q' as [(<- & <-)|(Hne' & Q')]; simpl in *; simplify_eq; try done.
    + exfalso. by apply (Hun _ _ Q').
    + exfalso. by apply (Hun _ _ Q).
    + by eapply (i_distinct _ _ _ _ Hi).
  - apply (owner_frame s _ g (add_large g seg p ptr)); [apply Hi|done|done|]. intros q i d R. by apply Hroles.
  - apply (bins_frame s _ _ g); [done| |done|done]. rewrite L1. apply os_frame_refl.
Qed.

(** *** Taking a large allocation back *)
Definition drop_large (g : Ghost) (q d : Z) : Ghost :=
  mkGhost (delete q g.(roles)) g.(owner) (d :: g.(free_descs)).

Record drop_step (s s' : State) (q len d : Z) (g : Ghost) : Prop := {
  ds_os : s'.(st_os) = mkOs s.(st_os).(mem)
    (filter (λ t, t <> mkSegment q len) s.(st_os).(segs)) (S s.(st_os).(calls));
  ds_rest : s'.(st_sizes) = s.(st_sizes) /\ s'.(st_heaps) = s.(st_heaps) /\
    s'.(st_size_map) = s.(st_size_map);
  ds_desc : desc_inv s'.(st_descs) s'.(st_avail) (d :: g.(free_descs));
  ds_frame : forall a, a <> d -> s'.(st_descs) !! a = s.(st_descs) !! a;
  ds_dom : forall a, is_Some (s'.(st_descs) !! a) <-> is_Some (s.(st_descs) !! a);
  ds_page_map : is_Some s'.(st_page_map);
  ds_pages : forall k, ~ seg_page (mkSegment q len) k -> page_entry s' k = page_entry s k;
}.

Lemma live_drop_large s s' caches g q d ptr len x cap :
  inv s caches g -> g.(roles) !! q = Some (Large d ptr len) -> s'.(st_sizes) = s.(st_sizes) ->
  live s' (drop_large g q d) x cap <-> live s g x cap /\ x <> ptr.
Proof.
  intros Hi R R1. destruct (i_roles _ _ _ _ Hi _ _ R) as (S & Hp & _). split.
  - intros [i c H Hc ->|p d' l R' ->].
    + split; [eapply live_small; [done|by rewrite <- R1|done]|].
      intros ->. by eapply owner_not_large.
    + simpl in R'. apply lookup_delete_Some in R' as [Hne R'].
      split; [by eapply live_large|]. intros ->.
      destruct (i_roles _ _ _ _ Hi _ _ R') as (S' & Hp' & _).
      pose proof (segs_ptr_apart _ _ _ (i_os _ _ _ _ Hi) S S' Hne) as Hd.
      unfold seg_disjoint, disjoint_ranges in Hd. simpl in Hd.
      pose proof (page_span_ge len). pose proof (page_span_ge l). lia.
  - intros [[i c H Hc ->|p d' l R' ->] Hne].
    + eapply live_small; [done|by rewrite R1|done].
    + eapply live_large; [|done]. simpl. rewrite lookup_delete_ne; [done|].
      intros ->. congruence.
Qed.

Lemma inv_drop_large s s' caches g q d ptr len :
  inv s caches g -> g.(roles) !! q = Some (Large d ptr len) -> drop_step s s' q len d g ->
  inv s' caches (drop_large g q d) /\
  forall x cap, live s' (drop_large g q d) x cap <-> live s g x cap /\ x <> ptr.
Proof.
  intros Hi R [L1 (R1 & R2 & R3) L3 L4 L5 L6 L7].
  destruct (i_roles _ _ _ _ Hi _ _ R) as (S & Hp & Hl & (Hnf & de & Hde & Hsb & Hbs) & Hpg).
  assert (Hsegs : forall t, t.(seg_ptr) <> q -> t ∈ s.(st_os).(segs) -> t ∈ s'.(st_os).(segs)).
  { intros t Ht Hin. rewrite L1. simpl. apply list_elem_of_filter. split; [|done].
    intros ->. done. }
  assert (Hmap : forall b i o, g.(owner) !! b = Some (i, o) -> mapped s'.(st_os).(segs) b 8 = true).
  { intros b i o H.
    destruct (owner_block target Hi _ _ _ H) as (_ & p & d' & c & R' & Hc & _ & H8 & _ & S' & _ & B1 & B2).
    apply mapped_true. exists (mkSegment p (sb_size c)). split.
    - apply Hsegs; [|done]. simpl. intros ->. congruence.
    - simpl. pose proof (page_span_ge (sb_size c)). lia. }
  split; [|intros x cap; by eapply live_drop_large].
  split; simpl; try done.
  - destruct (i_os _ _ _ _ Hi) as [O1 O2]. rewrite L1. split; simpl.
    + by apply ForallOrdPairs_filter.
    + rewrite Forall_forall in O2 |- *. intros t [_ Ht]%list_elem_of_filter. by apply O2.
  - rewrite R1. apply Hi.
  - unfold heaps_empty. rewrite R2. apply Hi.
  - eapply pages_ok_calls; [apply Hi|done|]. rewrite L1. simpl. lia.
  - intros a Ha. apply L5 in Ha. destruct (i_home _ _ _ _ Hi a Ha) as (p & R' & Hq).
    exists p. split; [|done]. rewrite lookup_delete_ne; [done|]. intros ->. congruence.
  - intros p r R'. apply lookup_delete_Some in R' as [Hne R'].
    eapply (role_ok_frame s); [apply Hi|by apply (i_roles _ _ _ _ Hi)|done| | |].
    + intros l S'. by apply Hsegs.
    + intros d' E Hnf'. assert (d' <> d).
      { intros ->. apply Hne. symmetry. by eapply (i_distinct _ _ _ _ Hi). }
      split; [|by apply L4]. by rewrite not_elem_of_cons.
    + intros l k _ S' Hk. apply L7. intros Hk'.
      eapply (seg_page_disjoint (mkSegment q len) (mkSegment p l) k); [| | |done|done].
      * by apply (seg_wf _ _ (i_os _ _ _ _ Hi) S).
      * by apply (seg_wf _ _ (i_os _ _ _ _ Hi) S').
      * by apply (segs_ptr_apart _ _ _ (i_os _ _ _ _ Hi) S S').
  - intros p p' r r' d' [_ Q]%lookup_delete_Some [_ Q']%lookup_delete_Some E E'.
    by eapply (i_distinct _ _ _ _ Hi).
  - apply (owner_frame s _ g (drop_large g q d)); [apply Hi|done|done|]. intros p i d' R'. simpl.
    rewrite lookup_delete_ne; [done|]. intros ->. congruence.
  - intros t cs Hcs i Hii. destruct (i_bins _ _ _ _ Hi t cs Hcs i Hii) as (c & Hc & Hb).
    exists c. split; [done|]. eapply bin_ok_frame; [done|done| |done].
    intros b H. split; [by rewrite L1|]. by eapply Hmap.
Qed.
End LargeOps.
