(* ===== verification/Safety.v ===== *)
(** * Safety of the allocator

    What [do_malloc], [do_aligned_alloc] and [do_free] do to the memory of the
    client, on every heap that satisfies the invariant. *)
From S2P Require Import Prelude MemInfo SizeClasses Anchor Mem Bin Trace Tuner.
From S2P Require Import SingleAccess Bootstrap HashMap State Pages Descriptor.
From S2P Require Import PageMap Alloc ThreadCache Lib Heap HeapOps LargeOps.

(** ** Outcomes *)

Section Safety.
Context {KN : Kernel} {HZ : Hash Z} {BR : BitRange} {target : Z}.
  Abbreviation inv := (heap_inv target).

(** The contents of the memory that the client holds are the same. *)
Definition contents_kept (s : State) (g : Ghost) (s' : State) : Prop :=
  forall x cap a, live s g x cap -> x <= a < x + cap ->
    load8 s'.(st_os).(mem) a = load8 s.(st_os).(mem) a.

(** [ptr] is given to the client with at least [size] bytes. *)
Record granted (s : State) (g : Ghost) (s' : State)
    (caches' : gmap nat (list ThreadCacheBin)) (g' : Ghost) (ptr size : Z) : Prop := {
  gr_inv : inv s' caches' g';
  gr_live : exists cap, size <= cap /\ forall x c,
    live s' g' x c <-> live s g x c \/ (x = ptr /\ c = cap);
  gr_new : forall cap, ~ live s g ptr cap;
  gr_kept : contents_kept s g s';
  gr_reach : reach REQUEST_LIMIT 2 s.(st_os) s'.(st_os);
  gr_ghost : ghost_kept g g';
}.

(** [ptr] is taken back. *)
Record released (s : State) (g : Ghost) (s' : State)
    (caches' : gmap nat (list ThreadCacheBin)) (g' : Ghost) (ptr : Z) : Prop := {
  re_inv : inv s' caches' g';
  re_live : forall x c, live s' g' x c <-> live s g x c /\ x <> ptr;
  re_contents : forall x cap a, live s' g' x cap -> x <= a < x + cap ->
    load8 s'.(st_os).(mem) a = load8 s.(st_os).(mem) a;
  re_reach : reach REQUEST_LIMIT 1 s.(st_os) s'.(st_os);
  re_roles : forall q r, g.(roles) !! q = Some r -> (forall d len, r <> Large d ptr len) ->
    g'.(roles) !! q = Some r;
  re_owner : forall b i, g.(owner) !! b = Some (i, None) -> b <> ptr -> g'.(owner) !! b = Some (i, None);
}.

Lemma os_frame_kept s caches g s' :
  inv s caches g -> os_frame s.(st_os) s'.(st_os) -> contents_kept s g s'.
Proof.
  intros Hi Hof x cap a Hl Ha. apply Hof.
  destruct (live_mapped target Hi x cap Hl) as (_ & _ & _ & Hm). by eapply mapped_byte.
Qed.

Lemma fresh_not_live s caches g seg ptr cap :
  inv s caches g -> fresh_segment s.(st_os) seg ->
  seg.(seg_ptr) <= ptr < seg.(seg_ptr) + seg.(seg_len) -> ~ live s g ptr cap.
Proof.
  intros Hi Hf Hp Hl. destruct (live_mapped target Hi ptr cap Hl) as (_ & _ & Hc & Hm).
  eapply mapped_byte in Hm; [|split; [reflexivity|lia]].
  rewrite (fresh_not_mapped _ seg) in Hm; [done|done|].
  pose proof (page_span_ge (seg_len seg)). lia.
Qed.

Lemma desc_reach s free p s1 free' :
  desc_alloc_post s free p s1 free' -> reach REQUEST_LIMIT 1 s.(st_os) s1.(st_os).
Proof.
  intros Hd. destruct (dap_os _ _ _ _ _ Hd) as [[-> _]|(seg & Hg & Hl & _)]; [apply reach_refl|].
  eapply reach_grow; [done|]. by rewrite Hl.
Qed.

Lemma desc_refusal s free p s1 free' size :
  desc_alloc_post s free p s1 free' -> 0 < size <= REQUEST_LIMIT -> refused s1.(st_os) size false ->
  refusal REQUEST_LIMIT 1 s.(st_os).
Proof.
  intros Hd Hs Hr. eapply (refuse_later _ 1 0); [by eapply desc_reach|by eapply refuse_now].
Qed.

Lemma page_entry_set s m' m k ptr n info :
  s.(st_page_map) = Some m -> pages_set m m' ptr n info ->
  page_entry (set_page_map (Some m') s) k =
    if decide (ptr / PAGE <= k < ptr / PAGE + n) then Some info else page_entry s k.
Proof. intros Hm Hs. unfold page_entry. simpl. by rewrite Hm, Hs. Qed.

(** The entry of the first page of a segment. *)
Lemma seg_first_page seg k :
  (PAGE | seg.(seg_ptr)) -> 0 < seg.(seg_len) ->
  seg.(seg_ptr) / PAGE <= k < seg.(seg_ptr) / PAGE + 1 -> seg_page seg k.
Proof.
  intros Hd Hl Hk. replace k with (seg_ptr seg / PAGE) by lia.
  apply seg_page_of; [done|lia].
Qed.

Definition fresh_segment_range (seg : Segment) : Prop := 0 < seg.(seg_ptr) < ADDR_LIMIT.

Lemma os_grow_range o seg o' : os_grow o seg o' -> fresh_segment_range seg.
Proof.
  intros [[_ F2 F3 F4 _] _]. pose proof (page_span_ge (seg_len seg)).
  unfold fresh_segment_range. lia.
Qed.

(** Registering the descriptor of a large allocation. *)
Lemma register_large s m p seg d :
  s.(st_descs) !! p = Some d -> d.(super_block) = Some seg -> d.(proc_heap) = None ->
  s.(st_page_map) = Some m -> fresh_segment_range seg -> desc_aligned p ->
  exists m', register_desc p s = Ok (tt, set_page_map (Some m') s) /\
    pages_set m m' seg.(seg_ptr) 1 p.
Proof.
  intros Hd Hs Hh Hm Hr [Hp Hp64]. unfold register_desc.
  rewrite (bind_Ok _ _ _ _ _ (read_desc_ok _ _ _ Hd)). rewrite Hs, Hh. simpl.
  rewrite bind_mret. destruct (update_page_map_none s m (seg_ptr seg) (Some p) Hm Hr) as (m' & E & H).
  exists m'. split; [done|]. destruct (page_info_set_ptr_desc p) as [Ei _]; [lia|done|].
  simpl in H. by rewrite Ei in H.
Qed.

(** *** [do_malloc] of a large size *)
Section MallocLarge.
Context {s : State} {caches : gmap nat (list ThreadCacheBin)} {g : Ghost}.
Hypothesis Hi : inv s caches g.
Hypothesis Hcalls : Z.of_nat s.(st_os).(calls) < CALLS_LIMIT.

(** The run of [malloc_large], step by step. *)
Lemma malloc_large_run size :
  0 < page_ceiling size < 2 ^ 32 ->
  (exists p s1 free' seg o' s', malloc_large size s = Ok (seg.(seg_ptr), s') /\
     desc_alloc_post s g.(free_descs) p s1 free' /\ os_grow s1.(st_os) seg o' /\
     seg.(seg_len) = page_ceiling size /\ large_step (set_os o' s1) s' seg p seg.(seg_ptr)) \/
  (exists msg, malloc_large size s = Err (Panic msg) /\ refusal REQUEST_LIMIT 1 s.(st_os)).
Proof.
  intros Hpages. unfold malloc_large. set (pages := page_ceiling size) in *.
  destruct (desc_alloc_ok s g.(free_descs) (i_desc _ _ _ _ Hi) (λ b, inv_desc_home target Hi b)
    (i_pages _ _ _ _ Hi) Hcalls) as [(p & s1 & free' & Ed & Hdap)|[Hr Ed]].
  2:{ right. eexists. split; [by rewrite (bind_Err _ _ _ _ Ed)|].
      by eapply (refuse_now _ _ _ DESCRIPTOR_BLOCK_SZ). }
  rewrite (bind_Ok _ _ _ _ _ Ed).
  destruct (dap_some _ _ _ _ _ Hdap) as [d Hd].
  rewrite (bind_Ok _ _ _ _ _ (update_desc_ok _ _ _ _ Hd)). unfold allocate.
  set (s2 := set_descs _ s1).
  destruct (map_segment_cases pages false (st_os s2)) as [(seg & o' & Em & Hl & Hg)|(e & Em & Hr)].
  2:{ right. eexists. split; [|eapply desc_refusal; [done| |done]; unfold REQUEST_LIMIT; lia].
      rewrite (bind_Ok _ _ _ _ _ (zoom_Ok st_os set_os _ s2 _ _ Em)).
      do 2 erewrite bind_Ok by (apply update_desc_ok; simpl; apply lookup_insert_eq).
      unfold register_desc. rewrite bind_assoc.
      erewrite bind_Ok by (apply read_desc_ok; simpl; apply lookup_insert_eq).
      reflexivity. }
  left. rewrite (bind_Ok _ _ _ _ _ (zoom_Ok st_os set_os _ s2 _ _ Em)).
  do 2 erewrite bind_Ok by (apply update_desc_ok; simpl; apply lookup_insert_eq).
  destruct (i_page_map _ _ _ _ Hi) as [m Hm].
  destruct (dap_rest _ _ _ _ _ Hdap) as (_ & R2 & _). rewrite Hm in R2.
  match goal with |- context [(register_desc _ ≫= _) ?t] =>
    destruct (register_large t m p seg _ (lookup_insert_eq _ _ _) eq_refl eq_refl R2)
      as (m' & Eu & Hm') end.
  { by eapply os_grow_range. }
  { pose proof (dap_some _ _ _ _ _ Hdap) as Hp'.
    by apply (desc_addr_ok _ _ _ (dap_inv _ _ _ _ _ Hdap)). }
  rewrite (bind_Ok _ _ _ _ _ Eu).
  erewrite bind_Ok by (apply read_desc_ok; simpl; apply lookup_insert_eq).
  cbn [super_block set_super_block set_anchor unwrap]. rewrite bind_mret.
  eexists p, s1, free', seg, o', _. split; [reflexivity|]. do 3 (split; [done|]).
  destruct Hg as [[F1 F2 F3 F4 F5] _]. split; try done.
  - intros a Hne. simpl. by rewrite !lookup_insert_ne.
  - eexists. split; [simpl; by rewrite lookup_insert_eq|]. simpl.
    split; [done|]. rewrite u32_small by lia. by rewrite Hl.
  - intros k Hk. erewrite page_entry_set by done.
    rewrite decide_False; [done|]. intros Hin. apply Hk. by apply seg_first_page.
  - erewrite page_entry_set by done. by rewrite decide_True by lia.
Qed.

(** What it means for the client. *)
Lemma large_granted p s1 free' seg o' s' size :
  desc_alloc_post s g.(free_descs) p s1 free' -> os_grow s1.(st_os) seg o' ->
  size <= seg.(seg_len) -> MAX_SZ < seg.(seg_len) < 2 ^ 32 ->
  large_step (set_os o' s1) s' seg p seg.(seg_ptr) ->
  exists g', granted s g s' caches g' seg.(seg_ptr) size /\ g'.(owner) = g.(owner) /\
    exists d, g'.(roles) !! seg.(seg_ptr) = Some (Large d seg.(seg_ptr) seg.(seg_len)).
Proof.
  intros Hdap Hg Hsz Hlen Hstep.
  destruct (inv_desc_alloc _ _ _ _ _ _ Hi Hdap) as (g1 & Hi1 & Hext & Hfree & Hun & _).
  destruct (inv_os_grow _ _ _ _ _ Hi1 Hg) as [Hi1' Hlive1].
  pose proof Hg as [Hfresh Eo].
  destruct (inv_add_large (set_os o' s1) s' caches g1 seg p (seg_ptr seg) Hi1') as [Hinv Hlv]; try done.
  { rewrite Eo. simpl. left. }
  { exact (fresh_no_role _ _ _ _ Hi1 Hfresh). }
  { rewrite Hfree. apply Hdap. }
  { apply Hdap. }
  { destruct Hfresh. lia. }
  pose proof (fresh_no_role _ _ _ _ Hi1 Hfresh) as Hnr.
  exists (add_large g1 seg p (seg_ptr seg)). split; [|split; [apply Hext|]].
  2:{ exists p. simpl. by rewrite lookup_insert_eq. }
  split; [done| | | | |].
  - exists (seg_len seg). split; [lia|]. intros x c. rewrite Hlv, Hlive1.
    rewrite (live_ghost_ext s s1 g g1); [|done|apply Hdap].
    by replace (seg_ptr seg + seg_len seg - seg_ptr seg) with (seg_len seg) by lia.
  - intros cap Hlx. apply (fresh_not_live s1 caches g1 seg (seg_ptr seg) cap); [done|done|destruct Hfresh; lia|].
    apply (live_ghost_ext s s1 g g1); [done|apply Hdap|done].
  - eapply os_frame_kept; [done|]. rewrite (ls_os _ _ _ _ _ Hstep).
    eapply os_frame_trans; [by eapply os_grow_frame_or|]. by eapply os_grow_frame.
  - rewrite (ls_os _ _ _ _ _ Hstep). eapply (reach_trans _ 1 1); [by eapply desc_reach|].
    eapply reach_grow; [done|]. unfold REQUEST_LIMIT. lia.
  - eapply ghost_kept_trans; [by apply ghost_ext_kept|]. split; [|done].
    intros q r R. simpl. rewrite lookup_insert_ne; [done|congruence].
Qed.

Lemma malloc_large_ok size :
  MAX_SZ < size < 2 ^ 32 - PAGE ->
  (exists ptr s' g', malloc_large size s = Ok (ptr, s') /\
     granted s g s' caches g' ptr size /\ g'.(owner) = g.(owner) /\
     exists d, g'.(roles) !! ptr = Some (Large d ptr (page_ceiling size))) \/
  (exists msg, malloc_large size s = Err (Panic msg) /\ refusal REQUEST_LIMIT 1 s.(st_os)).
Proof.
  intros Hsize. change MAX_SZ with 14336 in Hsize. change PAGE with 4096 in Hsize.
  destruct (page_ceiling_rounds size) as [Hpd Hpr]; [lia|change PAGE with 4096; lia|].
  change PAGE with 4096 in Hpr.
  destruct (malloc_large_run size) as
    [(p & s1 & free' & seg & o' & s' & E & Hdap & Hg & Hl & Hstep)|Hr]; [lia| |by right].
  left. destruct (large_granted p s1 free' seg o' s' size) as [g' Hgr]; try done.
  { rewrite Hl. lia. }
  { rewrite Hl. change MAX_SZ with 14336. lia. }
  exists (seg_ptr seg), s', g'. by rewrite <- Hl.
Qed.
End MallocLarge.

(** *** [do_aligned_alloc] of a large size *)
Lemma calls_step s caches g :
  inv s caches g ->
  inv (set_os (mkOs s.(st_os).(mem) s.(st_os).(segs) (S s.(st_os).(calls))) s) caches g.
Proof.
  intros Hi. split; simpl; try apply Hi.
  - destruct (i_os _ _ _ _ Hi) as [H1 H2]. by split.
  - eapply pages_ok_calls; [apply Hi|done|]. simpl. lia.
  - eapply (bins_frame s _ _ g _ Hi); by split.
Qed.

Section AlignedLarge.
Context {s : State} {caches : gmap nat (list ThreadCacheBin)} {g : Ghost}.
Hypothesis Hi : inv s caches g.
Hypothesis Hcalls : Z.of_nat s.(st_os).(calls) + 1 < CALLS_LIMIT.

(** What is asked of the kernel, and the pointer returned. *)
Definition aligned_bytes (align size : Z) : Z :=
  let size := Z.max size (MAX_SZ + 1) in
  page_ceiling (if align >? PAGE then usize (size + align) else size).

Definition aligned_ptr (align p : Z) : Z :=
  if align >? PAGE then align_addr p align else p.

Lemma aligned_large_run align size :
  0 < aligned_bytes align size < 2 ^ 32 ->
  (forall p, (PAGE | p) -> 0 < p -> p + aligned_bytes align size <= ADDR_LIMIT ->
     p <= aligned_ptr align p < p + aligned_bytes align size) ->
  (exists seg o' p s1 free' s', aligned_large align size s = Ok (aligned_ptr align seg.(seg_ptr), s') /\
     os_grow s.(st_os) seg o' /\ seg.(seg_len) = aligned_bytes align size /\
     desc_alloc_post (set_os o' s) g.(free_descs) p s1 free' /\
     large_step s1 s' seg p (aligned_ptr align seg.(seg_ptr))) \/
  (aligned_large align size s =
     Ok (0, set_os (mkOs s.(st_os).(mem) s.(st_os).(segs) (S s.(st_os).(calls))) s) /\
   refusal REQUEST_LIMIT 1 s.(st_os)) \/
  (exists msg, aligned_large align size s = Err (Panic msg) /\ refusal REQUEST_LIMIT 1 s.(st_os)).
Proof.
  intros Hpages Hptr. unfold aligned_large. fold (aligned_bytes align size).
  set (pages := aligned_bytes align size) in *. unfold allocate.
  destruct (map_segment_cases pages false (st_os s)) as [(seg & o' & Em & Hl & Hg)|(e & Em & Hr)].
  2:{ right. left. rewrite (bind_Ok _ _ _ _ _ (zoom_Ok st_os set_os _ s _ _ Em)).
      split; [done|]. eapply refuse_now; [|done]. unfold REQUEST_LIMIT. lia. }
  rewrite (bind_Ok _ _ _ _ _ (zoom_Ok st_os set_os _ s _ _ Em)).
  destruct (inv_os_grow _ _ _ _ _ Hi Hg) as [Hi0 _]. set (s0 := set_os o' s) in *.
  destruct (desc_alloc_ok s0 g.(free_descs) (i_desc _ _ _ _ Hi0) (λ b, inv_desc_home target Hi0 b)
    (i_pages _ _ _ _ Hi0)) as [(p & s1 & free' & Ed & Hdap)|[Hr Ed]].
  { destruct Hg as [_ Eo]. unfold s0. rewrite Eo. simpl. lia. }
  2:{ right. right. eexists. split; [by rewrite (bind_Err _ _ _ _ Ed)|].
      eapply (refuse_later _ 1 0); [|by eapply (refuse_now _ _ _ DESCRIPTOR_BLOCK_SZ)].
      eapply reach_grow; [done|]. rewrite Hl. unfold REQUEST_LIMIT. lia. }
  left. rewrite (bind_Ok _ _ _ _ _ Ed).
  destruct (dap_some _ _ _ _ _ Hdap) as [d Hd].
  rewrite (bind_Ok _ _ _ _ _ (update_desc_ok _ _ _ _ Hd)).
  do 2 erewrite bind_Ok by (apply update_desc_ok; simpl; apply lookup_insert_eq).
  destruct (i_page_map _ _ _ _ Hi) as [m Hm].
  destruct (dap_rest _ _ _ _ _ Hdap) as (_ & R2 & _). simpl in R2. rewrite Hm in R2.
  assert (Hal : desc_aligned p).
  { pose proof (dap_some _ _ _ _ _ Hdap) as Hp'.
    by apply (desc_addr_ok _ _ _ (dap_inv _ _ _ _ _ Hdap)). }
  match goal with |- context [(register_desc _ ≫= _) ?t] =>
    destruct (register_large t m p seg _ (lookup_insert_eq _ _ _) eq_refl eq_refl R2
                (os_grow_range _ _ _ Hg) Hal) as (m' & Eu & Hm') end.
  rewrite (bind_Ok _ _ _ _ _ Eu).
  destruct Hg as [Hfresh Eo]. pose proof Hfresh as [F1 F2 F3 F4 F5].
  pose proof (page_span_ge (seg_len seg)) as Hspan.
  specialize (Hptr (seg_ptr seg) F1 F2 ltac:(lia)).
  unfold aligned_ptr in *. destruct (align >? PAGE).
  - match goal with |- context [(update_page_map _ _ _ _ ≫= _) ?t] =>
      destruct (update_page_map_none t m' (align_addr (seg_ptr seg) align) (Some p)) as (m2 & Eu2 & Hm2)
    end; [done|lia|].
    rewrite (bind_Ok _ _ _ _ _ Eu2).
    destruct (page_info_set_ptr_desc p) as [Ei _]; [destruct Hal; lia|apply Hal|].
    simpl in Hm2. rewrite Ei in Hm2.
    eexists seg, o', p, s1, free', _. split; [reflexivity|]. do 3 (split; [done|]).
    split; try done.
    + intros a Hne. simpl. by rewrite !lookup_insert_ne.
    + eexists. split; [simpl; by rewrite lookup_insert_eq|]. simpl.
      split; [done|]. rewrite u32_small by lia. by rewrite Hl.
    + intros k Hk. erewrite page_entry_set by done.
      rewrite decide_False.
      * erewrite page_entry_set by done. rewrite decide_False; [done|].
        intros Hin. apply Hk. by apply seg_first_page.
      * intros Hin. apply Hk. replace k with (align_addr (seg_ptr seg) align / PAGE) by lia.
        apply seg_page_of; [done|]. lia.
    + erewrite page_entry_set by done. by rewrite decide_True by lia.
  - eexists seg, o', p, s1, free', _. split; [reflexivity|]. do 3 (split; [done|]).
    split; try done.
    + intros a Hne. simpl. by rewrite !lookup_insert_ne.
    + eexists. split; [simpl; by rewrite lookup_insert_eq|]. simpl.
      split; [done|]. rewrite u32_small by lia. by rewrite Hl.
    + intros k Hk. erewrite page_entry_set by done.
      rewrite decide_False; [done|]. intros Hin. apply Hk. by apply seg_first_page.
    + erewrite page_entry_set by done. by rewrite decide_True by lia.
Qed.

Lemma aligned_granted seg o' p s1 free' s' ptr size :
  os_grow s.(st_os) seg o' -> desc_alloc_post (set_os o' s) g.(free_descs) p s1 free' ->
  large_step s1 s' seg p ptr -> MAX_SZ < seg.(seg_len) < 2 ^ 32 -> 0 < size ->
  seg.(seg_ptr) <= ptr -> ptr + size <= seg.(seg_ptr) + seg.(seg_len) ->
  exists g', granted s g s' caches g' ptr size /\ g'.(owner) = g.(owner) /\
    exists d, g'.(roles) !! seg.(seg_ptr) = Some (Large d ptr seg.(seg_len)).
Proof.
  intros Hg Hdap Hstep Hlen Hs Hp1 Hp2. pose proof Hg as [Hfresh Eo].
  destruct (inv_os_grow _ _ _ _ _ Hi Hg) as [Hi0 Hlive0].
  destruct (inv_desc_alloc _ _ _ _ _ _ Hi0 Hdap) as (g1 & Hi1 & Hext & Hfree & Hun & Hnone).
  assert (Hin : seg ∈ segs (st_os (set_os o' s))) by (simpl; rewrite Eo; left).
  destruct (inv_add_large s1 s' caches g1 seg p ptr Hi1) as [Hinv Hlv]; try done.
  { by apply (os_grow_frame_or _ _ _ _ _ Hdap). }
  { apply Hnone; [done|]. exact (fresh_no_role _ _ _ _ Hi Hfresh). }
  { rewrite Hfree. apply Hdap. }
  { apply Hdap. }
  { lia. }
  pose proof (Hnone seg Hin (fresh_no_role _ _ _ _ Hi Hfresh)) as Hnr.
  exists (add_large g1 seg p ptr). split; [|split; [apply Hext|]].
  2:{ exists p. simpl. by rewrite lookup_insert_eq. }
  split; [done| | | | |].
  - exists (seg_ptr seg + seg_len seg - ptr). split; [lia|]. intros x c. rewrite Hlv.
    rewrite (live_ghost_ext (set_os o' s) s1 g g1); [|done|apply Hdap]. by rewrite Hlive0.
  - intros cap. apply (fresh_not_live s caches g seg ptr cap Hi Hfresh). lia.
  - eapply os_frame_kept; [done|]. rewrite (ls_os _ _ _ _ _ Hstep).
    eapply os_frame_trans; [by eapply os_grow_frame|].
    exact (os_grow_frame_or _ _ _ _ _ Hdap).
  - rewrite (ls_os _ _ _ _ _ Hstep). eapply (reach_trans _ 1 1); [|exact (desc_reach _ _ _ _ _ Hdap)].
    eapply reach_grow; [done|]. unfold REQUEST_LIMIT. lia.
  - eapply ghost_kept_trans; [by apply ghost_ext_kept|]. split; [|done].
    intros q r R. simpl. rewrite lookup_insert_ne; [done|congruence].
Qed.

(** The pointer is aligned, and [size] bytes fit behind it. *)
Lemma aligned_ptr_ok k size p :
  0 <= k < 31 -> 0 < size -> Z.max size (MAX_SZ + 1) + 2 ^ k + PAGE < 2 ^ 32 ->
  (PAGE | p) -> 0 < p -> p + aligned_bytes (2 ^ k) size <= ADDR_LIMIT ->
  (2 ^ k | aligned_ptr (2 ^ k) p) /\ p <= aligned_ptr (2 ^ k) p /\
  aligned_ptr (2 ^ k) p + size <= p + aligned_bytes (2 ^ k) size.
Proof.
  intros Hk Hs Hb Hp H0 Hlim. unfold aligned_ptr, aligned_bytes in *.
  change MAX_SZ with 14336 in *. change PAGE with 4096 in *. change ADDR_LIMIT with (2 ^ 48) in *.
  assert (0 < 2 ^ k) by (apply Z.pow_pos_nonneg; lia).
  set (n := Z.max size (14336 + 1)) in *.
  destruct (Z.gtb_spec (2 ^ k) 4096) as [Hgt|Hle].
  - rewrite (usize_small (n + 2 ^ k)) in * by lia.
    destruct (page_ceiling_rounds (n + 2 ^ k)) as [_ Hr]; [lia|change PAGE with 4096; lia|].
    destruct (align_val_spec p k) as [Ha Hr']; [lia|lia|lia|].
    change (align_addr p (2 ^ k)) with (align_val p (2 ^ k)). split; [done|]. lia.
  - destruct (page_ceiling_rounds n) as [_ Hr]; [lia|change PAGE with 4096; lia|].
    split; [|lia]. etrans; [|exact Hp]. change 4096 with (2 ^ 12).
    assert (k <= 12) by (apply (Z.pow_le_mono_r_iff 2); lia).
    exists (2 ^ (12 - k)). rewrite <- Z.pow_add_r by lia. f_equal; lia.
Qed.

Lemma aligned_large_ok k size :
  0 <= k < 31 -> 0 < size -> Z.max size (MAX_SZ + 1) + 2 ^ k + PAGE < 2 ^ 32 ->
  (exists ptr s' g', aligned_large (2 ^ k) size s = Ok (ptr, s') /\ (2 ^ k | ptr) /\
     granted s g s' caches g' ptr size /\ g'.(owner) = g.(owner) /\
     exists q d, aligned_ptr (2 ^ k) q = ptr /\
       g'.(roles) !! q = Some (Large d ptr (aligned_bytes (2 ^ k) size))) \/
  (exists s', aligned_large (2 ^ k) size s = Ok (0, s') /\ inv s' caches g /\
     s'.(st_os).(mem) = s.(st_os).(mem) /\ reach REQUEST_LIMIT 1 s.(st_os) s'.(st_os) /\
     refusal REQUEST_LIMIT 1 s.(st_os)) \/
  (exists msg, aligned_large (2 ^ k) size s = Err (Panic msg) /\ refusal REQUEST_LIMIT 1 s.(st_os)).
Proof.
  intros Hk Hs Hb.
  assert (Hbytes : 14336 < aligned_bytes (2 ^ k) size < 2 ^ 32).
  { unfold aligned_bytes. change MAX_SZ with 14336 in *. change PAGE with 4096 in *.
    assert (0 < 2 ^ k) by (apply Z.pow_pos_nonneg; lia).
    destruct (2 ^ k >? 4096).
    - rewrite usize_small by lia.
      destruct (page_ceiling_rounds (Z.max size (14336 + 1) + 2 ^ k)) as [_ Hr];
        change PAGE with 4096 in *; lia.
    - destruct (page_ceiling_rounds (Z.max size (14336 + 1))) as [_ Hr];
        change PAGE with 4096 in *; lia. }
  destruct (aligned_large_run (2 ^ k) size) as
    [(seg & o' & p & s1 & free' & s' & E & Hg & Hl & Hdap & Hstep)|[[E Hr]|Hr]].
  - lia.
  - intros p Hp H0 Hlim. destruct (aligned_ptr_ok k size p) as (_ & H1 & H2); try done. lia.
  - left. pose proof Hg as [[F1 F2 F3 F4 _] _]. pose proof (page_span_ge (seg_len seg)).
    destruct (aligned_ptr_ok k size (seg_ptr seg)) as (Ha & H1 & H2); try done; [lia|].
    destruct (aligned_granted seg o' p s1 free' s' (aligned_ptr (2 ^ k) (seg_ptr seg)) size)
      as [g' Hgr]; try done.
    { rewrite Hl. change MAX_SZ with 14336. lia. }
    { lia. }
    destruct Hgr as (Hgr & Hown & d & Hd). rewrite Hl in Hd.
    exists (aligned_ptr (2 ^ k) (seg_ptr seg)), s', g'. do 4 (split; [done|]). by exists (seg_ptr seg), d.
  - right. left. eexists. split; [done|]. split; [by apply calls_step|]. split; [done|]. split; [|done].
    eapply reach_other; [| |apply reach_refl]; done.
  - by right; right.
Qed.
End AlignedLarge.

(** *** [do_free] of a large allocation *)
Lemma free_large_ok s caches g q d ptr len :
  inv s caches g -> g.(roles) !! q = Some (Large d ptr len) ->
  exists s', free_large ptr d s = Ok (tt, s') /\
    released s g s' caches (drop_large g q d) ptr.
Proof.
  intros Hi R.
  destruct (i_roles _ _ _ _ Hi _ _ R) as (S & Hp & Hl & (Hnf & de & Hde & Hsb & Hbs) & Hpg).
  destruct (seg_wf _ _ (i_os _ _ _ _ Hi) S) as (W1 & W2 & W3 & W4). simpl in *.
  destruct (i_page_map _ _ _ _ Hi) as [m Hm].
  pose proof (page_span_ge len) as Hspan.
  assert (Hrange : 0 < q < ADDR_LIMIT) by lia.
  unfold free_large. rewrite (bind_Ok _ _ _ _ _ (read_desc_ok _ _ _ Hde)).
  rewrite Hsb. cbn [unwrap]. rewrite bind_mret. unfold unregister_desc. cbn [seg_ptr].
  destruct (update_page_map_none s m q None Hm Hrange) as (m1 & E1 & H1).
  rewrite (bind_Ok _ _ _ _ _ E1).
  assert (exists m2, (if negb (ptr =? q) then update_page_map None q None 0 else mret tt)
      (set_page_map (Some m1) s) = Ok (tt, set_page_map (Some m2) s) /\
    forall k, ~ (q / PAGE <= k < q / PAGE + 1) -> m2 !! k = m !! k) as (m2 & E2 & H2).
  { destruct (negb (ptr =? q)).
    - destruct (update_page_map_none (set_page_map (Some m1) s) m1 q None eq_refl Hrange) as (m2 & E2 & H2).
      exists m2. split; [done|]. intros k Hk. rewrite H2, H1. by rewrite !decide_False.
    - exists m1. split; [done|]. intros k Hk. rewrite H1. by rewrite decide_False. }
  rewrite (bind_Ok _ _ _ _ _ E2).
  erewrite bind_Ok by (apply update_desc_ok; exact Hde).
  erewrite bind_Ok by (apply zoom_Ok, deallocate_live; exact S).
  match goal with |- context [retire d ?t] =>
    destruct (retire_ok t g.(free_descs) d (set_super_block None de))
      as (s' & Er & D1 & D2 & D3 & O1 & O2 & O3 & O4 & O5) end.
  { simpl. destruct (i_desc _ _ _ _ Hi) as [C1 C2 C3]. split; [|done|].
    - eapply desc_chain_frame; [|done]. intros a Ha. apply lookup_insert_ne. intros ->. done.
    - intros a. rewrite lookup_insert_is_Some'. intros [<-|Ha]; [apply C3; by exists de|by apply C3]. }
  { simpl. apply lookup_insert_eq. }
  { done. }
  exists s'. split; [exact Er|]. simpl in *.
  destruct (inv_drop_large s s' caches g q d ptr len Hi R) as [Hinv Hlv].
  { split; try done.
    - intros a Hne. rewrite D2 by done. by rewrite lookup_insert_ne.
    - intros a. rewrite D3, lookup_insert_is_Some'. split; [intros [<-|]; [by exists de|done]|by right].
    - intros k Hk. unfold page_entry. rewrite O3, Hm. apply H2. intros Hin. apply Hk.
      apply seg_first_page; done. }
  split; [done|done| | | |done].
  - intros x cap a Hlx Ha. by rewrite O1.
  - rewrite O1. eapply reach_other; [| |apply reach_refl]; [|done].
    intros seg. simpl. rewrite list_elem_of_filter. by intros [].
  - intros q' r R' Hne. simpl. rewrite lookup_delete_ne; [done|]. intros <-.
    rewrite R in R'. injection R' as <-. by apply (Hne d len).
Qed.

(** *** The client writes to its memory *)
Definition set_mem (m : gmap Z Z) (s : State) : State :=
  set_os (mkOs m s.(st_os).(segs) s.(st_os).(calls)) s.

Lemma live_set_mem m s g x cap : live (set_mem m s) g x cap <-> live s g x cap.
Proof.
  split; (intros [i c H Hc ->|p d len R ->]; [by eapply live_small|by eapply live_large]).
Qed.

(** The blocks in the bins do not overlap live memory. *)
Lemma cached_not_live s caches g b i t x cap :
  inv s caches g -> g.(owner) !! b = Some (i, Some t) -> live s g x cap ->
  disjoint_ranges b 8 x cap.
Proof.
  intros Hi Hb Hl.
  destruct (owner_block target Hi _ _ _ Hb) as (_ & _ & _ & c & _ & Hc & _ & H8 & _).
  destruct Hl as [j cj H Hj ->|p d len R ->].
  - assert (Hne : b <> x) by congruence.
    pose proof (blocks_apart target Hi _ _ _ _ _ _ _ _ Hb H Hne Hc Hj) as Hd.
    unfold disjoint_ranges in *. lia.
  - pose proof (large_apart target Hi _ _ _ _ _ _ _ _ R Hb Hc) as Hd.
    destruct (i_roles _ _ _ _ Hi _ _ R) as (_ & Hp & _).
    pose proof (page_span_ge len). unfold disjoint_ranges in *. lia.
Qed.

Lemma inv_write s caches g x cap m' :
  inv s caches g -> live s g x cap ->
  (forall a, ~ (x <= a < x + cap) -> load8 m' a = load8 s.(st_os).(mem) a) ->
  inv (set_mem m' s) caches g.
Proof.
  intros Hi Hl Hm. pose proof Hi as [I1 I2 I3 I4 I5 I6 I7 I8 I9 I10 I11].
  split; simpl; try done.
  - destruct I1 as [J1 J2]. by split.
  - intros t cs Hcs j Hj. destruct (I11 t cs Hcs j Hj) as (c & Hc & Hb). exists c.
    split; [done|]. eapply bin_ok_frame; [done|done| |done].
    intros b Hob. split; [|by apply (owner_mapped target Hi _ _ _ Hob)].
    pose proof (cached_not_live _ _ _ _ _ _ _ _ Hi Hob Hl) as Hd.
    apply load_ext. intros a Ha. apply Hm. unfold disjoint_ranges in Hd. lia.
Qed.
End Safety.
