(* ===== verification/Fetch.v ===== *)
(** * What the tuner fetches

    A tuner whose bin is empty asks for the number of blocks that it expects to
    need ([fetch] of [src/src/thread_cache.rs]).  On every heap that satisfies
    the invariant, a request that one superblock can meet fills the bin with
    exactly that number of new blocks; a larger one panics. *)
From S2P Require Import Prelude MemInfo SizeClasses Anchor Mem Bin Trace Tuner.
From S2P Require Import SingleAccess Bootstrap HashMap State Pages Descriptor.
From S2P Require Import PageMap Alloc ThreadCache Lib Heap HeapOps LargeOps Safety.

Section Fetch.
Context {KN : Kernel} {HZ : Hash Z} {BR : BitRange} {target : Z}.

Lemma malloc_count_from_partial_empty s i cache bn cnt :
  heaps_empty s -> 0 <= i < MAX_SZ_IDX ->
  malloc_count_from_partial i cache bn cnt s = Ok ((cache, bn), s).
Proof.
  intros Hh Hi. unfold malloc_count_from_partial, heap_pop_partial, list_pop_partial.
  rewrite bind_assoc. by rewrite (bind_Ok _ _ _ _ _ (get_heap_at_ok s i Hh Hi)).
Qed.

(** The first [n] blocks of the new segment are a list that ends there. *)
Lemma sb_post_bin i c n p seg s1 s' :
  class_ok target c -> 8 <= c.(block_size) -> 0 < n <= c.(block_num) ->
  sb_post i c (c.(block_size) * n) n p seg s1 s' ->
  bin_holds s'.(st_os) (mkBin seg.(seg_ptr) n (Some c.(block_size)))
    (sb_blocks seg.(seg_ptr) c.(block_size) n).
Proof.
  intros Hok H8 Hn Hp. destruct (class_sizes target c Hok H8) as [Hmc _].
  pose proof (sbp_len _ _ _ _ _ _ _ _ Hp) as Hl. pose proof (page_span_ge seg.(seg_len)) as Hs.
  destruct (sbp_fresh _ _ _ _ _ _ _ _ Hp) as [F1 F2 F3 F4 F5].
  rewrite (sbp_os _ _ _ _ _ _ _ _ Hp). split; simpl.
  - apply new_sb_chain; [lia|lia|lia|lia|]. intros k Hk.
    rewrite load_store_other by (unfold disjoint_ranges; nia).
    apply load_zero_range_in; nia.
  - by rewrite sb_blocks_length by lia.
  - rewrite sb_blocks_length by lia. lia.
  - rewrite Forall_forall. intros b (k & Hk & ->)%elem_of_sb_blocks.
    apply mapped_true. exists seg. split; [left|]. nia.
Qed.

(** A new superblock changes no byte that was mapped before. *)
Lemma sb_post_frame i c n p seg s1 s' :
  8 <= c.(block_size) -> 0 < n -> sb_post i c (c.(block_size) * n) n p seg s1 s' ->
  os_frame s1.(st_os) s'.(st_os).
Proof.
  intros H8 Hn Hp. pose proof (sbp_fresh _ _ _ _ _ _ _ _ Hp) as Hf.
  pose proof (sbp_len _ _ _ _ _ _ _ _ Hp) as Hl. pose proof (page_span_ge seg.(seg_len)) as Hs.
  rewrite (sbp_os _ _ _ _ _ _ _ _ Hp). split; simpl; [by right|]. intros a Ha.
  assert (Hout : ~ (seg_ptr seg <= a < seg_ptr seg + page_span (seg_len seg))).
  { intros Hin. by rewrite (fresh_not_mapped _ _ _ Hf Hin) in Ha. }
  rewrite load8_store_other by nia. rewrite load8_zero_range. by rewrite decide_False.
Qed.

(** After a fetch the heap is ready for another superblock. *)
Lemma sb_post_again s caches g i c len n p seg s1 s' free' :
  heap_inv target s caches g -> desc_alloc_post s g.(free_descs) p s1 free' ->
  sb_post i c len n p seg s1 s' ->
  desc_inv s'.(st_descs) s'.(st_avail) free' /\
  (forall b, is_Some (s'.(st_descs) !! b) -> desc_home s'.(st_os).(segs) b) /\
  pages_ok s' /\ heaps_empty s' /\ is_Some s'.(st_page_map) /\ s'.(st_sizes) = s.(st_sizes) /\
  (s'.(st_os).(calls) <= S (S s.(st_os).(calls)))%nat.
Proof.
  intros Hi Hd Hp. destruct (inv_desc_alloc _ _ _ _ _ _ Hi Hd) as (g1 & Hi1 & _ & Hf & _).
  destruct (sbp_rest _ _ _ _ _ _ _ _ Hp) as (R1 & R2 & R3 & R4).
  destruct (dap_rest _ _ _ _ _ Hd) as (Q1 & _ & Q3).
  assert (Hdom : forall a, is_Some (s'.(st_descs) !! a) -> is_Some (s1.(st_descs) !! a)).
  { intros a Ha. destruct (decide (a = p)) as [->|Hne]; [apply Hd|].
    by rewrite <- (sbp_frame _ _ _ _ _ _ _ _ Hp a Hne). }
  split; [|split; [|split; [|split; [|split; [|split]]]]].
  - destruct (dap_inv _ _ _ _ _ Hd) as [I1 I2 I3]. rewrite R3. split; [|done|by auto].
    eapply desc_chain_frame; [|exact I1]. intros a Ha. apply (sbp_frame _ _ _ _ _ _ _ _ Hp).
    intros ->. by apply (dap_not_free _ _ _ _ _ Hd).
  - intros b (sg & Hsg & Hb)%Hdom%(inv_desc_home target Hi1). exists sg. split; [|done].
    rewrite (sbp_os _ _ _ _ _ _ _ _ Hp). by right.
  - eapply pages_ok_calls; [apply Hd|done|]. rewrite (sbp_os _ _ _ _ _ _ _ _ Hp). simpl. lia.
  - unfold heaps_empty. rewrite R2. apply Hi1.
  - destruct (sbp_page_map _ _ _ _ _ _ _ _ Hp) as (m & m' & _ & -> & _). by eexists.
  - by rewrite R1.
  - rewrite (sbp_os _ _ _ _ _ _ _ _ Hp). simpl.
    destruct (dap_os _ _ _ _ _ Hd) as [[-> _]|(sg & [_ ->] & _)]; simpl; lia.
Qed.

(** One turn of the loop of [fetch]. *)
Lemma fetch_turn s free i c cache bn cnt :
  desc_inv s.(st_descs) s.(st_avail) free ->
  (forall b, is_Some (s.(st_descs) !! b) -> desc_home s.(st_os).(segs) b) ->
  pages_ok s -> Z.of_nat s.(st_os).(calls) < CALLS_LIMIT ->
  heaps_empty s -> is_Some s.(st_page_map) -> 0 <= i < MAX_SZ_IDX ->
  size_class_at s.(st_sizes) i = Ok c -> class_ok target c -> 8 <= c.(block_size) ->
  0 < cnt -> 0 <= cache.(bin_block_num) -> 0 <= bn < 2 ^ 32 ->
  let n := Z.min c.(block_num) cnt in
  (exists p seg s1 s' free', cache.(bin_block_num) = 0 /\
     malloc_count_from_new_sb i cache bn cnt s =
       Ok ((mkBin seg.(seg_ptr) n cache.(bin_block_size), bn + c.(block_num)), s') /\
     desc_alloc_post s free p s1 free' /\ sb_post i c (c.(block_size) * n) n p seg s1 s') \/
  (exists msg, malloc_count_from_new_sb i cache bn cnt s = Err (Panic msg) /\
     (0 < cache.(bin_block_num) \/ refused s.(st_os) DESCRIPTOR_BLOCK_SZ false \/
      exists p s1 free', desc_alloc_post s free p s1 free' /\
        refused s1.(st_os) (c.(block_size) * n) false)).
Proof.
  intros Hdi Hh Hp Hc Hhe Hm Hi Hcl Hok H8 Hcnt Hcb Hbn n. rewrite malloc_count_from_new_sb_take.
  destruct (class_sizes target c Hok H8) as [Hmc Hsz].
  assert (El : usize (block_size c * Z.min (get_block_num c) cnt) = block_size c * n).
  { unfold get_block_num. apply usize_small. unfold n. nia. }
  destruct (take_new_sb_ok target s free i c
      (λ sc, usize (block_size sc * Z.min (get_block_num sc) cnt))
      (λ sc, Z.min (get_block_num sc) cnt) cache bn)
    as [(p & seg & s1 & s' & free' & H)|(msg & E & H)]; try done.
  { unfold get_block_num. lia. }
  { rewrite El. unfold n, get_block_num. lia. }
  - left. exists p, seg, s1, s', free'. cbv beta in H. rewrite El in H. exact H.
  - right. exists msg. split; [exact E|]. cbv beta in H. by rewrite El in H.
Qed.

Lemma fetch_ok s caches g i c cl cnt :
  heap_inv target s caches g -> 1 <= i < MAX_SZ_IDX -> size_class_at s.(st_sizes) i = Ok cl ->
  c.(bin_block_num) = 0 -> 0 < cnt -> Z.of_nat s.(st_os).(calls) + 2 < CALLS_LIMIT ->
  (exists p seg s1 s' free', cnt <= cl.(block_num) /\
     fetch i cnt c s = Ok (mkBin seg.(seg_ptr) cnt c.(bin_block_size), s') /\
     desc_alloc_post s g.(free_descs) p s1 free' /\
     sb_post i cl (cl.(block_size) * cnt) cnt p seg s1 s') \/
  (exists msg, fetch i cnt c s = Err (Panic msg) /\ (cl.(block_num) < cnt \/ refusal REQUEST_LIMIT 1 s.(st_os))).
Proof.
  intros Hi Hidx Hcl Hn Hcnt Hcalls. pose proof Hi as [_ _ Hhe Hp Hm Hd _ _ _ _ _].
  assert (Hidx' : 0 <= i < MAX_SZ_IDX) by lia.
  destruct (class_of_index target Hi i Hidx) as (c0 & C & Hok & H8 & _).
  rewrite Hcl in C. injection C as <-. destruct (class_sizes target cl Hok H8) as [Hmc Hsz].
  unfold fetch. rewrite (bind_Ok _ _ _ _ _ (malloc_count_from_partial_empty s i c 0 cnt Hhe Hidx')).
  cbv beta iota. destruct (Z.to_nat cnt) as [|fuel] eqn:Ef; [lia|]. cbn [fetch_loop].
  rewrite (proj2 (Z.ltb_lt 0 cnt)) by lia.
  destruct (fetch_turn s g.(free_descs) i cl c 0 cnt Hd (λ b, inv_desc_home target Hi b) Hp
    ltac:(lia) Hhe Hm Hidx' Hcl Hok H8 Hcnt ltac:(lia) ltac:(lia))
    as [(p & seg & s1 & s' & free' & _ & E & Hdap & Hsb)|(msg & E & Hr)].
  2: { right. exists msg. rewrite (bind_Err _ _ _ _ E). split; [done|right].
       destruct Hr as [Hr|[Hr|(p & s1 & free' & Hdap & Hr)]]; [lia| |].
       - by eapply (refuse_now _ _ _ DESCRIPTOR_BLOCK_SZ).
       - eapply desc_refusal; [done| |done]. unfold REQUEST_LIMIT. nia. }
  rewrite (bind_Ok _ _ _ _ _ E). cbv beta iota.
  destruct (sb_post_again _ _ _ _ _ _ _ _ _ _ _ _ Hi Hdap Hsb) as (A1 & A2 & A3 & A4 & A5 & A6 & A7).
  destruct (Z.ltb_spec (0 + block_num cl) cnt) as [Hlt|Hge].
  - right. destruct fuel as [|fuel]; [lia|]. cbn [fetch_loop]. rewrite (proj2 (Z.ltb_lt _ cnt)) by lia.
    rewrite <- A6 in Hcl. rewrite Z.min_l in * by lia.
    destruct (fetch_turn s' free' i cl (mkBin seg.(seg_ptr) cl.(block_num) c.(bin_block_size))
      (0 + block_num cl) cnt A1 A2 A3 ltac:(lia) A4 A5 Hidx' Hcl Hok H8 Hcnt ltac:(simpl; lia) ltac:(lia))
      as [(? & ? & ? & ? & ? & Hz & _)|(msg & E' & _)]; [simpl in Hz; lia|].
    exists msg. split; [by rewrite (bind_Err _ _ _ _ E')|by left].
  - left. rewrite Z.min_r in * by lia. exists p, seg, s1, s', free'. split; [lia|].
    split; [|by split]. destruct fuel; cbn [fetch_loop]; by rewrite (proj2 (Z.ltb_ge _ cnt)) by lia.
Qed.
End Fetch.
