(* ===== verification/Calls.v ===== *)
(** * The calls of one thread

    What [do_malloc], [do_aligned_alloc], [do_realloc] and [do_free] do in a
    thread whose tuners are not consulted. *)
From S2P Require Import Prelude MemInfo SizeClasses Anchor Mem Bin Trace Tuner.
From S2P Require Import SingleAccess Bootstrap HashMap State Pages Descriptor.
From S2P Require Import PageMap Alloc ThreadCache Lib Heap HeapOps LargeOps Safety.

(** ** The calls of one thread

    [caches] are the caches of all the threads; thread [t] runs, with its
    thread-local variables in [w].  The tuners are not consulted: the library
    is built without them ([USE_APF] is "false"), or the thread has created its
    tuners and is inside [no_tuning]. *)
Definition untuned (use_apf : bool) (l : Tls) : Prop :=
  l.(panicking) = false /\ (use_apf = false \/ (l.(skip) = true /\ 0 < l.(skip_tuners))).

Section Calls.
Context {KN : Kernel} {HZ : Hash Z} {BR : BitRange} {AC : ApfConfig} {LC : LibConfig}.
Context {E : ApfEnv World} {target : Z}.
  Abbreviation inv := (heap_inv target).

Record running (w : World) (caches : gmap nat (list ThreadCacheBin)) (g : Ghost) (t : nat) : Prop := {
  run_inv : inv w.(w_state) caches g;
  run_cache : caches !! t = Some w.(w_tls).(thread_cache);
  run_untuned : untuned w.(w_use_apf) w.(w_tls);
  run_init : w.(w_malloc_init).(skip_flag) = true;
  run_boot : w.(w_use_bootstrap) = false;
}.

(** The same, whatever the tuners do. *)
Record stable (w : World) (caches : gmap nat (list ThreadCacheBin)) (g : Ghost) (t : nat) : Prop := {
  stb_inv : inv w.(w_state) caches g;
  stb_cache : caches !! t = Some w.(w_tls).(thread_cache);
  stb_panicking : w.(w_tls).(panicking) = false;
  stb_init : w.(w_malloc_init).(skip_flag) = true;
  stb_boot : w.(w_use_bootstrap) = false;
}.

Lemma running_stable w caches g t : running w caches g t -> stable w caches g t.
Proof. by intros [? ? [? _] ? ?]. Qed.

(** The world after a call of such a thread: its state and its cache. *)
Definition world_after (w : World) (s : State) (cs : list ThreadCacheBin) : World :=
  set_tls (set_cache cs w.(w_tls)) (set_state_w s w).

Lemma granted_after s g s1 g1 s2 caches g2 ptr size :
  granted (target := target) s1 g1 s2 caches g2 ptr size ->
  (forall x c, live s1 g1 x c <-> live s g x c) -> contents_kept s g s1 ->
  s2.(st_os) = s1.(st_os) -> reach REQUEST_LIMIT 2 s.(st_os) s1.(st_os) ->
  ghost_kept g g1 ->
  granted (target := target) s g s2 caches g2 ptr size.
Proof.
  intros [G1 (cap & Hcap & G2) G3 G4 _ G6] Hl Hk Eo Hr Hro. split; [done| | | |by rewrite Eo|by eapply ghost_kept_trans].
  - exists cap. split; [done|]. intros x c. by rewrite G2, Hl.
  - intros c H. apply (G3 c). by apply Hl.
  - intros x c a H Ha. rewrite (G4 x c a); [by apply (Hk x c a)|by apply Hl|done].
Qed.

(** A bin that is not empty gives its top block. *)
Lemma pop_granted s caches g t i cs c cl :
  inv s caches g -> caches !! t = Some cs -> 1 <= i < MAX_SZ_IDX ->
  cs !! Z.to_nat i = Some c -> c.(bin_block_num) <> 0 ->
  size_class_at s.(st_sizes) i = Ok cl ->
  exists b c' g', pop_block c s.(st_os) = Ok ((b, c'), s.(st_os)) /\
    granted (target := target) s g s (<[t := <[Z.to_nat i := c']> cs]> caches) g' b cl.(block_size) /\
    (exists p, (PAGE | p) /\ b ∈ sb_blocks p cl.(block_size) cl.(block_num)).
Proof.
  intros Hi Hcs Hidx Hc Hn Hcl.
  destruct (inv_pop s caches g t i cs c cl Hi Hcs Hidx Hc Hn Hcl) as (b & c' & Hp & Hb & Hi' & Hl).
  exists b, c', (set_owner g b i None). split; [done|]. split.
  - split; [done| | |done|apply reach_refl|].
    3:{ split; [done|]. intros x j Hx. simpl. rewrite lookup_insert_ne; [done|congruence]. }
    + exists (block_size cl). split; [lia|done].
    + intros cap [j cj H Hj ->|p d len R ->]; [congruence|exact (owner_not_large _ _ _ _ _ _ _ _ _ Hi Hb R)].
  - destruct (owner_block target Hi _ _ _ Hb) as (_ & p & d & c0 & _ & C & _ & _ & _ & S & B & _).
    rewrite Hcl in C. injection C as <-. exists p. split; [|done].
    by apply (seg_wf _ _ (i_os _ _ _ _ Hi) S).
Qed.

Lemma new_sb_reach i c p seg s1 s' :
  new_sb_post i c p seg s1 s' -> c.(sb_size) <= REQUEST_LIMIT -> reach REQUEST_LIMIT 1 s1.(st_os) s'.(st_os).
Proof.
  intros Hp Hc. rewrite (nsb_os _ _ _ _ _ _ Hp).
  eapply reach_map; [apply Hp|by rewrite (nsb_len _ _ _ _ _ _ Hp)| | |apply reach_refl]; done.
Qed.

(** An empty bin is filled from a new superblock. *)
Lemma fill_ok s caches g t i cs c cl :
  inv s caches g -> caches !! t = Some cs -> 1 <= i < MAX_SZ_IDX ->
  cs !! Z.to_nat i = Some c -> c.(bin_block_num) = 0 ->
  size_class_at s.(st_sizes) i = Ok cl -> Z.of_nat s.(st_os).(calls) < CALLS_LIMIT ->
  (exists c' s' g', fill_cache i c s = Ok (c', s') /\ c'.(bin_block_num) <> 0 /\
     inv s' (<[t := <[Z.to_nat i := c']> cs]> caches) g' /\
     (forall x cap, live s' g' x cap <-> live s g x cap) /\ contents_kept s g s' /\
     s'.(st_sizes) = s.(st_sizes) /\ reach REQUEST_LIMIT 2 s.(st_os) s'.(st_os) /\ ghost_kept g g' /\
     exists sb, bin_holds s'.(st_os) c' (sb_blocks sb cl.(block_size) cl.(block_num)) /\
       forall b a, b ∈ sb_blocks sb cl.(block_size) cl.(block_num) -> b <= a < b + cl.(block_size) ->
         mapped s.(st_os).(segs) a 1 = false) \/
  (exists msg, fill_cache i c s = Err (Panic msg) /\ refusal REQUEST_LIMIT 1 s.(st_os)).
Proof.
  intros Hi Hcs Hidx Hc Hn Hcl Hcalls.
  destruct (class_of_index target Hi i Hidx) as (c0 & C & Hok & H8 & _).
  rewrite Hcl in C. injection C as <-.
  destruct (class_sizes target cl Hok H8) as [Hbn _].
  destruct (fill_cache_ok target s g.(free_descs) i cl c (i_desc _ _ _ _ Hi)
    (λ b, inv_desc_home target Hi b) (i_pages _ _ _ _ Hi) Hcalls (i_heaps _ _ _ _ Hi)
    (i_page_map _ _ _ _ Hi)) as [(p & seg & s1 & s' & free' & Ef & Hd & Hp)|(msg & Ef & Hr)];
    try done; try (change MAX_SZ_IDX with 40 in *; lia).
  - left. eexists _, s'. destruct (inv_desc_alloc _ _ _ _ _ _ Hi Hd) as (g1 & Hi1 & Hext & Hf & Hun & _).
    destruct (dap_rest _ _ _ _ _ Hd) as (R1 & _).
    destruct (i_bins _ _ _ _ Hi t cs Hcs i Hidx) as (c1 & Hc1 & l & Hh & _ & Hl & _).
    rewrite Hc in Hc1. injection Hc1 as <-.
    assert (l = []) as -> by (destruct Hh as [_ Hcnt _ _]; destruct l; [done|simpl in *; lia]).
    destruct (inv_new_sb (t := t) Hi1 Hp Hidx) with (cs := cs) as (Hi' & Hlv & Hro); try done.
    { by rewrite R1. }
    { rewrite Hf. apply Hd. }
    { apply Hd. }
    { intros b. rewrite (ge_owner _ _ Hext). intros Hb. apply Hl in Hb. by apply elem_of_nil in Hb. }
    { by eapply lookup_lt_Some. }
    { eapply pages_ok_calls; [apply Hd|apply Hp|]. rewrite (nsb_os _ _ _ _ _ _ Hp). simpl. lia. }
    eexists. split; [exact Ef|]. split; [simpl; lia|]. split; [exact Hi'|]. split_and!.
    + intros x cap. rewrite Hlv. by apply live_ghost_ext.
    + eapply os_frame_kept; [done|]. eapply os_frame_trans; [exact (os_grow_frame_or _ _ _ _ _ Hd)|].
      eapply nsb_frame_os; try done. by rewrite R1.
    + destruct (nsb_rest _ _ _ _ _ _ Hp) as (-> & _). done.
    + eapply (reach_trans _ 1 1); [exact (desc_reach _ _ _ _ _ Hd)|]. eapply new_sb_reach; [done|].
      destruct Hok. unfold REQUEST_LIMIT. lia.
    + eapply ghost_kept_trans; [by apply ghost_ext_kept|exact Hro].
    + exists seg.(seg_ptr). split; [eapply (nsb_bin_holds Hi1 Hp Hidx); try done; by rewrite ?R1|].
      intros b a Hb Ha. apply not_true_is_false. intros Hm.
      apply (mapped_mono _ s1.(st_os).(segs)) in Hm; [|apply (os_grow_frame_or _ _ _ _ _ Hd)].
      rewrite (nsb_block_fresh Hi1 Hp Hidx) with (b := b) in Hm; try done; by rewrite ?R1.
  - right. exists msg. split; [done|]. destruct Hr as [Hr|(p & s1 & free' & Hd & Hr)].
    + by eapply (refuse_now _ _ _ DESCRIPTOR_BLOCK_SZ).
    + eapply desc_refusal; [done| |done]. destruct Hok. unfold REQUEST_LIMIT. lia.
Qed.

(** *** [allocate_to_cache] *)
Lemma world_after_twice w s cs s' cs' :
  world_after (world_after w s cs) s' cs' = world_after w s' cs'.
Proof. done. Qed.

Lemma get_bin_ok w i c :
  0 <= i -> w.(w_tls).(thread_cache) !! Z.to_nat i = Some c -> get_bin i w = Ok (c, w).
Proof.
  intros Hi Hc. unfold get_bin. rewrite bind_gets. rewrite (proj2 (Z.leb_le 0 i)) by done.
  by rewrite Hc.
Qed.

Lemma put_bin_after w s cs i c :
  put_bin i c (world_after w s cs) = Ok (tt, world_after w s (<[Z.to_nat i := c]> cs)).
Proof. done. Qed.

Lemma set_state_after w s : set_state_w s w = world_after w s w.(w_tls).(thread_cache).
Proof. by destruct w as [s0 [] f a b r]. Qed.

Lemma heap_Ok {A} (c : M State A) w a s' :
  c w.(w_state) = Ok (a, s') -> heap c w = Ok (a, world_after w s' w.(w_tls).(thread_cache)).
Proof. rewrite <- set_state_after. apply zoom_Ok. Qed.

Lemma heap_Err {A} (c : M State A) w e : c w.(w_state) = Err e -> heap c w = Err e.
Proof. apply zoom_Err. Qed.

Lemma world_after_id w : world_after w w.(w_state) w.(w_tls).(thread_cache) = w.
Proof. by destruct w as [s [] f a b r]. Qed.

(** The block is popped, and then the tuners are told. *)
Lemma pop_to_client w s cs i c b c' :
  pop_block c s.(st_os) = Ok ((b, c'), s.(st_os)) ->
  ('(ptr, cache) ← os (pop_block c);
   put_bin i cache;;
   record_malloc i ptr;;
   mret ptr) (world_after w s cs) =
  (record_malloc i b;; mret b) (world_after w s (<[Z.to_nat i := c']> cs)).
Proof.
  intros Hp.
  assert (Ep : os (pop_block c) (world_after w s cs) = Ok ((b, c'), world_after w s cs)).
  { unfold os, heap, with_os, zoom. simpl. rewrite Hp. by destruct s. }
  rewrite (bind_Ok _ _ _ _ _ Ep). cbv beta iota.
  by rewrite (bind_Ok _ _ _ _ _ (put_bin_after _ _ _ _ _)).
Qed.

Lemma allocate_to_cache_pops w caches g t i cl size :
  stable w caches g t -> 1 <= i < MAX_SZ_IDX ->
  size_class_at w.(w_state).(st_sizes) i = Ok cl ->
  Z.of_nat w.(w_state).(st_os).(calls) < CALLS_LIMIT ->
  (exists ptr s' cs' g', allocate_to_cache size i w = (record_malloc i ptr;; mret ptr) (world_after w s' cs') /\
     granted (target := target) w.(w_state) g s' (<[t := cs']> caches) g' ptr cl.(block_size) /\
     (exists p, (PAGE | p) /\ ptr ∈ sb_blocks p cl.(block_size) cl.(block_num)) /\
     (forall j, j <> Z.to_nat i -> cs' !! j = w.(w_tls).(thread_cache) !! j)) \/
  (exists msg, allocate_to_cache size i w = Err (Panic msg) /\ refusal REQUEST_LIMIT 1 w.(w_state).(st_os)).
Proof.
  intros [Hi Hcs Hpa _ Hb] Hidx Hcl Hcalls. unfold allocate_to_cache. rewrite bind_get.
  rewrite Hpa, Hb. cbn [orb].
  destruct (i_bins _ _ _ _ Hi t _ Hcs i Hidx) as (c & Hc & _).
  rewrite (bind_Ok _ _ _ _ _ (get_bin_ok w i c ltac:(lia) Hc)).
  unfold bin_get_block_num. destruct (Z.eqb_spec c.(bin_block_num) 0) as [Hn|Hn].
  - destruct (fill_ok w.(w_state) caches g t i _ c cl Hi Hcs Hidx Hc Hn Hcl Hcalls)
      as [(c1 & s1 & g1 & Ef & Hn1 & Hi1 & Hl1 & Hk1 & Hsz & Hrc & Hro & _)|(msg & Ef & Hr)].
    2:{ right. exists msg. split; [|done]. rewrite bind_assoc.
        by rewrite (bind_Err _ _ _ _ (heap_Err _ _ _ Ef)). }
    left. rewrite bind_assoc. rewrite (bind_Ok _ _ _ _ _ (heap_Ok _ _ _ _ Ef)).
    rewrite bind_assoc.
    rewrite (bind_Ok _ _ _ _ _ (put_bin_after _ _ _ _ _)).
    destruct (Z.eqb_spec c1.(bin_block_num) 0); [done|]. rewrite bind_mret.
    set (cs1 := <[Z.to_nat i := c1]> _) in *.
    destruct (pop_granted s1 (<[t := cs1]> caches) g1 t i cs1 c1 cl Hi1) as (b & c2 & g2 & Hp & Hg & Hp').
    { apply lookup_insert_eq. } { done. }
    { apply list_lookup_insert_eq. by eapply lookup_lt_Some. } { done. } { by rewrite Hsz. }
    rewrite (pop_to_client w s1 cs1 i c1 b c2 Hp).
    rewrite insert_insert_eq in Hg.
    eexists b, s1, _, g2. split; [done|]. split; [by eapply granted_after|]. split; [done|].
    intros j Hj. unfold cs1. by rewrite !list_lookup_insert_ne.
  - left. rewrite bind_mret.
    destruct (pop_granted w.(w_state) caches g t i _ c cl Hi Hcs Hidx Hc Hn Hcl)
      as (b & c2 & g2 & Hp & Hg & Hp').
    pose proof (pop_to_client w _ w.(w_tls).(thread_cache) i c b c2 Hp) as Ec. rewrite world_after_id in Ec.
    rewrite Ec.
    eexists b, _, _, g2. do 3 (split; [done|]). intros j Hj. by rewrite list_lookup_insert_ne.
Qed.

(** No tuner is told when the tuners are not consulted. *)
Lemma record_malloc_untuned w i ptr :
  untuned w.(w_use_apf) w.(w_tls) -> record_malloc i ptr w = Ok (tt, w).
Proof.
  intros [_ Hu]. unfold record_malloc. rewrite bind_get.
  destruct (w_use_apf w); [|done]. destruct Hu as [|[-> Hst]]; [done|].
  rewrite bind_mret, bind_gets. destruct (Z.eqb_spec (skip_tuners (w_tls w)) 0); [lia|]. done.
Qed.

Lemma record_free_untuned w i ptr :
  untuned w.(w_use_apf) w.(w_tls) -> record_free i ptr w = Ok (tt, w).
Proof.
  intros [_ Hu]. unfold record_free. rewrite bind_get.
  destruct (w_use_apf w); [|done]. destruct Hu as [|[_ Hst]]; [done|].
  destruct (Z.eqb_spec (skip_tuners (w_tls w)) 0); [lia|]. by rewrite andb_false_r.
Qed.

Lemma allocate_to_cache_ok w caches g t i cl size :
  running w caches g t -> 1 <= i < MAX_SZ_IDX ->
  size_class_at w.(w_state).(st_sizes) i = Ok cl ->
  Z.of_nat w.(w_state).(st_os).(calls) < CALLS_LIMIT ->
  (exists ptr s' cs' g', allocate_to_cache size i w = Ok (ptr, world_after w s' cs') /\
     granted (target := target) w.(w_state) g s' (<[t := cs']> caches) g' ptr cl.(block_size) /\
     (exists p, (PAGE | p) /\ ptr ∈ sb_blocks p cl.(block_size) cl.(block_num)) /\
     (forall j, j <> Z.to_nat i -> cs' !! j = w.(w_tls).(thread_cache) !! j)) \/
  (exists msg, allocate_to_cache size i w = Err (Panic msg) /\ refusal REQUEST_LIMIT 1 w.(w_state).(st_os)).
Proof.
  intros Hrun Hidx Hcl Hcalls.
  destruct (allocate_to_cache_pops w caches g t i cl size (running_stable _ _ _ _ Hrun) Hidx Hcl Hcalls)
    as [(ptr & s' & cs' & g' & -> & H)|H]; [left|by right]. exists ptr, s', cs', g'. split; [|exact H].
  by rewrite (bind_Ok _ _ _ _ _ (record_malloc_untuned (world_after w s' cs') i ptr (run_untuned _ _ _ _ Hrun))).
Qed.

(** *** [do_malloc] *)
Lemma malloc_init_done w : w.(w_malloc_init).(skip_flag) = true -> malloc_init w = Ok (tt, w).
Proof. intros H. unfold malloc_init. by rewrite bind_gets, H. Qed.

Lemma size_class_of_ok w size :
  heap (size_class_of size) w = Ok (get_size_class w.(w_state).(st_sizes) size, w).
Proof. unfold heap, zoom, size_class_of. by destruct w. Qed.

(** The refusals of the kernel: a panic with a reason. *)
Definition out_of_memory {A} (w : World) (r : result (A * World)) : Prop :=
  exists msg, r = Err (Panic msg) /\ refusal REQUEST_LIMIT 1 w.(w_state).(st_os).

Lemma block_aligned k p bs n b :
  0 <= k <= 12 -> (PAGE | p) -> (2 ^ k | bs) -> b ∈ sb_blocks p bs n -> (2 ^ k | b).
Proof.
  intros Hk Hp Hbs (i & _ & ->)%elem_of_sb_blocks. apply Z.divide_add_r.
  - etrans; [|exact Hp]. change PAGE with (2 ^ 12). exists (2 ^ (12 - k)).
    rewrite <- Z.pow_add_r by lia. f_equal; lia.
  - by apply Z.divide_mul_r.
Qed.

(** The alignment of a pointer for [size] bytes. *)
Definition malloc_aligned (size ptr : Z) : Prop := (8 | ptr) /\ (56 < size -> (16 | ptr)).

Lemma small_blocks_aligned bs : bs ∈ small_blocks -> (8 | bs) /\ (56 < bs -> (16 | bs)).
Proof.
  assert (H : forallb (λ b, (b mod 8 =? 0) && ((b <=? 56) || (b mod 16 =? 0))) small_blocks = true)
    by (by vm_compute).
  intros Hin%list_elem_of_In. apply (proj1 (forallb_forall _ _) H), andb_prop in Hin as [H1 H2].
  apply orb_prop in H2. split; [apply Z.mod_divide; lia|intros H3; apply Z.mod_divide; lia].
Qed.

Lemma block_malloc_aligned p cl size ptr :
  (PAGE | p) -> cl.(block_size) ∈ small_blocks -> size <= cl.(block_size) ->
  ptr ∈ sb_blocks p cl.(block_size) cl.(block_num) -> malloc_aligned size ptr.
Proof.
  intros Hp Hbs Hs Hptr. destruct (small_blocks_aligned _ Hbs) as [H8 H16].
  split; [by apply (block_aligned 3 p cl.(block_size) cl.(block_num))|].
  intros Hsz. apply (block_aligned 4 p cl.(block_size) cl.(block_num)); [lia|done|apply H16; lia|done].
Qed.

Lemma page_malloc_aligned size ptr : (PAGE | ptr) -> malloc_aligned size ptr.
Proof.
  intros H. split; [|intros _]; (etrans; [|exact H]); change PAGE with 4096; [by exists 512|by exists 256].
Qed.

(** The call returns [ptr], with [size] bytes for the client. *)
Definition grants (w : World) (caches : gmap nat (list ThreadCacheBin)) (g : Ghost) (t : nat)
    (size : Z) (r : result (Z * World)) : Prop :=
  exists ptr s' cs' g', r = Ok (ptr, world_after w s' cs') /\
    granted (target := target) w.(w_state) g s' (<[t := cs']> caches) g' ptr size /\
    malloc_aligned size ptr /\
    forall j, j <> Z.to_nat (get_size_class w.(w_state).(st_sizes) size) ->
      cs' !! j = w.(w_tls).(thread_cache) !! j.

Lemma granted_weaken s g s' caches g' ptr size size' :
  granted (target := target) s g s' caches g' ptr size -> size' <= size ->
  granted (target := target) s g s' caches g' ptr size'.
Proof. intros [G1 (cap & Hc & G2) G3 G4 G5 G6] H. split; try done. exists cap. split; [lia|done]. Qed.

Lemma do_malloc_big w caches g t size :
  stable w caches g t -> MAX_SZ < size < 2 ^ 32 - PAGE ->
  Z.of_nat w.(w_state).(st_os).(calls) < CALLS_LIMIT ->
  (exists ptr s' g', do_malloc size w = Ok (ptr, world_after w s' w.(w_tls).(thread_cache)) /\
     granted (target := target) w.(w_state) g s' caches g' ptr size /\ g'.(owner) = g.(owner) /\
     exists d, g'.(roles) !! ptr = Some (Large d ptr (page_ceiling size))) \/
  out_of_memory w (do_malloc size w).
Proof.
  intros [Hi Hcs _ Hin _] Hs Hcalls. unfold do_malloc.
  rewrite (bind_Ok _ _ _ _ _ (malloc_init_done w Hin)).
  destruct (Z.gtb_spec size MAX_SZ) as [_|]; [|lia].
  destruct (malloc_large_ok Hi Hcalls size) as [(ptr & s' & g' & Em & Hg)|(msg & Em & Hr)]; [lia| |].
  - left. exists ptr, s', g'. split; [by apply heap_Ok|done].
  - right. exists msg. split; [by apply heap_Err|done].
Qed.

Lemma do_malloc_small w caches g t size :
  stable w caches g t -> 0 <= size <= MAX_SZ ->
  Z.of_nat w.(w_state).(st_os).(calls) < CALLS_LIMIT ->
  let i := get_size_class w.(w_state).(st_sizes) size in
  (exists ptr s' cs' g', do_malloc size w = (record_malloc i ptr;; mret ptr) (world_after w s' cs') /\
     granted (target := target) w.(w_state) g s' (<[t := cs']> caches) g' ptr size /\
     malloc_aligned size ptr /\
     forall j, j <> Z.to_nat i -> cs' !! j = w.(w_tls).(thread_cache) !! j) \/
  out_of_memory w (do_malloc size w).
Proof.
  intros Hst Hs Hcalls i. pose proof Hst as [Hi Hcs _ Hin _]. unfold do_malloc.
  rewrite (bind_Ok _ _ _ _ _ (malloc_init_done w Hin)).
  destruct (Z.gtb_spec size MAX_SZ) as [|_]; [lia|].
  rewrite (bind_Ok _ _ _ _ _ (size_class_of_ok w size)). pose proof (i_sizes _ _ _ _ Hi) as SI.
  destruct (get_size_class_fits (st := w.(w_state).(st_sizes)) size) as (cl & Hcl & _ & Hfit); [lia|].
  pose proof (get_size_class_bounds (st := w.(w_state).(st_sizes)) size ltac:(lia)) as Hidx.
  destruct (allocate_to_cache_pops w caches g t _ cl size Hst Hidx Hcl Hcalls)
    as [(ptr & s' & cs' & g' & Ea & Hg & (p & Hp & Hptr) & Hother)|Hr]; [|by right].
  left. exists ptr, s', cs', g'. split; [done|]. split; [by eapply granted_weaken|]. split; [|done].
  destruct (si_class (st := w.(w_state).(st_sizes)) _ Hidx) as (cl' & Hcl' & _ & Hbs).
  rewrite Hcl in Hcl'. injection Hcl' as <-.
  eapply block_malloc_aligned; [done|by eapply list_elem_of_lookup_2|exact Hfit|done].
Qed.

Lemma do_malloc_ok w caches g t size :
  running w caches g t -> 0 <= size < 2 ^ 32 - PAGE ->
  Z.of_nat w.(w_state).(st_os).(calls) < CALLS_LIMIT ->
  grants w caches g t size (do_malloc size w) \/ out_of_memory w (do_malloc size w).
Proof.
  intros Hrun Hs Hcalls. pose proof (running_stable _ _ _ _ Hrun) as Hst.
  destruct (Z.lt_ge_cases MAX_SZ size) as [Hbig|Hsmall].
  - destruct (do_malloc_big _ _ _ _ size Hst ltac:(lia) Hcalls) as [(ptr & s' & g' & E1 & Hg & _ & d & R)|H];
      [left|by right].
    exists ptr, s', w.(w_tls).(thread_cache), g'. rewrite (insert_id caches t) by apply Hst.
    do 2 (split; [done|]). split; [|done]. apply page_malloc_aligned.
    pose proof (gr_inv _ _ _ _ _ _ _ Hg) as Hi'. destruct (i_roles _ _ _ _ Hi' _ _ R) as (Hseg & _).
    apply (seg_wf _ _ (i_os _ _ _ _ Hi') Hseg).
  - destruct (do_malloc_small _ _ _ _ size Hst ltac:(lia) Hcalls) as [(ptr & s' & cs' & g' & E1 & H)|H];
      [left|by right].
    exists ptr, s', cs', g'. split; [|exact H]. rewrite E1.
    by rewrite (bind_Ok _ _ _ _ _ (record_malloc_untuned (world_after w s' cs') _ ptr (run_untuned _ _ _ _ Hrun))).
Qed.

(** *** [do_aligned_alloc] *)
Lemma do_aligned_big w caches g t k size :
  stable w caches g t -> 0 <= k <= 30 -> 0 <= size <= 2 ^ 30 -> PAGE < align_size size (2 ^ k) ->
  Z.of_nat w.(w_state).(st_os).(calls) + 1 < CALLS_LIMIT ->
  (exists ptr s' g', do_aligned_alloc (2 ^ k) size w = Ok (ptr, world_after w s' w.(w_tls).(thread_cache)) /\
     (2 ^ k | ptr) /\ granted (target := target) w.(w_state) g s' caches g' ptr size /\
     g'.(owner) = g.(owner) /\
     exists q d, aligned_ptr (2 ^ k) q = ptr /\
       g'.(roles) !! q = Some (Large d ptr (aligned_bytes (2 ^ k) (align_size size (2 ^ k))))) \/
  (exists s', do_aligned_alloc (2 ^ k) size w = Ok (0, world_after w s' w.(w_tls).(thread_cache)) /\
     inv s' caches g /\ s'.(st_os).(mem) = w.(w_state).(st_os).(mem) /\
     reach REQUEST_LIMIT 1 w.(w_state).(st_os) s'.(st_os) /\ refusal REQUEST_LIMIT 1 w.(w_state).(st_os)) \/
  out_of_memory w (do_aligned_alloc (2 ^ k) size w).
Proof.
  intros [Hi Hcs _ Hin _] Hk Hs Hbig Hcalls. unfold do_aligned_alloc.
  assert (Hp : 0 < 2 ^ k <= 2 ^ 30).
  { split; [apply Z.pow_pos_nonneg; lia|apply Z.pow_le_mono_r; lia]. }
  rewrite is_power_of_two_eq by lia. destruct (Z.eqb_spec (2 ^ k) 0) as [|_]; [lia|]. cbn [negb].
  rewrite (bind_Ok _ _ _ _ _ (malloc_init_done w Hin)).
  destruct (align_size_spec size k) as (Hd & Hge & Hpk & Hlt); [lia..|].
  set (n := align_size size (2 ^ k)) in *. destruct (Z.gtb_spec n PAGE) as [_|]; [|lia].
  destruct (aligned_large_ok Hi Hcalls k n)
    as [(ptr & s' & g' & Em & Ha & Hg & Ho & Hr)|[(s' & Em & Hi' & Hm & Hr)|(msg & Em & Hr)]].
  { lia. } { lia. } { change MAX_SZ with 14336. change PAGE with 4096. lia. }
  - left. exists ptr, s', g'. split; [by apply heap_Ok|]. split; [done|].
    split; [by eapply granted_weaken|done].
  - right. left. exists s'. split; [|done]. by apply heap_Ok.
  - right. right. exists msg. split; [|done]. by apply heap_Err.
Qed.

Lemma do_aligned_small w caches g t k size :
  stable w caches g t -> 0 <= k <= 30 -> 0 <= size <= 2 ^ 30 -> align_size size (2 ^ k) <= PAGE ->
  Z.of_nat w.(w_state).(st_os).(calls) < CALLS_LIMIT ->
  let i := get_size_class w.(w_state).(st_sizes) (align_size size (2 ^ k)) in
  (exists ptr s' cs' g',
     do_aligned_alloc (2 ^ k) size w = (record_malloc i ptr;; mret ptr) (world_after w s' cs') /\
     (2 ^ k | ptr) /\ 1 <= i < MAX_SZ_IDX /\
     granted (target := target) w.(w_state) g s' (<[t := cs']> caches) g' ptr size) \/
  out_of_memory w (do_aligned_alloc (2 ^ k) size w).
Proof.
  intros Hst Hk Hs Hsmall Hcalls i. pose proof Hst as [Hi Hcs _ Hin _]. unfold do_aligned_alloc.
  assert (Hp : 0 < 2 ^ k <= 2 ^ 30).
  { split; [apply Z.pow_pos_nonneg; lia|apply Z.pow_le_mono_r; lia]. }
  rewrite is_power_of_two_eq by lia. destruct (Z.eqb_spec (2 ^ k) 0) as [|_]; [lia|]. cbn [negb].
  rewrite (bind_Ok _ _ _ _ _ (malloc_init_done w Hin)).
  destruct (align_size_spec size k) as (Hd & Hge & Hpk & Hlt); [lia..|].
  set (n := align_size size (2 ^ k)) in *. destruct (Z.gtb_spec n PAGE) as [|_]; [lia|].
  rewrite (bind_Ok _ _ _ _ _ (size_class_of_ok w n)).
  pose proof (i_sizes _ _ _ _ Hi) as SI. assert (HM : 0 <= n <= MAX_SZ).
  { change MAX_SZ with 14336. change PAGE with 4096 in Hsmall. lia. }
  destruct (get_size_class_fits (st := w.(w_state).(st_sizes)) n HM) as (cl & Hcl & _ & Hfit).
  assert (Hk12 : k <= 12).
  { apply (Z.pow_le_mono_r_iff 2); [lia..|]. change (2 ^ 12) with PAGE. lia. }
  pose proof (get_size_class_bounds (st := w.(w_state).(st_sizes)) n HM) as Hidx.
  destruct (allocate_to_cache_pops w caches g t _ cl n Hst Hidx Hcl Hcalls)
    as [(ptr & s' & cs' & g' & Ea & Hg & (p & Hpp & Hin') & _)|Hr]; [|by right].
  left. exists ptr, s', cs', g'. split; [done|]. split; [|split; [done|eapply granted_weaken; [done|lia]]].
  eapply (block_aligned k); [lia|exact Hpp| |exact Hin'].
  eapply aligned_fit; [|split; [lia|]|exact Hd|exact Hcl]; lia.
Qed.

Lemma do_aligned_alloc_ok w caches g t k size :
  running w caches g t -> 0 <= k <= 30 -> 0 <= size <= 2 ^ 30 ->
  Z.of_nat w.(w_state).(st_os).(calls) + 1 < CALLS_LIMIT ->
  (exists ptr s' cs' g', do_aligned_alloc (2 ^ k) size w = Ok (ptr, world_after w s' cs') /\
     (2 ^ k | ptr) /\
     granted (target := target) w.(w_state) g s' (<[t := cs']> caches) g' ptr size) \/
  (exists s', do_aligned_alloc (2 ^ k) size w = Ok (0, world_after w s' w.(w_tls).(thread_cache)) /\
     inv s' caches g /\ s'.(st_os).(mem) = w.(w_state).(st_os).(mem) /\
     refusal REQUEST_LIMIT 1 w.(w_state).(st_os)) \/
  out_of_memory w (do_aligned_alloc (2 ^ k) size w).
Proof.
  intros Hrun Hk Hs Hcalls. pose proof (running_stable _ _ _ _ Hrun) as Hst.
  destruct (Z.lt_ge_cases PAGE (align_size size (2 ^ k))) as [Hbig|Hsmall].
  - destruct (do_aligned_big _ _ _ _ k size Hst Hk Hs Hbig Hcalls)
      as [(ptr & s' & g' & E1 & Ha & Hg & _)|[(s' & E1 & H1 & H2 & _ & H3)|H]];
      [left|right; left; by exists s'|by right; right].
    exists ptr, s', w.(w_tls).(thread_cache), g'. rewrite (insert_id caches t) by apply Hst. done.
  - destruct (do_aligned_small _ _ _ _ k size Hst Hk Hs Hsmall ltac:(lia))
      as [(ptr & s' & cs' & g' & E1 & Ha & _ & Hg)|H]; [left|by right; right].
    exists ptr, s', cs', g'. split; [|done]. rewrite E1.
    by rewrite (bind_Ok _ _ _ _ _ (record_malloc_untuned (world_after w s' cs') _ ptr (run_untuned _ _ _ _ Hrun))).
Qed.

(** *** [do_free]

    The page map leads from a live pointer to its descriptor. *)
Lemma page_info_of_live w caches g b cap :
  inv w.(w_state) caches g -> live w.(w_state) g b cap ->
  exists d de, heap (get_page_info_for_ptr b) w = Ok (d, w) /\
    page_info_get_desc d = Some d /\ w.(w_state).(st_descs) !! d = Some de /\
    page_entry w.(w_state) (b / PAGE) = Some d.
Proof.
  intros Hi Hl. destruct (page_of_live target Hi b cap Hl) as (d & de & bs & seg & Hp & H0 & H64 & Hd & _).
  destruct (live_mapped target Hi b cap Hl) as (Hb & Hlim & Hc & _).
  destruct (i_page_map _ _ _ _ Hi) as [m Hm]. unfold page_entry in *. rewrite Hm in *.
  exists d, de. split; [|split; [|done]].
  - assert (Eg : get_page_info_for_ptr b w.(w_state) = Ok (d, w.(w_state))).
    { rewrite (get_page_info_ok _ m) by (done || lia). by rewrite Hp. }
    rewrite (heap_Ok _ _ _ _ Eg). by rewrite world_after_id.
  - by apply page_info_set_ptr_desc.
Qed.

Lemma size_class_index_ok w d de :
  page_info_get_desc d = Some d -> w.(w_state).(st_descs) !! d = Some de ->
  heap (page_info_size_class_index d) w =
    Ok (Some (if de.(d_block_size) >? MAX_SZ then 0
              else get_size_class w.(w_state).(st_sizes) de.(d_block_size)), w).
Proof.
  intros Hd Hde. unfold heap, zoom, page_info_size_class_index. rewrite Hd.
  rewrite (bind_Ok _ _ _ _ _ (read_desc_ok _ _ _ Hde)).
  destruct (_ >? _); by destruct w.
Qed.

Lemma heap_state {A} (c : M State A) w a :
  heap c w = Ok (a, w) -> c w.(w_state) = Ok (a, w.(w_state)).
Proof.
  unfold heap, zoom. destruct (c (w_state w)) as [[x s0]|]; [|done].
  intros Eq. injection Eq as -> Ew. apply (f_equal w_state) in Ew. simpl in Ew. by subst s0.
Qed.

(** The page map leads from a block to a descriptor with its block size. *)
Lemma block_desc w caches g ptr i o c d de :
  inv w.(w_state) caches g -> g.(owner) !! ptr = Some (i, o) ->
  size_class_at w.(w_state).(st_sizes) i = Ok c ->
  page_entry w.(w_state) (ptr / PAGE) = Some d -> w.(w_state).(st_descs) !! d = Some de ->
  de.(d_block_size) = c.(block_size) /\ c.(block_size) <= MAX_SZ /\
  get_size_class w.(w_state).(st_sizes) c.(block_size) = i /\ 1 <= i.
Proof.
  intros Hi Ho Hc Hpg Hde. destruct (owner_block target Hi _ _ _ Ho) as
    (Hidx & p & d' & c' & R & C & Hok & H8 & Hown & S & _ & B1 & B2).
  rewrite Hc in C. injection C as <-.
  destruct (i_roles _ _ _ _ Hi _ _ R) as (_ & c2 & C2 & S2 & (_ & de' & Hde' & _ & Hbs) & Hpages).
  rewrite Hc in C2. injection C2 as <-.
  destruct (seg_wf _ _ (i_os _ _ _ _ Hi) S) as (_ & W2 & _).
  rewrite (Hpages (ptr / PAGE)) in Hpg by (apply seg_page_of; [done|simpl; lia]).
  injection Hpg as ->. rewrite Hde in Hde'. injection Hde' as <-.
  destruct Hok. split; [done|]. split; [lia|]. split; [done|lia].
Qed.

(** The bin of class [i] takes one more block without being flushed. *)
Definition bin_room (w : World) (i : Z) : Prop :=
  forall c cl, w.(w_tls).(thread_cache) !! Z.to_nat i = Some c ->
    size_class_at w.(w_state).(st_sizes) i = Ok cl ->
    c.(bin_block_num) < if w.(w_use_apf) then 2 ^ 32 - 2 else cl.(cache_block_num).

Lemma push_to_cache_ok w caches g t i cl ptr :
  stable w caches g t -> bin_room w i ->
  g.(owner) !! ptr = Some (i, None) -> size_class_at w.(w_state).(st_sizes) i = Ok cl ->
  exists s' cs' g', push_to_cache ptr i w = Ok (tt, world_after w s' cs') /\
    released (target := target) w.(w_state) g s' (<[t := cs']> caches) g' ptr.
Proof.
  intros [Hi Hcs _ _ Hb] Hroom Ho Hcl.
  destruct (owner_block target Hi _ _ _ Ho) as (Hidx & _ & _ & c0 & _ & C & Hok & H8 & _).
  rewrite Hcl in C. injection C as <-.
  destruct (class_sizes target cl Hok H8) as [Hbn _].
  destruct (i_bins _ _ _ _ Hi t _ Hcs i Hidx) as (c & Hc & _).
  specialize (Hroom c cl Hc Hcl).
  destruct (inv_push w.(w_state) caches g t i _ c cl ptr Hi Hcs Hidx Hc) as
    (c' & m' & Hpush & Hi' & Hm & Hl); [|done|done|].
  { destruct Hok. destruct (w_use_apf w); [done|].
    change MAX_SZ with 14336 in *. nia. }
  eexists _, (<[Z.to_nat i := c']> w.(w_tls).(thread_cache)), _. split.
  - unfold push_to_cache. rewrite bind_get. rewrite (bind_Ok _ _ _ _ _ (get_bin_ok w i c ltac:(lia) Hc)).
    assert (Ef : (if w_use_apf w then mret c else
      sc ← heap (size_class i);
      if cache_block_num sc <=? bin_get_block_num c then
        c ← heap (flush_cache i c); put_bin i c;; mret c
      else mret c) w = Ok (c, w)).
    { destruct (w_use_apf w); [done|].
      assert (Es : size_class i w.(w_state) = Ok (cl, w.(w_state))) by (unfold size_class; by rewrite Hcl).
      rewrite (bind_Ok _ _ _ _ _ (heap_Ok _ _ _ _ Es)), world_after_id.
      unfold bin_get_block_num. destruct (Z.leb_spec (cache_block_num cl) (bin_block_num c)); [lia|done]. }
    rewrite (bind_Ok _ _ _ _ _ Ef).
    assert (Ep : with_os (push_block c ptr) w.(w_state) =
      Ok (c', set_os (mkOs m' (segs (st_os (w_state w))) (calls (st_os (w_state w)))) (w_state w))).
    { unfold with_os. by apply zoom_Ok. }
    rewrite (bind_Ok _ _ _ _ _ (heap_Ok _ _ _ _ Ep)). apply put_bin_after.
  - split; [exact Hi'|exact Hl| |by apply reach_same|done|].
    2:{ intros b j Hb' Hne. simpl. by rewrite lookup_insert_ne by done. }
    intros x cap a Hlx Ha. simpl. apply Hm. intros Hin.
    apply Hl in Hlx as [Hlx Hne].
    assert (Hlp : live w.(w_state) g ptr cl.(block_size)) by (by eapply live_small).
    pose proof (live_apart target Hi _ _ _ _ Hlx Hlp Hne) as Hd.
    unfold disjoint_ranges in Hd. lia.
Qed.

(** [do_free] of a live pointer takes one of two ways. *)
Lemma do_free_small w caches g ptr i cl :
  inv w.(w_state) caches g -> g.(owner) !! ptr = Some (i, None) ->
  size_class_at w.(w_state).(st_sizes) i = Ok cl -> do_free ptr w = free_to_cache ptr i w.
Proof.
  intros Hi Ho Hc. assert (Hl : live w.(w_state) g ptr cl.(block_size)) by (by eapply live_small).
  destruct (page_info_of_live w caches g ptr _ Hi Hl) as (d & de & Eg & Ed & Hde & Hpg).
  destruct (live_mapped target Hi ptr _ Hl) as (H0 & _).
  unfold do_free. destruct (Z.eqb_spec ptr 0); [lia|].
  rewrite (bind_Ok _ _ _ _ _ Eg), Ed.
  rewrite (bind_Ok _ _ _ _ _ (size_class_index_ok w d de Ed Hde)).
  destruct (block_desc w caches g ptr i _ cl d de Hi Ho Hc Hpg Hde) as (-> & Hmax & Hown & Hidx).
  destruct (Z.gtb_spec (block_size cl) MAX_SZ); [lia|]. rewrite Hown.
  by destruct (Z.eqb_spec i 0); [lia|].
Qed.

Lemma do_free_large w caches g p d ptr len :
  inv w.(w_state) caches g -> g.(roles) !! p = Some (Large d ptr len) ->
  exists s', do_free ptr w = Ok (tt, world_after w s' w.(w_tls).(thread_cache)) /\
    released (target := target) w.(w_state) g s' caches (drop_large g p d) ptr.
Proof.
  intros Hi R. assert (Hl : live w.(w_state) g ptr (p + len - ptr)) by (by eapply live_large).
  destruct (page_info_of_live w caches g ptr _ Hi Hl) as (d' & de & Eg & Ed & Hde & Hpg).
  destruct (live_mapped target Hi ptr _ Hl) as (H0 & _).
  unfold do_free. destruct (Z.eqb_spec ptr 0); [lia|].
  rewrite (bind_Ok _ _ _ _ _ Eg), Ed.
  rewrite (bind_Ok _ _ _ _ _ (size_class_index_ok w d' de Ed Hde)).
  destruct (i_roles _ _ _ _ Hi _ _ R) as (S & Hp & Hlen & (_ & de' & Hde' & _ & Hbs) & Hpg').
  rewrite Hpg in Hpg'. injection Hpg' as <-. rewrite Hde in Hde'. injection Hde' as <-.
  rewrite Hbs. destruct (Z.gtb_spec len MAX_SZ); [|lia]. cbn [Z.eqb].
  destruct (free_large_ok w.(w_state) caches g p d' ptr len Hi R) as (s' & Ef & Hrel).
  exists s'. split; [|done]. by apply heap_Ok.
Qed.

Lemma do_free_ok w caches g t ptr cap :
  running w caches g t -> live w.(w_state) g ptr cap ->
  (forall i, g.(owner) !! ptr = Some (i, None) -> bin_room w i) ->
  exists s' cs' g', do_free ptr w = Ok (tt, world_after w s' cs') /\
    released (target := target) w.(w_state) g s' (<[t := cs']> caches) g' ptr.
Proof.
  intros Hrun Hl Hroom. pose proof Hrun as [Hi Hcs Hu _ Hb]. destruct Hl as [i c Ho Hc ->|p d len R ->].
  - rewrite (do_free_small _ _ _ _ _ _ Hi Ho Hc). unfold free_to_cache.
    rewrite (bind_Ok _ _ _ _ _ (record_free_untuned w i ptr Hu)).
    eapply push_to_cache_ok; [by apply running_stable|by apply Hroom|done|done].
  - destruct (do_free_large _ _ _ _ _ _ _ Hi R) as (s' & E1 & Hrel).
    exists s', w.(w_tls).(thread_cache), (drop_large g p d). by rewrite (insert_id caches t) by done.
Qed.

(** *** [do_realloc] *)
Lemma same_sizes s caches g s' caches' g' :
  inv s caches g -> inv s' caches' g' -> s'.(st_sizes) = s.(st_sizes).
Proof.
  intros H H'. destruct (i_sizes _ _ _ _ H) as [_ E1], (i_sizes _ _ _ _ H') as [_ E2]. congruence.
Qed.

(** [ptr] is live with the capacity that [get_allocation_size] reports. *)
Definition sized (w : World) (g : Ghost) (ptr cap : Z) : Prop :=
  live w.(w_state) g ptr cap /\ get_allocation_size ptr w.(w_state) = Ok (Some cap, w.(w_state)).

Record moved (s : State) (g : Ghost) (s' : State) (caches' : gmap nat (list ThreadCacheBin))
    (g' : Ghost) (ptr cap ret size : Z) : Prop := {
  mv_inv : inv s' caches' g';
  mv_live : exists cap', size <= cap' /\ forall x c,
    live s' g' x c <-> (live s g x c /\ x <> ptr) \/ (x = ret /\ c = cap');
  mv_new : forall c, ~ live s g ret c;
  mv_copied : forall a, 0 <= a < cap ->
    load8 s'.(st_os).(mem) (ret + a) = load8 s.(st_os).(mem) (ptr + a) mod 256;
  mv_kept : forall x c a, live s g x c -> x <> ptr -> x <= a < x + c ->
    load8 s'.(st_os).(mem) a = load8 s.(st_os).(mem) a;
  mv_reach : reach REQUEST_LIMIT 3 s.(st_os) s'.(st_os);
  mv_grows : cap <= size;
  mv_apart : disjoint_ranges ret size ptr cap;
}.

(** A live allocation is copied into another one. *)
Lemma copy_live s caches g ptr cap ret c :
  inv s caches g -> live s g ptr cap -> live s g ret c -> 0 < cap <= c ->
  let m2 := copy (Z.to_nat cap) s.(st_os).(mem) s.(st_os).(mem) ret ptr in
  memcpy ret ptr cap s.(st_os) = Ok (tt, (set_mem m2 s).(st_os)) /\
  inv (set_mem m2 s) caches g /\
  forall a, load8 m2 a =
    if decide (ret <= a < ret + cap) then load8 s.(st_os).(mem) (ptr + (a - ret)) mod 256
    else load8 s.(st_os).(mem) a.
Proof.
  intros Hi Hold Hret Hcap m2.
  destruct (live_mapped target Hi _ _ Hret) as (_ & _ & _ & Mr).
  destruct (live_mapped target Hi _ _ Hold) as (_ & _ & _ & Mo).
  assert (Hm2 : forall a, load8 m2 a =
    if decide (ret <= a < ret + cap) then load8 s.(st_os).(mem) (ptr + (a - ret)) mod 256
    else load8 s.(st_os).(mem) a).
  { intros a. unfold m2. rewrite load8_copy. by rewrite Z2Nat.id by lia. }
  split; [|split; [|done]].
  - unfold memcpy. destruct (Z.leb_spec cap 0); [lia|].
    assert (mapped (segs (st_os s)) ret cap = true) as ->.
    { apply mapped_true in Mr as (seg & Hs & H1 & H2). apply mapped_true. exists seg. split; [done|]. lia. }
    by rewrite Mo.
  - eapply inv_write; [done|exact Hret|]. intros a Ha. by rewrite Hm2, decide_False by lia.
Qed.

(** Copying the old contents into the new memory. *)
Lemma copy_into_new s g s1 caches1 g1 ptr cap ret size :
  inv s1 caches1 g1 -> granted (target := target) s g s1 caches1 g1 ret size ->
  live s g ptr cap -> 0 < cap <= size ->
  let m2 := copy (Z.to_nat cap) s1.(st_os).(mem) s1.(st_os).(mem) ret ptr in
  memcpy ret ptr cap s1.(st_os) = Ok (tt, (set_mem m2 s1).(st_os)) /\
  inv (set_mem m2 s1) caches1 g1 /\
  (forall a, 0 <= a < cap -> load8 m2 (ret + a) = load8 s.(st_os).(mem) (ptr + a) mod 256) /\
  (forall x c a, live s g x c -> x <= a < x + c -> load8 m2 a = load8 s.(st_os).(mem) a).
Proof.
  intros Hi1 [_ (cap1 & Hc1 & Hlv) Hnew Hkept _ _] Hl Hcap m2.
  assert (Hret : live s1 g1 ret cap1) by (apply Hlv; by right).
  assert (Hold : live s1 g1 ptr cap) by (apply Hlv; by left).
  destruct (copy_live s1 caches1 g1 ptr cap ret cap1 Hi1 Hold Hret ltac:(lia)) as (Em & Hi2 & Hm2).
  fold m2 in Em, Hi2, Hm2. do 2 (split; [done|]). split.
  - intros a Ha. rewrite Hm2, decide_True by lia.
    replace (ptr + (ret + a - ret)) with (ptr + a) by lia. f_equal. apply (Hkept ptr cap); [done|lia].
  - intros x c a Hx Ha. rewrite Hm2. rewrite decide_False; [by apply (Hkept x c)|].
    intros Hin. assert (Hx1 : live s1 g1 x c) by (apply Hlv; by left).
    assert (Hne : x <> ret) by (intros ->; by apply (Hnew c)).
    pose proof (live_apart target Hi1 _ _ _ _ Hx1 Hret Hne) as Hd. unfold disjoint_ranges in Hd. lia.
Qed.

Lemma running_after w caches g t s' cs' g' :
  running w caches g t -> inv s' (<[t := cs']> caches) g' ->
  running (world_after w s' cs') (<[t := cs']> caches) g' t.
Proof. intros [_ _ Hu Hin Hb] Hi. split; try done. apply lookup_insert_eq. Qed.

(** The class of a small live pointer is that of its capacity. *)
Lemma live_class s caches g ptr cap i :
  inv s caches g -> live s g ptr cap -> g.(owner) !! ptr = Some (i, None) ->
  cap <= MAX_SZ /\ get_size_class s.(st_sizes) cap = i /\
  exists c, size_class_at s.(st_sizes) i = Ok c /\ cap = c.(block_size).
Proof.
  intros Hi [j c Ho Hc ->|p d len R ->] H.
  - rewrite Ho in H. injection H as ->.
    destruct (owner_block target Hi _ _ _ Ho) as (_ & _ & _ & c' & _ & C & Hok & _ & Hg & _).
    rewrite Hc in C. injection C as <-. destruct Hok. split; [lia|]. split; [done|]. by exists c.
  - by destruct (owner_not_large _ _ _ _ _ _ _ _ _ Hi H R).
Qed.

(** A large pointer whose size is reported right has a large capacity. *)
Lemma sized_large w caches g ptr cap :
  inv w.(w_state) caches g -> sized w g ptr cap ->
  (forall i, g.(owner) !! ptr <> Some (i, None)) -> MAX_SZ < cap.
Proof.
  intros Hi [Hl Hsz] Hno.
  destruct (page_info_of_live w caches g ptr _ Hi Hl) as (d & de & Eg & Ed & Hde & Hpg).
  destruct Hl as [i c Ho _ _|p d' len R ->]; [by destruct (Hno i)|].
  destruct (i_roles _ _ _ _ Hi _ _ R) as (_ & _ & Hlen & (_ & de' & Hde' & _ & Hbs) & Hpg').
  rewrite Hpg in Hpg'. injection Hpg' as <-. rewrite Hde in Hde'. injection Hde' as <-.
  unfold get_allocation_size in Hsz. rewrite (bind_Ok _ _ _ _ _ (heap_state _ _ _ Eg)), Ed in Hsz.
  rewrite (bind_Ok _ _ _ _ _ (read_desc_ok _ _ _ Hde)) in Hsz. injection Hsz as Hcap. lia.
Qed.

(** The part of [do_realloc] that moves. *)
Definition realloc_by_copy (ptr cap size : Z) : M World Z :=
  ret ← do_malloc size;
  (if negb (ret =? 0) && negb (ret =? ptr) then os (memcpy ret ptr cap) else mret tt);;
  do_free ptr;;
  mret ret.

Lemma realloc_move w caches g t ptr cap size :
  running w caches g t -> live w.(w_state) g ptr cap -> 0 <= size < 2 ^ 32 - PAGE -> cap <= size ->
  Z.of_nat w.(w_state).(st_os).(calls) < CALLS_LIMIT ->
  (cap <= MAX_SZ -> bin_room w (get_size_class w.(w_state).(st_sizes) cap) /\
     get_size_class w.(w_state).(st_sizes) size <> get_size_class w.(w_state).(st_sizes) cap) ->
  let r := realloc_by_copy ptr cap size w in
  (exists ret s' cs' g', r = Ok (ret, world_after w s' cs') /\
     moved w.(w_state) g s' (<[t := cs']> caches) g' ptr cap ret size) \/
  out_of_memory w r.
Proof.
  intros Hrun Hl Hs Hle Hcalls Hroom r. pose proof Hrun as [Hi Hcs Hu Hin Hb].
  destruct (live_mapped target Hi _ _ Hl) as (Hp0 & _ & Hc0 & _).
  destruct (do_malloc_ok w caches g t size Hrun Hs Hcalls)
    as [(ret & s1 & cs1 & g1 & Em & Hg & _ & Hother)|(msg & Em & Hr)].
  2:{ right. exists msg. split; [|done]. unfold r, realloc_by_copy. by rewrite (bind_Err _ _ _ _ Em). }
  left. unfold r, realloc_by_copy. rewrite (bind_Ok _ _ _ _ _ Em). clear r Em.
  pose proof (gr_inv _ _ _ _ _ _ _ Hg) as Hi1. pose proof (same_sizes _ _ _ _ _ _ Hi Hi1) as Esz.
  destruct (copy_into_new _ _ _ _ _ ptr cap ret size Hi1 Hg Hl) as (Ecp & Hi2 & Hcp & Hk2); [lia|].
  set (m2 := copy _ _ _ _ _) in *. destruct Hg as [_ (cap1 & Hc1 & Hlv) Hnew _ Hreach Hro1].
  assert (Hret : live s1 g1 ret cap1) by (apply Hlv; by right).
  assert (Hold : live s1 g1 ptr cap) by (apply Hlv; by left).
  destruct (live_mapped target Hi1 _ _ Hret) as (Hr0 & _).
  destruct (Z.eqb_spec ret 0); [lia|].
  destruct (Z.eqb_spec ret ptr) as [->|Hne]; [by destruct (Hnew cap)|]. cbn [negb andb].
  assert (Eo : os (memcpy ret ptr cap) (world_after w s1 cs1) = Ok (tt, world_after w (set_mem m2 s1) cs1)).
  { unfold os, heap, with_os, zoom. simpl. by rewrite Ecp. }
  rewrite (bind_Ok _ _ _ _ _ Eo).
  pose proof (running_after _ _ _ _ _ _ _ Hrun Hi2) as Hrun2.
  destruct (do_free_ok _ _ _ _ ptr cap Hrun2) as (s3 & cs3 & g3 & Ef & [R1 R2 R3 R4 R5 _]).
  { by apply live_set_mem. }
  { intros i Ho. destruct (live_class _ _ _ _ _ _ Hi1 Hold Ho) as (Hcm & Hcl & _).
    destruct (Hroom Hcm) as [Hrm Hncl]. rewrite Esz in Hcl. rewrite Hcl in Hrm, Hncl.
    intros c cl Hcc Hccl. simpl in *. rewrite Esz in Hccl. apply (Hrm c cl); [|done].
    rewrite <- Hother; [done|]. intros E0. apply Hncl.
    pose proof (i_sizes _ _ _ _ Hi) as SI.
    pose proof (get_size_class_bounds (st := w.(w_state).(st_sizes)) cap ltac:(lia)) as Hb1.
    unfold get_size_class in *. destruct (size >? MAX_SZ); lia. }
  rewrite (bind_Ok _ _ _ _ _ Ef). exists ret, s3, cs3, g3.
  rewrite insert_insert_eq in R1. rewrite world_after_twice. split; [done|]. split.
  - done.
  - exists cap1. split; [done|]. intros x c. rewrite R2. simpl. rewrite live_set_mem, Hlv.
    naive_solver.
  - done.
  - intros a Ha. rewrite <- Hcp by done. apply (R3 ret cap1); [|lia].
    apply R2. split; [by apply live_set_mem|done].
  - intros x c a Hx Hxp Ha. rewrite <- (Hk2 x c a Hx Ha). apply (R3 x c); [|done].
    apply R2. split; [|done]. apply live_set_mem, Hlv. by left.
  - eapply (reach_trans _ 2 1); [exact Hreach|]. by eapply reach_from_same; [..|exact R4].
  - done.
  - pose proof (live_apart target Hi1 _ _ _ _ Hret Hold Hne) as Hd. unfold disjoint_ranges in *. lia.
Qed.

Lemma get_allocation_size_state ptr s n s' :
  get_allocation_size ptr s = Ok (n, s') -> s' = s.
Proof.
  unfold get_allocation_size, get_page_info_for_ptr, get_page_info. rewrite bind_assoc, bind_gets.
  destruct (st_page_map s) as [m|]; [|done]. cbn [unwrap]. rewrite bind_assoc, !bind_mret.
  destruct (page_info_get_desc _) as [d|]; [|intros Eq; by injection Eq].
  unfold mbind, M_bind, read_desc. destruct (st_descs s !! d); [|done]. intros Eq. by injection Eq.
Qed.

Lemma get_allocation_size_heap w ptr cap :
  get_allocation_size ptr w.(w_state) = Ok (Some cap, w.(w_state)) ->
  heap (get_allocation_size ptr) w = Ok (Some cap, w).
Proof. intros H. rewrite (heap_Ok _ _ _ _ H). by rewrite world_after_id. Qed.

(** The pointer is kept when the new size has its class (a small block) or is
    smaller (a large one), and else copied. *)
Definition realloc_stays (w : World) (cap size : Z) : bool :=
  (get_size_class w.(w_state).(st_sizes) size =? get_size_class w.(w_state).(st_sizes) cap) &&
  ((cap <=? MAX_SZ) || (size <? cap)).

Lemma do_realloc_cases w caches g ptr cap size :
  inv w.(w_state) caches g -> sized w g ptr cap ->
  (cap <= size \/ get_size_class w.(w_state).(st_sizes) size = get_size_class w.(w_state).(st_sizes) cap) ->
  (realloc_stays w cap size = true /\ do_realloc ptr size w = Ok (ptr, w) /\ size <= cap) \/
  (realloc_stays w cap size = false /\ do_realloc ptr size w = realloc_by_copy ptr cap size w /\ cap <= size /\
   (cap <= MAX_SZ -> get_size_class w.(w_state).(st_sizes) size <> get_size_class w.(w_state).(st_sizes) cap)).
Proof.
  intros Hi [Hl Hsz] Hgrow.
  destruct (live_mapped target Hi _ _ Hl) as (Hp0 & _ & Hc0 & _).
  unfold do_realloc. destruct (Z.eqb_spec ptr 0); [lia|].
  rewrite (bind_Ok _ _ _ _ _ (size_class_of_ok w size)).
  rewrite (bind_Ok _ _ _ _ _ (get_allocation_size_heap w ptr cap Hsz)).
  rewrite (bind_Ok _ _ _ _ _ (size_class_of_ok w cap)). fold (realloc_by_copy ptr cap size).
  set (oc := get_size_class w.(w_state).(st_sizes) cap) in *.
  set (nc := get_size_class w.(w_state).(st_sizes) size) in *.
  pose proof (i_sizes _ _ _ _ Hi) as SI. unfold realloc_stays. fold oc nc.
  destruct (Z.leb_spec cap MAX_SZ) as [Hsmall|Hlarge].
  - pose proof (get_size_class_bounds (st := w.(w_state).(st_sizes)) cap ltac:(lia)) as Hb1.
    fold oc in Hb1. destruct (Z.eqb_spec oc 0); [lia|].
    rewrite (Z.eqb_sym nc oc). destruct (Z.eqb_spec oc nc) as [Heq|Hneq]; cbn [negb andb orb].
    + left. split; [done|]. split; [done|].
      destruct (g.(owner) !! ptr) as [[i [t'|]]|] eqn:Ho;
        try (pose proof (sized_large w caches g ptr cap Hi (conj Hl Hsz) ltac:(congruence)); lia).
      destruct (live_class _ _ _ _ _ _ Hi Hl Ho) as (_ & Hoc & c & Hc & ->). fold oc in Hoc.
      destruct (Z.le_gt_cases size 0); [pose proof (live_mapped target Hi _ _ Hl); lia|].
      destruct (get_size_class_fits (st := w.(w_state).(st_sizes)) size) as (c' & Hc' & _ & Hfit).
      { unfold nc, get_size_class in *. destruct (Z.gtb_spec size MAX_SZ); lia. }
      fold nc in Hc'. rewrite <- Heq, Hoc, Hc in Hc'. by injection Hc' as <-.
    + right. split; [done|]. split; [done|]. split; [by destruct Hgrow|congruence].
  - assert (oc = 0) as Eoc.
    { unfold oc, get_size_class. destruct (Z.gtb_spec cap MAX_SZ); [done|lia]. }
    rewrite Eoc in *. cbn [Z.eqb negb andb orb].
    destruct (Z.eqb_spec nc 0) as [Enc|Hnc]; cbn [andb].
    + destruct (Z.ltb_spec size cap); [left; split_and!; [done|done|lia]|right; split_and!; [done|done|lia|lia]].
    + right. split_and!; [done|done| |lia]. destruct Hgrow; [done|congruence].
Qed.

Lemma do_realloc_ok w caches g t ptr cap size :
  running w caches g t -> sized w g ptr cap -> 0 <= size < 2 ^ 32 - PAGE ->
  (cap <= size \/ get_size_class w.(w_state).(st_sizes) size = get_size_class w.(w_state).(st_sizes) cap) ->
  Z.of_nat w.(w_state).(st_os).(calls) < CALLS_LIMIT ->
  (cap <= MAX_SZ -> bin_room w (get_size_class w.(w_state).(st_sizes) cap)) ->
  (realloc_stays w cap size = true -> do_realloc ptr size w = Ok (ptr, w) /\ size <= cap) /\
  (realloc_stays w cap size = false ->
   (exists ret s' cs' g', do_realloc ptr size w = Ok (ret, world_after w s' cs') /\
      moved w.(w_state) g s' (<[t := cs']> caches) g' ptr cap ret size) \/
   out_of_memory w (do_realloc ptr size w)).
Proof.
  intros Hrun Hsz Hs Hgrow Hcalls Hroom. pose proof Hrun as [Hi _ _ _ _].
  destruct (do_realloc_cases w caches g ptr cap size Hi Hsz Hgrow) as [[-> H]|(-> & -> & Hle & Hne)];
    [by split|split; [done|intros _]].
  apply realloc_move; [done|apply Hsz|done|done|done|]. intros Hm. split; [by apply Hroom|by apply Hne].
Qed.

(** *** The class that [do_free] finds *)
(** The class of a pointer, as [do_free] finds it. *)
Definition class_of_ptr (ptr : Z) : M State (option Z) :=
  info ← get_page_info_for_ptr ptr; page_info_size_class_index info.

(** Freeing [ptr] does not make a bin overflow. *)
Definition free_room (w : World) (ptr : Z) : bool :=
  match class_of_ptr ptr w.(w_state) with
  | Ok (Some i, _) =>
      match w.(w_tls).(thread_cache) !! Z.to_nat i, size_class_at w.(w_state).(st_sizes) i with
      | Some c, Ok cl =>
          (i =? 0) || (c.(bin_block_num) <? if w.(w_use_apf) then 2 ^ 32 - 2 else cl.(cache_block_num))
      | _, _ => true
      end
  | _ => true
  end.

(** The class that [do_free] computes for a small block is its own. *)
Lemma class_of_small w caches g ptr i :
  inv w.(w_state) caches g -> g.(owner) !! ptr = Some (i, None) ->
  class_of_ptr ptr w.(w_state) = Ok (Some i, w.(w_state)) /\ i <> 0.
Proof.
  intros Hi Ho. destruct (owner_block target Hi _ _ _ Ho) as (_ & _ & _ & c & _ & Hc & _).
  destruct (page_info_of_live w caches g ptr _ Hi (live_small _ _ _ _ i c Ho Hc eq_refl))
    as (d & de & Eg & Ed & Hde & Hpg).
  destruct (block_desc w caches g ptr i _ c d de Hi Ho Hc Hpg Hde) as (Hbs & Hmax & Hown & Hidx).
  split; [|lia]. pose proof (size_class_index_ok w d de Ed Hde) as Ei.
  rewrite Hbs, Hown in Ei. destruct (Z.gtb_spec (block_size c) MAX_SZ); [lia|].
  unfold class_of_ptr. rewrite (bind_Ok _ _ _ _ _ (heap_state _ _ _ Eg)). exact (heap_state _ _ _ Ei).
Qed.

Lemma free_room_bin w caches g ptr i :
  inv w.(w_state) caches g -> g.(owner) !! ptr = Some (i, None) -> free_room w ptr = true -> bin_room w i.
Proof.
  intros Hi Ho Hr c cl Hc Hcl. destruct (class_of_small _ _ _ _ _ Hi Ho) as [Ec Hi0].
  unfold free_room in Hr. rewrite Ec, Hc, Hcl in Hr.
  destruct (Z.eqb_spec i 0); [done|]. by apply Z.ltb_lt in Hr.
Qed.

Lemma block_allocation_size w caches g ptr i c :
  inv w.(w_state) caches g -> g.(owner) !! ptr = Some (i, None) ->
  size_class_at w.(w_state).(st_sizes) i = Ok c ->
  get_allocation_size ptr w.(w_state) = Ok (Some c.(block_size), w.(w_state)) /\
  live w.(w_state) g ptr c.(block_size).
Proof.
  intros Hi Ho Hc. assert (Hl : live w.(w_state) g ptr (block_size c)) by (by eapply live_small).
  split; [|done]. destruct (page_info_of_live w caches g ptr _ Hi Hl) as (d & de & Eg & Ed & Hde & Hpg).
  destruct (block_desc w caches g ptr i _ c d de Hi Ho Hc Hpg Hde) as [Hbs _].
  unfold get_allocation_size. rewrite (bind_Ok _ _ _ _ _ (heap_state _ _ _ Eg)), Ed.
  rewrite (bind_Ok _ _ _ _ _ (read_desc_ok _ _ _ Hde)). by rewrite Hbs.
Qed.

Lemma large_allocation_size w caches g q d ptr len :
  inv w.(w_state) caches g -> g.(roles) !! q = Some (Large d ptr len) ->
  get_allocation_size ptr w.(w_state) = Ok (Some len, w.(w_state)).
Proof.
  intros Hi R. assert (Hl : live w.(w_state) g ptr (q + len - ptr)) by (by eapply live_large).
  destruct (page_info_of_live w caches g ptr _ Hi Hl) as (d' & de & Eg & Ed & Hde & Hpg).
  destruct (i_roles _ _ _ _ Hi _ _ R) as (_ & _ & Hlen & (_ & de' & Hde' & _ & Hbs) & Hpg').
  rewrite Hpg in Hpg'. injection Hpg' as <-. rewrite Hde in Hde'. injection Hde' as <-.
  unfold get_allocation_size. rewrite (bind_Ok _ _ _ _ _ (heap_state _ _ _ Eg)), Ed.
  rewrite (bind_Ok _ _ _ _ _ (read_desc_ok _ _ _ Hde)). by rewrite Hbs.
Qed.

(** A pointer whose reported size is small is a small block. *)
Lemma small_allocation_size w caches g ptr cap n :
  inv w.(w_state) caches g -> live w.(w_state) g ptr cap ->
  get_allocation_size ptr w.(w_state) = Ok (Some n, w.(w_state)) -> n <= MAX_SZ ->
  cap = n /\ exists i c, g.(owner) !! ptr = Some (i, None) /\
    size_class_at w.(w_state).(st_sizes) i = Ok c /\ n = c.(block_size).
Proof.
  intros Hi Hl Hsz Hn. destruct (page_info_of_live w caches g ptr _ Hi Hl) as (d & de & Eg & Ed & Hde & Hpg).
  pose proof Hl as [i c Ho Hc Ecap|p d' len R Ecap].
  - destruct (block_allocation_size w caches g ptr i c Hi Ho Hc) as [E1 _].
    rewrite Hsz in E1. injection E1 as ->. split; [done|]. by exists i, c.
  - destruct (i_roles _ _ _ _ Hi _ _ R) as (_ & _ & Hlen & (_ & de' & Hde' & _ & Hbs) & Hpg').
    rewrite Hpg in Hpg'. injection Hpg' as <-. rewrite Hde in Hde'. injection Hde' as <-.
    unfold get_allocation_size in Hsz. rewrite (bind_Ok _ _ _ _ _ (heap_state _ _ _ Eg)), Ed in Hsz.
    rewrite (bind_Ok _ _ _ _ _ (read_desc_ok _ _ _ Hde)) in Hsz. injection Hsz as Hsz. lia.
Qed.

(** *** The pointers whose size [do_realloc] knows

    A small block, or a large allocation that starts its segment: for an
    aligned large one, [get_allocation_size] gives the length of the whole
    segment. *)
Definition whole_block (s : State) (ptr : Z) : option Z :=
  match get_page_info_for_ptr ptr s with
  | Ok (info, _) =>
      d ← page_info_get_desc info; de ← s.(st_descs) !! d;
      if (de.(d_block_size) <=? MAX_SZ) || bool_decide (seg_ptr <$> de.(super_block) = Some ptr)
      then Some de.(d_block_size) else None
  | Err _ => None
  end.

Lemma whole_block_sized w caches g ptr cap n :
  inv w.(w_state) caches g -> live w.(w_state) g ptr cap -> whole_block w.(w_state) ptr = Some n ->
  n = cap /\ sized w g ptr cap.
Proof.
  intros Hi Hl Hw. destruct (page_info_of_live w caches g ptr _ Hi Hl) as (d & de & Eg & Ed & Hde & Hpg).
  unfold whole_block in Hw. rewrite (heap_state _ _ _ Eg), Ed in Hw. simpl in Hw. rewrite Hde in Hw. simpl in Hw.
  assert (Hsz : get_allocation_size ptr w.(w_state) = Ok (Some de.(d_block_size), w.(w_state))).
  { unfold get_allocation_size. rewrite (bind_Ok _ _ _ _ _ (heap_state _ _ _ Eg)), Ed.
    by rewrite (bind_Ok _ _ _ _ _ (read_desc_ok _ _ _ Hde)). }
  destruct (Z.leb_spec de.(d_block_size) MAX_SZ) as [Hs|Hs].
  - injection Hw as <-. destruct (small_allocation_size _ _ _ _ _ _ Hi Hl Hsz Hs) as [-> _]. by split.
  - cbn [orb] in Hw. destruct (bool_decide_reflect (seg_ptr <$> super_block de = Some ptr)) as [Hp|]; [|done]. injection Hw as <-.
    pose proof Hl as [i c Ho Hc Ecap|p d' len R Ecap].
    + destruct (block_desc w caches g ptr i _ c d de Hi Ho Hc Hpg Hde) as (Hbs & Hmax & _). lia.
    + destruct (i_roles _ _ _ _ Hi _ _ R) as (_ & _ & Hlen & (_ & de' & Hde' & Hseg & Hbs) & Hpg').
      rewrite Hpg in Hpg'. injection Hpg' as <-. rewrite Hde in Hde'. injection Hde' as <-.
      rewrite Hseg in Hp. injection Hp as Hp. assert (d_block_size de = cap) as Ec by lia. by rewrite Ec in *.
Qed.

(** The reallocations that [do_realloc] gets right: it grows the block, or
    stays in its class; and the old block fits into its bin. *)
Definition realloc_room (w : World) (ptr size : Z) : bool :=
  match whole_block w.(w_state) ptr with
  | Some n =>
      ((n <=? size) || (get_size_class w.(w_state).(st_sizes) size =? get_size_class w.(w_state).(st_sizes) n)) &&
      free_room w ptr
  | None => false
  end.

Lemma realloc_room_ok w caches g ptr cap size :
  inv w.(w_state) caches g -> live w.(w_state) g ptr cap -> realloc_room w ptr size = true ->
  sized w g ptr cap /\
  (cap <= size \/ get_size_class w.(w_state).(st_sizes) size = get_size_class w.(w_state).(st_sizes) cap) /\
  (cap <= MAX_SZ -> bin_room w (get_size_class w.(w_state).(st_sizes) cap)).
Proof.
  unfold realloc_room. intros Hi Hl Hr. destruct (whole_block _ _) as [n|] eqn:Ew; [|done].
  destruct (whole_block_sized _ _ _ _ _ _ Hi Hl Ew) as [-> Hsz].
  apply andb_true_iff in Hr as [[H|H]%orb_true_iff Hf].
  1: apply Z.leb_le in H. 2: apply Z.eqb_eq in H.
  all: split; [done|]; split; [tauto|]; intros Hm.
  all: destruct (small_allocation_size _ _ _ _ _ _ Hi Hl (proj2 Hsz) Hm) as (_ & i & c & Ho & _).
  all: destruct (live_class _ _ _ _ _ _ Hi Hl Ho) as (_ & -> & _); by eapply free_room_bin.
Qed.
End Calls.
