(* ===== verification/Ledger.v ===== *)
(** * The client's ledger, and the abstract allocator

    What a client can do, the record that it keeps of what it holds, and the
    allocator as the client sees it: every call has an answer that the ledger
    allows.  [ledger_ok] relates the ledger to the heap. *)
From S2P Require Import Prelude MemInfo SizeClasses Anchor Mem Bin Trace Tuner.
From S2P Require Import SingleAccess Bootstrap HashMap State Pages Descriptor.
From S2P Require Import PageMap Alloc ThreadCache Lib Heap HeapOps LargeOps Safety.
From S2P Require Import Calls.

(** What a client can do: call the allocator, or use the memory it holds. *)
Inductive Call : Type :=
  | Malloc (size : Z)
  | AlignedAlloc (align size : Z)
  | Realloc (ptr size : Z)
  | Free (ptr : Z)
  | Store (addr byte : Z)
  | Load (addr : Z).

(** ** The ledger

    The pointers that the client holds with the sizes it asked for, and the
    bytes it has stored in them. *)
Record Ledger : Type := mkLedger {
  held : gmap Z Z;
  stored : gmap Z Z;
}.

Definition ledger_empty : Ledger := mkLedger ∅ ∅.

Definition ledger_alloc (p n : Z) (L : Ledger) : Ledger := mkLedger (<[p := n]> L.(held)) L.(stored).

(** The bytes of [L] that are stored in [ [p, p + n) ], and the others. *)
Definition stored_in (p n : Z) (L : Ledger) : gmap Z Z := filter (λ kv, p <= kv.1 < p + n) L.(stored).
Definition stored_out (p n : Z) (L : Ledger) : gmap Z Z := filter (λ kv, ~ (p <= kv.1 < p + n)) L.(stored).

Definition held_size (p : Z) (L : Ledger) : Z := default 0 (L.(held) !! p).

Definition ledger_free (p : Z) (L : Ledger) : Ledger :=
  mkLedger (delete p L.(held)) (stored_out p (held_size p L) L).

Definition ledger_store (a v : Z) (L : Ledger) : Ledger :=
  mkLedger L.(held) (<[a := v]> L.(stored)).

(** [p] is resized to [n] bytes: what was stored past them is given up. *)
Definition ledger_resize (p n : Z) (L : Ledger) : Ledger :=
  mkLedger (<[p := n]> L.(held)) (stored_out (p + n) (held_size p L - n) L).

(** [p] becomes [q], of [n] bytes, and its stored bytes move along. *)
Definition ledger_move (p q n : Z) (L : Ledger) : Ledger :=
  mkLedger (<[q := n]> (delete p L.(held)))
    (kmap (Z.add (q - p)) (stored_in p (held_size p L) L) ∪ stored_out p (held_size p L) L).

(** [a] is a byte of a pointer that the client holds. *)
Definition holds_byte (L : Ledger) (a : Z) : Prop :=
  exists p n, L.(held) !! p = Some n /\ p <= a < p + n.

(** ** The abstract allocator

    [spec_step L c out L']: with the ledger [L], call [c] may return [out],
    which leads to [L']. *)
Definition spec_apart (L : Ledger) (p n : Z) : Prop :=
  0 < p /\ p + n <= ADDR_LIMIT /\
  forall q m, L.(held) !! q = Some m -> q <> p -> disjoint_ranges p n q m.

Definition spec_fresh (L : Ledger) (p n : Z) : Prop := spec_apart L p n /\ L.(held) !! p = None.

Inductive spec_step (L : Ledger) : Call -> Z -> Ledger -> Prop :=
  | spec_malloc n p : spec_fresh L p n -> spec_step L (Malloc n) p (ledger_alloc p n L)
  | spec_aligned k n p :
      spec_fresh L p n -> (2 ^ k | p) -> spec_step L (AlignedAlloc (2 ^ k) n) p (ledger_alloc p n L)
  | spec_aligned_null align n : spec_step L (AlignedAlloc align n) 0 L
  | spec_realloc_null n p : spec_fresh L p n -> spec_step L (Realloc 0 n) p (ledger_alloc p n L)
  | spec_realloc_same p n :
      p <> 0 -> is_Some (L.(held) !! p) -> spec_apart L p n ->
      spec_step L (Realloc p n) p (ledger_resize p n L)
  | spec_realloc_move p q n :
      p <> 0 -> is_Some (L.(held) !! p) -> held_size p L <= n -> spec_fresh L q n ->
      spec_step L (Realloc p n) q (ledger_move p q n L)
  | spec_free p : p <> 0 -> is_Some (L.(held) !! p) -> spec_step L (Free p) 0 (ledger_free p L)
  | spec_free_null : spec_step L (Free 0) 0 L
  | spec_store a v : holds_byte L a -> spec_step L (Store a v) 0 (ledger_store a v L)
  | spec_load a v :
      holds_byte L a -> (forall v', L.(stored) !! a = Some v' -> v = v') -> spec_step L (Load a) v L.

Inductive spec_runs : Ledger -> list (nat * Call * Z) -> Ledger -> Prop :=
  | spec_nil L : spec_runs L [] L
  | spec_snoc L tr L1 t c out L2 :
      spec_runs L tr L1 -> spec_step L1 c out L2 -> spec_runs L (tr ++ [(t, c, out)]) L2.

(** The ledger after a call, as a function of what it returned. *)
Definition ledger_after (c : Call) (out : Z) (L : Ledger) : Ledger :=
  match c with
  | Malloc n => ledger_alloc out n L
  | AlignedAlloc _ n => if out =? 0 then L else ledger_alloc out n L
  | Realloc p n =>
      if p =? 0 then ledger_alloc out n L
      else if out =? p then ledger_resize p n L else ledger_move p out n L
  | Free p => if p =? 0 then L else ledger_free p L
  | Store a v => ledger_store a v L
  | Load _ => L
  end.

Lemma spec_step_after L c out L' : spec_step L c out L' -> L' = ledger_after c out L.
Proof.
  intros []; simpl; try done.
  - destruct H as ((Hp & _) & _). by destruct (Z.eqb_spec p 0); [lia|].
  - destruct (Z.eqb_spec p 0); [done|]. by rewrite Z.eqb_refl.
  - destruct (Z.eqb_spec p 0); [done|]. destruct (Z.eqb_spec q p) as [->|]; [|done].
    destruct H2 as [_ H2], H0 as [m H0]. congruence.
  - by destruct (Z.eqb_spec p 0).
Qed.

(** Held ranges stay apart. *)
Definition ledger_apart (L : Ledger) : Prop :=
  forall p n q m, L.(held) !! p = Some n -> L.(held) !! q = Some m -> p <> q -> disjoint_ranges p n q m.

Lemma apart_insert L p n h :
  ledger_apart L -> spec_apart L p n -> (forall q m, h !! q = Some m -> L.(held) !! q = Some m) ->
  ledger_apart (mkLedger (<[p := n]> h) ∅).
Proof.
  intros HL (_ & _ & Hf) Hh a x b y. simpl. rewrite !lookup_insert_Some.
  intros [[<- <-]|[Ha Hx]] [[<- <-]|[Hb Hy]] Hne; [done| | |].
  - apply (Hf b y); [by apply Hh|done].
  - apply Hh in Hx. specialize (Hf _ _ Hx ltac:(done)). unfold disjoint_ranges in *. tauto.
  - eapply HL; eauto.
Qed.

Lemma spec_held_apart L0 tr L : spec_runs L0 tr L -> ledger_apart L0 -> ledger_apart L.
Proof.
  induction 1 as [L|L0 tr L1 t c out L2 _ IH Hstep]; intros H0; [done|]. specialize (IH H0).
  destruct Hstep; try done.
  - apply (apart_insert L1 p n _ IH (proj1 H)). done.
  - apply (apart_insert L1 p n _ IH (proj1 H)). done.
  - apply (apart_insert L1 p n _ IH (proj1 H)). done.
  - by apply (apart_insert L1 p n _ IH).
  - apply (apart_insert L1 q n _ IH (proj1 H3)). intros x m [_ Hx]%lookup_delete_Some. done.
  - intros a x b y. simpl. rewrite !lookup_delete_Some. intros [_ Ha] [_ Hb] Hne. by eapply IH.
Qed.

(** ** The ledger agrees with the heap *)
Record ledger_ok (s : State) (g : Ghost) (L : Ledger) : Prop := {
  lo_held : forall p n, L.(held) !! p = Some n -> exists cap, 0 <= n <= cap /\ live s g p cap;
  lo_stored : forall a v, L.(stored) !! a = Some v ->
    v = load8 s.(st_os).(mem) a /\ 0 <= v < 256 /\ holds_byte L a;
}.

Section LedgerFacts.
Context {KN : Kernel} {HZ : Hash Z} {BR : BitRange} {target : Z}.
  Abbreviation inv := (heap_inv target).

Lemma ledger_byte_live s g L a :
  ledger_ok s g L -> holds_byte L a ->
  exists p cap, live s g p cap /\ p <= a < p + cap.
Proof.
  intros HL (p & n & Hp & Ha). destruct (lo_held _ _ _ HL p n Hp) as (cap & Hn & Hl).
  exists p, cap. split; [done|]. lia.
Qed.

(** The capacity of a pointer is unique. *)
Lemma live_cap s caches g p c c' : inv s caches g -> live s g p c -> live s g p c' -> c = c'.
Proof.
  intros Hi [i cl H1 H2 ->|q d len R ->] [i' cl' H1' H2' ->|q' d' len' R' ->].
  - congruence.
  - by destruct (owner_not_large _ _ _ _ _ _ _ _ _ Hi H1 R').
  - by destruct (owner_not_large _ _ _ _ _ _ _ _ _ Hi H1' R).
  - destruct (i_roles _ _ _ _ Hi _ _ R) as (S1 & P1 & _ & (_ & de & D1 & D2 & _) & E1).
    destruct (i_roles _ _ _ _ Hi _ _ R') as (S2 & P2 & _ & (_ & de' & D1' & D2' & _) & E2).
    rewrite E1 in E2. injection E2 as <-. rewrite D1 in D1'. injection D1' as <-. congruence.
Qed.

(** What is granted is new to the ledger. *)
Lemma granted_fresh s caches g s' caches' g' L p n :
  inv s caches g -> ledger_ok s g L -> granted (target := target) s g s' caches' g' p n -> spec_fresh L p n.
Proof.
  intros Hi HL [G1 (cap & Hcap & G2) G3 G4 _ _].
  assert (Hp : live s' g' p cap) by (apply G2; by right).
  destruct (live_mapped _ G1 _ _ Hp) as (P1 & P2 & P3 & _).
  split; [split; [done|split; [lia|]]|].
  - intros q m Hq Hne. destruct (lo_held _ _ _ HL q m Hq) as (c & Hm & Hc).
    assert (Hq' : live s' g' q c) by (apply G2; by left).
    pose proof (live_apart _ G1 _ _ _ _ Hp Hq' ltac:(done)) as Hd. unfold disjoint_ranges in *. lia.
  - destruct (L.(held) !! p) as [m|] eqn:Em; [|done].
    destruct (lo_held _ _ _ HL p m Em) as (c & _ & Hc). by destruct (G3 c).
Qed.

(** The heap may change as long as what the ledger names stays. *)
Lemma ledger_kept s g s' g' L :
  ledger_ok s g L -> (forall x c, live s g x c -> is_Some (L.(held) !! x) -> live s' g' x c) ->
  (forall x c a, live s g x c -> is_Some (L.(held) !! x) -> x <= a < x + c ->
     load8 s'.(st_os).(mem) a = load8 s.(st_os).(mem) a) ->
  ledger_ok s' g' L.
Proof.
  intros [L1 L2] Hl Hk. split.
  - intros p n Hp. destruct (L1 p n Hp) as (c & Hn & Hc). exists c. split; [done|]. apply Hl; [done|by exists n].
  - intros a v Ha. destruct (L2 a v Ha) as (-> & Hv & p & n & Hp & Hr). split; [|split; [done|by exists p, n]].
    destruct (L1 p n Hp) as (c & Hn & Hc). symmetry. apply (Hk p c); [done|by exists n|lia].
Qed.

Lemma ledger_granted_kept s caches g s' caches' g' L p n :
  inv s caches g -> ledger_ok s g L -> granted (target := target) s g s' caches' g' p n -> ledger_ok s' g' L.
Proof.
  intros Hi HL [G1 (cap & Hcap & G2) G3 G4 _ _]. eapply ledger_kept; [done| |].
  - intros x c Hx _. apply G2. by left.
  - intros x c a Hx _ Ha. by apply (G4 x c).
Qed.

Lemma ledger_granted s caches g s' caches' g' L p n :
  inv s caches g -> ledger_ok s g L -> 0 <= n ->
  granted (target := target) s g s' caches' g' p n ->
  spec_fresh L p n /\ ledger_ok s' g' (ledger_alloc p n L).
Proof.
  intros Hi HL Hn Hg. pose proof (granted_fresh _ _ _ _ _ _ _ _ _ Hi HL Hg) as Hf. split; [done|].
  destruct (ledger_granted_kept _ _ _ _ _ _ _ _ _ Hi HL Hg) as [L1 L2].
  destruct Hf as [_ Hnone], Hg as [G1 (cap & Hcap & G2) _ _ _ _]. split.
  - intros q m. simpl. rewrite lookup_insert_Some. intros [[<- <-]|[Hne Hq]]; [|by apply L1].
    exists cap. split; [done|]. apply G2. by right.
  - intros a v Ha. destruct (L2 a v Ha) as (Hv & Hr & q & m & Hq & Hqa). split; [done|]. split; [done|].
    exists q, m. simpl. split; [|done]. rewrite lookup_insert_ne; [done|congruence].
Qed.

Lemma ledger_released s caches g s' caches' g' L p :
  inv s caches g -> ledger_ok s g L ->
  released (target := target) s g s' caches' g' p ->
  ledger_ok s' g' (ledger_free p L).
Proof.
  intros Hi [L1 L2] [R1 R2 R3 _ _ _]. split.
  - intros q m. simpl. rewrite lookup_delete_Some. intros [Hne Hq].
    destruct (L1 q m Hq) as (c & Hm & Hc). exists c. split; [done|]. by apply R2.
  - intros a v Ha. simpl in Ha. apply map_lookup_filter_Some in Ha as [Ha Hout]. simpl in Hout.
    destruct (L2 a v Ha) as (-> & Hv & q & m & Hq & Hqa).
    destruct (L1 q m Hq) as (c & Hm & Hc).
    assert (Hne : q <> p) by (intros ->; unfold held_size in Hout; rewrite Hq in Hout; simpl in Hout; lia).
    split; [|split; [done|exists q, m; simpl; by rewrite lookup_delete_ne by done]].
    symmetry. apply (R3 q c); [by apply R2|lia].
Qed.

Lemma ledger_stores s g L a v :
  ledger_ok s g L -> holds_byte L a -> 0 <= v < 256 ->
  ledger_ok (set_mem (store8 s.(st_os).(mem) a v) s) g (ledger_store a v L).
Proof.
  intros [L1 L2] Hb Hv. split.
  - intros p n Hp. destruct (L1 p n Hp) as (c & Hn & Hc). exists c. split; [done|]. by apply live_set_mem.
  - intros b w. simpl. rewrite load8_store8. destruct (decide (a = b)) as [<-|Hne].
    + rewrite lookup_insert_eq. intros [= <-]. by rewrite Z.mod_small.
    + rewrite lookup_insert_ne by done. apply L2.
Qed.

Lemma ledger_resized s caches g L p m n cap :
  inv s caches g -> ledger_ok s g L -> L.(held) !! p = Some m -> live s g p cap -> 0 <= n <= cap ->
  spec_apart L p n /\ ledger_ok s g (ledger_resize p n L).
Proof.
  intros Hi [L1 L2] Hp Hl Hn. destruct (live_mapped _ Hi _ _ Hl) as (P1 & P2 & P3 & _).
  split; [split; [done|split; [lia|]]|split].
  - intros q k Hq Hne. destruct (L1 q k Hq) as (c & Hk & Hc).
    pose proof (live_apart _ Hi _ _ _ _ Hl Hc ltac:(done)) as Hd. unfold disjoint_ranges in *. lia.
  - intros q k. simpl. rewrite lookup_insert_Some. intros [[<- <-]|[Hne Hq]]; [by exists cap|by apply L1].
  - intros a v Ha. simpl in Ha. apply map_lookup_filter_Some in Ha as [Ha Hout]. simpl in Hout.
    unfold held_size in Hout. rewrite Hp in Hout. simpl in Hout.
    destruct (L2 a v Ha) as (Hv & Hr & q & k & Hq & Hqa). split; [done|]. split; [done|].
    destruct (decide (q = p)) as [->|Hne].
    + rewrite Hp in Hq. injection Hq as <-. exists p, n. simpl. rewrite lookup_insert_eq. split; [done|lia].
    + exists q, k. simpl. by rewrite lookup_insert_ne by done.
Qed.

#[local] Instance shift_inj d : Inj (=) (=) (Z.add d).
Proof. intros x y. lia. Qed.

(** The bytes of [p] are copied to [q]. *)
Definition ledger_copy (p q : Z) (L : Ledger) : Ledger :=
  mkLedger L.(held) (kmap (Z.add (q - p)) (stored_in p (held_size p L) L) ∪ L.(stored)).

(** A move is an allocation, a copy and a free. *)
Lemma ledger_move_copy p q n L :
  spec_fresh L q n -> held_size p L <= n -> is_Some (L.(held) !! p) ->
  ledger_free p (ledger_copy p q (ledger_alloc q n L)) = ledger_move p q n L.
Proof.
  intros [(_ & _ & Hf) Hq] Hn [m Hm]. assert (Hne : p <> q) by congruence.
  specialize (Hf p m Hm Hne). unfold ledger_free, ledger_copy, ledger_move, ledger_alloc, stored_in, stored_out, held_size in *.
  simpl. rewrite lookup_insert_ne, Hm in * by done. simpl in *. f_equal.
  - by rewrite delete_insert_ne.
  - apply map_eq. intros a. apply option_eq. intros v.
    rewrite map_lookup_filter_Some, !lookup_union_Some_raw, map_lookup_filter_Some. simpl.
    assert (Hk : (kmap (Z.add (q - p)) (filter (λ kv, p <= kv.1 < p + m) (stored L)) : gmap Z Z) !! a = Some v ->
      ~ (p <= a < p + m)).
    { intros (b & -> & Hb)%lookup_kmap_Some; [|apply _]. apply map_lookup_filter_Some in Hb as [_ Hb].
      simpl in Hb. unfold disjoint_ranges in Hf. lia. }
    naive_solver.
Qed.

Lemma ledger_copied s caches g L p m cap q n c m2 :
  inv s caches g -> ledger_ok s g (ledger_alloc q n L) ->
  (forall a v, L.(stored) !! a = Some v -> holds_byte L a) -> L.(held) !! q = None -> L.(held) !! p = Some m ->
  live s g p cap -> live s g q c -> m <= cap <= n -> n <= c ->
  (forall a, load8 m2 a = if decide (q <= a < q + cap) then load8 s.(st_os).(mem) (p + (a - q)) mod 256
                          else load8 s.(st_os).(mem) a) ->
  ledger_ok (set_mem m2 s) g (ledger_copy p q (ledger_alloc q n L)).
Proof.
  intros Hi [L1 L2] Hst Hq Hp Hlp Hlq Hm Hc Hm2. assert (Hne : p <> q) by congruence. split.
  - intros x k Hx. destruct (L1 x k Hx) as (d & Hk & Hd). exists d. split; [done|]. by apply live_set_mem.
  - intros a v. simpl. rewrite Hm2. intros [Ha|[_ Ha]]%lookup_union_Some_raw.
    + apply lookup_kmap_Some in Ha as (b & -> & Hb); [|apply _].
      apply map_lookup_filter_Some in Hb as [Hb Hin]. simpl in Hin. unfold held_size in Hin. simpl in Hin.
      rewrite lookup_insert_ne, Hp in Hin by done. simpl in Hin. destruct (L2 b v Hb) as (Hv & Hr & _).
      rewrite decide_True by lia. replace (p + (q - p + b - q)) with b by lia. rewrite <- Hv, Z.mod_small by done.
      split; [done|]. split; [done|]. exists q, n. simpl. rewrite lookup_insert_eq. split; [done|lia].
    + destruct (L2 a v Ha) as (Hv & Hr & Hb). destruct (Hst a v Ha) as (x & k & Hx & Hxa).
      assert (Hxq : x <> q) by congruence.
      destruct (L1 x k) as (d & Hk & Hd); [simpl; by rewrite lookup_insert_ne|].
      pose proof (live_apart _ Hi _ _ _ _ Hd Hlq Hxq) as Hap. unfold disjoint_ranges in Hap.
      rewrite decide_False by lia. done.
Qed.

(** The new place of a moved allocation is new to the ledger. *)
Lemma moved_fresh s caches g s' caches' g' L p cap q n m :
  inv s caches g -> ledger_ok s g L -> moved (target := target) s g s' caches' g' p cap q n ->
  L.(held) !! p = Some m -> live s g p cap -> spec_fresh L q n.
Proof.
  intros Hi [L1 L2] [M1 (cap' & Hc' & M2) M3 _ _ _ _ M4] Hm Hl.
  assert (Hq : live s' g' q cap') by (apply M2; by right).
  destruct (live_mapped _ M1 _ _ Hq) as (P1 & P2 & P3 & _). split; [split; [done|split; [lia|]]|].
  - intros x k Hx Hne. destruct (L1 x k Hx) as (c & Hk & Hc). destruct (decide (x = p)) as [->|Hxp].
    + rewrite (live_cap _ _ _ _ _ _ Hi Hc Hl) in Hk. unfold disjoint_ranges in *. lia.
    + assert (Hx' : live s' g' x c) by (apply M2; by left).
      pose proof (live_apart _ M1 _ _ _ _ Hq Hx' ltac:(done)) as Hd. unfold disjoint_ranges in *. lia.
  - destruct (L.(held) !! q) as [k|] eqn:Ek; [|done]. destruct (L1 q k Ek) as (c & _ & Hc). by destruct (M3 c).
Qed.

(** A move copies the bytes, and frees the old memory. *)
Lemma ledger_moved s g s' caches' g' L p m cap q n :
  ledger_ok s g L -> L.(held) !! p = Some m -> live s g p cap -> m <= cap -> m <= n -> 0 <= n ->
  moved (target := target) s g s' caches' g' p cap q n -> L.(held) !! q = None ->
  ledger_ok s' g' (ledger_move p q n L).
Proof.
  intros [L1 L2] Hp Hl Hm Hmn Hn [M1 (cap' & Hc' & M2) M3 M4 M5 _ _ _] Hq. unfold ledger_move, stored_in, stored_out, held_size.
  rewrite Hp. simpl. split; simpl.
  - intros x k. rewrite lookup_insert_Some. intros [[<- <-]|[Hne Hx]].
    + exists cap'. split; [done|]. apply M2. by right.
    + apply lookup_delete_Some in Hx as [Hxp Hx]. destruct (L1 x k Hx) as (c & Hk & Hc).
      exists c. split; [done|]. apply M2. by left.
  - intros a v [Ha|[_ Ha]]%lookup_union_Some_raw.
    + apply lookup_kmap_Some in Ha as (b & -> & Hb); [|apply _].
      apply map_lookup_filter_Some in Hb as [Hb Hin]. simpl in Hin.
      destruct (L2 b v Hb) as (Hv & Hr & _).
      replace (q - p + b) with (q + (b - p)) by lia. rewrite M4 by lia.
      replace (p + (b - p)) with b by lia. rewrite <- Hv, Z.mod_small by done.
      split; [done|]. split; [done|]. exists q, n. simpl. rewrite lookup_insert_eq. split; [done|lia].
    + apply map_lookup_filter_Some in Ha as [Ha Hout]. simpl in Hout.
      destruct (L2 a v Ha) as (Hv & Hr & x & k & Hx & Hxa).
      assert (Hne : x <> p) by (intros ->; rewrite Hp in Hx; injection Hx as <-; lia).
      destruct (L1 x k Hx) as (c & Hk & Hc). split; [|split; [done|]].
      * rewrite Hv. symmetry. apply (M5 x c); [done|done|lia].
      * exists x, k. simpl. rewrite lookup_insert_ne by congruence. by rewrite lookup_delete_ne.
Qed.
End LedgerFacts.
