(* ===== verification/Triple.v ===== *)
(** * A logic for the calls inside a call

    A tuner allocates, resizes and frees its arrays through the allocator that
    it tunes, so one call of the client is a sequence of calls.  [triple k P c Q]
    says that [c], started in a world that satisfies [P], returns with [Q]
    after at most [k] system calls, or panics because the kernel has refused
    one of them.  [host] says what is true between two such calls. *)
From S2P Require Import Prelude MemInfo SizeClasses Anchor Mem Bin Trace Tuner.
From S2P Require Import SingleAccess Bootstrap HashMap State Pages Descriptor.
From S2P Require Import PageMap Alloc ThreadCache Lib Heap HeapOps LargeOps Safety.
From S2P Require Import Calls Ledger.

(** ** Outcomes and triples *)
Section Triples.
Context {KN : Kernel}.

Definition os_of (w : World) : Os := w.(w_state).(st_os).

Definition outcome {A} (k : nat) (w : World) (r : result (A * World)) (Q : A -> World -> Prop) : Prop :=
  (exists a w', r = Ok (a, w') /\ reach REQUEST_LIMIT k (os_of w) (os_of w') /\ Q a w') \/
  (exists msg, r = Err (Panic msg) /\ refusal REQUEST_LIMIT k (os_of w)).

Definition triple {A} (k : nat) (P : World -> Prop) (c : M World A) (Q : A -> World -> Prop) : Prop :=
  forall w, P w -> Z.of_nat (os_of w).(calls) + Z.of_nat k < CALLS_LIMIT -> outcome k w (c w) Q.

Lemma outcome_here {A} k w (a : A) w' (Q : A -> World -> Prop) :
  reach REQUEST_LIMIT k (os_of w) (os_of w') -> Q a w' -> outcome k w (Ok (a, w')) Q.
Proof. intros Hr HQ. left. by exists a, w'. Qed.

Lemma outcome_mono {A} k k' w (r : result (A * World)) (Q Q' : A -> World -> Prop) :
  outcome k w r Q -> (k <= k')%nat -> (forall a w', Q a w' -> Q' a w') -> outcome k' w r Q'.
Proof.
  intros [(a & w' & -> & Hr & HQ)|(msg & -> & Hr)] Hk H.
  - left. exists a, w'. split; [done|]. split; [by eapply reach_mono|by apply H].
  - right. exists msg. split; [done|]. by eapply refusal_mono.
Qed.

Lemma outcome_bind {A B} k j w (c : M World A) (f : A -> M World B) Q R :
  outcome k w (c w) Q -> (forall a w', Q a w' -> reach REQUEST_LIMIT k (os_of w) (os_of w') -> outcome j w' (f a w') R) ->
  outcome (k + j) w ((a ← c; f a) w) R.
Proof.
  intros [(a & w' & E & Hr & HQ)|(msg & E & Hr)] H.
  - rewrite (bind_Ok _ _ _ _ _ E). destruct (H a w' HQ Hr) as [(b & w2 & E2 & Hr2 & HR)|(msg & E2 & Hr2)].
    + left. exists b, w2. split; [done|]. split; [by eapply reach_trans|done].
    + right. exists msg. split; [done|]. by eapply refuse_later.
  - right. exists msg. split; [by apply bind_Err|]. eapply refusal_mono; [|exact Hr]. lia.
Qed.

Lemma triple_bind {A B} k j (P : World -> Prop) (c : M World A) (f : A -> M World B) Q R :
  triple k P c Q -> (forall a, triple j (Q a) (f a) R) -> triple (k + j) P (a ← c; f a) R.
Proof.
  intros Hc Hf w HP Hl. eapply outcome_bind; [apply Hc; [done|lia]|].
  intros a w' HQ Hr. apply Hf; [done|]. apply reach_calls in Hr. lia.
Qed.

Lemma triple_ret {A} k (P : World -> Prop) (a : A) (Q : A -> World -> Prop) :
  (forall w, P w -> Q a w) -> triple k P (mret a) Q.
Proof. intros H w HP _. apply outcome_here; [apply reach_refl|by apply H]. Qed.

Lemma triple_lift {A} k (P : World -> Prop) (r : result A) a (Q : A -> World -> Prop) :
  r = Ok a -> (forall w, P w -> Q a w) -> triple k P (lift r) Q.
Proof. intros -> H w HP _. apply outcome_here; [apply reach_refl|by apply H]. Qed.

Lemma triple_modify k (P : World -> Prop) (f : World -> World) (Q : unit -> World -> Prop) :
  (forall w, P w -> os_of (f w) = os_of w /\ Q tt (f w)) -> triple k P (modify f) Q.
Proof. intros H w HP _. destruct (H w HP) as [E HQ]. apply outcome_here; [rewrite E; apply reach_refl|done]. Qed.

Lemma triple_gets {A} k (P : World -> Prop) (f : World -> A) (Q : A -> World -> Prop) :
  (forall w, P w -> Q (f w) w) -> triple k P (gets f) Q.
Proof. intros H w HP _. apply outcome_here; [apply reach_refl|by apply H]. Qed.

Lemma triple_weaken {A} k k' (P P' : World -> Prop) (c : M World A) (Q Q' : A -> World -> Prop) :
  triple k P c Q -> (k <= k')%nat -> (forall w, P' w -> P w) -> (forall a w, Q a w -> Q' a w) ->
  triple k' P' c Q'.
Proof.
  intros H Hk HP HQ w Hw Hl. eapply outcome_mono; [apply H; [by apply HP|lia]|done|done].
Qed.

(** A pure fact of the precondition. *)
Lemma triple_pure {A B} k (X : B -> Prop) (P : B -> World -> Prop) (c : M World A) Q :
  (forall x, X x -> triple k (P x) c Q) -> triple k (λ w, exists x, X x /\ P x w) c Q.
Proof. intros H w (x & Hx & HP). by apply (H x Hx). Qed.
End Triples.

(** ** Where an allocation is *)
Inductive Place : Type :=
  | InBin (i : Z)
  | InSegment (q d len : Z).

Definition placed (g : Ghost) (p : Z) (pl : Place) : Prop :=
  match pl with
  | InBin i => g.(owner) !! p = Some (i, None)
  | InSegment q d len => g.(roles) !! q = Some (Large d p len)
  end.

Lemma live_placed s g p cap : live s g p cap -> exists pl, placed g p pl.
Proof. intros [i c Ho _ _|q d len R _]; [by exists (InBin i)|by exists (InSegment q d len)]. Qed.

(** The arrays of the tuners: for the tuner [i] of thread [t], the address and
    the length of the array of its trace. *)
Abbreviation Traces := (@gmap (nat * nat) prod_eq_dec prod_countable (Z * Z)).

Record traces_ok (g : Ghost) (L : Ledger) (T : Traces) : Prop := {
  to_role : forall k p len, T !! k = Some (p, len) -> exists d, g.(roles) !! p = Some (Large d p len);
  to_apart : forall k p len, T !! k = Some (p, len) -> L.(held) !! p = None;
  to_inj : forall k k' p len len', T !! k = Some (p, len) -> T !! k' = Some (p, len') -> k = k';
}.

(** Pointers of the client whose place matters until the end of a call. *)
Definition pins_ok (g : Ghost) (L : Ledger) (C : gmap Z Place) : Prop :=
  forall p pl, C !! p = Some pl -> placed g p pl /\ is_Some (L.(held) !! p).

Record house (s : State) (g : Ghost) (L : Ledger) (T : Traces) (C : gmap Z Place) : Prop := {
  ho_ledger : ledger_ok s g L;
  ho_traces : traces_ok g L T;
  ho_pins : pins_ok g L C;
}.

Section House.
Context {KN : Kernel} {HZ : Hash Z} {BR : BitRange} {target : Z}.
  Abbreviation inv := (heap_inv target).

Lemma trace_live s g L T k p len : traces_ok g L T -> T !! k = Some (p, len) -> live s g p len.
Proof.
  intros HT Hk. destruct (to_role _ _ _ HT _ _ _ Hk) as [d R]. eapply live_large; [exact R|]. lia.
Qed.

(** Its place says how large an allocation is. *)
Lemma placed_live_same s caches g s' g' p pl cap :
  inv s caches g -> placed g p pl -> live s g p cap -> s'.(st_sizes) = s.(st_sizes) -> placed g' p pl ->
  live s' g' p cap.
Proof.
  intros Hi Hp Hl Es Hp'. destruct pl as [i|q d len]; simpl in *.
  - destruct (owner_block target Hi _ _ _ Hp) as (_ & _ & _ & c & _ & Hc & _).
    rewrite (live_cap _ _ _ _ _ _ Hi Hl (live_small _ _ _ _ i c Hp Hc eq_refl)).
    eapply live_small; [done|by rewrite Es|done].
  - rewrite (live_cap _ _ _ _ _ _ Hi Hl (live_large _ _ _ _ q d len Hp eq_refl)). by eapply live_large.
Qed.

Lemma placed_kept g g' p pl : ghost_kept g g' -> placed g p pl -> placed g' p pl.
Proof. intros [H1 H2]. destruct pl; simpl; auto. Qed.

Lemma traces_kept g g' L L' T :
  traces_ok g L T -> ghost_kept g g' ->
  (forall k p len, T !! k = Some (p, len) -> L'.(held) !! p = None) -> traces_ok g' L' T.
Proof.
  intros [T1 T2 T3] [K _] Hh. split; [|done|done].
  intros k p len Hk. destruct (T1 k p len Hk) as [d R]. exists d. by apply K.
Qed.

(** Something is granted. *)
Lemma house_granted s caches g s' caches' g' L T C p n :
  inv s caches g -> house s g L T C -> granted (target := target) s g s' caches' g' p n -> house s' g' L T C.
Proof.
  intros Hi [HL HT HC] Hg. pose proof (gr_ghost _ _ _ _ _ _ _ Hg) as Hk. split.
  - by eapply ledger_granted_kept.
  - eapply traces_kept; [done|done|]. apply HT.
  - intros x pl Hx. destruct (HC x pl Hx) as [H1 H2]. split; [by eapply placed_kept|done].
Qed.

(** The client is told of it. *)
Lemma house_granted_client s caches g s' caches' g' L T C p n :
  inv s caches g -> house s g L T C -> granted (target := target) s g s' caches' g' p n -> 0 <= n ->
  spec_fresh L p n /\ house s' g' (ledger_alloc p n L) T C.
Proof.
  intros Hi Hh Hg Hn. destruct (house_granted _ _ _ _ _ _ _ _ _ _ _ Hi Hh Hg) as [HL' HT' HC'].
  destruct (ledger_granted _ _ _ _ _ _ _ _ _ Hi (ho_ledger _ _ _ _ _ Hh) Hn Hg) as [Hf HL2].
  split; [done|]. split; [done| |].
  - destruct HT' as [T1 T2 T3]. split; [done| |done]. intros k x len Hk. simpl.
    rewrite lookup_insert_ne; [by eapply T2|]. intros <-.
    apply (gr_new _ _ _ _ _ _ _ Hg len). exact (trace_live _ _ _ _ _ _ _ (ho_traces _ _ _ _ _ Hh) Hk).
  - intros x pl Hx. destruct (HC' x pl Hx) as [H1 H2]. split; [done|]. simpl.
    apply lookup_insert_is_Some'. by right.
Qed.

(** A tuner keeps it. *)
Lemma house_trace s g L T C k p d len :
  house s g L T C -> g.(roles) !! p = Some (Large d p len) -> L.(held) !! p = None ->
  (forall k' len', T !! k' <> Some (p, len')) -> house s g L (<[k := (p, len)]> T) C.
Proof.
  intros [HL [T1 T2 T3] HC] R Hh Hn. split; [done| |done]. split.
  - intros k' x m. rewrite lookup_insert_Some. intros [[_ [= <- <-]]|[_ H]]; [by exists d|by eapply T1].
  - intros k' x m. rewrite lookup_insert_Some. intros [[_ [= <- <-]]|[_ H]]; [done|by eapply T2].
  - intros k1 k2 x m m'. rewrite !lookup_insert_Some.
    intros [[<- [= <- <-]]|[_ H1]] [[<- [= ]]|[_ H2]]; subst; try done.
    + by destruct (Hn k2 m').
    + by destruct (Hn k1 m).
    + by eapply T3.
Qed.

Lemma house_traced s caches g s' caches' g' L T C k p d n len :
  inv s caches g -> house s g L T C -> granted (target := target) s g s' caches' g' p n ->
  g'.(roles) !! p = Some (Large d p len) -> house s' g' L (<[k := (p, len)]> T) C.
Proof.
  intros Hi Hh Hg R. eapply house_trace; [by eapply house_granted|done| |].
  - apply (granted_fresh _ _ _ _ _ _ _ _ _ Hi (ho_ledger _ _ _ _ _ Hh) Hg).
  - intros k' len' Hk. apply (gr_new _ _ _ _ _ _ _ Hg len').
    exact (trace_live _ _ _ _ _ _ _ (ho_traces _ _ _ _ _ Hh) Hk).
Qed.

(** Roles and blocks other than what was freed stay. *)
Lemma placed_released s g s' caches' g' p x pl :
  released (target := target) s g s' caches' g' p -> x <> p -> placed g x pl -> placed g' x pl.
Proof.
  intros Hr Hne. destruct pl; simpl; intros H.
  - by apply (re_owner _ _ _ _ _ _ Hr).
  - apply (re_roles _ _ _ _ _ _ Hr); [done|]. intros d' len' [= _ ? _]. done.
Qed.

Lemma traces_released s g s' caches' g' L L' T p :
  traces_ok g L T -> released (target := target) s g s' caches' g' p ->
  (forall k x len, T !! k = Some (x, len) -> x <> p /\ L'.(held) !! x = None) -> traces_ok g' L' T.
Proof.
  intros [T1 T2 T3] Hr Hx. split; [| |done].
  - intros k x len Hk. destruct (T1 k x len Hk) as [d R], (Hx k x len Hk) as [Hne _]. exists d.
    exact (placed_released _ _ _ _ _ _ _ (InSegment x d len) Hr Hne R).
  - intros k x len Hk. by apply (Hx k x len).
Qed.

(** The client frees. *)
Lemma house_released s caches g s' caches' g' L T C p :
  inv s caches g -> house s g L T C -> released (target := target) s g s' caches' g' p ->
  is_Some (L.(held) !! p) -> C !! p = None -> house s' g' (ledger_free p L) T C.
Proof.
  intros Hi [HL HT HC] Hr [n Hn] Hp. split; [by eapply ledger_released| |].
  - eapply traces_released; [done|done|]. intros k x len Hk.
    pose proof (to_apart _ _ _ HT _ _ _ Hk) as Hx. split; [congruence|]. simpl. by apply lookup_delete_None; right.
  - intros x pl Hx. destruct (HC x pl Hx) as [H1 H2]. assert (Hne : x <> p) by congruence.
    split; [by eapply placed_released|]. simpl. by rewrite lookup_delete_ne.
Qed.

(** A tuner frees. *)
Lemma house_untraced s caches g s' caches' g' L T C k p len :
  inv s caches g -> house s g L T C -> released (target := target) s g s' caches' g' p ->
  T !! k = Some (p, len) -> house s' g' L (delete k T) C.
Proof.
  intros Hi [HL HT HC] Hr Hk. pose proof (to_apart _ _ _ HT _ _ _ Hk) as Hp. split.
  - eapply ledger_kept; [done| |].
    + intros x c Hx [m Hm]. apply (re_live _ _ _ _ _ _ Hr). split; [done|congruence].
    + intros x c a Hx [m Hm] Ha. eapply (re_contents _ _ _ _ _ _ Hr x c a); [|done].
      apply (re_live _ _ _ _ _ _ Hr). split; [done|congruence].
  - eapply (traces_released s g s' caches' g' L L (delete k T)); [|done|].
    + destruct HT as [T1 T2 T3]. split.
      * intros k' x m [_ H]%lookup_delete_Some. by eapply T1.
      * intros k' x m [_ H]%lookup_delete_Some. by eapply T2.
      * intros k1 k2 x m m' [_ H1]%lookup_delete_Some [_ H2]%lookup_delete_Some. by eapply T3.
    + intros k' x m [Hne H]%lookup_delete_Some. split; [|by eapply to_apart]. intros ->.
      by destruct Hne; eapply (to_inj _ _ _ HT).
  - intros x pl Hx. destruct (HC x pl Hx) as [H1 [m H2]].
    split; [eapply placed_released; [done|congruence|done]|by exists m].
Qed.

(** Writing to memory that the client does not know. *)
Lemma house_written s caches g L T C q c m' :
  inv s caches g -> house s g L T C -> live s g q c -> L.(held) !! q = None ->
  (forall a, ~ (q <= a < q + c) -> load8 m' a = load8 s.(st_os).(mem) a) ->
  house (set_mem m' s) g L T C.
Proof.
  intros Hi [HL HT HC] Hq Hh Hm. split; [|done|done]. eapply ledger_kept; [done| |].
  - intros x d Hx _. by apply live_set_mem.
  - intros x d a Hx [n Hn] Ha. simpl. apply Hm. intros Hin.
    assert (Hne : x <> q) by congruence.
    pose proof (live_apart _ Hi _ _ _ _ Hx Hq Hne) as Hd. unfold disjoint_ranges in Hd. lia.
Qed.
End House.

(** ** Between two calls of thread [t] *)
Section Host.
Context {KN : Kernel} {HZ : Hash Z} {BR : BitRange} {target : Z}.
  Abbreviation inv := (heap_inv target).

Record host (t : nat) (caches : gmap nat (list ThreadCacheBin)) (L : Ledger) (T : Traces)
    (C : gmap Z Place) (ua : bool) (l : Tls) (w : World) : Prop := {
  h_heap : exists g, inv w.(w_state) (<[t := l.(thread_cache)]> caches) g /\ house w.(w_state) g L T C;
  h_tls : w.(w_tls) = l;
  h_apf : w.(w_use_apf) = ua;
  h_panicking : l.(panicking) = false;
  h_init : w.(w_malloc_init).(skip_flag) = true;
  h_boot : w.(w_use_bootstrap) = false;
}.

Lemma host_stable t caches L T C ua l w :
  host t caches L T C ua l w ->
  exists g, stable (target := target) w (<[t := l.(thread_cache)]> caches) g t /\ house w.(w_state) g L T C.
Proof.
  intros [(g & Hi & Hh) <- <- Hp Hin Hb]. exists g. split; [|done].
  split; [done|by rewrite lookup_insert_eq|done|done|done].
Qed.

Lemma set_cache_id l : set_cache l.(thread_cache) l = l.
Proof. by destruct l. Qed.

Lemma host_after t caches L T C ua l w s' cs' g' L' T' C' :
  host t caches L T C ua l w -> inv s' (<[t := cs']> (<[t := l.(thread_cache)]> caches)) g' ->
  house s' g' L' T' C' -> host t caches L' T' C' ua (set_cache cs' l) (world_after w s' cs').
Proof.
  intros [_ <- <- Hp Hin Hb] Hi Hh. rewrite insert_insert_eq in Hi.
  split; simpl; [by exists g'|done..].
Qed.

Lemma host_after_same t caches L T C ua l w s' g' L' T' C' :
  host t caches L T C ua l w -> inv s' (<[t := l.(thread_cache)]> caches) g' ->
  house s' g' L' T' C' -> host t caches L' T' C' ua l (world_after w s' w.(w_tls).(thread_cache)).
Proof.
  intros Hh Hi Ho. pose proof (h_tls _ _ _ _ _ _ _ _ Hh) as ->.
  rewrite <- (set_cache_id l) at 1. eapply host_after; [done|by rewrite insert_insert_eq|done].
Qed.

(** The thread changes its variables, but not its bins. *)
Lemma host_modify k t caches L T C ua l f :
  (f l).(thread_cache) = l.(thread_cache) -> (f l).(panicking) = l.(panicking) ->
  triple k (host t caches L T C ua l) (modify_tls f) (λ _, host t caches L T C ua (f l)).
Proof.
  intros Hc Hp. apply triple_modify. intros w [(g & Hi & Hh) <- <- Hpk Hin Hb]. split; [done|].
  split; simpl; [|done|done|by rewrite Hp|done|done]. exists g. by rewrite Hc.
Qed.

Lemma host_modify_bind {B} k t caches L T C ua l f (c : M World B) Q :
  (f l).(thread_cache) = l.(thread_cache) -> (f l).(panicking) = l.(panicking) ->
  triple k (host t caches L T C ua (f l)) c Q -> triple k (host t caches L T C ua l) (modify_tls f;; c) Q.
Proof. intros H1 H2 Hc. by apply (triple_bind 0 k _ _ _ _ _ (host_modify 0 t caches L T C ua l f H1 H2)). Qed.

Lemma host_tls k t caches L T C ua l :
  triple k (host t caches L T C ua l) (gets w_tls) (λ l', λ w, l' = l /\ host t caches L T C ua l w).
Proof. apply triple_gets. intros w Hw. split; [by apply Hw|done]. Qed.
End Host.
