(* ===== verification/Tuning.v ===== *)
(** * The tuners of a thread at work

    What the tuners of a thread do inside its calls: the arrays they allocate,
    grow and free are allocations of the same heap, and none of it is seen by
    the client.  This holds as long as the tuners only watch; what they do to
    the bins when they act is in [Fetch], [TunedRuns] and [Findings]. *)
From S2P Require Import Prelude MemInfo SizeClasses Anchor Mem Float Bin Trace Reuse Tuner.
From S2P Require Import SingleAccess Bootstrap HashMap State Pages Descriptor.
From S2P Require Import PageMap Alloc ThreadCache Lib Heap HeapOps LargeOps Safety.
From S2P Require Import Calls Ledger Triple.

(** What the tuners are given is the allocator itself. *)
Class LibEnv {KN : Kernel} {HZ : Hash Z} {BR : BitRange} {AC : ApfConfig} {LC : LibConfig}
    (E : ApfEnv World) : Type := {
  inner : ApfEnv World;
  le_allocate align size : env_allocate (ApfEnv := E) align size = do_aligned_alloc (E := inner) align size;
  le_realloc ptr size : env_realloc (ApfEnv := E) ptr size = do_realloc (E := inner) ptr size;
  le_free ptr : env_free (ApfEnv := E) ptr = do_free (E := inner) ptr;
  le_check id : env_check (ApfEnv := E) id = tuner_check id;
}.

#[export] Instance lib_env_lib {KN : Kernel} {HZ : Hash Z} {BR : BitRange} {AC : ApfConfig} {LC : LibConfig} n :
  LibEnv (lib_env (S n)).
Proof. by exists (lib_env n). Defined.

Section Tuning.
Context {KN : Kernel} {HZ : Hash Z} {BR : BitRange} {AC : ApfConfig} {LC : LibConfig}.
  Abbreviation inv := (heap_inv TARGET_APF).
  Abbreviation host := (host (target := TARGET_APF)).

(** ** Arrays *)
Section Arrays.
Context {E : ApfEnv World}.
Variables (t : nat) (caches : gmap nat (list ThreadCacheBin)) (L : Ledger) (C : gmap Z Place) (ua : bool) (l : Tls).

(** [do_aligned_alloc] of the array of a trace *)
Lemma alloc_array T k size w :
  host t caches L T C ua l w -> 0 <= size <= 2 ^ 30 -> PAGE < align_size size 8 ->
  Z.of_nat (os_of w).(calls) + 2 < CALLS_LIMIT ->
  (exists p w', do_aligned_alloc 8 size w = Ok (p, w') /\ p <> 0 /\
     reach REQUEST_LIMIT 2 (os_of w) (os_of w') /\
     host t caches L (<[k := (p, aligned_bytes 8 (align_size size 8))]> T) C ua l w') \/
  (exists w', do_aligned_alloc 8 size w = Ok (0, w') /\ refusal REQUEST_LIMIT 2 (os_of w)) \/
  (exists msg, do_aligned_alloc 8 size w = Err (Panic msg) /\ refusal REQUEST_LIMIT 2 (os_of w)).
Proof.
  intros Hw Hs Hp Hc. destruct (host_stable _ _ _ _ _ _ _ _ Hw) as (g & Hst & Hh).
  pose proof (stb_inv _ _ _ _ Hst) as Hi.
  destruct (do_aligned_big w _ g t 3 size Hst) as
    [(p & s' & g' & Ea & _ & Hg & _ & q & d & Hq & R)|[(s' & Ea & _ & _ & _ & Hr)|(msg & Ea & Hr)]];
    [lia|exact Hs|exact Hp|unfold os_of in Hc; lia| | |].
  - change (2 ^ 3) with 8 in *. assert (q = p) as -> by done.
    left. exists p, (world_after w s' w.(w_tls).(thread_cache)). split; [exact Ea|].
    pose proof (gr_inv _ _ _ _ _ _ _ Hg) as Hi'.
    split; [|split; [apply Hg|]].
    + assert (Hl : live s' g' p (p + aligned_bytes 8 (align_size size 8) - p)) by (eapply live_large; done).
      destruct (live_mapped _ Hi' _ _ Hl). lia.
    + eapply host_after_same; [done|exact Hi'|]. eapply house_traced; [exact Hi|exact Hh|exact Hg|exact R].
  - right. left. eexists. split; [exact Ea|]. by apply (refusal_mono _ 1); [lia|].
  - right. right. exists msg. split; [exact Ea|]. by apply (refusal_mono _ 1); [lia|].
Qed.

(** [do_realloc] of the array of a trace *)
Lemma grow_array T k p len size :
  T !! k = Some (p, len) -> len <= size < 2 ^ 32 - PAGE ->
  triple 3 (host t caches L T C ua l) (do_realloc p size)
    (λ q w, q <> 0 /\ host t caches L (<[k := (q, page_ceiling size)]> T) C ua l w).
Proof.
  intros Hk Hs w Hw Hc. destruct (host_stable _ _ _ _ _ _ _ _ Hw) as (g & Hst & Hh).
  pose proof (stb_inv _ _ _ _ Hst) as Hi.
  destruct (to_role _ _ _ (ho_traces _ _ _ _ _ Hh) _ _ _ Hk) as [d R].
  pose proof (trace_live w.(w_state) _ _ _ _ _ _ (ho_traces _ _ _ _ _ Hh) Hk) as Hlp.
  destruct (i_roles _ _ _ _ Hi _ _ R) as (_ & _ & Hlen & _).
  destruct (live_mapped _ Hi _ _ Hlp) as (Hp0 & _ & Hc0 & _).
  unfold do_realloc. destruct (Z.eqb_spec p 0); [lia|].
  rewrite (bind_Ok _ _ _ _ _ (size_class_of_ok w size)).
  rewrite (bind_Ok _ _ _ _ _ (get_allocation_size_heap w p len (large_allocation_size w _ g p d p len Hi R))).
  rewrite (bind_Ok _ _ _ _ _ (size_class_of_ok w len)).
  unfold get_size_class. destruct (Z.gtb_spec len MAX_SZ), (Z.gtb_spec size MAX_SZ); [|lia..].
  cbn [Z.eqb negb andb orb]. destruct (Z.ltb_spec size len); [lia|].
  destruct (do_malloc_big w _ g t size Hst ltac:(lia)) as [(q & s1 & g1 & Em & Hg & _ & d1 & R1)|(msg & Em & Hr)];
    [unfold os_of in Hc; lia| |].
  2:{ right. exists msg. split; [by rewrite (bind_Err _ _ _ _ Em)|]. by apply (refusal_mono _ 1); [lia|]. }
  rewrite (bind_Ok _ _ _ _ _ Em). clear Em. set (cs := w.(w_tls).(thread_cache)).
  pose proof (gr_inv _ _ _ _ _ _ _ Hg) as Hi1.
  pose proof (house_granted _ _ _ _ _ _ _ _ _ _ _ Hi Hh Hg) as Hh1.
  destruct (copy_into_new _ _ _ _ _ p len q size Hi1 Hg Hlp ltac:(lia)) as (Ecp & Hi2 & _).
  set (m2 := copy _ _ _ _ _) in *.
  assert (Hlq : live s1 g1 q (page_ceiling size)).
  { eapply live_large; [exact R1|]. lia. }
  destruct (live_mapped _ Hi1 _ _ Hlq) as (Hq0 & _).
  pose proof (granted_fresh _ _ _ _ _ _ _ _ _ Hi (ho_ledger _ _ _ _ _ Hh) Hg) as [_ Hq].
  assert (Hqp : q <> p) by (intros ->; by apply (gr_new _ _ _ _ _ _ _ Hg len)).
  destruct (Z.eqb_spec q 0); [lia|]. destruct (Z.eqb_spec q p); [done|]. cbn [negb andb].
  assert (Eo : os (memcpy q p len) (world_after w s1 cs) = Ok (tt, world_after w (set_mem m2 s1) cs)).
  { unfold os, heap, with_os, zoom. simpl. by rewrite Ecp. }
  rewrite (bind_Ok _ _ _ _ _ Eo).
  assert (Hh2 : house (set_mem m2 s1) g1 L T C).
  { eapply house_written; [done|done|exact Hlq|done|]. intros a Ha. unfold m2. rewrite load8_copy.
    rewrite decide_False; [done|]. destruct (page_ceiling_rounds size); change PAGE with 4096 in *; lia. }
  destruct (to_role _ _ _ (ho_traces _ _ _ _ _ Hh2) _ _ _ Hk) as [d2 R2].
  destruct (do_free_large (world_after w (set_mem m2 s1) cs) _ g1 p d2 p len Hi2 R2) as (s3 & Ef & Hrel).
  rewrite (bind_Ok _ _ _ _ _ Ef). apply outcome_here.
  - eapply (reach_trans _ 2 1); [exact (gr_reach _ _ _ _ _ _ _ Hg)|].
    by eapply reach_from_same; [..|exact (re_reach _ _ _ _ _ _ Hrel)].
  - split; [done|]. rewrite world_after_twice.
    change (thread_cache (w_tls (world_after w (set_mem m2 s1) cs))) with w.(w_tls).(thread_cache).
    eapply host_after_same; [done|exact (re_inv _ _ _ _ _ _ Hrel)|].
    pose proof (house_untraced _ _ _ _ _ _ _ _ _ _ _ _ Hi2 Hh2 Hrel Hk) as Hh3.
    rewrite <- (insert_delete_eq T k). eapply house_trace; [exact Hh3| |done|].
    + exact (placed_released _ _ _ _ _ _ _ (InSegment q d1 _) Hrel Hqp R1).
    + intros k' len' [_ Hk']%lookup_delete_Some. apply (gr_new _ _ _ _ _ _ _ Hg len').
      exact (trace_live _ _ _ _ _ _ _ (ho_traces _ _ _ _ _ Hh) Hk').
Qed.

(** [do_free] of the array of a trace *)
Lemma free_array T k p len :
  T !! k = Some (p, len) ->
  triple 1 (host t caches L T C ua l) (do_free p) (λ _, host t caches L (delete k T) C ua l).
Proof.
  intros Hk w Hw _. destruct (host_stable _ _ _ _ _ _ _ _ Hw) as (g & Hst & Hh).
  pose proof (stb_inv _ _ _ _ Hst) as Hi.
  destruct (to_role _ _ _ (ho_traces _ _ _ _ _ Hh) _ _ _ Hk) as [d R].
  destruct (do_free_large w _ g p d p len Hi R) as (s' & Ef & Hrel). rewrite Ef.
  apply outcome_here; [exact (re_reach _ _ _ _ _ _ Hrel)|].
  eapply host_after_same; [done|exact (re_inv _ _ _ _ _ _ Hrel)|].
  exact (house_untraced _ _ _ _ _ _ _ _ _ _ _ _ Hi Hh Hrel Hk).
Qed.

(** [do_aligned_alloc] of a histogram, by a thread whose tuners are being made *)
Lemma alloc_small T size :
  0 <= size <= 2 ^ 30 -> align_size size 8 <= PAGE -> untuned ua l ->
  triple 2 (host t caches L T C ua l) (do_aligned_alloc 8 size)
    (λ p w, p <> 0 /\ exists cs, host t caches L T C ua (set_cache cs l) w).
Proof.
  intros Hs Hp Hu w Hw Hc. destruct (host_stable _ _ _ _ _ _ _ _ Hw) as (g & Hst & Hh).
  pose proof (stb_inv _ _ _ _ Hst) as Hi.
  destruct (do_aligned_small w _ g t 3 size Hst) as [(p & s' & cs & g' & Ea & _ & _ & Hg)|(msg & Ea & Hr)];
    [lia|exact Hs|exact Hp|unfold os_of in Hc; lia| |].
  - change (2 ^ 3) with 8 in *. rewrite Ea. clear Ea.
    assert (Hu' : untuned (world_after w s' cs).(w_use_apf) (world_after w s' cs).(w_tls)).
    { destruct Hw as [_ <- <- _ _ _]. exact Hu. }
    rewrite (bind_Ok _ _ _ _ _ (record_malloc_untuned _ _ _ Hu')).
    apply outcome_here; [apply Hg|]. split.
    + destruct (gr_live _ _ _ _ _ _ _ Hg) as (cap & _ & Hl). pose proof (gr_inv _ _ _ _ _ _ _ Hg) as Hi'.
      destruct (live_mapped _ Hi' p cap); [apply Hl; by right|lia].
    + exists cs. eapply host_after; [done|exact (gr_inv _ _ _ _ _ _ _ Hg)|]. by eapply house_granted.
  - right. exists msg. change (2 ^ 3) with 8 in *. split; [exact Ea|]. by apply (refusal_mono _ 1); [lia|].
Qed.
End Arrays.

(** ** Traces *)
Definition trace_ok (T : Traces) (k : nat * nat) (tr : Trace) (n : Z) : Prop :=
  trace_wf tr n /\ exists p, tr.(tr_ptr) = Some p /\ T !! k = Some (p, EVENT_SIZE * tr.(tr_cap)).

(** Only the entry of [k] changes. *)
Definition same_but (k : nat * nat) (T T' : Traces) : Prop := forall k', k' <> k -> T' !! k' = T !! k'.

Lemma same_but_refl k T : same_but k T T.
Proof. done. Qed.

Lemma same_but_trans k T1 T2 T3 : same_but k T1 T2 -> same_but k T2 T3 -> same_but k T1 T3.
Proof. intros H1 H2 k' Hk. by rewrite H2, H1. Qed.

Lemma same_but_insert k x T : same_but k T (<[k := x]> T).
Proof. intros k' Hk. by rewrite lookup_insert_ne. Qed.

Lemma same_but_delete k T : same_but k T (delete k T).
Proof. intros k' Hk. by rewrite lookup_delete_ne. Qed.

Section Traces.
Context {E : ApfEnv World} {LE : LibEnv E}.
Variables (t : nat) (caches : gmap nat (list ThreadCacheBin)) (L : Ledger) (C : gmap Z Place) (ua : bool) (l : Tls).
  Abbreviation host := (host t caches L).

Lemma trace_new_ok T k :
  triple 2 (host T C ua l) trace_new
    (λ tr w, exists T', trace_ok T' k tr 0 /\ tr.(tr_cap) = INIT_TRACE_LENGTH /\ same_but k T T' /\ host T' C ua l w).
Proof.
  intros w Hw Hc. unfold trace_new. rewrite le_allocate.
  destruct (alloc_array t caches L C ua l T k (INIT_TRACE_LENGTH * EVENT_SIZE) w Hw) as
    [(p & w' & Ea & Hp & Hr & Hw')|[(w' & Ea & Hr)|(msg & Ea & Hr)]]; [by vm_compute..|unfold os_of in *; lia| | |].
  - rewrite (bind_Ok _ _ _ _ _ Ea). destruct (Z.eqb_spec p 0); [done|]. apply outcome_here; [done|].
    eexists. split; [|split; [done|split; [apply same_but_insert|exact Hw']]]. split.
    + split; simpl; [done|by vm_compute| |done|done]. exists 64. by vm_compute.
    + exists p. split; [done|]. by rewrite lookup_insert_eq.
  - rewrite (bind_Ok _ _ _ _ _ Ea). right. by eexists.
  - rewrite (bind_Err _ _ _ _ Ea). right. by eexists.
Qed.

Lemma page_ceiling_pages n : 0 <= n -> n + PAGE < 2 ^ 64 -> (PAGE | n) -> page_ceiling n = n.
Proof.
  intros H0 H1 [q Hq]. destruct (page_ceiling_rounds n) as [[q' Hq'] Hr]; [done|lia|].
  change PAGE with 4096 in *. lia.
Qed.

(** The array is doubled when it is full. *)
Lemma trace_room_ok T k tr n :
  trace_ok T k tr n -> tr.(tr_cap) < 2 ^ 27 ->
  triple 3 (host T C ua l)
    (if tr.(tr_length) =? usize (tr.(tr_cap) - 1) then
       page ← env_realloc (default 0 tr.(tr_ptr)) (usize (usize (tr.(tr_cap) * 2) * EVENT_SIZE));
       if page =? 0 then fail (Panic "Error initializing trace")
       else mret (mkTrace (Some page) tr.(tr_cells) (usize (tr.(tr_cap) * 2)) tr.(tr_length) tr.(alloc_count))
     else mret tr)
    (λ tr' w, exists T', trace_ok T' k tr' n /\ same_but k T T' /\ tr'.(tr_length) + 1 < tr'.(tr_cap) /\
       tr'.(tr_cap) <= 2 * tr.(tr_cap) /\ host T' C ua l w).
Proof.
  intros [Hwf (p & Hp & HT)] Hc. pose proof Hwf as [W1 W2 (q & W3 & W4 & W5) W6 W7].
  rewrite (usize_small (tr_cap tr - 1)) by lia. destruct (Z.eqb_spec (tr_length tr) (tr_cap tr - 1)) as [Hl|Hl].
  - rewrite le_realloc, Hp. cbn [default]. rewrite (usize_small (tr_cap tr * 2)) by lia.
    unfold EVENT_SIZE. rewrite usize_small by lia. apply (triple_bind 3 0 _ _ _ (λ page w, page <> 0 /\
      host (<[k := (page, page_ceiling (tr_cap tr * 2 * 16))]> T) C ua l w)).
    + eapply grow_array; [exact HT|]. unfold EVENT_SIZE. change PAGE with 4096. lia.
    + intros page w [Hpg Hw] _. destruct (Z.eqb_spec page 0); [done|]. apply outcome_here; [apply reach_refl|].
      eexists. split; [|split; [apply same_but_insert|split; [|split; [|exact Hw]]]]; simpl; [|lia|lia].
      split.
      * split; simpl; [done|lia| |done|done]. exists (2 * q). lia.
      * exists page. split; [done|]. rewrite lookup_insert_eq. simpl. do 2 f_equal.
        rewrite page_ceiling_pages; [unfold EVENT_SIZE; lia|lia|change PAGE with 4096; lia|].
        exists (2 * q). change PAGE with 4096. lia.
  - apply triple_ret. intros w Hw. exists T. split; [by split; [|exists p]|]. split; [done|]. split; [lia|].
    split; [lia|done].
Qed.

Lemma trace_add_ok e T k tr n :
  trace_ok T k tr n -> tr.(tr_cap) < 2 ^ 27 ->
  triple 3 (host T C ua l) (trace_add e tr)
    (λ tr' w, exists T', trace_ok T' k tr' (n + alloc_incr e) /\ same_but k T T' /\
       tr'.(tr_cap) <= 2 * tr.(tr_cap) /\ host T' C ua l w).
Proof.
  intros Hok Hc. unfold trace_add. apply (triple_bind 3 0 _ _ _ _ _ (trace_room_ok T k tr n Hok Hc)).
  intros tr' w (T' & [Hwf (p & Hp & HT)] & Hs & Hroom & Hcap & Hw) _.
  destruct (trace_store_wf e tr' n Hwf Hroom) as (tr2 & E2 & Hwf2 & Hp2 & Hc2).
  unfold lift. rewrite E2. apply outcome_here; [apply reach_refl|]. exists T'.
  split; [|split; [done|split; [lia|done]]]. split; [done|]. exists p. by rewrite Hp2, Hc2.
Qed.

Lemma trace_drop_ok T k tr n :
  trace_ok T k tr n ->
  triple 1 (host T C ua l) (trace_drop tr) (λ _, host (delete k T) C ua l).
Proof. intros [_ (p & Hp & HT)]. unfold trace_drop. rewrite Hp, le_free. by eapply free_array. Qed.

(** ** Reuse counters *)
Definition counter_ok (T : Traces) (k : nat * nat) (r : ReuseCounter) (n : Z) : Prop :=
  match r.(rc_trace) with Some tr => trace_ok T k tr n | None => T !! k = None end.

Definition counter_cap (r : ReuseCounter) : Z :=
  match r.(rc_trace) with Some tr => tr.(tr_cap) | None => 0 end.

Lemma rc_add_ok e T k r n :
  counter_ok T k r n -> counter_cap r < 2 ^ 27 ->
  triple 3 (host T C ua l) (rc_add e r)
    (λ r' w, exists T', counter_ok T' k r' (n + alloc_incr e) /\ same_but k T T' /\
       counter_cap r' <= 2 * counter_cap r /\ host T' C ua l w).
Proof.
  unfold counter_ok, counter_cap, rc_add. destruct (rc_trace r) as [tr|] eqn:Er; intros Hok Hc.
  - apply (triple_bind 3 0 _ _ _ _ _ (trace_add_ok e T k tr n Hok Hc)). intros tr'. by apply triple_ret.
  - apply triple_ret. intros w Hw. exists T. rewrite Er. split; [done|]. split; [done|]. split; [lia|done].
Qed.

Lemma rc_inc_timer_ok T k r n :
  counter_ok T k r n -> 1 <= n -> 
  triple 2 (host T C ua l) (rc_inc_timer r)
    (λ r' w, exists T' n', 0 <= n' /\ counter_ok T' k r' n' /\ same_but k T T' /\
       counter_cap r' <= Z.max (counter_cap r) INIT_TRACE_LENGTH /\ host T' C ua l w).
Proof.
  unfold counter_ok, counter_cap, rc_inc_timer. destruct (rc_trace r) as [tr|] eqn:Er; intros Hok Hn.
  - case_match.
    + destruct (reuse_total tr n (proj1 Hok) Hn) as [m Hm]. rewrite Hm.
      change (lift (Ok m)) with (mret m : M World _). intros w Hw Hc. rewrite bind_mret.
      refine (triple_bind 1 1 _ _ _ _ _ (trace_drop_ok T k tr n Hok) _ w Hw Hc). intros _.
      apply triple_ret. intros w' Hw'. exists (delete k T), 0. simpl. split; [done|].
      split; [by rewrite lookup_delete_eq|]. split; [apply same_but_delete|]. split; [|done].
      destruct Hok as [[_ _ (q & ? & ?) _ _] _]. lia.
    + apply triple_ret. intros w Hw. exists T, n. simpl. split; [lia|]. do 2 (split; [done|]). split; [lia|done].
  - case_match.
    + apply (triple_bind 2 0 _ _ _ _ _ (trace_new_ok T k)). intros tr. apply triple_ret.
      intros w (T' & Hok' & Hcap & Hs & Hw). exists T', 0. simpl. do 3 (split; [done|]). split; [lia|done].
    + apply triple_ret. intros w Hw. exists T, n. simpl. split; [lia|]. do 2 (split; [done|]). split; [lia|done].
Qed.

End Traces.

(** ** Tuners *)
Record tuner_ok (T : Traces) (k : nat * nat) (a : ApfTuner) : Prop := {
  tu_time : 0 <= a.(time);
  tu_fetch : a.(fetch_count) = 0;
  tu_id : a.(tuner_id) = Z.of_nat k.2;
  tu_counter : exists n, 0 <= n /\ counter_ok T k a.(r_counter) n;
}.

(** The time has not come: the next window is longer than what has been seen. *)
Definition watches (now : Z) (a : ApfTuner) : Prop :=
  2 * now < TARGET_APF /\ counter_cap a.(r_counter) < 2 ^ 27.

Lemma demand_unknown (a : ApfTuner) :
  0 <= TARGET_APF < 2 ^ 64 -> 0 <= a.(time) -> 2 * a.(time) < TARGET_APF -> a.(fetch_count) = 0 ->
  demand a (calculate_dapf a) = Ok None.
Proof.
  intros Ht H0 H2 Hf. unfold demand, calculate_dapf. rewrite Hf, (usize_small (0 + 1)) by lia.
  rewrite usize_small by lia. destruct (Z.leb_spec (TARGET_APF * (0 + 1)) (time a)); [lia|].
  destruct (Z.gtb_spec (TARGET_APF * (0 + 1) - time a) (time a)); [done|lia].
Qed.

Section Tuners.
Context {E : ApfEnv World} {LE : LibEnv E}.
Variables (t : nat) (caches : gmap nat (list ThreadCacheBin)) (L : Ledger) (C : gmap Z Place) (ua : bool) (l : Tls).
  Abbreviation host := (host t caches L).

Lemma host_target T w : host T C ua l w -> 0 <= TARGET_APF < 2 ^ 64.
Proof.
  intros [(g & Hi & _) _ _ _ _ _]. destruct (i_sizes _ _ _ _ Hi) as [Hb _].
  unfold TARGET_APF_BOUND in Hb. lia.
Qed.

Lemma tuner_check_ok k T i :
  1 <= i < MAX_SZ_IDX -> triple k (host T C ua l) (tuner_check i) (λ _, host T C ua l).
Proof.
  intros Hidx w Hw _. destruct (h_heap _ _ _ _ _ _ _ _ Hw) as (g & Hi & _).
  destruct (i_bins _ _ _ _ Hi t l.(thread_cache) (lookup_insert_eq _ _ _) i Hidx) as (c & Hc & _).
  unfold tuner_check. rewrite <- (h_tls _ _ _ _ _ _ _ _ Hw) in Hc.
  rewrite (bind_Ok _ _ _ _ _ (get_bin_ok w i c ltac:(lia) Hc)). by apply outcome_here; [apply reach_refl|].
Qed.

Lemma tuner_malloc_ok ptr T k a :
  tuner_ok T k a -> watches (a.(time) + 1) a -> 1 <= Z.of_nat k.2 < MAX_SZ_IDX ->
  triple 5 (host T C ua l) (tuner_malloc ptr a)
    (λ r w, exists T', tuner_ok T' k r.2 /\ same_but k T T' /\ r.2.(time) = a.(time) + 1 /\
       counter_cap r.2.(r_counter) <= Z.max (2 * counter_cap a.(r_counter)) INIT_TRACE_LENGTH /\ host T' C ua l w).
Proof.
  intros [A1 A2 A3 (n & Hn & A4)] [W1 W2] Hk w Hw Hl. pose proof (host_target _ _ Hw) as Ht.
  unfold tuner_malloc, USE_ALLOCATION_CLOCK. rewrite bind_mret, (usize_small (time a + 1)) by lia.
  refine (triple_bind 3 2 _ _ _ _ _ (rc_add_ok t caches L C ua l (Alloc ptr) T k _ n A4 W2) _ w Hw Hl).
  clear w Hw Hl. intros r w (T1 & R1 & S1 & C1 & Hw) Hl. simpl in R1.
  refine (triple_bind 2 0 _ _ _ _ _ (rc_inc_timer_ok t caches L C ua l T1 k r (n + 1) R1 ltac:(lia)) _ w Hw Hl).
  clear w Hw Hl. intros r' w (T2 & n' & Hn' & R2 & S2 & C2 & Hw) Hl.
  set (a' := mkTuner (tuner_id a) (l_counter a) r' (time a + 1) (fetch_count a) (record a)). cbv zeta.
  change (tuner_id a') with (tuner_id a). rewrite le_check, A3.
  refine (triple_bind 0 0 _ _ _ _ _ (tuner_check_ok 0 T2 _ Hk) _ w Hw Hl). clear w Hw Hl. intros free w Hw _.
  assert (Ha' : tuner_ok T2 k a').
  { split; simpl; [lia|done|done|by exists n']. }
  assert (Hout : exists T', tuner_ok T' k a' /\ same_but k T T' /\ a'.(time) = a.(time) + 1 /\
      counter_cap a'.(r_counter) <= Z.max (2 * counter_cap a.(r_counter)) INIT_TRACE_LENGTH /\ host T' C ua l w).
  { exists T2. split; [done|]. split; [by eapply same_but_trans|]. split; [done|]. split; [simpl; lia|done]. }
  destruct (free =? 0); [|apply outcome_here; [apply reach_refl|exact Hout]].
  rewrite (demand_unknown a' Ht (tu_time _ _ _ Ha') W1 A2).
  change (lift (Ok None)) with (mret None : M World (option float)).
  rewrite bind_mret. apply outcome_here; [apply reach_refl|exact Hout].
Qed.

Lemma tuner_free_ok ptr T k a :
  tuner_ok T k a -> watches a.(time) a ->
  triple 3 (host T C ua l) (tuner_free ptr a)
    (λ r w, exists T', tuner_ok T' k r.2 /\ same_but k T T' /\ host T' C ua l w).
Proof.
  intros [A1 A2 A3 (n & Hn & A4)] [W1 W2] w Hw Hl. pose proof (host_target _ _ Hw) as Ht.
  unfold tuner_free, USE_ALLOCATION_CLOCK.
  refine (triple_bind 3 0 _ _ _ _ _ (rc_add_ok t caches L C ua l (Trace.Free ptr) T k _ n A4 W2) _ w Hw Hl).
  clear w Hw Hl. intros r w (T1 & R1 & S1 & C1 & Hw) _. rewrite bind_mret.
  set (a' := mkTuner _ _ _ _ _ _). rewrite (demand_unknown a' Ht A1 W1 A2).
  change (lift (Ok None)) with (mret None : M World (option float)).
  rewrite bind_mret. apply outcome_here; [apply reach_refl|].
  exists T1. split; [|done]. split; simpl; [lia|done|done|]. exists (n + 0). by split; [lia|].
Qed.
End Tuners.

(** ** The tuners of a thread

    A thread is untuned, or has not allocated yet, or has a tuner per class. *)
Definition fresh (l : Tls) : Prop :=
  l.(skip) = false /\ l.(apf_init) = false /\ l.(skip_tuners) = 1 /\ l.(apf_tuners) = [].

Definition tuners_ok (T : Traces) (t : nat) (as' : list ApfTuner) : Prop :=
  forall i a, as' !! i = Some a -> tuner_ok T (t, i) a.

Record tuned (T : Traces) (t : nat) (l : Tls) : Prop := {
  td_skip : l.(skip) = true;
  td_init : l.(apf_init) = true;
  td_tuning : l.(skip_tuners) = 0;
  td_length : Z.of_nat (length l.(apf_tuners)) = MAX_SZ_IDX;
  td_tuners : tuners_ok T t l.(apf_tuners);
}.

Definition mode_ok (ua : bool) (T : Traces) (t : nat) (l : Tls) : Prop :=
  untuned ua l \/ (ua = true /\ l.(panicking) = false /\ (fresh l \/ tuned T t l)).

(** No tuner of the thread is about to act: an allocation, or a free, can follow. *)
Definition calm (l : Tls) : Prop :=
  forall i a, l.(apf_tuners) !! i = Some a ->
    2 * (a.(time) + 1) < TARGET_APF /\ counter_cap a.(r_counter) < 2 ^ 26.

Definition patient (l : Tls) : Prop := forall i a, l.(apf_tuners) !! i = Some a -> watches a.(time) a.

Lemma calm_patient l : calm l -> patient l.
Proof. intros H i a Ha. destruct (H i a Ha). split; lia. Qed.

(** The tuners of the other threads are left alone. *)
Definition same_others (t : nat) (T T' : Traces) : Prop := forall t' i, t' <> t -> T' !! (t', i) = T !! (t', i).

Lemma same_but_others t i T T' : same_but (t, i) T T' -> same_others t T T'.
Proof. intros H t' j Hne. apply H. congruence. Qed.

Lemma same_others_trans t T1 T2 T3 : same_others t T1 T2 -> same_others t T2 T3 -> same_others t T1 T3.
Proof. intros H1 H2 t' i Hne. by rewrite H2, H1. Qed.

Lemma tuner_ok_same T T' k a : T' !! k = T !! k -> tuner_ok T k a -> tuner_ok T' k a.
Proof.
  intros HT [H1 H2 H3 (n & Hn & H4)]. split; [done|done|done|]. exists n. split; [done|].
  unfold counter_ok, trace_ok in *. by rewrite HT.
Qed.

Lemma mode_others ua t t' T T' l : mode_ok ua T t' l -> same_others t T T' -> t' <> t -> mode_ok ua T' t' l.
Proof.
  intros [H|(H1 & H2 & [H|[]])] Ho Hne; [by left|right; split; [done|]; split; [done|by left]|].
  right. split; [done|]. split; [done|]. right. split; try done.
  intros i a Ha. eapply tuner_ok_same; [by apply Ho|by apply td_tuners0].
Qed.

Lemma tuned_insert T T' t l i a' :
  tuned T t l -> same_but (t, i) T T' -> tuner_ok T' (t, i) a' ->
  tuned T' t (set_apf_tuners (<[i := a']> l.(apf_tuners)) l).
Proof.
  intros [H1 H2 H3 H4 H5] Hs Ha. split; simpl; try done.
  - by rewrite length_insert.
  - intros j a. destruct (decide (j = i)) as [->|Hne].
    + intros Hj. assert (Hlt : (i < length l.(apf_tuners))%nat).
      { apply lookup_lt_Some in Hj. by rewrite length_insert in Hj. }
      rewrite list_lookup_insert_eq in Hj by done. by injection Hj as <-.
    + rewrite list_lookup_insert_ne by done. intros Hj. eapply tuner_ok_same; [|by apply H5].
      apply Hs. congruence.
Qed.

Section Threads.
Context {E : ApfEnv World} {LE : LibEnv E}.
Variables (t : nat) (caches : gmap nat (list ThreadCacheBin)) (L : Ledger) (C : gmap Z Place).
  Abbreviation host := (host t caches L).

Lemma with_tuner_ok k ua l i op a (T : Traces) (X : Traces -> ApfTuner -> Prop) :
  l.(apf_tuners) !! Z.to_nat i = Some a ->
  triple k (host T C ua l) (op a) (λ r w, exists T', X T' r.2 /\ host T' C ua l w) ->
  triple k (host T C ua l) (with_tuner i op)
    (λ _ w, exists T' a', X T' a' /\
       host T' C ua (set_apf_tuners (<[Z.to_nat i := a']> l.(apf_tuners)) l) w).
Proof.
  intros Ha Hop w Hw Hl. unfold with_tuner. rewrite bind_gets.
  rewrite (h_tls _ _ _ _ _ _ _ _ Hw), Ha. unfold unwrap. rewrite bind_mret.
  rewrite <- (Nat.add_0_r k). eapply outcome_bind; [by apply Hop|].
  intros [b a'] w' (T' & HX & Hw') Hr. simpl in HX.
  eapply outcome_mono; [eapply host_modify; [| |exact Hw'|]|done|].
  - done.
  - done.
  - apply reach_calls in Hr. unfold os_of in *. lia.
  - intros u w2 H2. exists T', a'. split; [done|].
    replace (set_apf_tuners _ l) with
      ((λ l0, set_apf_tuners (<[Z.to_nat i := a']> l0.(apf_tuners)) l0) l) by done. exact H2.
Qed.

Lemma record_free_tuned i ptr (T : Traces) l :
  tuned T t l -> patient l -> 1 <= i < MAX_SZ_IDX ->
  triple 3 (host T C true l) (record_free i ptr)
    (λ _ w, exists T' l', tuned T' t l' /\ l'.(thread_cache) = l.(thread_cache) /\ same_others t T T' /\
       host T' C true l' w).
Proof.
  intros Ht Hp Hi w Hw Hl. unfold record_free. rewrite bind_get.
  rewrite (h_apf _ _ _ _ _ _ _ _ Hw), (h_tls _ _ _ _ _ _ _ _ Hw), (td_init _ _ _ Ht), (td_tuning _ _ _ Ht).
  cbn [andb Z.eqb].
  destruct (lookup_lt_is_Some_2 l.(apf_tuners) (Z.to_nat i)) as [a Ha].
  { pose proof (td_length _ _ _ Ht). change MAX_SZ_IDX with 40 in *. lia. }
  eapply outcome_mono; [eapply (with_tuner_ok 3 true l i _ a T (λ T' a', tuner_ok T' (t, Z.to_nat i) a' /\
    same_but (t, Z.to_nat i) T T')); [exact Ha| |exact Hw|exact Hl]|done|].
  - eapply triple_weaken; [eapply tuner_free_ok; [by apply (td_tuners _ _ _ Ht)|by eapply Hp]|done|done|].
    intros r w' (T' & H1 & H2 & H3). by exists T'.
  - intros u w' (T' & a' & [H1 H2] & Hw'). eexists T', _. split; [by eapply tuned_insert|].
    split; [done|]. split; [by eapply same_but_others|done].
Qed.

(** A tuned thread records an allocation. *)
Lemma with_tuner_malloc i ptr (T : Traces) l :
  tuned T t l -> calm l -> 1 <= i < MAX_SZ_IDX ->
  triple 5 (host T C true l) (with_tuner i (tuner_malloc ptr))
    (λ _ w, exists T' l', tuned T' t l' /\ patient l' /\ l'.(thread_cache) = l.(thread_cache) /\
       same_others t T T' /\ host T' C true l' w).
Proof.
  intros Ht Hp Hi.
  destruct (lookup_lt_is_Some_2 l.(apf_tuners) (Z.to_nat i)) as [a Ha].
  { pose proof (td_length _ _ _ Ht). change MAX_SZ_IDX with 40 in *. lia. }
  destruct (Hp _ _ Ha) as [P1 P2].
  eapply triple_weaken; [eapply (with_tuner_ok 5 true l i _ a T (λ T' a', tuner_ok T' (t, Z.to_nat i) a' /\
    same_but (t, Z.to_nat i) T T' /\ watches a'.(time) a')); [exact Ha|]|done|done|].
  - eapply triple_weaken; [eapply tuner_malloc_ok; [by apply (td_tuners _ _ _ Ht)| |]|done|done|].
    + split; lia.
    + simpl. lia.
    + intros r w' (T' & H1 & H2 & H3 & H4 & H5). exists T'. split; [|done]. split; [done|]. split; [done|].
      change INIT_TRACE_LENGTH with 16384 in H4. rewrite H3. split; lia.
  - intros u w' (T' & a' & (H1 & H2 & H3) & Hw'). eexists T', _. split; [by eapply tuned_insert|].
    split; [|split; [done|split; [by eapply same_but_others|done]]].
    intros j b. simpl. intros [[<- [<- _]]|[_ Hb]]%list_lookup_insert_Some; [done|]. by eapply calm_patient.
Qed.

(** Whether the tuners are on is read again after they have been made. *)
Lemma tuned_tail {B} (c d : M World B) (T : Traces) l w :
  tuned T t l -> host T C true l w ->
  (t0 ← gets w_tls; if t0.(skip_tuners) =? 0 then c else d) w = c w.
Proof. intros Ht Hw. rewrite bind_gets, (h_tls _ _ _ _ _ _ _ _ Hw). by rewrite (td_tuning _ _ _ Ht). Qed.

Lemma record_malloc_tuned i ptr (T : Traces) l :
  tuned T t l -> calm l -> 1 <= i < MAX_SZ_IDX ->
  triple 5 (host T C true l) (record_malloc i ptr)
    (λ _ w, exists T' l', tuned T' t l' /\ patient l' /\ l'.(thread_cache) = l.(thread_cache) /\
       same_others t T T' /\ host T' C true l' w).
Proof.
  intros Ht Hp Hi w Hw Hl. unfold record_malloc. rewrite bind_get.
  rewrite (h_apf _ _ _ _ _ _ _ _ Hw), (h_tls _ _ _ _ _ _ _ _ Hw), (td_skip _ _ _ Ht).
  rewrite bind_mret, (tuned_tail _ _ _ _ _ Ht Hw). by apply with_tuner_malloc.
Qed.

(** *** The tuners are made

    The bins of the thread change, as the histograms are small blocks. *)
Definition hostc (T : Traces) (ua : bool) (l : Tls) (w : World) : Prop :=
  exists cs, host T C ua (set_cache cs l) w.

Lemma hist_new_ok T ua l : untuned ua l -> triple 2 (hostc T ua l) hist_new (λ _, hostc T ua l).
Proof.
  intros Hu w (cs & Hw) Hl. unfold hist_new. rewrite le_allocate. rewrite <- (Nat.add_0_r 2).
  eapply outcome_bind.
  - eapply (alloc_small (E := inner) t caches L C ua (set_cache cs l) T); [by vm_compute|by vm_compute|done|exact Hw|exact Hl].
  - intros p w' (Hp & cs' & Hw') _. unfold assertM. destruct (Z.eqb_spec p 0); [done|]. cbn [negb].
    rewrite bind_mret. apply outcome_here; [apply reach_refl|]. by exists cs'.
Qed.

Lemma lc_new_ok T ua l : untuned ua l -> triple 8 (hostc T ua l) lc_new (λ _, hostc T ua l).
Proof.
  intros Hu. pose proof (hist_new_ok T ua l Hu) as H. unfold lc_new.
  do 4 (apply (triple_bind 2 _ _ _ _ _ _ H); intros ?). by apply (triple_ret 0).
Qed.

Lemma tuner_new_ok T ua l i b :
  untuned ua l ->
  triple 10 (hostc T ua l) (tuner_new (Z.of_nat i) b)
    (λ a w, exists T', tuner_ok T' (t, i) a /\ a.(time) = 0 /\ counter_cap a.(r_counter) = INIT_TRACE_LENGTH /\
       same_but (t, i) T T' /\ hostc T' ua l w).
Proof.
  intros Hu. unfold tuner_new. apply (triple_bind 8 2 _ _ _ _ _ (lc_new_ok T ua l Hu)). intros lc w (cs & Hw) Hl.
  unfold rc_new. rewrite bind_assoc.
  refine (triple_bind 2 0 _ _ _ _ _ (trace_new_ok t caches L C ua (set_cache cs l) T (t, i)) _ w Hw Hl).
  clear w Hw Hl. intros tr w (T' & H1 & H2 & H3 & Hw) _. rewrite bind_mret. apply outcome_here; [apply reach_refl|].
  exists T'. split; [|do 3 (split; [done|]); by exists cs].
  split; simpl; [done|done|done|]. by exists 0.
Qed.

(** The tuners that have been made. *)
Definition new_tuners (T : Traces) (as' : list ApfTuner) : Prop :=
  tuners_ok T t as' /\ Forall (λ a, a.(time) = 0 /\ counter_cap a.(r_counter) = INIT_TRACE_LENGTH) as'.

Lemma new_tuners_snoc T T' as' a :
  new_tuners T as' -> same_but (t, length as') T T' -> tuner_ok T' (t, length as') a ->
  a.(time) = 0 -> counter_cap a.(r_counter) = INIT_TRACE_LENGTH -> new_tuners T' (as' ++ [a]).
Proof.
  intros [H1 H2] Hs Ha Ht Hc. split; [|by apply Forall_app_2; [|constructor]].
  intros i b [Hb|[Hi Hb]]%lookup_app_Some.
  - eapply tuner_ok_same; [|by apply H1]. apply Hs. apply lookup_lt_Some in Hb. intros [= ->]. lia.
  - destruct (i - length as')%nat as [|j] eqn:Ej; [|done]. injection Hb as <-.
    by replace i with (length as') by lia.
Qed.

Lemma push_tuners_ok n : forall i T ua l,
  untuned ua l -> length l.(apf_tuners) = i -> new_tuners T l.(apf_tuners) ->
  triple (n * 10) (hostc T ua l) (push_tuners (range (Z.of_nat i) (Z.of_nat (i + n))))
    (λ _ w, exists T' as', length as' = (i + n)%nat /\ new_tuners T' as' /\ same_others t T T' /\
       hostc T' ua (set_apf_tuners as' l) w).
Proof.
  induction n as [|n IH]; intros i T ua l Hu Hl Hn.
  - rewrite range_nil by lia. apply triple_ret. intros w (cs & Hw). exists T, l.(apf_tuners).
    split; [lia|]. split; [done|]. split; [done|]. exists cs. by destruct l.
  - rewrite range_cons by lia. cbn [push_tuners].
    apply (triple_bind 10 (n * 10) _ _ _ _ _ (tuner_new_ok T ua l i _ Hu)). intros a.
    intros w (T1 & H1 & H2 & H3 & H4 & cs & Hw) Hc.
    set (f := λ l0, set_apf_tuners (l0.(apf_tuners) ++ [a]) l0).
    refine (triple_bind 0 (n * 10) _ _ _ _ _ (host_modify 0 t caches L T1 C ua (set_cache cs l) f eq_refl eq_refl) _ w Hw Hc).
    clear w Hw Hc. intros _ w Hw Hc. subst i.
    replace (Z.of_nat (length l.(apf_tuners)) + 1) with (Z.of_nat (length (f l).(apf_tuners)))
      by (simpl; rewrite length_app; simpl; lia).
    replace (length l.(apf_tuners) + S n)%nat with (length (f l).(apf_tuners) + n)%nat
      by (simpl; rewrite length_app; simpl; lia).
    eapply outcome_mono; [apply (IH _ T1 ua (f l)); [done|done| |by exists cs|exact Hc]|done|].
    + simpl. by eapply new_tuners_snoc.
    + intros u w' (T' & as' & Hlen & Hn' & Ho & Hw'). exists T', as'. split; [done|]. split; [done|].
      split; [|done]. eapply same_others_trans; [by eapply same_but_others|done].
Qed.

Definition INIT_BUDGET : nat := 400.

Lemma init_tuners_ok T l :
  l.(skip) = true -> l.(skip_tuners) = 1 -> l.(apf_tuners) = [] -> l.(panicking) = false -> 
  triple INIT_BUDGET (hostc T true l) init_tuners
    (λ _ w, exists T' as', Z.of_nat (length as') = MAX_SZ_IDX /\ new_tuners T' as' /\ same_others t T T' /\
       hostc T' true (set_apf_init true (set_skip_tuners 0 (set_apf_tuners as' l))) w).
Proof.
  intros Hs Hk Ht Hp w (cs & Hw) Hl. unfold init_tuners, no_tuning.
  set (f := λ l0, set_skip_tuners (usize (l0.(skip_tuners) + 1)) l0).
  refine (triple_bind 0 400 _ _ _ _ _ (host_modify 0 t caches L T C true (set_cache cs l) f eq_refl eq_refl) _ w Hw Hl).
  clear w Hw Hl. intros _.
  assert (Hu : untuned true (f l)).
  { split; [done|]. right. simpl. rewrite Hk, usize_small by lia. split; [done|lia]. }
  assert (Hn : new_tuners T (f l).(apf_tuners)).
  { simpl. rewrite Ht. split; [by intros i a Ha|by constructor]. }
  pose proof (push_tuners_ok 40 0 T true (f l) Hu ltac:(simpl; by rewrite Ht) Hn) as Hpush.
  change (Z.of_nat 0) with 0 in Hpush. change (Z.of_nat (0 + 40)) with MAX_SZ_IDX in Hpush.
  intros w Hw Hl. rewrite bind_assoc.
  refine (triple_bind (40 * 10) 0 _ _ _ _ _ Hpush _ w _ Hl); [|by exists cs].
  clear w Hw Hl. intros _ w (T' & as' & Hlen & Hnew & Ho & cs' & Hw) Hl. rewrite bind_assoc.
  revert w Hw Hl. eapply host_modify_bind; [done|done|]. eapply (triple_bind 0 0).
  { apply host_modify; done. }
  intros []. eapply host_modify_bind; [done|done|].
  apply triple_ret. intros w Hw. exists T', as'. split; [by rewrite Hlen|]. split; [done|]. split; [done|].
  by exists cs'.
Qed.

(** The first allocation of a thread. *)
Lemma record_malloc_fresh i ptr T l :
  fresh l -> 2 < TARGET_APF -> 1 <= i < MAX_SZ_IDX ->
  triple (INIT_BUDGET + 5) (host T C true l) (record_malloc i ptr)
    (λ _ w, exists T' l', tuned T' t l' /\ same_others t T T' /\ host T' C true l' w).
Proof.
  intros (F1 & F2 & F3 & F4) HT Hi w Hw Hl. unfold record_malloc. rewrite bind_get.
  rewrite (h_apf _ _ _ _ _ _ _ _ Hw), (h_tls _ _ _ _ _ _ _ _ Hw), F1. rewrite bind_assoc.
  pose proof (h_panicking _ _ _ _ _ _ _ _ Hw) as Hp.
  revert w Hw Hl. eapply host_modify_bind; [done|done|]. intros w Hw Hl.
  rewrite bind_assoc, bind_gets, (h_tls _ _ _ _ _ _ _ _ Hw). cbn [apf_init set_skip]. rewrite F2, !bind_assoc.
  refine (triple_bind INIT_BUDGET 5 _ _ _ _ _ (init_tuners_ok T (set_skip true l) eq_refl F3 F4 Hp) _ w _ Hl).
  2:{ exists l.(thread_cache). by destruct l. }
  clear w Hw Hl. intros _ w (T' & as' & Hlen & [Hok Hnew] & Ho & cs & Hw) Hl.
  revert w Hw Hl. eapply host_modify_bind; [done|done|]. intros w Hw Hl.
  set (l1 := set_apf_init true _) in *. assert (Ht : tuned T' t l1) by (by split).
  rewrite bind_assoc, bind_gets, (h_tls _ _ _ _ _ _ _ _ Hw). change (assertM (apf_init l1) _) with (mret tt : M World unit).
  rewrite bind_mret, (tuned_tail _ _ _ _ _ Ht Hw).
  eapply outcome_mono; [apply (with_tuner_malloc i ptr T' l1 Ht); [|done|exact Hw|exact Hl]|done|].
  - intros j a Ha. destruct (Forall_lookup_1 _ _ _ _ Hnew Ha) as [-> ->]. by split; [lia|].
  - intros u w' (T2 & l2 & H1 & _ & _ & H2 & H3). exists T2, l2. split; [done|]. split; [|done].
    by eapply same_others_trans.
Qed.
End Threads.
End Tuning.
