(* ===== verification/ClientCalls.v ===== *)
(** * A call of the client, whatever its thread does for the tuners

    Each entry point, in a thread that is untuned, that has not allocated yet,
    or that has its tuners: what it does to the heap and to the ledger, with
    the work of the tuners in between. *)
From S2P Require Import Prelude MemInfo SizeClasses Anchor Mem Bin Trace Reuse Tuner.
From S2P Require Import SingleAccess Bootstrap HashMap State Pages Descriptor.
From S2P Require Import PageMap Alloc ThreadCache Lib Heap HeapOps LargeOps Safety.
From S2P Require Import Calls Ledger Triple Tuning.

(** The thread is not tuned. *)
Definition untunedb (ua : bool) (l : Tls) : bool := negb ua || (l.(skip) && (0 <? l.(skip_tuners))).

Definition calmb {AC : ApfConfig} (l : Tls) : bool :=
  forallb (λ a, (2 * (a.(time) + 1) <? TARGET_APF) && (counter_cap a.(r_counter) <? 2 ^ 26)) l.(apf_tuners).

(** The tuners of the thread, if any, only watch during the next call. *)
Definition quiet {AC : ApfConfig} (ua : bool) (l : Tls) : bool := untunedb ua l || ((2 <? TARGET_APF) && calmb l).

(** The tuners of the thread are not to be made any more. *)
Definition settled (ua : bool) (l : Tls) : bool := negb ua || l.(skip).

Section Modes.
Context {KN : Kernel} {HZ : Hash Z} {BR : BitRange} {AC : ApfConfig} {LC : LibConfig}.
  Abbreviation inv := (heap_inv TARGET_APF).

Lemma untunedb_ok ua l : untunedb ua l = true -> l.(panicking) = false -> untuned ua l.
Proof.
  unfold untunedb. intros [H|[H1 H2]%andb_prop]%orb_prop Hp; split; try done.
  - left. by destruct ua.
  - right. split; [done|]. by apply Z.ltb_lt.
Qed.

Lemma calmb_ok l : calmb l = true -> calm l.
Proof.
  unfold calmb. intros H i a Ha. rewrite forallb_forall in H.
  specialize (H a (proj1 (list_elem_of_In _ _) (list_elem_of_lookup_2 _ _ _ Ha))). lia.
Qed.

(** A free may follow. *)
Definition still (ua : bool) (l : Tls) : Prop := untuned ua l \/ patient l.

Lemma quiet_still ua l : quiet ua l = true -> l.(panicking) = false -> still ua l.
Proof.
  unfold quiet. intros [H|[_ H]%andb_prop]%orb_prop Hp; [left; by apply untunedb_ok|right].
  by apply calm_patient, calmb_ok.
Qed.

Lemma mode_set_cache ua T t l cs : mode_ok ua T t l -> mode_ok ua T t (set_cache cs l).
Proof.
  intros [H|(H1 & H2 & [H3|[]])]; [by left|right; split; [done|]; split; [done|by left]|].
  right. split; [done|]. split; [done|]. right. by split.
Qed.

(** ** What a thread does for its tuners *)
Section Records.
Context {E : ApfEnv World} {LE : LibEnv E}.
Variables (t : nat) (caches : gmap nat (list ThreadCacheBin)) (L : Ledger) (C : gmap Z Place) (ua : bool).
  Abbreviation host := (host (target := TARGET_APF) t caches L).

Lemma record_free_any i ptr (T : Traces) l :
  mode_ok ua T t l -> still ua l -> 1 <= i < MAX_SZ_IDX ->
  triple 3 (host T C ua l) (record_free i ptr)
    (λ _ w, exists T' l', mode_ok ua T' t l' /\ l'.(thread_cache) = l.(thread_cache) /\ same_others t T T' /\
       host T' C ua l' w).
Proof.
  intros Hm Hs Hi.
  assert (Hsame : (forall w, host T C ua l w -> record_free i ptr w = Ok (tt, w)) ->
    triple 3 (host T C ua l) (record_free i ptr)
      (λ _ w, exists T' l', mode_ok ua T' t l' /\ l'.(thread_cache) = l.(thread_cache) /\ same_others t T T' /\
         host T' C ua l' w)).
  { intros H w Hw _. rewrite (H w Hw). apply outcome_here; [apply reach_refl|]. by exists T, l. }
  destruct Hm as [Hu|(-> & Hp & [(F1 & F2 & F3 & F4)|Ht])].
  - apply Hsame. intros w Hw. apply record_free_untuned. by destruct Hw as [_ -> -> _ _ _].
  - apply Hsame. intros w Hw. unfold record_free. rewrite bind_get.
    rewrite (h_tls _ _ _ _ _ _ _ _ Hw), F2. by rewrite andb_false_r.
  - destruct Hs as [Hu|Hpt].
    { destruct Hu as [_ [?|[_ ?]]]; [done|]. rewrite (td_tuning _ _ _ Ht) in *. lia. }
    eapply triple_weaken; [by apply record_free_tuned|done|done|].
    intros u w (T' & l' & H1 & H2 & H3 & Hw). exists T', l'. split; [|done]. right. split; [done|].
    split; [by apply Hw|by right].
Qed.

Lemma record_malloc_any i ptr (T : Traces) l :
  mode_ok ua T t l -> quiet ua l = true -> 1 <= i < MAX_SZ_IDX ->
  triple (INIT_BUDGET + 5) (host T C ua l) (record_malloc i ptr)
    (λ _ w, exists T' l', mode_ok ua T' t l' /\ same_others t T T' /\
       (settled ua l = true -> still ua l' /\ l'.(thread_cache) = l.(thread_cache)) /\ host T' C ua l' w).
Proof.
  intros Hm Hq Hi. destruct Hm as [Hu|(-> & Hp & [Hf|Ht])].
  - intros w Hw _. assert (Hu' : untuned w.(w_use_apf) w.(w_tls)) by (by destruct Hw as [_ -> -> _ _ _]).
    rewrite (record_malloc_untuned _ _ _ Hu'). apply outcome_here; [apply reach_refl|].
    exists T, l. split; [by left|]. split; [done|]. split; [|done]. intros _. split; [by left|done].
  - assert (HT : 2 < TARGET_APF).
    { unfold quiet, untunedb in Hq. destruct Hf as (F1 & _). rewrite F1 in Hq. simpl in Hq. lia. }
    eapply triple_weaken; [by apply record_malloc_fresh|done|done|].
    intros u w (T' & l' & H1 & H2 & Hw). exists T', l'. split; [|split; [done|split; [|done]]].
    + right. split; [done|]. split; [by apply Hw|by right].
    + unfold settled. destruct Hf as (-> & _). done.
  - assert (Hc : calm l).
    { apply calmb_ok. unfold quiet, untunedb in Hq. rewrite (td_skip _ _ _ Ht), (td_tuning _ _ _ Ht) in Hq.
      simpl in Hq. by apply andb_prop in Hq as [_ ?]. }
    eapply triple_weaken; [by apply record_malloc_tuned|lia|done|].
    intros u w (T' & l' & H1 & H2 & H3 & H4 & Hw). exists T', l'. split; [|split; [done|split; [|done]]].
    + right. split; [done|]. split; [by apply Hw|by right].
    + intros _. split; [by right|done].
Qed.
End Records.

(** ** The entry points *)
Section Entries.
Context {E : ApfEnv World} {LE : LibEnv E}.
Variables (t : nat) (caches : gmap nat (list ThreadCacheBin)) (ua : bool).
  Abbreviation host := (host (target := TARGET_APF) t caches).

(** The thread [l] has become [l'], the traces [T] have become [T']. *)
Record advanced (T T' : Traces) (l l' : Tls) : Prop := {
  ad_mode : mode_ok ua T' t l';
  ad_others : same_others t T T';
}.

Definition MALLOC_BUDGET : nat := 2 + (INIT_BUDGET + 5).

(** What was granted is told to the tuner of its class. *)
Lemma record_granted L T C l w i p n s' cs' g g' :
  host L T C ua l w -> inv w.(w_state) (<[t := l.(thread_cache)]> caches) g -> house w.(w_state) g L T C ->
  granted (target := TARGET_APF) w.(w_state) g s' (<[t := cs']> (<[t := l.(thread_cache)]> caches)) g' p n -> 0 <= n ->
  mode_ok ua T t l -> quiet ua l = true -> 1 <= i < MAX_SZ_IDX ->
  Z.of_nat (os_of w).(calls) + Z.of_nat MALLOC_BUDGET < CALLS_LIMIT ->
  spec_fresh L p n /\
  outcome MALLOC_BUDGET w ((record_malloc i p;; mret p) (world_after w s' cs')) (λ p' w', p' = p /\
    exists T' l', advanced T T' l l' /\ host (ledger_alloc p n L) T' C ua l' w' /\
      (settled ua l = true -> still ua l' /\ l'.(thread_cache) = cs')).
Proof.
  intros Hw Hi Hh Hg Hn Hm Hq Hidx Hl. pose proof (gr_reach _ _ _ _ _ _ _ Hg) as Hr.
  destruct (house_granted_client _ _ _ _ _ _ _ _ _ _ _ Hi Hh Hg Hn) as [Hf Hh']. split; [done|].
  pose proof (host_after _ _ _ _ _ _ _ _ _ _ _ _ _ _ Hw (gr_inv _ _ _ _ _ _ _ Hg) Hh') as Hw'.
  pose proof (reach_calls _ _ _ _ Hr) as Hcalls.
  assert (Ho : outcome (INIT_BUDGET + 5) (world_after w s' cs') ((record_malloc i p;; mret p) (world_after w s' cs'))
    (λ p' w', p' = p /\ exists T' l', advanced T T' l l' /\ host (ledger_alloc p n L) T' C ua l' w' /\
      (settled ua l = true -> still ua l' /\ l'.(thread_cache) = cs'))).
  { rewrite <- (Nat.add_0_r (INIT_BUDGET + 5)).
    eapply outcome_bind; [apply (record_malloc_any t caches (ledger_alloc p n L) C ua i p T (set_cache cs' l)); [|done|done|exact Hw'|]|].
    - by apply mode_set_cache.
    - unfold MALLOC_BUDGET in Hl. unfold os_of in *.
      change (w_state (world_after w s' cs')) with s'. lia.
    - intros u w2 (T' & l' & H1 & H2 & H3 & H4) _. apply outcome_here; [apply reach_refl|]. split; [done|].
      exists T', l'. split; [by split|]. by split. }
  destruct Ho as [(a & w2 & E2 & Hr2 & HQ)|(msg & E2 & Hr2)]; [left|right].
  - exists a, w2. split; [done|]. split; [|done]. eapply reach_trans; [exact Hr|exact Hr2].
  - exists msg. split; [done|]. eapply refuse_later; [exact Hr|exact Hr2].
Qed.

Lemma malloc_any L T C l n :
  mode_ok ua T t l -> quiet ua l = true -> 0 <= n < 2 ^ 32 - PAGE ->
  triple MALLOC_BUDGET (host L T C ua l) (do_malloc n) (λ p w', spec_fresh L p n /\
    exists T' l', advanced T T' l l' /\ host (ledger_alloc p n L) T' C ua l' w' /\
      (settled ua l = true -> still ua l' /\ forall j, j <> Z.to_nat (get_size_class w'.(w_state).(st_sizes) n) ->
         l'.(thread_cache) !! j = l.(thread_cache) !! j)).
Proof.
  intros Hm Hq Hn w Hw Hl. destruct (host_stable _ _ _ _ _ _ _ _ Hw) as (g & Hst & Hh).
  pose proof (stb_inv _ _ _ _ Hst) as Hi. pose proof (h_panicking _ _ _ _ _ _ _ _ Hw) as Hp.
  assert (Hc : Z.of_nat (calls (st_os (w_state w))) < CALLS_LIMIT) by (unfold os_of in Hl; lia).
  destruct (Z.leb_spec n MAX_SZ) as [Hs|Hb].
  - destruct (do_malloc_small w _ g t n Hst ltac:(lia) Hc) as [(p & s' & cs' & g' & Em & Hg & _ & Hother)|(msg & Em & Hr)].
    2:{ right. exists msg. split; [done|]. eapply refusal_mono; [|exact Hr]. unfold MALLOC_BUDGET. lia. }
    rewrite Em. pose proof (i_sizes _ _ _ _ Hi) as SI.
    pose proof (get_size_class_bounds (st := w.(w_state).(st_sizes)) n ltac:(lia)) as Hb1.
    destruct (record_granted L T C l w _ p n s' cs' g g' Hw Hi Hh Hg ltac:(lia) Hm Hq Hb1 Hl) as [Hf Ho].
    eapply outcome_mono; [exact Ho|done|]. intros p' w' (-> & T' & l' & H1 & H2 & H3). split; [done|].
    exists T', l'. split; [done|]. split; [done|]. intros Hse. destruct (H3 Hse) as [H4 H5]. split; [done|].
    destruct (h_heap _ _ _ _ _ _ _ _ H2) as (g2 & Hi2 & _). rewrite (same_sizes _ _ _ _ _ _ Hi Hi2), H5.
    intros j Hj. rewrite (Hother j Hj). by rewrite (h_tls _ _ _ _ _ _ _ _ Hw).
  - destruct (do_malloc_big w _ g t n Hst ltac:(lia) Hc) as [(p & s' & g' & Em & Hg & _)|(msg & Em & Hr)].
    2:{ right. exists msg. split; [done|]. eapply refusal_mono; [|exact Hr]. unfold MALLOC_BUDGET. lia. }
    rewrite Em. destruct (house_granted_client _ _ _ _ _ _ _ _ _ _ _ Hi Hh Hg) as [Hf Hh']; [lia|].
    apply outcome_here; [eapply reach_mono; [|exact (gr_reach _ _ _ _ _ _ _ Hg)]; unfold MALLOC_BUDGET; lia|].
    split; [done|]. exists T, l. split; [by split|].
    split; [by eapply host_after_same; [|exact (gr_inv _ _ _ _ _ _ _ Hg)|]|]. intros _. split; [by apply quiet_still|done].
Qed.

Lemma aligned_any L T C l k n :
  mode_ok ua T t l -> quiet ua l = true -> 0 <= k <= 30 -> 0 <= n <= 2 ^ 30 ->
  triple MALLOC_BUDGET (host L T C ua l) (do_aligned_alloc (2 ^ k) n) (λ p w',
    (p = 0 /\ host L T C ua l w') \/
    (spec_fresh L p n /\ (2 ^ k | p) /\
     exists T' l', advanced T T' l l' /\ host (ledger_alloc p n L) T' C ua l' w')).
Proof.
  intros Hm Hq Hk Hn w Hw Hl. destruct (host_stable _ _ _ _ _ _ _ _ Hw) as (g & Hst & Hh).
  pose proof (stb_inv _ _ _ _ Hst) as Hi.
  assert (Hc : Z.of_nat (calls (st_os (w_state w))) + 1 < CALLS_LIMIT) by (unfold MALLOC_BUDGET, os_of in Hl; lia).
  destruct (Z.leb_spec (align_size n (2 ^ k)) PAGE) as [Hs|Hb].
  - destruct (do_aligned_small w _ g t k n Hst Hk Hn Hs ltac:(lia))
      as [(p & s' & cs' & g' & Em & Ha & Hb1 & Hg)|(msg & Em & Hr)].
    2:{ right. exists msg. split; [done|]. eapply refusal_mono; [|exact Hr]. unfold MALLOC_BUDGET. lia. }
    rewrite Em.
    destruct (record_granted L T C l w _ p n s' cs' g g' Hw Hi Hh Hg ltac:(lia) Hm Hq Hb1 Hl) as [Hf Ho].
    eapply outcome_mono; [exact Ho|done|]. intros p' w' (-> & T' & l' & H1 & H2 & _). right.
    split; [done|]. split; [done|]. by exists T', l'.
  - destruct (do_aligned_big w _ g t k n Hst Hk Hn Hb Hc)
      as [(p & s' & g' & Em & Ha & Hg & _)|[(s' & Em & Hi' & Hmem & Hr & _)|(msg & Em & Hr)]].
    3:{ right. exists msg. split; [done|]. eapply refusal_mono; [|exact Hr]. unfold MALLOC_BUDGET. lia. }
    + rewrite Em. destruct (house_granted_client _ _ _ _ _ _ _ _ _ _ _ Hi Hh Hg) as [Hf Hh']; [lia|].
      apply outcome_here; [eapply reach_mono; [|exact (gr_reach _ _ _ _ _ _ _ Hg)]; unfold MALLOC_BUDGET; lia|].
      right. split; [done|]. split; [done|]. exists T, l. split; [by split|].
      by eapply host_after_same; [|exact (gr_inv _ _ _ _ _ _ _ Hg)|].
    + rewrite Em. apply outcome_here; [eapply reach_mono; [|exact Hr]; unfold MALLOC_BUDGET; lia|]. left.
      split; [done|]. eapply host_after_same; [exact Hw|exact Hi'|].
      destruct Hh as [HL HT HC]. split; [|done|done].
      pose proof (same_sizes _ _ _ _ _ _ Hi Hi') as Es. eapply ledger_kept; [done| |by intros; rewrite Hmem].
      intros x c [i cl Hx Hcl ->|q d len R ->] _; [eapply (live_small _ _ _ _ i cl); congruence|by eapply live_large].
Qed.

(** The thread frees a pointer whose place is known. *)
Lemma free_placed L T C l w p pl :
  host L T (<[p := pl]> C) ua l w -> C !! p = None -> mode_ok ua T t l -> still ua l ->
  (forall i, pl = InBin i -> bin_room w i) ->
  Z.of_nat (os_of w).(calls) + 4 < CALLS_LIMIT ->
  outcome 4 w (do_free p w) (λ _ w', exists T' l', advanced T T' l l' /\ host (ledger_free p L) T' C ua l' w').
Proof.
  intros Hw HC Hm Hs Hroom Hl. destruct (host_stable _ _ _ _ _ _ _ _ Hw) as (g & Hst & Hh).
  pose proof (stb_inv _ _ _ _ Hst) as Hi.
  destruct (ho_pins _ _ _ _ _ Hh p pl (lookup_insert_eq _ _ _)) as [Hpl Hheld].
  assert (Hdrop : forall s g T, house s g L T (<[p := pl]> C) -> house s g L T C).
  { intros s0 g0 T0 [H1 H2 H3]. split; [done|done|]. intros x px Hx. apply H3.
    rewrite lookup_insert_ne; [done|congruence]. }
  destruct pl as [i|q d len]; simpl in Hpl.
  - destruct (owner_block TARGET_APF Hi _ _ _ Hpl) as (Hidx & _ & _ & c & _ & Hcl & _).
    rewrite (do_free_small _ _ _ _ _ _ Hi Hpl Hcl). unfold free_to_cache. change 4%nat with (3 + 1)%nat.
    eapply outcome_bind; [apply (record_free_any t caches L _ ua i p T l Hm Hs Hidx w Hw); lia|].
    intros u w1 (T1 & l1 & M1 & C1 & O1 & Hw1) Hr.
    destruct (host_stable _ _ _ _ _ _ _ _ Hw1) as (g1 & Hst1 & Hh1). pose proof (stb_inv _ _ _ _ Hst1) as Hi1.
    destruct (ho_pins _ _ _ _ _ Hh1 p _ (lookup_insert_eq _ _ _)) as [Hpl1 _]. simpl in Hpl1.
    pose proof (same_sizes _ _ _ _ _ _ Hi Hi1) as Es.
    destruct (push_to_cache_ok w1 _ g1 t i c p Hst1) as (s2 & cs2 & g2 & Ep & Hrel); [|done|by rewrite Es|].
    { intros c0 cl Hc0 Hcl0. rewrite (h_tls _ _ _ _ _ _ _ _ Hw1), C1 in Hc0. rewrite Es in Hcl0.
      rewrite (h_apf _ _ _ _ _ _ _ _ Hw1). rewrite <- (h_apf _ _ _ _ _ _ _ _ Hw).
      apply (Hroom i eq_refl c0 cl); [|done]. by rewrite (h_tls _ _ _ _ _ _ _ _ Hw). }
    rewrite Ep. apply outcome_here; [exact (re_reach _ _ _ _ _ _ Hrel)|].
    exists T1, (set_cache cs2 l1). split.
    + split; [by apply mode_set_cache|done].
    + eapply host_after; [exact Hw1|exact (re_inv _ _ _ _ _ _ Hrel)|].
      eapply house_released; [exact Hi1|by apply Hdrop|exact Hrel|done|done].
  - destruct (do_free_large w _ g q d p len Hi Hpl) as (s' & Ef & Hrel). rewrite Ef.
    apply outcome_here; [eapply reach_mono; [|exact (re_reach _ _ _ _ _ _ Hrel)]; lia|].
    exists T, l. split; [by split|]. eapply host_after_same; [exact Hw|exact (re_inv _ _ _ _ _ _ Hrel)|].
    eapply house_released; [exact Hi|by apply Hdrop|exact Hrel|done|done].
Qed.

(** ... or one that the client holds. *)
Lemma host_pin L T l w p n :
  host L T ∅ ua l w -> L.(held) !! p = Some n ->
  exists pl cap g, host L T {[p := pl]} ua l w /\ inv w.(w_state) (<[t := l.(thread_cache)]> caches) g /\
    house w.(w_state) g L T ∅ /\ placed g p pl /\ live w.(w_state) g p cap /\ n <= cap.
Proof.
  intros [(g & Hi & [HL HT HC]) H1 H2 H3 H4 H5] Hp. destruct (lo_held _ _ _ HL p n Hp) as (cap & Hcap & Hl).
  destruct (live_placed _ _ _ _ Hl) as [pl Hpl]. exists pl, cap, g. split; [|do 4 (split; [done|]); lia].
  split; try done. exists g. split; [done|]. split; [done|done|].
  intros x px [<- <-]%lookup_singleton_Some. split; [done|by exists n].
Qed.

Lemma free_any L T l w p n :
  host L T ∅ ua l w -> L.(held) !! p = Some n -> free_room w p = true -> mode_ok ua T t l -> quiet ua l = true ->
  Z.of_nat (os_of w).(calls) + 4 < CALLS_LIMIT ->
  outcome 4 w (do_free p w) (λ _ w', exists T' l', advanced T T' l l' /\ host (ledger_free p L) T' ∅ ua l' w').
Proof.
  intros Hw Hp Hroom Hm Hq Hl. destruct (host_pin _ _ _ _ _ _ Hw Hp) as (pl & cap & g & Hw' & Hi & _ & Hpl & Hlv & _).
  eapply (free_placed L T ∅ l w p pl Hw'); [done|done| | |done].
  - apply quiet_still; [done|by apply Hw].
  - intros i ->. by eapply free_room_bin.
Qed.

(** Copying the old contents of a pointer into its new place. *)
Lemma copy_host L T l w p pl cap m q n :
  host (ledger_alloc q n L) T {[p := pl]} ua l w ->
  (forall a v, L.(stored) !! a = Some v -> holds_byte L a) -> L.(held) !! q = None -> L.(held) !! p = Some m ->
  (forall g, placed g p pl -> live w.(w_state) g p cap) -> 0 < cap -> m <= cap <= n ->
  exists m2, os (memcpy q p cap) w = Ok (tt, world_after w (set_mem m2 w.(w_state)) w.(w_tls).(thread_cache)) /\
    host (ledger_copy p q (ledger_alloc q n L)) T {[p := pl]} ua l
      (world_after w (set_mem m2 w.(w_state)) w.(w_tls).(thread_cache)).
Proof.
  intros Hw Hst Hq Hp Hlv Hc Hm. destruct (h_heap _ _ _ _ _ _ _ _ Hw) as (g & Hi & [HL HT HC]).
  destruct (HC p pl) as [Hpl _]; [by rewrite lookup_singleton_eq|]. specialize (Hlv g Hpl).
  destruct (lo_held _ _ _ HL q n) as (c & Hnc & Hlq); [simpl; by rewrite lookup_insert_eq|].
  destruct (copy_live w.(w_state) _ g p cap q c Hi Hlv Hlq ltac:(lia)) as (Em & Hi2 & Hm2).
  set (m2 := copy _ _ _ _ _) in *. exists m2. split.
  - unfold os, heap, with_os, zoom. rewrite Em. by destruct w as [? [] ? ? ? ?].
  - eapply host_after_same; [exact Hw|exact Hi2|].
    split; [|by destruct HT|done]. eapply ledger_copied; [exact Hi|exact HL|done|done|done|done|done|done|lia|exact Hm2].
Qed.

Definition REALLOC_BUDGET : nat := MALLOC_BUDGET + 4.

Lemma realloc_any L T l w p m n :
  host L T ∅ ua l w -> L.(held) !! p = Some m -> realloc_room w p n = true -> settled ua l = true ->
  mode_ok ua T t l -> quiet ua l = true -> 0 <= n < 2 ^ 32 - PAGE ->
  Z.of_nat (os_of w).(calls) + Z.of_nat REALLOC_BUDGET < CALLS_LIMIT ->
  outcome REALLOC_BUDGET w (do_realloc p n w) (λ q w', exists L' T' l', spec_step L (Realloc p n) q L' /\
    advanced T T' l l' /\ host L' T' ∅ ua l' w').
Proof.
  intros Hw Hp Hroom Hse Hm Hq Hn Hl.
  destruct (host_pin _ _ _ _ _ _ Hw Hp) as (pl & cap & g & Hw' & Hi & Hh & Hpl & Hlv & Hcap).
  destruct (live_mapped TARGET_APF Hi _ _ Hlv) as (Hp0 & _ & Hc0 & _).
  destruct (realloc_room_ok _ _ _ _ _ _ Hi Hlv Hroom) as (Hsz & Hgrow & Hbin).
  pose proof (lo_stored _ _ _ (ho_ledger _ _ _ _ _ Hh)) as Hst.
  destruct (do_realloc_cases w _ g p cap n Hi Hsz Hgrow) as [(_ & Er & Hle)|(_ & Er & Hle & Hne)]; rewrite Er.
  { apply outcome_here; [apply reach_refl|].
    destruct (ledger_resized _ _ _ _ p m n cap Hi (ho_ledger _ _ _ _ _ Hh) Hp Hlv ltac:(lia)) as [Hap HL'].
    exists (ledger_resize p n L), T, l. split; [apply spec_realloc_same; [lia|by exists m|done]|].
    split; [by split|]. destruct Hw as [_ H1 H2 H3 H4 H5]. split; [|done..]. exists g. split; [done|].
    destruct Hh as [_ [T1 T2 T3] _]. split; [done| |done]. split; [done| |done].
    intros k x len Hk. simpl. rewrite lookup_insert_ne; [by eapply T2|]. intros <-. specialize (T2 _ _ _ Hk). congruence. }
  unfold realloc_by_copy, REALLOC_BUDGET.
  eapply outcome_bind; [apply (malloc_any L T {[p := pl]} l n Hm Hq Hn w Hw'); unfold REALLOC_BUDGET in Hl; lia|].
  intros q w1 (Hf & T1 & l1 & [M1 O1] & Hw1 & Hset) Hr. destruct (Hset Hse) as [Hs1 Hcache]. clear Hset.
  destruct (h_heap _ _ _ _ _ _ _ _ Hw1) as (g1 & Hi1 & _). pose proof (same_sizes _ _ _ _ _ _ Hi Hi1) as Es.
  destruct Hf as [Hap Hnone]. assert (Hqp : q <> p) by congruence.
  destruct (copy_host L T1 l1 w1 p pl cap m q n Hw1) as (m2 & Ec & Hw2); try done.
  { intros a v Ha. by apply (Hst a v Ha). }
  { intros g0 Hpl0. eapply placed_live_same; [exact Hi|exact Hpl|exact Hlv|exact Es|exact Hpl0]. }
  destruct Hap as (Hq0 & Hlim & Hap). destruct (Z.eqb_spec q 0); [lia|]. destruct (Z.eqb_spec q p); [done|]. cbn [negb andb].
  rewrite (bind_Ok _ _ _ _ _ Ec).
  set (w2 := world_after w1 _ _) in *. apply reach_calls in Hr.
  assert (Hof : outcome 4 w2 (do_free p w2) (λ _ w', exists T' l', advanced T1 T' l1 l' /\
    host (ledger_free p (ledger_copy p q (ledger_alloc q n L))) T' ∅ ua l' w')).
  { eapply (free_placed _ T1 ∅ l1 w2 p pl); [by rewrite insert_empty|done|done|done| |].
    - intros i ->. simpl in Hpl. destruct (live_class _ _ _ _ _ _ Hi Hlv Hpl) as (Hmx & Hci & _).
      rewrite Hci in Hbin, Hne. intros c cl Hc Hcl. rewrite (h_tls _ _ _ _ _ _ _ _ Hw2) in Hc.
      simpl in Hcl. rewrite Es in Hcl. rewrite (h_apf _ _ _ _ _ _ _ _ Hw2), <- (h_apf _ _ _ _ _ _ _ _ Hw).
      apply (Hbin Hmx c cl); [|done]. rewrite (h_tls _ _ _ _ _ _ _ _ Hw), <- Hcache; [done|].
      rewrite Es. destruct (owner_block TARGET_APF Hi _ _ _ Hpl) as (Hidx & _). specialize (Hne Hmx).
      intros E0. apply Hne. pose proof (i_sizes _ _ _ _ Hi) as SI.
      assert (0 <= get_size_class (st_sizes (w_state w)) n); [|lia]. unfold get_size_class.
      destruct (Z.gtb_spec n MAX_SZ); [done|].
      pose proof (get_size_class_bounds (st := w.(w_state).(st_sizes)) n ltac:(lia)) as Hb. unfold get_size_class in Hb.
      destruct (Z.gtb_spec n MAX_SZ); lia.
    - unfold REALLOC_BUDGET in Hl. unfold os_of in *. change (calls (st_os (w_state w2))) with (calls (st_os (w_state w1))). lia. }
  destruct Hof as [([] & w3 & Ef & Hr3 & T2 & l2 & [M2 O2] & Hw3)|(msg & Ef & Hr3)].
  - rewrite (bind_Ok _ _ _ _ _ Ef). apply outcome_here; [by eapply reach_from_same; [..|exact Hr3]|].
    exists (ledger_move p q n L), T2, l2. split; [|split].
    + apply spec_realloc_move; [lia|by exists m| |by split]. unfold held_size. rewrite Hp. simpl. lia.
    + split; [done|by eapply same_others_trans].
    + rewrite <- ledger_move_copy; [done|by split| |by exists m]. unfold held_size. rewrite Hp. simpl. lia.
  - right. exists msg. split; [by rewrite (bind_Err _ _ _ _ Ef)|].
    apply (refuse_later _ 0 4 _ (os_of w2)); [by apply reach_same|exact Hr3].
Qed.
End Entries.
End Modes.
