(* ===== verification/System.v ===== *)
(** * Threads, and what the allocator promises to its clients

    The calls of any number of threads, in any order, one at a time, from the
    start of the program; and that they refine the abstract allocator. *)
From S2P Require Import Prelude MemInfo SizeClasses Anchor Mem Bin Trace Reuse Tuner.
From S2P Require Import SingleAccess Bootstrap HashMap State Pages Descriptor.
From S2P Require Import PageMap Alloc ThreadCache Lib Heap HeapOps LargeOps Safety.
From S2P Require Import Calls Ledger Triple Tuning ClientCalls.

(** ** The system

    The shared part of the world, and the thread-local variables of every
    thread. *)
Record Sys : Type := mkSys {
  shared : World;
  threads : gmap nat Tls;
}.

Definition thread_world (sys : Sys) (l : Tls) : World := set_tls l sys.(shared).

Section System.
Context {KN : Kernel} {HZ : Hash Z} {BR : BitRange} {AC : ApfConfig} {LC : LibConfig}.
Context {E : ApfEnv World}.

Definition read_u8 (a : Z) : M Os Z := λ o,
  if mapped o.(segs) a 1 then Ok (load8 o.(mem) a, o) else Err (Fault a).

Definition call_body (c : Call) : M World Z :=
  match c with
  | Malloc size => do_malloc size
  | AlignedAlloc align size => do_aligned_alloc align size
  | Realloc ptr size => do_realloc ptr size
  | Free ptr => do_free ptr;; mret 0
  | Store addr byte => os (write_u8 addr byte);; mret 0
  | Load addr => os (read_u8 addr)
  end.

(** Thread [t] performs a call. *)
Definition run_call (t : nat) (c : Call) (sys : Sys) : result (Z * Sys) :=
  match sys.(threads) !! t with
  | None => Err (Panic "no such thread")
  | Some l =>
      match call_body c (thread_world sys l) with
      | Ok (out, w) => Ok (out, mkSys w (<[t := w.(w_tls)]> sys.(threads)))
      | Err e => Err e
      end
  end.

(** The program starts: the first thread initialises the allocator. *)
Definition sys_start : result Sys :=
  match malloc_init world_init with
  | Ok (_, w) => Ok (mkSys w ∅)
  | Err e => Err e
  end.
End System.

(** ** Refinement *)
Section Refinement.
Context {KN : Kernel} {HZ : Hash Z} {BR : BitRange} {AC : ApfConfig} {LC : LibConfig}.
Context {E : ApfEnv World} {LE : LibEnv E}.
  Abbreviation inv := (heap_inv TARGET_APF).

Definition caches_of (sys : Sys) : gmap nat (list ThreadCacheBin) := thread_cache <$> sys.(threads).

Record sys_ok (sys : Sys) (L : Ledger) : Prop := {
  so_heap : exists g T, inv sys.(shared).(w_state) (caches_of sys) g /\
    house sys.(shared).(w_state) g L T ∅ /\
    forall t l, sys.(threads) !! t = Some l -> mode_ok sys.(shared).(w_use_apf) T t l;
  so_init : sys.(shared).(w_malloc_init).(skip_flag) = true;
  so_boot : sys.(shared).(w_use_bootstrap) = false;
}.

(** The most system calls that one call makes. *)
Definition CALL_BUDGET : nat := REALLOC_BUDGET.

(** What is assumed of a call: sizes below 4 GiB less a page (aligned ones: at
    most 1 GiB, for a power of two up to 2^30), at most 2^58 system calls so far,
    only memory that the client holds is freed, resized and used, a freed or
    resized block does not make its bin overflow, a resized one grows or keeps its
    class and is not an over-aligned large one ([realloc_room]), the tuners of the
    thread are not about to act ([quiet]), and a reallocation is not the first
    allocation of a thread with tuners ([settled]). *)
Definition admissible (sys : Sys) (L : Ledger) (t : nat) (c : Call) : Prop :=
  exists l, sys.(threads) !! t = Some l /\
  Z.of_nat sys.(shared).(w_state).(st_os).(calls) + Z.of_nat CALL_BUDGET < CALLS_LIMIT /\
  quiet sys.(shared).(w_use_apf) l = true /\
  match c with
  | Malloc size => 0 <= size < 2 ^ 32 - PAGE
  | AlignedAlloc align size => 0 <= size <= 2 ^ 30 /\ exists k, 0 <= k <= 30 /\ align = 2 ^ k
  | Realloc ptr size =>
      0 <= size < 2 ^ 32 - PAGE /\
      (ptr = 0 \/ (is_Some (L.(held) !! ptr) /\ realloc_room (thread_world sys l) ptr size = true /\
                  settled sys.(shared).(w_use_apf) l = true))
  | Free ptr => ptr = 0 \/ (is_Some (L.(held) !! ptr) /\ free_room (thread_world sys l) ptr = true)
  | Store a v => holds_byte L a /\ 0 <= v < 256
  | Load a => holds_byte L a
  end.

(** *** One call *)
Lemma mode_panicking ua T t l : mode_ok ua T t l -> l.(panicking) = false.
Proof. by intros [[H _]|(_ & H & _)]. Qed.

(** A call that leaves the caches alone. *)
Lemma same_cache sys t l :
  sys.(threads) !! t = Some l -> <[t := l.(thread_cache)]> (caches_of sys) = caches_of sys.
Proof. intros Hl. apply insert_id. unfold caches_of. by rewrite lookup_fmap, Hl. Qed.

  Abbreviation hosted sys t L T l := (host (target := TARGET_APF) t (caches_of sys) L T ∅ sys.(shared).(w_use_apf) l).

Definition modes_ok (sys : Sys) (T : Traces) : Prop :=
  forall t l, sys.(threads) !! t = Some l -> mode_ok sys.(shared).(w_use_apf) T t l.

Lemma sys_host sys L t l :
  sys_ok sys L -> sys.(threads) !! t = Some l ->
  exists T, modes_ok sys T /\ mode_ok sys.(shared).(w_use_apf) T t l /\ hosted sys t L T l (thread_world sys l).
Proof.
  intros [(g & T & Hi & Hh & Hm) Hin Hb] Hl. exists T. split; [exact Hm|]. split; [by apply Hm|].
  split; simpl; [|done|done|by eapply mode_panicking, Hm|done|done]. exists g. by rewrite same_cache.
Qed.

(** A system whose thread [t] has made a call. *)
Lemma sys_after sys L' t T T' l' w' :
  modes_ok sys T -> hosted sys t L' T' l' w' -> mode_ok sys.(shared).(w_use_apf) T' t l' -> same_others t T T' ->
  sys_ok (mkSys w' (<[t := w'.(w_tls)]> sys.(threads))) L'.
Proof.
  intros Hm [(g & Hi & Hh) Hl Hu Hp Hin Hb] Hm' Ho. rewrite Hl. split; simpl; [|done|done]. rewrite Hu.
  exists g, T'. split; [|split; [done|]].
  - unfold caches_of at 1. simpl. by rewrite fmap_insert.
  - intros t' l0. rewrite lookup_insert_Some. intros [[<- <-]|[Hne Hl']]; [done|].
    eapply mode_others; [by apply Hm|done|done].
Qed.

(** The outcome of a call that the abstract allocator allows. *)
Definition simulates (sys : Sys) (L : Ledger) (t : nat) (c : Call) : Prop :=
  exists out sys' L', run_call t c sys = Ok (out, sys') /\ spec_step L c out L' /\ sys_ok sys' L'.

Definition exhausted (sys : Sys) (t : nat) (c : Call) : Prop :=
  exists msg, run_call t c sys = Err (Panic msg) /\
    refusal REQUEST_LIMIT CALL_BUDGET sys.(shared).(w_state).(st_os).

Lemma run_call_Ok sys t c l out w :
  sys.(threads) !! t = Some l -> call_body c (thread_world sys l) = Ok (out, w) ->
  run_call t c sys = Ok (out, mkSys w (<[t := w.(w_tls)]> sys.(threads))).
Proof. intros Hl Hb. unfold run_call. by rewrite Hl, Hb. Qed.

Lemma run_call_Err sys t c l e :
  sys.(threads) !! t = Some l -> call_body c (thread_world sys l) = Err e ->
  run_call t c sys = Err e.
Proof. intros Hl Hb. unfold run_call. by rewrite Hl, Hb. Qed.

(** From the outcome of the body of a call. *)
Lemma outcome_step sys L t c l T k :
  sys.(threads) !! t = Some l -> modes_ok sys T -> (k <= CALL_BUDGET)%nat ->
  outcome k (thread_world sys l) (call_body c (thread_world sys l)) (λ out w', exists L' T' l',
    spec_step L c out L' /\ mode_ok sys.(shared).(w_use_apf) T' t l' /\ same_others t T T' /\
    hosted sys t L' T' l' w') ->
  simulates sys L t c \/ exhausted sys t c.
Proof.
  intros Hl Hm Hk [(out & w' & Er & _ & L' & T' & l' & Hs & H1 & H2 & H3)|(msg & Er & Hr)].
  - left. eexists out, _, L'. split; [by eapply run_call_Ok|]. split; [done|]. by eapply sys_after.
  - right. exists msg. split; [by eapply run_call_Err|]. by eapply refusal_mono.
Qed.

Lemma malloc_step sys L t n :
  sys_ok sys L -> admissible sys L t (Malloc n) ->
  simulates sys L t (Malloc n) \/ exhausted sys t (Malloc n).
Proof.
  intros Hok (l & Hl & Hc & Hq & Hn). destruct (sys_host _ _ _ _ Hok Hl) as (T & Hm & Hmt & Hw).
  eapply (outcome_step sys L t (Malloc n) l T MALLOC_BUDGET); [done|done|unfold CALL_BUDGET, REALLOC_BUDGET; lia|].
  eapply outcome_mono; [apply (malloc_any t _ _ L T ∅ l n Hmt Hq Hn _ Hw)|done|].
  - unfold CALL_BUDGET, REALLOC_BUDGET in Hc. unfold os_of. simpl w_state. lia.
  - intros p w' (Hf & T' & l' & [H1 H2] & H3 & _). exists (ledger_alloc p n L), T', l'. by split; [constructor|].
Qed.

Lemma aligned_step sys L t align n :
  sys_ok sys L -> admissible sys L t (AlignedAlloc align n) ->
  simulates sys L t (AlignedAlloc align n) \/ exhausted sys t (AlignedAlloc align n).
Proof.
  intros Hok (l & Hl & Hc & Hq & Hn & k & Hk & ->). destruct (sys_host _ _ _ _ Hok Hl) as (T & Hm & Hmt & Hw).
  eapply (outcome_step sys L t _ l T MALLOC_BUDGET); [done|done|unfold CALL_BUDGET, REALLOC_BUDGET; lia|].
  eapply outcome_mono; [apply (aligned_any t _ _ L T ∅ l k n Hmt Hq Hk Hn _ Hw)|done|].
  - unfold CALL_BUDGET, REALLOC_BUDGET in Hc. unfold os_of. simpl w_state. lia.
  - intros p w' [[-> H]|(Hf & Ha & T' & l' & [H1 H2] & H3)].
    + exists L, T, l. by split; [constructor|].
    + exists (ledger_alloc p n L), T', l'. by split; [constructor|].
Qed.

Lemma realloc_step sys L t p n :
  sys_ok sys L -> admissible sys L t (Realloc p n) ->
  simulates sys L t (Realloc p n) \/ exhausted sys t (Realloc p n).
Proof.
  intros Hok (l & Hl & Hc & Hq & Hn & Hp). destruct (sys_host _ _ _ _ Hok Hl) as (T & Hm & Hmt & Hw).
  destruct Hp as [->|([m Hm'] & Hroom & Hse)].
  { destruct (malloc_step sys L t n Hok) as [(p & sys' & L' & Er & Hs & Ho)|H]; [by exists l|left|by right].
    exists p, sys', L'. split; [exact Er|]. split; [|done]. inversion Hs; subst. by constructor. }
  eapply (outcome_step sys L t _ l T REALLOC_BUDGET); [done|done|done|].
  eapply outcome_mono; [apply (realloc_any t _ _ L T l _ p m n Hw Hm' Hroom Hse Hmt Hq Hn)|done|].
  - exact Hc.
  - intros q w' (L' & T' & l' & H1 & [H2 H3] & H4). by exists L', T', l'.
Qed.

Lemma free_step sys L t p :
  sys_ok sys L -> admissible sys L t (Free p) -> simulates sys L t (Free p) \/ exhausted sys t (Free p).
Proof.
  intros Hok (l & Hl & Hc & Hq & Hp). destruct (sys_host _ _ _ _ Hok Hl) as (T & Hm & Hmt & Hw).
  eapply (outcome_step sys L t _ l T (4 + 0)); [done|done|unfold CALL_BUDGET, REALLOC_BUDGET; lia|].
  destruct Hp as [->|[[n Hn] Hroom]].
  - apply outcome_here; [apply reach_refl|]. exists L, T, l. by split; [constructor|].
  - eapply outcome_bind; [apply (free_any t _ _ L T l _ p n Hw Hn Hroom Hmt Hq)|].
    + unfold CALL_BUDGET, REALLOC_BUDGET in Hc. unfold os_of. simpl w_state. lia.
    + intros u w' (T' & l' & [H1 H2] & H3) _. apply outcome_here; [apply reach_refl|].
      exists (ledger_free p L), T', l'. split; [|done]. constructor; [|by exists n].
      destruct (host_stable _ _ _ _ _ _ _ _ Hw) as (g & [Hi _ _ _ _] & [HL _ _]).
      destruct (lo_held _ _ _ HL p n Hn) as (cap & _ & Hlive). destruct (live_mapped _ Hi _ _ Hlive). lia.
Qed.

Lemma byte_mapped s caches g L a :
  inv s caches g -> ledger_ok s g L -> holds_byte L a -> mapped s.(st_os).(segs) a 1 = true.
Proof.
  intros Hi HL Hb. destruct (ledger_byte_live _ _ _ _ HL Hb) as (p & cap & Hlive & Ha).
  destruct (live_mapped _ Hi _ _ Hlive) as (_ & _ & _ & Hm). by eapply mapped_byte.
Qed.

Lemma store_step sys L t a v :
  sys_ok sys L -> admissible sys L t (Store a v) -> simulates sys L t (Store a v) \/ exhausted sys t (Store a v).
Proof.
  intros Hok (l & Hl & _ & _ & Hb & Hv). destruct (sys_host _ _ _ _ Hok Hl) as (T & Hm & Hmt & Hw).
  eapply (outcome_step sys L t _ l T 0); [done|done|lia|].
  destruct (h_heap _ _ _ _ _ _ _ _ Hw) as (g & Hi & [HL HT HC]). set (w := thread_world sys l) in *.
  pose proof (byte_mapped _ _ _ _ _ Hi HL Hb) as Hmp.
  destruct (ledger_byte_live _ _ _ _ HL Hb) as (p & cap & Hlive & Ha).
  set (m' := store8 w.(w_state).(st_os).(mem) a v).
  assert (Hi' : inv (set_mem m' w.(w_state)) (<[t := l.(thread_cache)]> (caches_of sys)) g).
  { eapply inv_write; [done|exact Hlive|]. intros b Hbn. unfold m'. rewrite load8_store8.
    rewrite decide_False; [done|]. intros <-. lia. }
  assert (Eb : call_body (Store a v) w = Ok (0, world_after w (set_mem m' w.(w_state)) w.(w_tls).(thread_cache))).
  { simpl. unfold mbind, M_bind, os, heap, with_os, zoom, write_u8. rewrite Hmp. by destruct l, sys as [[]]. }
  rewrite Eb. apply outcome_here; [by apply reach_same|].
  exists (ledger_store a v L), T, l. split; [by constructor|]. split; [done|]. split; [done|].
  eapply host_after_same; [exact Hw|exact Hi'|]. split; [by apply ledger_stores| |done]. by destruct HT.
Qed.

Lemma load_step sys L t a :
  sys_ok sys L -> admissible sys L t (Load a) -> simulates sys L t (Load a) \/ exhausted sys t (Load a).
Proof.
  intros Hok (l & Hl & _ & _ & Hb). destruct (sys_host _ _ _ _ Hok Hl) as (T & Hm & Hmt & Hw).
  eapply (outcome_step sys L t _ l T 0); [done|done|lia|].
  destruct (h_heap _ _ _ _ _ _ _ _ Hw) as (g & Hi & [HL HT HC]).
  pose proof (byte_mapped _ _ _ _ _ Hi HL Hb) as Hmp. set (w := thread_world sys l) in *.
  assert (Eb : call_body (Load a) w = Ok (load8 w.(w_state).(st_os).(mem) a, w)).
  { simpl. unfold os, heap, with_os, zoom, read_u8. rewrite Hmp. by destruct sys as [[[]]]. }
  rewrite Eb. apply outcome_here; [apply reach_refl|]. exists L, T, l. split; [|done].
  constructor; [done|]. intros v' Hv. symmetry. by apply (lo_stored _ _ _ HL).
Qed.

Lemma call_simulates sys L t c :
  sys_ok sys L -> admissible sys L t c -> simulates sys L t c \/ exhausted sys t c.
Proof.
  destruct c; [apply malloc_step|apply aligned_step|apply realloc_step|apply free_step|apply store_step|apply load_step].
Qed.

(** *** The start *)
Lemma get_heaps_again s : heaps_empty s -> get_heaps s = Ok (heap_table, s).
Proof. intros H. unfold get_heaps. by rewrite bind_gets, H. Qed.

(** The first call of [get_heaps] maps the table, or the kernel refuses. *)
Lemma get_heaps_first s :
  s.(st_heaps) = None -> os_ok s.(st_os) ->
  (exists o', get_heaps s = Ok (heap_table, set_heaps (Some heap_table) (set_os o' s)) /\
     os_ok o' /\ reach PM_SZ 1 s.(st_os) o') \/
  (get_heaps s = Err (Panic "Should be able to get the map") /\ refusal PM_SZ 0 s.(st_os)).
Proof.
  intros Hn Ho. unfold get_heaps. rewrite bind_gets, Hn. unfold init_heaps. rewrite bind_assoc.
  destruct (map_segment_cases (PROC_HEAP_SIZE * MAX_SZ_IDX) false s.(st_os))
    as [(seg & o' & Em & Hl & Hg)|(e & Em & Hr)];
    rewrite (bind_Ok _ _ _ _ _ (zoom_Ok st_os set_os _ s _ _ Em)).
  - left. exists o'. split; [done|]. split; [by eapply os_grow_ok|].
    eapply reach_grow; [done|]. by rewrite Hl.
  - right. split; [done|]. by eapply (refuse_now _ _ _ (PROC_HEAP_SIZE * MAX_SZ_IDX) false).
Qed.

Definition reset_heap (idx : Z) : M State unit :=
  _ ← get_heap_at idx; update_heap_at idx (λ _, mkHeap None idx).

Lemma reset_heap_ok s i : heaps_empty s -> 0 <= i < MAX_SZ_IDX -> reset_heap i s = Ok (tt, s).
Proof.
  intros Hs Hi. pose proof (heap_table_lookup i Hi) as Hlk. unfold reset_heap.
  rewrite (bind_Ok _ _ _ _ _ (get_heap_at_ok s i Hs Hi)). unfold update_heap_at.
  rewrite (bind_Ok _ _ _ _ _ (get_heaps_again s Hs)). unfold modify. f_equal. f_equal.
  replace (alter _ _ heap_table) with heap_table; [by destruct s; unfold set_heaps; simpl; rewrite <- Hs|].
  apply list_eq. intros j. destruct (decide (j = Z.to_nat i)) as [->|Hj].
  - by rewrite list_lookup_alter_eq, Hlk.
  - by rewrite list_lookup_alter_ne.
Qed.

Lemma reset_heaps_ok l s :
  heaps_empty s -> Forall (λ i, 0 <= i < MAX_SZ_IDX) l -> forM l reset_heap s = Ok (tt, s).
Proof.
  intros Hs. induction 1 as [|i l Hi _ IH]; [done|]. cbn [forM].
  by rewrite (bind_Ok _ _ _ _ _ (reset_heap_ok s i Hs Hi)).
Qed.

Lemma init_heaps_loop s :
  s.(st_heaps) = None -> os_ok s.(st_os) ->
  (exists o', forM (range 0 MAX_SZ_IDX) reset_heap s =
       Ok (tt, set_heaps (Some heap_table) (set_os o' s)) /\
     os_ok o' /\ reach PM_SZ 1 s.(st_os) o') \/
  (forM (range 0 MAX_SZ_IDX) reset_heap s = Err (Panic "Should be able to get the map") /\
     refusal PM_SZ 0 s.(st_os)).
Proof.
  intros Hn Ho. assert (Hr : Forall (λ i, 0 <= i < MAX_SZ_IDX) (range 0 MAX_SZ_IDX)).
  { rewrite Forall_forall. intros i. apply elem_of_range. }
  destruct (get_heaps_first s Hn Ho) as [(o' & Eg & Ho' & Hc)|[Eg Hrf]].
  - left. exists o'. split; [|done]. set (s' := set_heaps _ _) in *.
    rewrite <- (reset_heaps_ok _ s' eq_refl Hr). rewrite (range_cons 0) by done. cbn [forM].
    unfold reset_heap at 2 4, get_heap_at. rewrite !bind_assoc.
    by rewrite (bind_Ok _ _ _ _ _ Eg), (bind_Ok _ _ _ _ _ (get_heaps_again s' eq_refl)).
  - right. split; [|done]. rewrite (range_cons 0) by done. cbn [forM].
    apply bind_Err. unfold reset_heap, get_heap_at. rewrite bind_assoc. by apply bind_Err.
Qed.

Definition ghost_empty : Ghost := mkGhost ∅ ∅ [].

Lemma inv_start s :
  os_ok s.(st_os) -> SizeInit TARGET_APF s.(st_sizes) -> heaps_empty s -> pages_ok s ->
  is_Some s.(st_page_map) -> s.(st_descs) = ∅ -> s.(st_avail) = 0 ->
  inv s ∅ ghost_empty.
Proof.
  intros H1 H2 H3 H4 H5 H6 H7. split; simpl; try done.
  - rewrite H6, H7. split; [by constructor|by constructor|]. intros a [d Hd].
    by rewrite lookup_empty in Hd.
  - intros a [d Hd]. rewrite H6 in Hd. by rewrite lookup_empty in Hd.
Qed.

(** The page map and the bootstrap reserve are mapped, or the kernel refuses. *)
Lemma page_map_init_ok s :
  pages_ok s -> Z.of_nat s.(st_os).(calls) < CALLS_LIMIT -> os_ok s.(st_os) ->
  (exists m o', page_map_init s = Ok (tt, set_page_map (Some ∅) (set_size_map (Some m) (set_os o' s))) /\
     pages_ok (set_size_map (Some m) (set_os o' s)) /\ os_ok o' /\ reach PM_SZ 1 s.(st_os) o') \/
  (page_map_init s = Err (Panic "Error creating memory map") /\ refusal PM_SZ 0 s.(st_os)).
Proof.
  intros Hp Hc Ho. unfold page_map_init, page_alloc_over_commit.
  destruct (page_alloc_with_ok allocate_massive true PM_SZ s) as
    (m & [(seg & o' & Ea & Hl & Hg & Hp')|(e & Hr & Ea)]); [done|done|done|done| |].
  - left. exists m, o'. rewrite (bind_Ok _ _ _ _ _ Ea). split; [done|]. split; [done|].
    split; [by eapply os_grow_ok|]. eapply reach_grow; [done|]. by rewrite Hl.
  - right. rewrite (bind_Ok _ _ _ _ _ Ea). split; [done|].
    by apply (refuse_now _ _ _ PM_SZ true).
Qed.

Lemma boot_init_ok o b :
  os_ok o -> 0 < b.(boot_max) <= PM_SZ ->
  (exists b' o', boot_init b o = Ok (b', o') /\ os_ok o' /\ (o.(calls) <= o'.(calls))%nat) \/
  (boot_init b o = Err (Exit (-1)) /\ refusal PM_SZ 0 o).
Proof.
  intros Ho Hb. unfold boot_init, segment_or_exit, allocate.
  destruct (map_segment_cases (boot_max b) false o) as [(seg & o' & Em & Hl & Hg)|(e & Em & Hr)].
  - left. eexists _, o'. rewrite bind_assoc, (bind_Ok _ _ _ _ _ Em). split; [done|].
    split; [by eapply os_grow_ok|]. destruct Hg as [_ ->]. simpl. lia.
  - right. rewrite bind_assoc, (bind_Ok _ _ _ _ _ Em). split; [done|].
    by eapply (refuse_now _ _ _ (boot_max b) false).
Qed.

Lemma init_malloc_ok w :
  0 <= TARGET_APF <= TARGET_APF_BOUND ->
  w.(w_state) = state_init -> 0 < w.(w_bootstrap).(boot_max) <= PM_SZ ->
  (exists s' b, init_malloc w = Ok (tt, mkWorld s' w.(w_tls) w.(w_malloc_init)
       (if bool_decide (USE_APF_ENV = Some "false"%string) then false else w.(w_use_apf))
       w.(w_use_bootstrap) b) /\ inv s' ∅ ghost_empty) \/
  exists e, init_malloc w = Err e /\ refusal PM_SZ 2 os_init.
Proof.
  intros Ht Hs Hb. destruct w as [s0 l f ua ub b0]. simpl in *. subst s0.
  destruct (init_size_class_ok TARGET_APF Ht) as (z & _ & Hz & _).
  unfold init_malloc.
  assert (E1 : (s ← get; z ← lift (init_size_class TARGET_APF s.(st_sizes)); modify (set_sizes z))
      state_init = Ok (tt, set_sizes z state_init)).
  { unfold mbind, M_bind, get, lift, modify. cbn [st_sizes state_init]. by rewrite Hz. }
  rewrite (bind_Ok _ _ _ _ _ (zoom_Ok w_state set_state_w _ (mkWorld state_init l f ua ub b0) _ _ E1)).
  set (s1 := set_sizes z state_init).
  destruct (page_map_init_ok s1) as [(m & o' & E2 & Hp & Ho & Hrc)|[E2 Hr]].
  { done. } { done. } { apply os_init_ok. }
  2:{ right. eexists. split; [|by apply (refusal_mono _ 0); [lia|]].
      by rewrite (bind_Err _ _ _ _ (zoom_Err w_state set_state_w _ (mkWorld s1 l f ua ub b0) _ E2)). }
  cbn [set_state_w w_tls w_malloc_init w_use_apf w_use_bootstrap w_bootstrap].
  rewrite (bind_Ok _ _ _ _ _ (zoom_Ok w_state set_state_w _ (mkWorld s1 l f ua ub b0) _ _ E2)).
  rewrite bind_modify. set (s2 := set_page_map _ _) in *.
  set (ua' := if bool_decide (USE_APF_ENV = Some "false"%string) then false else ua).
  replace (if bool_decide (USE_APF_ENV = Some "false"%string) then set_use_apf false _ else _)
    with (mkWorld s2 l f ua' ub b0) by (unfold ua'; by case_match).
  change (λ idx, _ ← get_heap_at idx; update_heap_at idx (λ _, mkHeap None idx)) with reset_heap.
  destruct (init_heaps_loop s2 eq_refl Ho) as [(o3 & E3 & Ho3 & Hc3)|[E3 Hr]].
  2:{ right. eexists. split; [|apply (refusal_mono _ 1); [lia|by apply (refuse_later _ 1 0 _ o')]].
      by rewrite (bind_Err _ _ _ _ (zoom_Err w_state set_state_w _ (mkWorld s2 l f ua' ub b0) _ E3)). }
  rewrite (bind_Ok _ _ _ _ _ (zoom_Ok w_state set_state_w _ (mkWorld s2 l f ua' ub b0) _ _ E3)).
  rewrite bind_get. set (s3 := set_heaps _ (set_os o3 s2)).
  destruct (boot_init_ok s3.(st_os) b0 Ho3 Hb) as [(b' & o2 & E4 & Ho2 & Hc)|[E4 Hr]].
  2:{ right. eexists. split; [|by apply (refuse_later _ 2 0 _ o3); [by apply (reach_trans _ 1 1 _ o')|]].
      cbn [w_bootstrap set_state_w].
      apply bind_Err. unfold os, heap, with_os, zoom. cbn [w_state set_state_w]. by rewrite E4. }
  left. exists (set_os o2 s3), b'. split.
  - cbn [w_bootstrap set_state_w]. unfold mbind, M_bind, os, heap, with_os, zoom.
    cbn [w_state set_state_w]. by rewrite E4.
  - apply inv_start; [exact Ho2|by split|reflexivity| |by eexists|reflexivity|reflexivity].
    eapply pages_ok_calls; [exact Hp|reflexivity|].
    etrans; [exact (proj1 (reach_calls _ _ _ _ Hc3))|exact Hc].
Qed.

Lemma sys_start_inv :
  0 <= TARGET_APF <= TARGET_APF_BOUND ->
  (exists sys, sys_start = Ok sys /\ sys.(threads) = ∅ /\
     inv sys.(shared).(w_state) ∅ ghost_empty /\
     sys.(shared).(w_malloc_init).(skip_flag) = true /\ sys.(shared).(w_use_bootstrap) = false) \/
  (exists e, sys_start = Err e /\ refusal PM_SZ 2 os_init).
Proof.
  intros Ht. unfold sys_start, malloc_init. rewrite bind_gets.
  cbn [skip_flag world_init sa_new w_malloc_init access].
  rewrite bind_assoc, bind_modify. set (w0 := set_malloc_init _ world_init).
  destruct (init_malloc_ok w0 Ht eq_refl) as [(s' & b & Ei & Hi)|(e & Ei & Hr)]; [done| |].
  - left. rewrite bind_assoc, (bind_Ok _ _ _ _ _ Ei), bind_modify, bind_gets.
    cbn [wait w_malloc_init set_malloc_init]. clear Ei.
    eexists. split; [reflexivity|]. split; [reflexivity|]. by split; [exact Hi|].
  - right. exists e. rewrite bind_assoc, (bind_Err _ _ _ _ Ei). split; [reflexivity|exact Hr].
Qed.

Lemma sys_start_ok :
  0 <= TARGET_APF <= TARGET_APF_BOUND ->
  (exists sys, sys_start = Ok sys /\ sys_ok sys ledger_empty) \/
  (exists e, sys_start = Err e /\ refusal PM_SZ 2 os_init).
Proof.
  intros Ht. destruct (sys_start_inv Ht) as [(sys & Es & Hth & Hi & Hin & Hb)|H]; [left|by right].
  exists sys. split; [exact Es|]. clear Es. split; [|done|done].
  exists ghost_empty, ∅. unfold caches_of. rewrite Hth, fmap_empty. split; [done|]. split; [|by intros t l].
  split; [by split; simpl|by split|]. by intros p pl.
Qed.

(** *** Executions *)
(** A new thread: its bins are empty, and it has no tuners yet. *)
Definition new_thread (use_apf : bool) (l : Tls) : Prop :=
  l.(thread_cache) = replicate (Z.to_nat MAX_SZ_IDX) bin_new /\
  (untuned use_apf l \/ (use_apf = true /\ l.(panicking) = false /\ fresh l)).

(** [execution sys L tr]: the calls [tr], with what they returned, lead from
    the start to [sys], and the client holds [L]. *)
Inductive execution : Sys -> Ledger -> list (nat * Call * Z) -> Prop :=
  | exec_start sys : sys_start = Ok sys -> execution sys ledger_empty []
  | exec_spawn sys L tr t l :
      execution sys L tr -> sys.(threads) !! t = None -> new_thread sys.(shared).(w_use_apf) l ->
      execution (mkSys sys.(shared) (<[t := l]> sys.(threads))) L tr
  | exec_call sys L tr t c out sys' :
      execution sys L tr -> admissible sys L t c -> run_call t c sys = Ok (out, sys') ->
      execution sys' (ledger_after c out L) (tr ++ [(t, c, out)]).

(** The blocks of threads that have no cache are dropped from the bookkeeping. *)
Definition has_cache (caches : gmap nat (list ThreadCacheBin)) (o : option nat) : Prop :=
  match o with None => True | Some t => is_Some (caches !! t) end.

#[local] Instance has_cache_dec caches o : Decision (has_cache caches o).
Proof. destruct o; simpl; apply _. Defined.

Definition prune (caches : gmap nat (list ThreadCacheBin)) (g : Ghost) : Ghost :=
  mkGhost g.(roles) (filter (λ kv, has_cache caches kv.2.2) g.(owner)) g.(free_descs).

Lemma prune_owner caches g b i o :
  (prune caches g).(owner) !! b = Some (i, o) <-> g.(owner) !! b = Some (i, o) /\ has_cache caches o.
Proof. simpl. by rewrite map_lookup_filter_Some. Qed.

Lemma inv_prune s caches g : inv s caches g -> inv s caches (prune caches g).
Proof.
  intros [I1 I2 I3 I4 I5 I6 I7 I8 I9 I10 I11]. split; try done.
  - intros b i o [Hb _]%prune_owner. by apply (I10 b i o).
  - intros t cs Hcs i Hi. destruct (I11 t cs Hcs i Hi) as (c & Hc & l & Hh & Hnd & Hl & Hbs).
    exists c. split; [done|]. exists l. do 2 (split; [done|]). split; [|done].
    intros b. rewrite prune_owner, Hl. split; [|by intros []]. intros H. split; [done|]. by exists cs.
Qed.

Lemma live_prune s caches g p cap : live s (prune caches g) p cap <-> live s g p cap.
Proof.
  split; (intros [i c Ho Hc ->|q d len R ->]; [|by eapply live_large]).
  - apply prune_owner in Ho as [Ho _]. by eapply live_small.
  - eapply live_small; [by apply prune_owner|done|done].
Qed.

Lemma inv_spawn s caches g t cs :
  inv s caches g -> caches !! t = None ->
  cs = replicate (Z.to_nat MAX_SZ_IDX) bin_new -> inv s (<[t := cs]> caches) (prune caches g).
Proof.
  intros Hi Ht ->. apply inv_prune in Hi. destruct Hi as [I1 I2 I3 I4 I5 I6 I7 I8 I9 I10 I11].
  split; try done.
  intros t' cs' Hcs' i Hi. apply lookup_insert_Some in Hcs' as [[<- <-]|[_ Hcs']]; [|by eapply I11].
  exists bin_new. split; [by apply lookup_replicate_2; lia|].
  exists []. split; [apply bin_new_holds|]. split; [by constructor|]. split; [|by left].
  intros b. split; [by intros ?%elem_of_nil|]. intros [_ [x Hx]]%prune_owner. congruence.
Qed.

Lemma sys_spawn sys L t l :
  sys_ok sys L -> sys.(threads) !! t = None -> new_thread sys.(shared).(w_use_apf) l ->
  sys_ok (mkSys sys.(shared) (<[t := l]> sys.(threads))) L.
Proof.
  intros [(g & T & Hi & [[L1 L2] [T1 T2 T3] HC] & Hm) Hin Hb] Ht [Hl Hlu]. split; simpl; [|done|done].
  exists (prune (caches_of sys) g), T. split; [|split; [split|]].
  - unfold caches_of at 1. simpl. rewrite fmap_insert. apply inv_spawn; [done| |done].
    unfold caches_of. by rewrite lookup_fmap, Ht.
  - split; [|done]. intros p n Hp. destruct (L1 p n Hp) as (cap & Hn & Hc). exists cap. by rewrite live_prune.
  - by split.
  - by intros p pl.
  - intros t' l'. rewrite lookup_insert_Some. intros [[<- <-]|[_ Hl']]; [|by apply Hm].
    destruct Hlu as [H|(H1 & H2 & H3)]; [by left|right]. split; [done|]. split; [done|by left].
Qed.

(** Every execution keeps the invariant and follows the abstract allocator. *)
Lemma execution_ok sys L tr :
  0 <= TARGET_APF <= TARGET_APF_BOUND -> execution sys L tr ->
  sys_ok sys L /\ spec_runs ledger_empty tr L.
Proof.
  intros Ht. induction 1 as [sys Hs|sys L tr t l _ [IH1 IH2] Hn Hl|sys L tr t c out sys' _ [IH1 IH2] Ha Hr].
  - destruct (sys_start_ok Ht) as [(sys' & E' & Hok)|(e & E' & _)]; [|congruence].
    rewrite Hs in E'. injection E' as ->. split; [done|constructor].
  - split; [by apply sys_spawn|done].
  - destruct (call_simulates sys L t c IH1 Ha) as [(out' & sys2 & L' & Hr' & Hstep & Hok)|(msg & Hr' & _)];
      [|congruence].
    rewrite Hr in Hr'. injection Hr' as <- <-.
    pose proof (spec_step_after _ _ _ _ Hstep) as ->. split; [done|]. by eapply spec_snoc.
Qed.

(** A thread that consults its tuners has all of them. *)
Lemma mode_tuned T t l : mode_ok true T t l -> l.(skip_tuners) = 0 -> tuned T t l.
Proof.
  intros [(_ & [?|[_ ?]])|(_ & _ & [(_ & _ & ? & _)|H])] Hs; [done|lia|lia|done].
Qed.

Lemma tuner_array T t l i a trace :
  tuned T t l -> l.(apf_tuners) !! i = Some a -> a.(r_counter).(rc_trace) = Some trace ->
  exists n, trace_ok T (t, i) trace n.
Proof.
  intros Ht Ha Htr. destruct (td_tuners _ _ _ Ht i a Ha) as [_ _ _ (n & _ & Hc)].
  exists n. unfold counter_ok in Hc. by rewrite Htr in Hc.
Qed.

Lemma sys_tuners sys L t l i a trace :
  sys_ok sys L -> sys.(shared).(w_use_apf) = true -> sys.(threads) !! t = Some l -> l.(skip_tuners) = 0 ->
  l.(apf_tuners) !! i = Some a -> a.(r_counter).(rc_trace) = Some trace ->
  a.(tuner_id) = Z.of_nat i /\ a.(fetch_count) = 0 /\
  trace_events trace = Ok trace.(tr_cells) /\ trace.(alloc_count) = allocs trace.(tr_cells) /\
  trace.(tr_length) < trace.(tr_cap) /\
  exists p, trace.(tr_ptr) = Some p /\
    mapped sys.(shared).(w_state).(st_os).(segs) p (EVENT_SIZE * trace.(tr_cap)) = true /\
    (forall q m, L.(held) !! q = Some m -> disjoint_ranges p (EVENT_SIZE * trace.(tr_cap)) q m) /\
    (forall t' l' i' a' trace' p', sys.(threads) !! t' = Some l' -> l'.(skip_tuners) = 0 ->
       l'.(apf_tuners) !! i' = Some a' -> a'.(r_counter).(rc_trace) = Some trace' -> trace'.(tr_ptr) = Some p' ->
       (t', i') <> (t, i) ->
       disjoint_ranges p (EVENT_SIZE * trace.(tr_cap)) p' (EVENT_SIZE * trace'.(tr_cap))).
Proof.
  intros [(g & T & Hi & [HL HT _] & Hm) _ _] Hu Hl Hs Ha Htr. rewrite Hu in Hm.
  assert (Htd : forall t0 l0, sys.(threads) !! t0 = Some l0 -> l0.(skip_tuners) = 0 -> tuned T t0 l0).
  { intros t0 l0 H1 H2. apply mode_tuned; [by apply Hm|done]. }
  pose proof (Htd t l Hl Hs) as Htt. destruct (td_tuners _ _ _ Htt i a Ha) as [_ Hf Hid _].
  destruct (tuner_array _ _ _ _ _ _ Htt Ha Htr) as (n & Hwf & p & Hp & HTp).
  pose proof (trace_live sys.(shared).(w_state) _ _ _ _ _ _ HT HTp) as Hlv.
  do 2 (split; [done|]). split; [by eapply trace_events_wf|].
  split; [apply Hwf|]. split; [apply Hwf|].
  exists p. split; [done|]. split; [by destruct (live_mapped _ Hi _ _ Hlv) as (_ & _ & _ & ?)|]. split.
  - intros q m Hq. destruct (lo_held _ _ _ HL q m Hq) as (cap & Hcap & Hlq).
    assert (Hne : p <> q) by (intros ->; pose proof (to_apart _ _ _ HT _ _ _ HTp); congruence).
    pose proof (live_apart _ Hi _ _ _ _ Hlv Hlq Hne) as Hd. unfold disjoint_ranges in *. lia.
  - intros t' l' i' a' trace' p' Hl' Hs' Ha' Htr' Hp' Hne.
    destruct (tuner_array _ _ _ _ _ _ (Htd t' l' Hl' Hs') Ha' Htr') as (n' & _ & p2 & Hp2 & HTp2).
    rewrite Hp' in Hp2. injection Hp2 as <-.
    pose proof (trace_live sys.(shared).(w_state) _ _ _ _ _ _ HT HTp2) as Hlv2.
    apply (live_apart _ Hi _ _ _ _ Hlv Hlv2). intros <-. apply Hne. by eapply to_inj.
Qed.

(** Every untuned thread of an execution is ready for a call. *)
Lemma sys_running sys L t l :
  sys_ok sys L -> sys.(threads) !! t = Some l -> untuned sys.(shared).(w_use_apf) l ->
  exists g, running (target := TARGET_APF) (thread_world sys l) (caches_of sys) g t /\
    ledger_ok (thread_world sys l).(w_state) g L.
Proof.
  intros [(g & T & Hi & [HL _ _] & _) Hin Hb] Hl Hu. exists g. split; [|done]. split; simpl; try done.
  unfold caches_of. by rewrite lookup_fmap, Hl.
Qed.

Lemma execution_ready sys L tr t l :
  0 <= TARGET_APF <= TARGET_APF_BOUND -> execution sys L tr -> sys.(threads) !! t = Some l ->
  untuned sys.(shared).(w_use_apf) l ->
  exists g, running (target := TARGET_APF) (thread_world sys l) (caches_of sys) g t.
Proof.
  intros Ht He Hl Hu. destruct (execution_ok _ _ _ Ht He) as [Hok _].
  destruct (sys_running _ _ _ _ Hok Hl Hu) as (g & Hrun & _). by exists g.
Qed.

Lemma execution_running sys L tr t l ptr n :
  0 <= TARGET_APF <= TARGET_APF_BOUND -> execution sys L tr -> sys.(threads) !! t = Some l ->
  untuned sys.(shared).(w_use_apf) l -> L.(held) !! ptr = Some n ->
  exists g cap, running (target := TARGET_APF) (thread_world sys l) (caches_of sys) g t /\
    live (thread_world sys l).(w_state) g ptr cap.
Proof.
  intros Ht He Hl Hu Hp. destruct (execution_ok _ _ _ Ht He) as [Hok _].
  destruct (sys_running _ _ _ _ Hok Hl Hu) as (g & Hrun & HL).
  destruct (lo_held _ _ _ HL ptr n Hp) as (cap & _ & Hlive). by exists g, cap.
Qed.
End Refinement.
