(* ===== verification/Scripts.v ===== *)
(** * Scripts

    Executions by evaluation: a script is a list of calls, each of which may
    depend on what the calls before it returned, and it is run as long as its
    calls are admissible. *)
From S2P Require Import Prelude MemInfo SizeClasses Anchor Mem Bin Trace Tuner.
From S2P Require Import SingleAccess Bootstrap HashMap State Pages Descriptor.
From S2P Require Import PageMap Alloc ThreadCache Lib Heap HeapOps LargeOps Safety.
From S2P Require Import Calls Ledger Triple Tuning ClientCalls System.

Definition get_ok {A} (d : A) (r : result A) : A := match r with Ok a => a | Err _ => d end.

Lemma get_ok_class st i : is_ok (size_class_at st i) = true -> exists c, size_class_at st i = Ok c.
Proof. destruct (size_class_at st i) as [c|]; [by exists c|done]. Qed.

Lemma get_ok_eq {A} (d : A) r : is_ok r = true -> r = Ok (get_ok d r).
Proof. by destruct r. Qed.

Definition no_sys : Sys := mkSys world_init ∅.

Definition holds_byteb (L : Ledger) (a : Z) : bool :=
  existsb (λ kv, (kv.1 <=? a) && (a <? kv.1 + kv.2)) (map_to_list L.(held)).

Lemma holds_byteb_sound L a : holds_byteb L a = true -> holds_byte L a.
Proof.
  unfold holds_byteb. rewrite existsb_exists. intros ([p n] & Hin & Hr).
  apply list_elem_of_In, elem_of_map_to_list in Hin.
  rewrite andb_true_iff, Z.leb_le, Z.ltb_lt in Hr. by exists p, n.
Qed.

Definition nth_out (n : nat) (l : list Z) : Z := default 0 (l !! n).

Definition absent {A} (o : option A) : bool := match o with None => true | Some _ => false end.

Lemma absent_eq {A} (o : option A) : absent o = true -> o = None.
Proof. by destruct o. Qed.

Lemma present_eq {A} (o : option A) : negb (absent o) = true -> is_Some o.
Proof. destruct o; [by eexists|done]. Qed.

(** Several facts by one evaluation. *)
Fixpoint all_true (l : list bool) : Prop :=
  match l with [] => True | b :: l' => b = true /\ all_true l' end.

Lemma all_true_forallb l : forallb id l = true -> all_true l.
Proof. induction l as [|b l IH]; [done|]. intros [Hb Hl]%andb_prop. by split; [|apply IH]. Qed.

Section Scripts.
Context {KN : Kernel} {HZ : Hash Z} {BR : BitRange} {AC : ApfConfig} {LC : LibConfig}.
Context {E : ApfEnv World} {LE : LibEnv E}.

(** What is assumed of a call, by evaluation. *)
Definition admissibleb (sys : Sys) (L : Ledger) (t : nat) (c : Call) : bool :=
  match sys.(threads) !! t with
  | None => false
  | Some l =>
      (Z.of_nat sys.(shared).(w_state).(st_os).(calls) + Z.of_nat CALL_BUDGET <? CALLS_LIMIT) &&
      quiet sys.(shared).(w_use_apf) l &&
      match c with
      | Malloc size => (0 <=? size) && (size <? 2 ^ 32 - PAGE)
      | AlignedAlloc align size =>
          (0 <=? size) && (size <=? 2 ^ 30) && (0 <? align) && (align <=? 2 ^ 30) &&
          (align =? 2 ^ Z.log2 align)
      | Realloc ptr size =>
          (0 <=? size) && (size <? 2 ^ 32 - PAGE) &&
          ((ptr =? 0) || (bool_decide (is_Some (L.(held) !! ptr)) && realloc_room (thread_world sys l) ptr size &&
                           settled sys.(shared).(w_use_apf) l))
      | Free ptr => (ptr =? 0) || (bool_decide (is_Some (L.(held) !! ptr)) &&
                      free_room (thread_world sys l) ptr)
      | Store a v => holds_byteb L a && (0 <=? v) && (v <? 256)
      | Load a => holds_byteb L a
      end
  end.

Lemma admissibleb_sound sys L t c : admissibleb sys L t c = true -> admissible sys L t c.
Proof.
  unfold admissibleb, admissible. destruct (threads sys !! t) as [l|]; [|done].
  rewrite !andb_true_iff, Z.ltb_lt. intros [[Hc Hq] H]. exists l. do 3 (split; [done|]). destruct c.
  - lia.
  - split; [lia|]. exists (Z.log2 align). rewrite !andb_true_iff, Z.eqb_eq in H.
    destruct H as [[[[H1 H2] H3] H4] H5]. apply Z.ltb_lt in H3. apply Z.leb_le in H4.
    split; [|done]. split; [apply Z.log2_nonneg|].
    change 30 with (Z.log2 (2 ^ 30)). by apply Z.log2_le_mono.
  - rewrite !andb_true_iff, orb_true_iff, !andb_true_iff, bool_decide_eq_true, Z.eqb_eq in H.
    destruct H as [[H1 H2] H3]. split; [lia|]. by destruct H3 as [?|[[? ?] ?]]; [left|right].
  - rewrite orb_true_iff, andb_true_iff, bool_decide_eq_true, Z.eqb_eq in H. done.
  - rewrite !andb_true_iff in H. destruct H as [[H1 H2] H3].
    split; [by apply holds_byteb_sound|lia].
  - by apply holds_byteb_sound.
Qed.

(** Scripts: a call may depend on what the calls before it returned. *)
Definition outs (tr : list (nat * Call * Z)) : list Z := map snd tr.

Fixpoint run_script (cs : list (nat * (list Z -> Call))) (sys : Sys) (L : Ledger)
    (tr : list (nat * Call * Z)) : option (Sys * Ledger * list (nat * Call * Z)) :=
  match cs with
  | [] => Some (sys, L, tr)
  | (t, f) :: cs' =>
      let c := f (outs tr) in
      if admissibleb sys L t c then
        match run_call t c sys with
        | Ok (out, sys') => run_script cs' sys' (ledger_after c out L) (tr ++ [(t, c, out)])
        | Err _ => None
        end
      else None
  end.

Lemma run_script_execution cs : forall sys L tr r,
  execution sys L tr -> run_script cs sys L tr = Some r -> execution r.1.1 r.1.2 r.2.
Proof.
  induction cs as [|[t f] cs IH]; simpl; intros sys L tr r He Hr; [by injection Hr as <-|].
  destruct (admissibleb sys L t (f (outs tr))) eqn:Ea; [|done].
  destruct (run_call t (f (outs tr)) sys) as [[out sys']|e] eqn:Ec; [|done].
  eapply IH; [|exact Hr]. eapply exec_call; [done|by apply admissibleb_sound|done].
Qed.

Definition spawn (t : nat) (s : Sys) : Sys := mkSys s.(shared) (<[t := tls_new]> s.(threads)).

Lemma sys_start_threads s : sys_start = Ok s -> s.(threads) = ∅.
Proof.
  unfold sys_start. destruct (malloc_init world_init) as [[u w']|e]; [|discriminate].
  by intros [= <-].
Qed.

Lemma tls_new_thread ua : new_thread ua tls_new.
Proof. split; [done|]. destruct ua; [by right|]. left. by split; [|left]. Qed.

Lemma spawn_two s :
  sys_start = Ok s -> execution (spawn 1 (spawn 0 s)) ledger_empty [].
Proof.
  intros Hs. pose proof (sys_start_threads _ Hs) as Hth.
  apply exec_spawn; [apply exec_spawn; [by apply exec_start| |apply tls_new_thread]| |apply tls_new_thread].
  - by rewrite Hth.
  - simpl. by rewrite Hth.
Qed.

(** Two new threads run a script. *)
Definition script_run (cs : list (nat * (list Z -> Call))) (s : Sys) : option (Sys * Ledger * list (nat * Call * Z)) :=
  run_script cs (spawn 1 (spawn 0 s)) ledger_empty [].

Lemma script_execution cs s d :
  sys_start = Ok s -> negb (absent (script_run cs s)) = true ->
  execution (default d (script_run cs s)).1.1 (default d (script_run cs s)).1.2 (default d (script_run cs s)).2.
Proof.
  intros Hs Hr. destruct (script_run cs s) as [r|] eqn:Er; [|done].
  exact (run_script_execution cs _ _ _ _ (spawn_two s Hs) Er).
Qed.
End Scripts.
