(* ===== verification/TunedDemo.v ===== *)
(** * An execution with the tuners on

    The library as it is built by default: two threads make their tuners with
    their first allocations, bursts of samples are completed and new ones
    started, a tuner's array is freed and allocated again in the middle of
    calls of the client.  For a kernel that maps upwards, a target of 100, and
    bursts of 2 allocations every 3. *)
From S2P Require Import Prelude MemInfo SizeClasses Anchor Mem Bin Trace Reuse Tuner.
From S2P Require Import SingleAccess Bootstrap HashMap State Pages Descriptor.
From S2P Require Import PageMap Alloc ThreadCache Lib Heap HeapOps LargeOps Safety.
From S2P Require Import Calls Ledger Triple Tuning ClientCalls System Scripts.

Module TunedDemo.
Definition config : ApfConfig :=
  {| TARGET_APF := 100; REUSE_BURST_LENGTH := 2; REUSE_HIBERNATION_PERIOD := 3 |}.
Definition use_apf : LibConfig := None.
Definition env : ApfEnv World :=
  lib_env (KN := kernel_up) (HZ := id_hash) (BR := bit_range_u64) (AC := config) (LC := use_apf) NESTING.

#[local] Existing Instances kernel_up id_hash bit_range_u64 config use_apf env.
#[local] Instance env_lib : LibEnv env := lib_env_lib 1.

Lemma tuned_target_ok : 0 <= TARGET_APF <= TARGET_APF_BOUND.
Proof. by vm_compute. Qed.

Definition script : list (nat * (list Z -> Call)) :=
  [(0%nat, λ _, Malloc 100);
   (0%nat, λ o, Store (nth_out 0 o + 7) 42);
   (0%nat, λ _, Malloc 100);
   (1%nat, λ _, AlignedAlloc 64 100);
   (1%nat, λ o, Free (nth_out 2 o));
   (1%nat, λ _, Malloc 100);
   (0%nat, λ _, Malloc 100);
   (0%nat, λ _, Malloc 100);
   (0%nat, λ _, Malloc 100);
   (0%nat, λ o, Realloc (nth_out 0 o) 300);
   (1%nat, λ o, Load (nth_out 9 o + 7));
   (1%nat, λ o, Free (nth_out 9 o))].

Definition sys0 : Sys := get_ok no_sys sys_start.
Definition no_run : Sys * Ledger * list (nat * Call * Z) := (no_sys, ledger_empty, []).
Definition final : Sys * Ledger * list (nat * Call * Z) := default no_run (script_run script sys0).
  Abbreviation sys := (final.1.1).
Definition tls : Tls := default tls_new (sys.(threads) !! 0%nat).

(** The tuner of the class of 100 bytes is in its second burst. *)
Definition samples (o : option ApfTuner) : bool :=
  match o with
  | Some a => match a.(r_counter).(rc_trace), a.(r_counter).(rc_reuse) with Some _, Some _ => true | _, _ => false end
  | None => false
  end.

Lemma samples_trace o :
  samples o = true -> exists a trace, o = Some a /\ a.(r_counter).(rc_trace) = Some trace.
Proof.
  destruct o as [a|]; simpl; [|discriminate]. destruct (rc_trace (r_counter a)) as [trace|] eqn:Ht; [|discriminate].
  intros _. by exists a, trace.
Qed.

Record Evaluated : Prop := {
  ev_start : is_ok sys_start = true;
  ev_runs : negb (absent (script_run script sys0)) = true;
  ev_trace : Nat.eqb (length final.2) 12 = true;
  ev_apf : sys.(shared).(w_use_apf) = true;
  ev_thread : negb (absent (sys.(threads) !! 0%nat)) = true;
  ev_tuned : tls.(skip_tuners) =? 0 = true;
  ev_samples : samples (tls.(apf_tuners) !! 11%nat) = true;
}.

Lemma tuned_evaluated : Evaluated.
Proof.
  assert (H : all_true
    [is_ok sys_start; negb (absent (script_run script sys0)); Nat.eqb (length final.2) 12; sys.(shared).(w_use_apf);
     negb (absent (sys.(threads) !! 0%nat)); tls.(skip_tuners) =? 0; samples (tls.(apf_tuners) !! 11%nat)])
    by (apply all_true_forallb; vm_compute; reflexivity).
  destruct H as (H1 & H2 & H3 & H4 & H5 & H6 & H7 & _).
  exact (Build_Evaluated H1 H2 H3 H4 H5 H6 H7).
Qed.

Lemma tuned_start : sys_start = Ok sys0.
Proof. exact (get_ok_eq no_sys _ (ev_start tuned_evaluated)). Qed.

Lemma tuned_execution : execution final.1.1 final.1.2 final.2.
Proof. exact (script_execution script sys0 no_run tuned_start (ev_runs tuned_evaluated)). Qed.

Lemma tuned_thread : sys.(threads) !! 0%nat = Some tls.
Proof.
  destruct (present_eq _ (ev_thread tuned_evaluated)) as [l Hl]. unfold tls. rewrite Hl. reflexivity.
Qed.
End TunedDemo.
