(* ===== verification/TunedRuns.v ===== *)
(** * Runs with the tuners on

    The library as it is built by default: the first allocation of a thread
    creates its tuners, which then decide how many blocks an empty bin is given.
    The runs are evaluated for a kernel that maps downwards, each mapping below
    the last, as Linux does, and for a small target and short bursts. *)
From S2P Require Import Prelude MemInfo SizeClasses Anchor Mem Bin Trace Tuner.
From S2P Require Import SingleAccess Bootstrap HashMap State Pages Descriptor.
From S2P Require Import PageMap Alloc ThreadCache Lib Heap HeapOps LargeOps Safety.
From S2P Require Import Calls Ledger Triple Tuning ClientCalls System Scripts.

Module Tuned.
Definition config : ApfConfig :=
  {| TARGET_APF := 2; REUSE_BURST_LENGTH := 10; REUSE_HIBERNATION_PERIOD := 20 |}.
Definition use_apf : LibConfig := None.

#[local] Existing Instances kernel_down id_hash bit_range_u64 config use_apf.

Definition env : ApfEnv World := lib_env NESTING.
#[local] Existing Instance env.

(** The value of a run of a new thread. *)
Definition value {A} (c : M World A) : result A :=
  s ← sys_start;
  match c (thread_world s tls_new) with Ok (a, _) => Ok a | Err e => Err e end.

Fixpoint mallocs (n : nat) (size : Z) : M World unit :=
  match n with O => mret tt | S n' => _ ← do_malloc size; mallocs n' size end.

(** Ten blocks of 5000 bytes are allocated, then two of 16, then two more of
    5000.  The first block of 16 bytes is freed, and 5000 bytes are allocated.
    The class of the first block of 16 bytes is looked up when it has been
    allocated, and again just before it is freed. *)
Definition fetch_run : M World (Z * Z * option Z * option Z * Z) :=
  mallocs 10 5000;;
  p ← do_malloc 16; p' ← do_malloc 16;
  before ← heap (class_of_ptr p);
  mallocs 2 5000;;
  after ← heap (class_of_ptr p);
  do_free p;;
  q ← do_malloc 5000;
  mret (p, p', before, after, q).

(** C37: with the tuners on, the allocator hands out memory that the client still
    holds.  [fetch] maps room for the two blocks that the tuner asked for, but
    registers the pages of a whole superblock: the pages that follow, which
    belong to the superblock that was mapped before, get the descriptor of the
    new one.  A block of 16 bytes is then taken for one of 5120, and after it is
    freed it is given to a client that asked for 5000 bytes, over the next block
    of 16 bytes, which was never freed. *)
Theorem tuned_fetch_hands_out_held_memory :
  exists p, value fetch_run = Ok (p, p + 16, Some 2, Some 33, p).
Proof. exists 138538454302720. vm_compute. reflexivity. Qed.
End Tuned.
