(* ===== verification/CApi.v ===== *)
(** * The C interface and the Rust allocator

    Models [src/apfmalloc/src/lib.rs]: the functions that replace those of the C
    library, and the [GlobalAlloc] implementation.  The flags record which
    functions have been called. *)
From S2P Require Import Prelude MemInfo SizeClasses Anchor Mem Bin Trace Tuner.
From S2P Require Import SingleAccess Bootstrap HashMap State Pages Descriptor.
From S2P Require Import PageMap Alloc ThreadCache Lib Heap HeapOps LargeOps Safety.
From S2P Require Import Calls.

Record Ffi : Type := mkFfi {
  ffi_world : World;
  OVERRIDE_MALLOC : bool;
  OVERRIDE_CALLOC : bool;
  OVERRIDE_REALLOC : bool;
  OVERRIDE_FREE : bool;
  OVERRIDE_ALIGNED_ALLOC : bool;
}.

Definition set_ffi_world (w : World) (f : Ffi) : Ffi :=
  mkFfi w f.(OVERRIDE_MALLOC) f.(OVERRIDE_CALLOC) f.(OVERRIDE_REALLOC) f.(OVERRIDE_FREE)
    f.(OVERRIDE_ALIGNED_ALLOC).
Definition mark_malloc (f : Ffi) : Ffi :=
  mkFfi f.(ffi_world) true f.(OVERRIDE_CALLOC) f.(OVERRIDE_REALLOC) f.(OVERRIDE_FREE)
    f.(OVERRIDE_ALIGNED_ALLOC).
Definition mark_calloc (f : Ffi) : Ffi :=
  mkFfi f.(ffi_world) f.(OVERRIDE_MALLOC) true f.(OVERRIDE_REALLOC) f.(OVERRIDE_FREE)
    f.(OVERRIDE_ALIGNED_ALLOC).
Definition mark_realloc (f : Ffi) : Ffi :=
  mkFfi f.(ffi_world) f.(OVERRIDE_MALLOC) f.(OVERRIDE_CALLOC) true f.(OVERRIDE_FREE)
    f.(OVERRIDE_ALIGNED_ALLOC).
Definition mark_free (f : Ffi) : Ffi :=
  mkFfi f.(ffi_world) f.(OVERRIDE_MALLOC) f.(OVERRIDE_CALLOC) f.(OVERRIDE_REALLOC) true
    f.(OVERRIDE_ALIGNED_ALLOC).
Definition mark_aligned (f : Ffi) : Ffi :=
  mkFfi f.(ffi_world) f.(OVERRIDE_MALLOC) f.(OVERRIDE_CALLOC) f.(OVERRIDE_REALLOC) f.(OVERRIDE_FREE)
    true.

Definition in_world {A} (c : M World A) : M Ffi A := zoom ffi_world set_ffi_world c.

Definition EINVAL : Z := 22.
Definition ENOMEM : Z := 12.

(** [for i in 0..n { *p.offset(i) = 0 }] *)
Definition zero_bytes (p n : Z) : M Os unit := forM (range 0 n) (λ i, write_u8 (p + i) 0).

Section CApi.
Context {KN : Kernel} {HZ : Hash Z} {BR : BitRange} {AC : ApfConfig} {LC : LibConfig}.
Context {E : ApfEnv World}.

(** ** The C functions *)
Definition malloc (size : Z) : M Ffi Z :=
  modify mark_malloc;; in_world (do_malloc size).

Definition calloc (num size : Z) : M Ffi Z :=
  modify mark_calloc;;
  if 2 ^ 64 <=? num * size then mret 0
  else
    ret ← malloc (num * size);
    in_world (os (zero_bytes ret (num * size)));;
    mret ret.

Definition realloc (ptr new_size : Z) : M Ffi Z :=
  modify mark_realloc;; in_world (do_realloc ptr new_size).

Definition free (ptr : Z) : M Ffi unit :=
  modify mark_free;; in_world (do_free ptr).

Definition aligned_alloc (alignment size : Z) : M Ffi Z :=
  modify mark_aligned;;
  if alignment =? 0 then fail (Panic "attempt to calculate the remainder with a divisor of zero")
  else if negb (size mod alignment =? 0) then mret 0
  else in_world (do_aligned_alloc alignment size).

(** [macos] is [cfg!(target_os = "macos")].  The test for [ENOMEM] looks at the
  address of the result, not at the result. *)
Definition posix_memalign (macos : bool) (ptr alignment size : Z) : M Ffi Z :=
  modify mark_aligned;;
  if negb (alignment mod 8 =? 0) then mret EINVAL
  else
    out_ptr ← (if macos then aligned_alloc (Z.max alignment 16) size else aligned_alloc alignment size);
    if ptr =? 0 then mret ENOMEM
    else in_world (os (write_ptr ptr out_ptr));; mret 0.

Definition check_override : M Ffi Z :=
  ptr ← malloc 8;
  f ← get;
  if negb f.(OVERRIDE_MALLOC) then mret 0
  else
    new_ptr ← realloc ptr 64;
    assertM (negb (new_ptr =? ptr)) "assertion failed: `(left != right)`";;
    f ← get;
    if negb f.(OVERRIDE_REALLOC) then mret 0
    else
      calloced ← calloc 8 8;
      assertM (negb (new_ptr =? calloced)) "assertion failed: `(left != right)`";;
      f ← get;
      if negb f.(OVERRIDE_CALLOC) then mret 0
      else
        free new_ptr;;
        free calloced;;
        f ← get;
        if negb f.(OVERRIDE_FREE) then mret 0 else mret 1.

(** ** [GlobalAlloc for RustAllocator] *)
Definition rust_alloc (size align : Z) : M Ffi Z :=
  modify mark_aligned;; in_world (do_aligned_alloc align size).

Definition rust_dealloc (ptr : Z) : M Ffi unit :=
  modify mark_free;; in_world (do_free ptr).

Definition rust_alloc_zeroed (size align : Z) : M Ffi Z := calloc 1 (align_val size align).

Definition rust_realloc (ptr align new_size : Z) : M Ffi Z :=
  modify mark_realloc;; in_world (do_realloc ptr (align_val new_size align)).

(** ** The functions of the feature [no-rust] *)
Definition __rust_alloc (size align : Z) : M Ffi Z := aligned_alloc align size.

Definition __rust_alloc_zeroed (size align : Z) : M Ffi Z :=
  modify mark_calloc;;
  ret ← aligned_alloc align size;
  in_world (os (zero_bytes ret size));;
  mret ret.

Definition __rust_dealloc (ptr size align : Z) : M Ffi unit := free ptr.

Definition __rust_realloc (ptr old_size align new_size : Z) : M Ffi Z := realloc ptr new_size.
End CApi.

(** ** [calloc] *)
Lemma zero_bytes_ok o p n :
  0 <= n -> (0 < n -> mapped o.(segs) p n = true) ->
  exists m', zero_bytes p n o = Ok (tt, mkOs m' o.(segs) o.(calls)) /\
    forall a, load8 m' a = if decide (p <= a < p + n) then 0 else load8 o.(mem) a.
Proof.
  intros Hn Hm. unfold zero_bytes.
  assert (H : forall k lo o1, 0 <= lo -> o1.(segs) = o.(segs) -> lo + Z.of_nat k <= n ->
    exists m', forM (range lo (lo + Z.of_nat k)) (λ i, write_u8 (p + i) 0) o1 =
        Ok (tt, mkOs m' o1.(segs) o1.(calls)) /\
      forall a, load8 m' a = if decide (p + lo <= a < p + lo + Z.of_nat k) then 0 else load8 o1.(mem) a).
  { induction k as [|k IH]; intros lo o1 Hlo Hs Hk.
    { rewrite range_nil by lia. exists o1.(mem). split; [by destruct o1|]. intros a.
      by rewrite decide_False by lia. }
    rewrite range_cons by lia.
    assert (Hw : write_u8 (p + lo) 0 o1 =
      Ok (tt, mkOs (store8 o1.(mem) (p + lo) 0) o1.(segs) o1.(calls))).
    { unfold write_u8. rewrite Hs. by rewrite (mapped_byte _ p n) by (lia || apply Hm; lia). }
    rewrite (forM_cons lo _ (λ i, write_u8 (p + i) 0) _ _ Hw).
    destruct (IH (lo + 1) (mkOs (store8 o1.(mem) (p + lo) 0) o1.(segs) o1.(calls))) as (m' & E & Hl);
      [lia|done|lia|].
    replace (lo + 1 + Z.of_nat k) with (lo + Z.of_nat (S k)) in E by lia.
    exists m'. split; [done|]. intros a. rewrite Hl. simpl mem. rewrite load8_store8.
    repeat case_decide; try done; lia. }
  destruct (H (Z.to_nat n) 0 o) as (m' & E & Hl); [lia|done|lia|].
  rewrite Z.add_0_l, Z2Nat.id in E by lia. rewrite Z.add_0_r, Z2Nat.id in Hl by lia. by exists m'.
Qed.

(** A size that is not a multiple of the alignment, which POSIX allows, makes
  [posix_memalign] store a null pointer and report success. *)
Theorem posix_memalign_null_success {KN : Kernel} {HZ : Hash Z} {BR : BitRange} {AC : ApfConfig}
    {LC : LibConfig} {E : ApfEnv World} f ptr alignment size :
  alignment mod 8 = 0 -> alignment <> 0 -> size mod alignment <> 0 -> ptr <> 0 ->
  mapped f.(ffi_world).(w_state).(st_os).(segs) ptr 8 = true ->
  exists f', posix_memalign false ptr alignment size f = Ok (0, f') /\
    load 8 f'.(ffi_world).(w_state).(st_os).(mem) ptr = 0.
Proof.
  intros H8 Ha Hm Hp Hmap. unfold posix_memalign, aligned_alloc. rewrite bind_modify, H8. cbn [Z.eqb negb].
  rewrite (bind_Ok _ _ _ 0 (mark_aligned (mark_aligned f))).
  2: { rewrite bind_modify. destruct (Z.eqb_spec alignment 0); [done|].
       by destruct (Z.eqb_spec (size mod alignment) 0). }
  destruct (Z.eqb_spec ptr 0); [done|].
  unfold mbind, M_bind, in_world, os, heap, with_os, zoom. simpl. unfold write_ptr. rewrite Hmap.
  eexists. split; [done|]. simpl. by apply load_store_ptr.
Qed.

(** [aligned_alloc] returns null for a size that is not a multiple of the
  alignment, which a Rust layout need not be, and [__rust_alloc_zeroed] writes
  through the null pointer. *)
Theorem rust_alloc_zeroed_faults {KN : Kernel} {HZ : Hash Z} {BR : BitRange} {AC : ApfConfig}
    {LC : LibConfig} {E : ApfEnv World} f size align :
  os_ok f.(ffi_world).(w_state).(st_os) -> 0 < size -> align <> 0 -> size mod align <> 0 ->
  __rust_alloc_zeroed size align f = Err (Fault 0).
Proof.
  intros Hos Hs Ha Hm. unfold __rust_alloc_zeroed, aligned_alloc.
  rewrite bind_modify, (bind_Ok _ _ _ 0 (mark_aligned (mark_calloc f))).
  2: { rewrite bind_modify. destruct (Z.eqb_spec align 0); [done|].
       by destruct (Z.eqb_spec (size mod align) 0). }
  apply bind_Err. unfold in_world, os, heap, with_os. do 3 apply zoom_Err.
  unfold zero_bytes. rewrite range_cons by lia. simpl. apply bind_Err.
  unfold write_u8. simpl. by rewrite null_unmapped.
Qed.

Section Calloc.
Context {KN : Kernel} {HZ : Hash Z} {BR : BitRange} {AC : ApfConfig} {LC : LibConfig}.
Context {E : ApfEnv World} {target : Z}.

(** Overwriting what was just granted. *)
Lemma granted_write s g s1 caches1 g1 p n m2 :
  granted (target := target) s g s1 caches1 g1 p n ->
  (forall a, ~ (p <= a < p + n) -> load8 m2 a = load8 s1.(st_os).(mem) a) ->
  granted (target := target) s g (set_mem m2 s1) caches1 g1 p n.
Proof.
  intros [G1 (cap & Hcap & G2) G3 G4 G5 G6] Hm.
  assert (Hp : live s1 g1 p cap) by (apply G2; by right). split.
  - eapply inv_write; [done|exact Hp|]. intros a Ha. apply Hm. lia.
  - exists cap. split; [done|]. intros x c. by rewrite live_set_mem, G2.
  - done.
  - intros x c a Hx Ha. simpl. rewrite Hm; [by apply (G4 x c)|]. intros Hin.
    assert (Hx1 : live s1 g1 x c) by (apply G2; by left).
    assert (Hne : x <> p) by (intros ->; by apply (G3 c)).
    pose proof (live_apart target G1 _ _ _ _ Hx1 Hp Hne) as Hd. unfold disjoint_ranges in Hd. lia.
  - eapply (reach_trans _ 2 0); [done|by apply reach_same].
  - done.
Qed.

Lemma granted_mapped s g s1 caches1 g1 p n :
  granted (target := target) s g s1 caches1 g1 p n -> 0 < n -> mapped s1.(st_os).(segs) p n = true.
Proof.
  intros [G1 (cap & Hcap & G2) _ _] Hn. assert (Hp : live s1 g1 p cap) by (apply G2; by right).
  destruct (live_mapped target G1 _ _ Hp) as (_ & _ & _ & Hm).
  apply mapped_true in Hm as (seg & Hs & H1 & H2). apply mapped_true. exists seg. split; [done|]. lia.
Qed.

(** C14: [calloc], in a thread whose tuners are not consulted, returns null when
    the product of its arguments overflows; when the product is below 4 GiB less a
    page, the pointer it returns is to memory that the client did not hold, large
    enough, every byte of which reads 0, and nothing that the client holds has
    changed, or the call panics when the kernel refuses a request that it makes.
    Nothing is said of products between these bounds. *)
Theorem calloc_zeroes f caches g t num size :
  running (target := target) f.(ffi_world) caches g t -> 0 <= num -> 0 <= size ->
  Z.of_nat f.(ffi_world).(w_state).(st_os).(calls) < CALLS_LIMIT ->
  (2 ^ 64 <= num * size -> calloc num size f = Ok (0, mark_calloc f)) /\
  (num * size < 2 ^ 32 - PAGE ->
    (exists ptr f' s' cs' g', calloc num size f = Ok (ptr, f') /\
       f'.(ffi_world) = world_after f.(ffi_world) s' cs' /\
       granted (target := target) f.(ffi_world).(w_state) g s' (<[t := cs']> caches) g' ptr (num * size) /\
       forall a, ptr <= a < ptr + num * size -> load8 s'.(st_os).(mem) a = 0) \/
    (exists msg, calloc num size f = Err (Panic msg) /\ refusal REQUEST_LIMIT 1 f.(ffi_world).(w_state).(st_os))).
Proof.
  intros Hrun Hn Hs Hc. unfold calloc. rewrite bind_modify. split; intros Hb.
  { by rewrite (proj2 (Z.leb_le _ _) Hb). }
  assert (H0 : 0 <= num * size) by (apply Z.mul_nonneg_nonneg; done).
  change PAGE with 4096 in Hb. destruct (Z.leb_spec (2 ^ 64) (num * size)) as [|_]; [lia|].
  destruct (do_malloc_ok _ caches g t (num * size) Hrun) as
    [(p & s1 & cs1 & g1 & Em & Hg & _)|(msg & Em & Hr)];
    [change PAGE with 4096; lia|done| |].
  - left. assert (E1 : malloc (num * size) (mark_calloc f) =
      Ok (p, set_ffi_world (world_after f.(ffi_world) s1 cs1) (mark_malloc (mark_calloc f)))).
    { unfold malloc. rewrite bind_modify. by apply zoom_Ok. }
    rewrite (bind_Ok _ _ _ _ _ E1).
    destruct (zero_bytes_ok s1.(st_os) p (num * size)) as (m2 & Ez & Hz); [done|by eapply granted_mapped|].
    eexists p, _, (set_mem m2 s1), cs1, g1. split.
    { unfold mbind, M_bind, in_world, os, heap, with_os, zoom. simpl. rewrite Ez. simpl. reflexivity. }
    split; [done|]. split.
    + apply granted_write; [done|]. intros a Ha. rewrite Hz. by rewrite decide_False.
    + intros a Ha. simpl. rewrite Hz. by rewrite decide_True.
  - right. exists msg. split; [|done].
    assert (E1 : malloc (num * size) (mark_calloc f) = Err (Panic msg)).
    { unfold malloc. rewrite bind_modify. by apply zoom_Err. }
    by rewrite (bind_Err _ _ _ _ E1).
Qed.
End Calloc.
