(* ===== verification/Demo.v ===== *)
(** * A concrete configuration

    An instance of every parameter of the model, and an execution on it, for
    the witnesses of the theorems.  Evaluating the start of the allocator fills
    the table of 14337 sizes, so everything that the witnesses need is evaluated
    together, once ([evaluated]). *)
From S2P Require Import Prelude MemInfo SizeClasses Anchor Mem Bin Trace Tuner.
From S2P Require Import SingleAccess Bootstrap HashMap State Pages Descriptor.
From S2P Require Import PageMap Alloc ThreadCache Lib Heap HeapOps LargeOps Safety Fetch.
From S2P Require Import Calls Ledger Triple Tuning ClientCalls System Scripts CApi.

(** ** A configuration for evaluation

    A kernel that maps upwards, the identity as hash function, a target of two
    blocks per fetch, and no tuning. *)
Definition config : ApfConfig :=
  {| TARGET_APF := 2; REUSE_BURST_LENGTH := 10; REUSE_HIBERNATION_PERIOD := 20 |}.
Definition no_apf : LibConfig := Some "false"%string.

#[export] Existing Instances kernel_up id_hash bit_range_u64 config no_apf.

Definition env : ApfEnv World := lib_env NESTING.
#[export] Existing Instance env.
#[export] Instance env_lib : LibEnv env := lib_env_lib 1.

Lemma target_ok : 0 <= TARGET_APF <= TARGET_APF_BOUND.
Proof. by vm_compute. Qed.

Definition sys0 : Sys := get_ok no_sys sys_start.
Definition sys2 : Sys := spawn 1 (spawn 0 sys0).

(** Two threads: one allocates 100 bytes and stores in them, the other one
    reads what was stored, allocates 20000 bytes aligned to 8192, resizes the
    first pointer and reads again, frees it, and allocates again. *)
Definition script : list (nat * (list Z -> Call)) :=
  [(0%nat, λ _, Malloc 100);
   (0%nat, λ o, Store (nth_out 0 o + 7) 42);
   (1%nat, λ o, Load (nth_out 0 o + 7));
   (1%nat, λ _, AlignedAlloc 8192 20000);
   (1%nat, λ o, Realloc (nth_out 0 o) 200);
   (1%nat, λ o, Load (nth_out 4 o + 7));
   (1%nat, λ o, Free (nth_out 4 o));
   (1%nat, λ _, Malloc 100);
   (0%nat, λ _, Malloc 100)].

Definition run_demo (n : nat) : Sys * Ledger * list (nat * Call * Z) :=
  default (no_sys, ledger_empty, []) (run_script (take n script) sys2 ledger_empty []).

Definition mid : Sys * Ledger * list (nat * Call * Z) := run_demo 4.
Definition final : Sys * Ledger * list (nat * Call * Z) := run_demo 9.

Definition first_ptr : Z := nth_out 7 (outs final.2).
Definition ptr : Z := nth_out 8 (outs final.2).

(** The world of thread 0 after the script, where the client holds 100 bytes
    at [ptr]. *)
Definition sys : Sys := final.1.1.
Definition tls : Tls := default tls_new (sys.(threads) !! 0%nat).
Definition w : World := thread_world sys tls.

(** ** What evaluation gives *)
Definition script_runs (n : nat) : bool :=
  match run_script (take n script) sys2 ledger_empty [] with Some _ => true | None => false end.

Definition allocation_size_is (p n : Z) (s : State) : bool :=
  match get_allocation_size p s with Ok (Some m, _) => m =? n | _ => false end.

(** The call returns a pointer that satisfies [f]. *)
Definition returns {S} (f : Z -> bool) (r : result (Z * S)) : bool :=
  match r with Ok (p, _) => f p | Err _ => false end.

Definition bin_roomb (w : World) (i : Z) : bool :=
  match w.(w_tls).(thread_cache) !! Z.to_nat i, size_class_at w.(w_state).(st_sizes) i with
  | Some c, Ok cl =>
      c.(bin_block_num) <? (if w.(w_use_apf) then 2 ^ 32 - 2 else cl.(cache_block_num))
  | _, _ => false
  end.

Lemma bin_roomb_sound w' i : bin_roomb w' i = true -> bin_room w' i.
Proof.
  unfold bin_roomb, bin_room. intros H c cl Hc Hcl. rewrite Hc, Hcl in H. by apply Z.ltb_lt.
Qed.

Definition calls_few (w : World) : bool :=
  Z.of_nat w.(w_state).(st_os).(calls) + 2 <? CALLS_LIMIT.

(** The largest class, and an empty bin that has held its blocks. *)
Definition class39 : SizeClassData :=
  get_ok (mkSC 0 0 0 0) (size_class_at w.(w_state).(st_sizes) 39).
Definition bin39 : ThreadCacheBin := mkBin 0 0 (Some class39.(block_size)).

Definition bin_is (o : option ThreadCacheBin) (c : ThreadCacheBin) : bool := bool_decide (o = Some c).

Lemma bin_is_eq o c : bin_is o c = true -> o = Some c.
Proof. apply bool_decide_eq_true_1. Qed.

Definition held_is (p n : Z) : bool :=
  match final.1.2.(held) !! p with Some m => m =? n | None => false end.

Record Evaluated : Prop := {
  ev_start : is_ok sys_start = true;
  ev_untuned : untunedb sys.(shared).(w_use_apf) tls && negb tls.(panicking) = true;
  ev_mid : script_runs 4 = true;
  ev_final : script_runs 9 = true;
  ev_trace : Nat.eqb (length final.2) 9 = true;
  ev_stored : Nat.eqb (size mid.1.2.(stored)) 1 = true;
  ev_progress : admissibleb sys final.1.2 0 (Malloc 5000) = true;
  ev_progress_ok : is_ok (run_call 0 (Malloc 5000) sys) = true;
  ev_first_held : held_is first_ptr 100 = true;
  ev_held : held_is ptr 100 = true;
  ev_ptr_ne : negb (first_ptr =? ptr) = true;
  ev_thread : negb (absent (sys.(threads) !! 0%nat)) = true;
  ev_calls : calls_few w = true;
  ev_size : allocation_size_is ptr 112 w.(w_state) = true;
  ev_malloc : is_ok (do_malloc 4000 w) = true;
  ev_aligned : returns (λ p, 0 <? p) (do_aligned_alloc (2 ^ 14) 100 w) = true;
  ev_free_room : free_room w ptr = true;
  ev_bin_room : bin_roomb w (get_size_class w.(w_state).(st_sizes) 112) = true;
  ev_realloc : returns (λ p, negb (p =? ptr)) (do_realloc ptr 6000 w) = true;
  ev_unknown : absent (page_entry w.(w_state) 1) = true;
  ev_class : is_ok (size_class_at w.(w_state).(st_sizes) 39) = true;
  ev_bin : bin_is (w.(w_tls).(thread_cache) !! 39%nat) bin_new = true;
  ev_fill : is_ok (fill_cache 39 bin_new w.(w_state)) = true;
  ev_fetch : is_ok (fetch 39 1 bin39 w.(w_state)) = true;
  ev_no_apf : negb sys0.(shared).(w_use_apf) = true;
  ev_calloc : is_ok (calloc 3 100 (mkFfi w false false false false false)) = true;
}.

Lemma evaluated : Evaluated.
Proof.
  assert (H : all_true
    [is_ok sys_start; untunedb sys.(shared).(w_use_apf) tls && negb tls.(panicking); script_runs 4; script_runs 9;
     Nat.eqb (length final.2) 9; Nat.eqb (size mid.1.2.(stored)) 1;
     admissibleb sys final.1.2 0 (Malloc 5000); is_ok (run_call 0 (Malloc 5000) sys);
     held_is first_ptr 100; held_is ptr 100; negb (first_ptr =? ptr);
     negb (absent (sys.(threads) !! 0%nat)); calls_few w; allocation_size_is ptr 112 w.(w_state);
     is_ok (do_malloc 4000 w); returns (λ p, 0 <? p) (do_aligned_alloc (2 ^ 14) 100 w); free_room w ptr;
     bin_roomb w (get_size_class w.(w_state).(st_sizes) 112); 
     returns (λ p, negb (p =? ptr)) (do_realloc ptr 6000 w);
     absent (page_entry w.(w_state) 1);
     is_ok (size_class_at w.(w_state).(st_sizes) 39);
     bin_is (w.(w_tls).(thread_cache) !! 39%nat) bin_new;
     is_ok (fill_cache 39 bin_new w.(w_state));
     is_ok (fetch 39 1 bin39 w.(w_state));
     negb sys0.(shared).(w_use_apf);
     is_ok (calloc 3 100 (mkFfi w false false false false false))])
    by (apply all_true_forallb; vm_compute; reflexivity).
  destruct H as (H1 & H2 & H3 & H4 & H5 & H6 & H7 & H8 & H9 & H10 & H11 & H12 & H13 & H14 & H15 &
    H16 & H17 & H18 & H19 & H20 & H21 & H22 & H23 & H24 & H25 & H26 & _).
  exact (Build_Evaluated H1 H2 H3 H4 H5 H6 H7 H8 H9 H10 H11 H12 H13 H14 H15
    H16 H17 H18 H19 H20 H21 H22 H23 H24 H25 H26).
Qed.

(** ** The executions of the script *)
Lemma sys0_start : sys_start = Ok sys0.
Proof. exact (get_ok_eq no_sys _ (ev_start evaluated)). Qed.

Lemma sys2_execution : execution sys2 ledger_empty [].
Proof. exact (spawn_two sys0 sys0_start). Qed.

Lemma run_demo_execution n :
  script_runs n = true -> execution (run_demo n).1.1 (run_demo n).1.2 (run_demo n).2.
Proof.
  intros H. apply (run_script_execution (take n script) _ _ _ _ sys2_execution).
  unfold script_runs in H. unfold run_demo.
  destruct (run_script (take n script) sys2 ledger_empty []) as [r|]; [reflexivity|discriminate H].
Qed.

Lemma mid_execution : execution mid.1.1 mid.1.2 mid.2.
Proof. exact (run_demo_execution 4 (ev_mid evaluated)). Qed.

Lemma final_execution : execution final.1.1 final.1.2 final.2.
Proof. exact (run_demo_execution 9 (ev_final evaluated)). Qed.

Lemma held_is_eq p n : held_is p n = true -> final.1.2.(held) !! p = Some n.
Proof.
  unfold held_is. destruct (final.1.2.(held) !! p) as [m|]; [|discriminate].
  intros H. apply Z.eqb_eq in H. by rewrite H.
Qed.

Lemma ptr_held : final.1.2.(held) !! ptr = Some 100.
Proof. exact (held_is_eq _ _ (ev_held evaluated)). Qed.

Lemma first_held : final.1.2.(held) !! first_ptr = Some 100.
Proof. exact (held_is_eq _ _ (ev_first_held evaluated)). Qed.

Lemma thread_tls : sys.(threads) !! 0%nat = Some tls.
Proof.
  destruct (present_eq _ (ev_thread evaluated)) as [l Hl].
  unfold tls. rewrite Hl. reflexivity.
Qed.

Lemma tls_untuned : untuned sys.(shared).(w_use_apf) tls.
Proof.
  destruct (andb_prop _ _ (ev_untuned evaluated)) as [H1 H2]. apply untunedb_ok; [exact H1|].
  exact (proj1 (negb_true_iff _) H2).
Qed.

Lemma spawned_untuned s :
  negb s.(shared).(w_use_apf) = true -> untuned (spawn 1 (spawn 0 s)).(shared).(w_use_apf) tls_new.
Proof. intros H. split; [reflexivity|]. left. by apply negb_true_iff. Qed.

Lemma new_untuned : untuned sys2.(shared).(w_use_apf) tls_new.
Proof. exact (spawned_untuned sys0 (ev_no_apf evaluated)). Qed.

Lemma calls_few_lt w' : calls_few w' = true -> Z.of_nat w'.(w_state).(st_os).(calls) + 2 < CALLS_LIMIT.
Proof. apply Z.ltb_lt. Qed.

Lemma calls_below2 : Z.of_nat w.(w_state).(st_os).(calls) + 2 < CALLS_LIMIT.
Proof. exact (calls_few_lt _ (ev_calls evaluated)). Qed.

Lemma lt_of_succ2 n m : n + 2 < m -> n + 1 < m.
Proof. lia. Qed.

Lemma calls_below : Z.of_nat w.(w_state).(st_os).(calls) + 1 < CALLS_LIMIT.
Proof. exact (lt_of_succ2 _ _ calls_below2). Qed.

Lemma lt_of_succ n m : n + 1 < m -> n < m.
Proof. lia. Qed.

Lemma calls_below' : Z.of_nat w.(w_state).(st_os).(calls) < CALLS_LIMIT.
Proof. exact (lt_of_succ _ _ calls_below). Qed.

Lemma ready : exists g cap, running (target := TARGET_APF) w (caches_of sys) g 0 /\
  live w.(w_state) g ptr cap.
Proof.
  exact (execution_running sys final.1.2 final.2 0 tls ptr 100 target_ok final_execution
           thread_tls tls_untuned ptr_held).
Qed.

Lemma allocation_size_is_eq p n s :
  allocation_size_is p n s = true -> get_allocation_size p s = Ok (Some n, s).
Proof.
  unfold allocation_size_is. destruct (get_allocation_size p s) as [[[m|] s']|] eqn:Eq; try discriminate.
  intros ->%Z.eqb_eq. by rewrite (get_allocation_size_state _ _ _ _ Eq).
Qed.

Lemma size_eq : get_allocation_size ptr w.(w_state) = Ok (Some 112, w.(w_state)).
Proof. exact (allocation_size_is_eq _ _ _ (ev_size evaluated)). Qed.

(** An error contradicts a call that was evaluated. *)
Lemma is_ok_Err {A} (r : result A) e : is_ok r = true -> r = Err e -> False.
Proof. intros H ->. discriminate H. Qed.

Lemma returns_Ok {S} f (r : result (Z * S)) p s : returns f r = true -> r = Ok (p, s) -> f p = true.
Proof. by intros H ->. Qed.

Lemma returns_Err {S} f (r : result (Z * S)) e : returns f r = true -> r = Err e -> False.
Proof. intros H ->. discriminate H. Qed.

Lemma eqb_irrefl x : negb (x =? x) = true -> False.
Proof. by rewrite Z.eqb_refl. Qed.

Lemma size_small n : 0 <= n <= 10000 -> 0 <= n < 2 ^ 32 - PAGE.
Proof. change PAGE with 4096. lia. Qed.
