(* ===== verification/AutoPtr.v ===== *)
(** * Owning pointers

    Models [src/src/ptr/auto_ptr.rs]: [AutoPtr<T>], a box that calls
    [do_aligned_alloc] and [do_free] itself.  A value of type [T] is its bytes;
    what dropping and cloning a [T] do is a parameter. *)
From S2P Require Import Prelude MemInfo SizeClasses Anchor Mem Bin Trace Tuner.
From S2P Require Import SingleAccess Bootstrap HashMap State Pages Descriptor.
From S2P Require Import PageMap Alloc ThreadCache Lib Heap HeapOps LargeOps Safety.
From S2P Require Import Calls Ledger Triple Tuning ClientCalls System Scripts CApi Demo.

(** The type [T]: [size_of], the logarithm of [align_of], [drop_in_place] and
    [Clone::clone]. *)
Class Value : Type := {
  val_size : Z;
  val_align_lg : Z;
  drop_in_place : Z -> M World unit;
  clone_val : list Z -> M World (list Z);
}.

Record AutoPtr : Type := mkAutoPtr { ap_data : Z }.

(** [std::ptr::read] *)
Fixpoint read_bytes (n : nat) (p : Z) : M Os (list Z) :=
  match n with
  | O => mret []
  | S n' => b ← read_u8 p; bs ← read_bytes n' (p + 1); mret (b :: bs)
  end.

Section AutoPtr.
Context {KN : Kernel} {HZ : Hash Z} {BR : BitRange} {AC : ApfConfig} {LC : LibConfig}.
Context {E : ApfEnv World} {VT : Value}.

Definition ap_new (data : list Z) : M World AutoPtr :=
  ptr ← do_aligned_alloc (2 ^ val_align_lg) val_size;
  os (write_bytes ptr data);;
  mret (mkAutoPtr ptr).

Definition ap_deref (a : AutoPtr) : M World (list Z) :=
  os (read_bytes (Z.to_nat val_size) a.(ap_data)).

Definition ap_take (a : AutoPtr) : M World (list Z) :=
  output ← os (read_bytes (Z.to_nat val_size) a.(ap_data));
  do_free a.(ap_data);;
  mret output.

Definition ap_into_ptr (a : AutoPtr) : Z := a.(ap_data).

Definition ap_replace (a : AutoPtr) (new : list Z) : M World (list Z) :=
  old ← os (read_bytes (Z.to_nat val_size) a.(ap_data));
  os (write_bytes a.(ap_data) new);;
  mret old.

Definition ap_write (a : AutoPtr) (new : list Z) : M World unit := _ ← ap_replace a new; mret tt.

Definition ap_from_ptr (ptr : Z) : AutoPtr := mkAutoPtr ptr.

Definition ap_drop (a : AutoPtr) : M World unit :=
  drop_in_place a.(ap_data);;
  do_free a.(ap_data).

Definition ap_clone (a : AutoPtr) : M World AutoPtr :=
  data ← ap_deref a;
  clone ← clone_val data;
  ap_new clone.
End AutoPtr.

(** ** Bytes *)
Definition bytes_at (m : gmap Z Z) (p : Z) (n : nat) : list Z := (λ i, load8 m (p + Z.of_nat i)) <$> seq 0 n.

Definition is_byte (b : Z) : Prop := 0 <= b < 256.

Lemma bytes_at_S m p n : bytes_at m p (S n) = load8 m p :: bytes_at m (p + 1) n.
Proof.
  unfold bytes_at. rewrite <- cons_seq, <- fmap_S_seq. simpl. rewrite Z.add_0_r. f_equal.
  rewrite <- list_fmap_compose. apply list_fmap_ext. intros i x _. simpl. f_equal. lia.
Qed.

Lemma bytes_at_ext m m' p n :
  (forall a, p <= a < p + Z.of_nat n -> load8 m a = load8 m' a) -> bytes_at m p n = bytes_at m' p n.
Proof.
  intros H. apply list_fmap_ext. intros i x Hx. apply lookup_seq in Hx as [-> Hi]. apply H. lia.
Qed.

Lemma read_bytes_ok o n : forall p,
  (forall a, p <= a < p + Z.of_nat n -> mapped o.(segs) a 1 = true) ->
  read_bytes n p o = Ok (bytes_at o.(mem) p n, o).
Proof.
  induction n as [|n IH]; intros p Hm; [done|]. rewrite bytes_at_S. cbn [read_bytes].
  assert (Hr : read_u8 p o = Ok (load8 o.(mem) p, o)) by (unfold read_u8; rewrite Hm by lia; done).
  rewrite (bind_Ok _ _ _ _ _ Hr). rewrite (bind_Ok _ _ _ _ _ (IH (p + 1) ltac:(intros; apply Hm; lia))).
  done.
Qed.

Lemma write_bytes_ok bs : forall o p,
  Forall is_byte bs -> (forall a, p <= a < p + Z.of_nat (length bs) -> mapped o.(segs) a 1 = true) ->
  exists m', write_bytes p bs o = Ok (tt, mkOs m' o.(segs) o.(calls)) /\
    bytes_at m' p (length bs) = bs /\
    forall a, ~ (p <= a < p + Z.of_nat (length bs)) -> load8 m' a = load8 o.(mem) a.
Proof.
  induction bs as [|b bs IH]; intros o p Hb Hm.
  { exists o.(mem). split; [by destruct o|done]. }
  apply Forall_cons in Hb as [Hb Hbs]. cbn [write_bytes length] in *.
  assert (Hw : write_u8 p b o = Ok (tt, mkOs (store8 o.(mem) p b) o.(segs) o.(calls)))
    by (unfold write_u8; rewrite Hm by lia; done).
  rewrite (bind_Ok _ _ _ _ _ Hw).
  destruct (IH (mkOs (store8 o.(mem) p b) o.(segs) o.(calls)) (p + 1) Hbs) as (m' & Ew & Hv & Hk).
  { intros a Ha. apply Hm. lia. }
  exists m'. split; [done|]. simpl mem in Hk. split.
  - rewrite bytes_at_S, Hv, Hk, load8_store8, decide_True by (done || lia).
    by rewrite Z.mod_small by (unfold is_byte in Hb; lia).
  - intros a Ha. rewrite Hk by lia. rewrite load8_store8, decide_False by lia. done.
Qed.

(** ** What an owning pointer guarantees *)
Section Owning.
Context {KN : Kernel} {HZ : Hash Z} {BR : BitRange} {AC : ApfConfig} {LC : LibConfig}.
Context {E : ApfEnv World} {VT : Value} {target : Z}.

Lemma live_bytes_mapped s caches g p cap a :
  heap_inv target s caches g -> live s g p cap -> p <= a < p + cap -> mapped s.(st_os).(segs) a 1 = true.
Proof.
  intros Hi Hl Ha. destruct (live_mapped target Hi p cap Hl) as (_ & _ & _ & Hm).
  by eapply mapped_byte.
Qed.

Lemma os_after {A} (c : M Os A) w a m' :
  c w.(w_state).(st_os) = Ok (a, mkOs m' w.(w_state).(st_os).(segs) w.(w_state).(st_os).(calls)) ->
  os c w = Ok (a, world_after w (set_mem m' w.(w_state)) w.(w_tls).(thread_cache)).
Proof. intros H. apply heap_Ok. exact (zoom_Ok _ _ _ _ _ _ H). Qed.

(** The bytes of memory that the client holds can be read. *)
Lemma os_read_live w caches g p cap n :
  heap_inv target w.(w_state) caches g -> live w.(w_state) g p cap -> Z.of_nat n <= cap ->
  os (read_bytes n p) w = Ok (bytes_at w.(w_state).(st_os).(mem) p n, w).
Proof.
  intros Hi Hl Hn.
  assert (Er : read_bytes n p w.(w_state).(st_os) = Ok (bytes_at w.(w_state).(st_os).(mem) p n, w.(w_state).(st_os))).
  { apply read_bytes_ok. intros a Ha. eapply live_bytes_mapped; [done..|]. lia. }
  assert (Es : with_os (read_bytes n p) w.(w_state) = Ok (bytes_at w.(w_state).(st_os).(mem) p n, w.(w_state))).
  { unfold with_os, zoom. rewrite Er. by destruct (w_state w). }
  rewrite <- (world_after_id w) at 3. exact (heap_Ok _ _ _ _ Es).
Qed.

Lemma ap_new_ok w caches g t data :
  running (target := target) w caches g t -> 0 <= val_align_lg <= 30 -> 0 < val_size <= 2 ^ 30 ->
  Z.of_nat (length data) = val_size -> Forall is_byte data ->
  Z.of_nat w.(w_state).(st_os).(calls) + 1 < CALLS_LIMIT ->
  (exists p s' cs' g', ap_new data w = Ok (mkAutoPtr p, world_after w s' cs') /\
     (2 ^ val_align_lg | p) /\
     granted (target := target) w.(w_state) g s' (<[t := cs']> caches) g' p val_size /\
     bytes_at s'.(st_os).(mem) p (length data) = data) \/
  (exists e, ap_new data w = Err e /\ refusal REQUEST_LIMIT 1 w.(w_state).(st_os)).
Proof.
  intros Hrun Hk Hs Hlen Hb Hc. unfold ap_new.
  assert (Hs' : 0 <= val_size <= 2 ^ 30) by lia.
  destruct (do_aligned_alloc_ok w caches g t val_align_lg val_size Hrun Hk Hs' Hc)
    as [(p & s1 & cs1 & g1 & Ea & Hd & Hg)|[(s1 & Ea & Hi & _ & Hr)|(msg & Ea & Hr)]].
  - left. rewrite (bind_Ok _ _ _ _ _ Ea).
    pose proof (granted_mapped _ _ _ _ _ _ _ Hg ltac:(lia)) as Hm.
    destruct (write_bytes_ok data s1.(st_os) p Hb) as (m2 & Ew & Hv & Hk2).
    { intros a Ha. eapply mapped_byte; [exact Hm|lia]. }
    exists p, (set_mem m2 s1), cs1, g1.
    rewrite (bind_Ok _ _ _ _ _ (os_after _ (world_after w s1 cs1) _ _ Ew)).
    split; [done|]. split; [done|]. split; [|done]. apply granted_write; [done|].
    intros a Ha. apply Hk2. lia.
  - right. exists (Fault 0). rewrite (bind_Ok _ _ _ _ _ Ea). split; [|done].
    destruct data as [|b data]; [simpl in *; lia|]. apply bind_Err, heap_Err. unfold with_os, zoom.
    simpl. unfold mbind, M_bind, write_u8. by rewrite null_unmapped by apply Hi.
  - right. exists (Panic msg). split; [|done]. by rewrite (bind_Err _ _ _ _ Ea).
Qed.

Lemma ap_take_ok w caches g t p cap :
  running (target := target) w caches g t -> live w.(w_state) g p cap -> 0 <= val_size <= cap ->
  free_room w p = true ->
  exists s' cs' g', ap_take (mkAutoPtr p) w =
      Ok (bytes_at w.(w_state).(st_os).(mem) p (Z.to_nat val_size), world_after w s' cs') /\
    released (target := target) w.(w_state) g s' (<[t := cs']> caches) g' p.
Proof.
  intros Hrun Hl Hs Hroom. pose proof (run_inv _ _ _ _ Hrun) as Hi.
  destruct (do_free_ok w caches g t p cap Hrun Hl) as (s' & cs' & g' & Ef & Hr).
  { intros i Ho. by eapply free_room_bin. }
  exists s', cs', g'. split; [|done]. unfold ap_take. simpl ap_data.
  assert (Hn : Z.of_nat (Z.to_nat val_size) <= cap) by lia.
  rewrite (bind_Ok _ _ _ _ _ (os_read_live w caches g p cap _ Hi Hl Hn)).
  by rewrite (bind_Ok _ _ _ _ _ Ef).
Qed.

(** [replace] gives the old value and stores the new one; nothing else that the
    client holds changes. *)
Lemma ap_replace_ok w caches g t p cap data :
  running (target := target) w caches g t -> live w.(w_state) g p cap -> 0 <= val_size <= cap ->
  Z.of_nat (length data) = val_size -> Forall is_byte data ->
  exists s', ap_replace (mkAutoPtr p) data w =
      Ok (bytes_at w.(w_state).(st_os).(mem) p (length data), world_after w s' w.(w_tls).(thread_cache)) /\
    heap_inv target s' caches g /\ bytes_at s'.(st_os).(mem) p (length data) = data /\
    forall x c a, live w.(w_state) g x c -> x <> p -> x <= a < x + c ->
      load8 s'.(st_os).(mem) a = load8 w.(w_state).(st_os).(mem) a.
Proof.
  intros Hrun Hl Hs Hlen Hb. pose proof (run_inv _ _ _ _ Hrun) as Hi. unfold ap_replace. simpl ap_data.
  assert (Hsz : Z.to_nat val_size = length data) by lia. rewrite Hsz.
  assert (Hn : Z.of_nat (length data) <= cap) by lia.
  rewrite (bind_Ok _ _ _ _ _ (os_read_live w caches g p cap _ Hi Hl Hn)).
  destruct (write_bytes_ok data w.(w_state).(st_os) p Hb) as (m2 & Ew & Hv & Hk).
  { intros a Ha. eapply live_bytes_mapped; [done..|lia]. }
  rewrite (bind_Ok _ _ _ _ _ (os_after _ w _ _ Ew)).
  exists (set_mem m2 w.(w_state)). split; [done|]. split; [|split; [done|]].
  - eapply inv_write; [done|exact Hl|]. intros a Ha. apply Hk. lia.
  - intros x c a Hx Hne Ha. apply Hk. intros Hin.
    pose proof (live_apart target Hi _ _ _ _ Hx Hl Hne) as Hd. unfold disjoint_ranges in Hd. lia.
Qed.

(** C34: an owning pointer keeps its value, for values of 1 byte to 1 GiB, aligned
    to at most 2^30, in a thread whose tuners are not consulted.  [AutoPtr::new]
    gives an aligned pointer to memory that nobody held, which holds the value
    ([deref] reads it); when the bin of the block has room, [take] gives the value
    back and frees the memory, so that the client holds what it held before,
    unchanged.  The only other outcome of [new] is a failure when the kernel refuses
    a request that it makes. *)
Theorem auto_ptr_roundtrip w caches g t data :
  running (target := target) w caches g t -> 0 <= val_align_lg <= 30 -> 0 < val_size <= 2 ^ 30 ->
  Z.of_nat (length data) = val_size -> Forall is_byte data ->
  Z.of_nat w.(w_state).(st_os).(calls) + 1 < CALLS_LIMIT ->
  (exists p w1, ap_new data w = Ok (mkAutoPtr p, w1) /\ (2 ^ val_align_lg | p) /\
     (forall cap, ~ live w.(w_state) g p cap) /\ ap_deref (mkAutoPtr p) w1 = Ok (data, w1) /\
     (free_room w1 p = true -> exists s' cs' g',
        ap_take (mkAutoPtr p) w1 = Ok (data, world_after w s' cs') /\
        heap_inv target s' (<[t := cs']> caches) g' /\
        (forall x c, live s' g' x c <-> live w.(w_state) g x c) /\
        contents_kept w.(w_state) g s')) \/
  (exists e, ap_new data w = Err e /\ refusal REQUEST_LIMIT 1 w.(w_state).(st_os)).
Proof.
  intros Hrun Hk Hs Hlen Hb Hc.
  destruct (ap_new_ok w caches g t data Hrun Hk Hs Hlen Hb Hc)
    as [(p & s1 & cs1 & g1 & En & Hd & Hg & Hv)|H]; [left|by right].
  pose proof Hg as [G1 (cap & Hcap & G2) G3 G4].
  assert (Hl : live s1 g1 p cap) by (apply G2; by right).
  assert (Hsz : Z.to_nat val_size = length data) by lia.
  exists p, (world_after w s1 cs1). split; [done|]. split; [done|]. split; [done|]. split.
  { unfold ap_deref. rewrite Hsz. simpl ap_data.
    rewrite (os_read_live (world_after w s1 cs1) (<[t := cs1]> caches) g1 p cap) by (done || lia).
    simpl w_state. by rewrite Hv. }
  intros Hroom.
  destruct (ap_take_ok (world_after w s1 cs1) (<[t := cs1]> caches) g1 t p cap) as (s' & cs' & g' & Et & [R1 R2 R3]);
    [by eapply running_after|done|lia|done|].
  exists s', cs', g'. rewrite Hsz in Et. simpl w_state in Et, R2, R3. rewrite Hv in Et.
  rewrite insert_insert_eq in R1. split; [done|]. split; [done|]. split.
  - intros x c. rewrite R2, G2. split; [intros [[Hx|[-> _]] Hne]; done|].
    intros Hx. split; [by left|]. intros ->. by apply (G3 c).
  - intros x c a Hx Ha. assert (Hx1 : live s1 g1 x c) by (apply G2; by left).
    assert (Hne : x <> p) by (intros ->; by apply (G3 c)).
    rewrite (R3 x c a) by (try apply R2; done). by apply (G4 x c).
Qed.
End Owning.

(** A witness: a [usize] in the world of [Demo]. *)
Definition usize_value : Value :=
  {| val_size := 8; val_align_lg := 3; drop_in_place _ := mret tt; clone_val v := mret v |}.

Definition usize_new : M World AutoPtr := ap_new (VT := usize_value) [1; 2; 3; 4; 5; 6; 7; 8].

Lemma usize_new_ok : is_ok (usize_new w) = true.
Proof. vm_compute. reflexivity. Qed.

Lemma auto_ptr_roundtrip_witness :
  exists p w1, usize_new w = Ok (mkAutoPtr p, w1) /\ (8 | p) /\
    ap_deref (VT := usize_value) (mkAutoPtr p) w1 = Ok ([1; 2; 3; 4; 5; 6; 7; 8], w1).
Proof.
  destruct ready as (g & cap & Hrun & _).
  destruct (auto_ptr_roundtrip (VT := usize_value) w (caches_of sys) g 0 [1; 2; 3; 4; 5; 6; 7; 8] Hrun)
    as [(p & w1 & En & Hd & _ & Er & _)|(e & En & _)].
  - simpl. lia.
  - simpl. lia.
  - reflexivity.
  - repeat constructor; discriminate.
  - exact calls_below.
  - exists p, w1. split; [exact En|]. split; [exact Hd|exact Er].
  - destruct (is_ok_Err _ _ usize_new_ok En).
Defined.
