(* ===== verification/Theorems.v ===== *)
(** * What the allocator guarantees

    The theorems on whole executions and on single calls, with their witnesses
    on the executions of [Demo] and [TunedDemo]. *)
From S2P Require Import Prelude MemInfo SizeClasses Anchor Mem Bin Trace Reuse Tuner.
From S2P Require Import SingleAccess Bootstrap HashMap State Pages Descriptor.
From S2P Require Import PageMap Alloc ThreadCache Lib Heap HeapOps LargeOps Safety Fetch.
From S2P Require Import Calls Ledger Triple Tuning ClientCalls System Scripts TunedDemo CApi Demo.

(** ** Executions

    Everything that follows from the start of the program by calls of any
    number of threads, in any order.  The threads may have tuners, as they do in
    a default build, as long as the tuners only watch ([quiet]): fewer than half
    of [TARGET_APF] allocations in a class.  The calls of the client then contain
    calls that the tuners make: their arrays are allocated in the first one, and
    grown, freed and allocated again later. *)
Section Executions.
Context {KN : Kernel} {HZ : Hash Z} {BR : BitRange} {AC : ApfConfig} {LC : LibConfig}.
Context {E : ApfEnv World} {LE : LibEnv E}.

(** C1: the allocator refines the abstract allocator: what the calls return in
    any execution (any number of threads, any order, any kernel, any hash
    function) is what the abstract allocator allows for the same calls.  The calls
    are the admissible ones ([System.admissible]): sizes below 4 GiB less a page
    ([AlignedAlloc]: at most 1 GiB, for a power of two up to 2^30); only held
    memory is freed, resized or used; a freed block finds room in its bin; a
    resized one does too, it grows or keeps its class, a large one starts its
    segment (it was not over-aligned), and the call is not the one that makes the
    thread's tuners; the tuners only watch, with counters below 2^26 slots; fewer
    than 2^58 system calls have been made.  [Findings] has runs outside.  A
    pointer that is given out is not held and its bytes meet no bytes that are
    held; [AlignedAlloc] gives a multiple of the alignment or null; [Realloc]
    keeps the pointer or moves the bytes; a byte reads as it was last stored. *)
Theorem allocator_refines sys L tr :
  0 <= TARGET_APF <= TARGET_APF_BOUND -> execution sys L tr -> spec_runs ledger_empty tr L.
Proof. intros Ht He. by apply (execution_ok sys L tr). Qed.

(** C2: no call gets stuck: in every state that an execution reaches, a call
    that uses only what the client holds returns, or it panics because the
    kernel refuses memory within the system calls that one call makes.  It does
    not fault, exit or run out of fuel. *)
Theorem allocator_progress sys L tr t c :
  0 <= TARGET_APF <= TARGET_APF_BOUND -> execution sys L tr -> admissible sys L t c ->
  (exists out sys', run_call t c sys = Ok (out, sys') /\
     execution sys' (ledger_after c out L) (tr ++ [(t, c, out)])) \/
  (exists msg, run_call t c sys = Err (Panic msg) /\
     refusal REQUEST_LIMIT CALL_BUDGET sys.(shared).(w_state).(st_os)).
Proof.
  intros Ht He Ha. destruct (execution_ok sys L tr Ht He) as [Hok _].
  destruct (call_simulates sys L t c Hok Ha) as [(out & sys' & L' & Hr & _)|Hr]; [|by right].
  left. exists out, sys'. split; [done|]. by eapply exec_call.
Qed.

(** C3: the allocations that the client holds never overlap. *)
Theorem held_memory_apart sys L tr p n q m :
  0 <= TARGET_APF <= TARGET_APF_BOUND -> execution sys L tr ->
  L.(held) !! p = Some n -> L.(held) !! q = Some m -> p <> q -> disjoint_ranges p n q m.
Proof.
  intros Ht He. destruct (execution_ok sys L tr Ht He) as [_ Hs].
  apply (spec_held_apart _ _ _ Hs). intros p0 n0 q0 m0 H. simpl in H. by rewrite lookup_empty in H.
Qed.

(** C4: what the client has stored stays there, whatever the other threads
    allocate, resize, free and store; and every byte that it holds is mapped. *)
Theorem stored_bytes_stay sys L tr :
  0 <= TARGET_APF <= TARGET_APF_BOUND -> execution sys L tr ->
  (forall a v, L.(stored) !! a = Some v -> load8 sys.(shared).(w_state).(st_os).(mem) a = v) /\
  (forall a, holds_byte L a -> mapped sys.(shared).(w_state).(st_os).(segs) a 1 = true).
Proof.
  intros Ht He. destruct (execution_ok sys L tr Ht He) as [[(g & T & Hi & [HL _ _] & _) _ _] _]. split.
  - intros a v Ha. symmetry. by apply (lo_stored _ _ _ HL).
  - intros a Ha. by eapply byte_mapped.
Qed.

(** C5: the tuners stay well formed, and their arrays are their own: in every
    state that an execution reaches, each tuner of a thread that has its tuners
    watches its class and has asked for nothing; the trace that it samples
    holds exactly the events that were written, counts the allocations among
    them and has room for one more; and the array of the trace is mapped and
    meets no byte that the client holds and no array of another tuner. *)
Theorem tuners_well_formed sys L tr t l i a trace :
  0 <= TARGET_APF <= TARGET_APF_BOUND -> execution sys L tr ->
  sys.(shared).(w_use_apf) = true -> sys.(threads) !! t = Some l -> l.(skip_tuners) = 0 ->
  l.(apf_tuners) !! i = Some a -> a.(r_counter).(rc_trace) = Some trace ->
  a.(tuner_id) = Z.of_nat i /\ a.(fetch_count) = 0 /\
  trace_events trace = Ok trace.(tr_cells) /\ trace.(alloc_count) = allocs trace.(tr_cells) /\
  trace.(tr_length) < trace.(tr_cap) /\
  exists p, trace.(tr_ptr) = Some p /\
    mapped sys.(shared).(w_state).(st_os).(segs) p (EVENT_SIZE * trace.(tr_cap)) = true /\
    (forall q m, L.(held) !! q = Some m -> disjoint_ranges p (EVENT_SIZE * trace.(tr_cap)) q m) /\
    (forall t' l' i' a' trace' p', sys.(threads) !! t' = Some l' -> l'.(skip_tuners) = 0 ->
       l'.(apf_tuners) !! i' = Some a' -> a'.(r_counter).(rc_trace) = Some trace' -> trace'.(tr_ptr) = Some p' ->
       (t', i') <> (t, i) ->
       disjoint_ranges p (EVENT_SIZE * trace.(tr_cap)) p' (EVENT_SIZE * trace'.(tr_cap))).
Proof.
  intros Ht He Hu Hl Hs Ha Htr. destruct (execution_ok sys L tr Ht He) as [Hok _].
  exact (sys_tuners sys L t l i a trace Hok Hu Hl Hs Ha Htr).
Qed.

(** C6: the initialisation succeeds and establishes the invariant of the heap
    with nothing allocated, or it fails because the kernel refuses memory. *)
Theorem start_establishes_heap :
  0 <= TARGET_APF <= TARGET_APF_BOUND ->
  (exists sys, sys_start = Ok sys /\ sys.(threads) = ∅ /\
     heap_inv TARGET_APF sys.(shared).(w_state) ∅ ghost_empty /\
     sys.(shared).(w_malloc_init).(skip_flag) = true /\ sys.(shared).(w_use_bootstrap) = false) \/
  (exists e, sys_start = Err e /\ refusal PM_SZ 2 os_init).
Proof.
  exact sys_start_inv.
Qed.
End Executions.

(** The kernel that maps upwards has memory left, so an admissible call returns:
    the exception of [allocator_progress] is about memory that has run out. *)
Theorem memory_left_suffices {HZ : Hash Z} {BR : BitRange} {AC : ApfConfig} {LC : LibConfig} {E : ApfEnv World}
    {LE : LibEnv (KN := kernel_up) E} sys L tr t c :
  0 <= TARGET_APF <= TARGET_APF_BOUND -> execution (KN := kernel_up) sys L tr ->
  admissible sys L t c ->
  segs_top sys.(shared).(w_state).(st_os).(segs) + (Z.of_nat CALL_BUDGET + 1) * (REQUEST_LIMIT + 2 * PAGE)
    <= ADDR_LIMIT ->
  exists out sys', run_call (KN := kernel_up) t c sys = Ok (out, sys') /\
    execution (KN := kernel_up) sys' (ledger_after c out L) (tr ++ [(t, c, out)]).
Proof.
  intros Ht He Ha Hroom. destruct (execution_ok sys L tr Ht He) as [Hok _].
  destruct (call_simulates sys L t c Hok Ha) as [(out & sys' & L' & Hr & _)|(msg & _ & Hr)].
  - exists out, sys'. split; [done|]. by eapply exec_call.
  - by apply kernel_up_grants in Hr.
Qed.

(** ** Single calls

    On every heap that satisfies the invariant, in a thread whose tuners are not
    consulted. *)
Section SingleCalls.
Context {KN : Kernel} {HZ : Hash Z} {BR : BitRange} {AC : ApfConfig} {LC : LibConfig}.
Context {E : ApfEnv World} {target : Z}.


(** C8: [do_aligned_alloc] of at most 1 GiB for a power of two up to 2^30 returns a
    multiple of it, to memory of at least the size that was asked for that the
    client did not hold, also when the alignment is larger than a page; null or
    a panic only when the kernel refuses a request that the call makes. *)
Theorem do_aligned_alloc_grants w caches g t k size :
  running (target := target) w caches g t -> 0 <= k <= 30 -> 0 <= size <= 2 ^ 30 ->
  Z.of_nat w.(w_state).(st_os).(calls) + 1 < CALLS_LIMIT ->
  (exists ptr s' cs' g', do_aligned_alloc (2 ^ k) size w = Ok (ptr, world_after w s' cs') /\
     (2 ^ k | ptr) /\
     granted (target := target) w.(w_state) g s' (<[t := cs']> caches) g' ptr size) \/
  (exists s', do_aligned_alloc (2 ^ k) size w = Ok (0, world_after w s' w.(w_tls).(thread_cache)) /\
     heap_inv target s' caches g /\ s'.(st_os).(mem) = w.(w_state).(st_os).(mem) /\
     refusal REQUEST_LIMIT 1 w.(w_state).(st_os)) \/
  (exists msg, do_aligned_alloc (2 ^ k) size w = Err (Panic msg) /\ refusal REQUEST_LIMIT 1 w.(w_state).(st_os)).
Proof. exact (do_aligned_alloc_ok w caches g t k size). Qed.

(** C9: [do_free] of a pointer that the client holds takes back exactly that
    pointer, keeps the invariant and the contents of everything else that is
    held, and does not fail. *)
Theorem do_free_releases w caches g t ptr cap :
  running (target := target) w caches g t -> live w.(w_state) g ptr cap ->
  free_room w ptr = true ->
  exists s' cs' g', do_free ptr w = Ok (tt, world_after w s' cs') /\
    released (target := target) w.(w_state) g s' (<[t := cs']> caches) g' ptr.
Proof.
  intros Hr Hl Hroom. apply (do_free_ok w caches g t ptr cap Hr Hl).
  intros i Ho. eapply (free_room_bin w caches g); [exact (run_inv _ _ _ _ Hr)|done|done].
Qed.


(** C11: [do_free] of null, and of a pointer into a page without an entry in
    the page map, does nothing. *)
Theorem do_free_ignores_unknown w caches g t ptr :
  running (target := target) w caches g t ->
  ptr = 0 \/ (0 < ptr < ADDR_LIMIT /\ page_entry w.(w_state) (ptr / PAGE) = None) ->
  do_free ptr w = Ok (tt, w).
Proof.
  intros [Hi _ _ _ _] [-> | [Hr Hp]]; [done|]. unfold do_free.
  destruct (Z.eqb_spec ptr 0); [lia|].
  destruct (i_page_map _ _ _ _ Hi) as [m Hm]. unfold page_entry in Hp. rewrite Hm in Hp.
  assert (Eg : get_page_info_for_ptr ptr w.(w_state) = Ok (0, w.(w_state))).
  { rewrite (get_page_info_ok _ m) by (done || lia). by rewrite Hp. }
  rewrite (bind_Ok _ _ _ _ _ (heap_Ok _ _ _ _ Eg)). by rewrite world_after_id.
Qed.

(** C12: [fill_cache] on an empty bin, when nothing has been flushed, leaves in it
    all the blocks of one new superblock, in order, all of them in memory that
    was not mapped before; nothing that the client holds changes.  The only other
    outcome is a panic, when the kernel refuses a request that the call makes. *)
Theorem fill_cache_fills_bin s caches g t i cs c cl :
  heap_inv target s caches g -> caches !! t = Some cs -> 1 <= i < MAX_SZ_IDX ->
  cs !! Z.to_nat i = Some c -> c.(bin_block_num) = 0 ->
  size_class_at s.(st_sizes) i = Ok cl -> Z.of_nat s.(st_os).(calls) < CALLS_LIMIT ->
  (exists c' s' g' sb, fill_cache i c s = Ok (c', s') /\
     bin_holds s'.(st_os) c' (sb_blocks sb cl.(block_size) cl.(block_num)) /\
     c'.(bin_block_num) = cl.(block_num) /\
     (forall b a, b ∈ sb_blocks sb cl.(block_size) cl.(block_num) -> b <= a < b + cl.(block_size) ->
        mapped s.(st_os).(segs) a 1 = false) /\
     heap_inv target s' (<[t := <[Z.to_nat i := c']> cs]> caches) g' /\
     (forall x cap, live s' g' x cap <-> live s g x cap) /\ contents_kept s g s') \/
  (exists msg, fill_cache i c s = Err (Panic msg) /\ refusal REQUEST_LIMIT 1 s.(st_os)).
Proof.
  intros Hi Hcs Hidx Hc Hn Hcl Hcalls.
  destruct (fill_ok s caches g t i cs c cl Hi Hcs Hidx Hc Hn Hcl Hcalls)
    as [(c' & s' & g' & E1 & _ & H2 & H3 & H4 & _ & _ & _ & sb & Hb & Hf)|H]; [left|by right].
  exists c', s', g', sb. do 2 (split; [done|]). split; [|done].
  destruct (class_of_index target Hi i Hidx) as (c0 & C & Hok & H8 & _).
  rewrite Hcl in C. injection C as <-. destruct (class_sizes target cl Hok H8) as [Hbn _].
  destruct Hb as [_ Hcnt _ _]. rewrite sb_blocks_length in Hcnt by lia. done.
Qed.

(** C13: [fetch] of a number of blocks that one superblock holds gives an empty bin
    exactly that many blocks, all in memory that was not mapped before, and
    changes nothing that the client holds.  A request for more blocks than one
    superblock holds always panics, because the second superblock is pushed onto
    a bin that is no longer empty; any other failure comes after the kernel has
    refused memory. *)
Theorem fetch_fills_bin s caches g i c cl cnt :
  heap_inv target s caches g -> 1 <= i < MAX_SZ_IDX -> size_class_at s.(st_sizes) i = Ok cl ->
  c.(bin_block_num) = 0 -> c.(bin_block_size) = Some cl.(block_size) -> 0 < cnt ->
  Z.of_nat s.(st_os).(calls) + 2 < CALLS_LIMIT ->
  (exists c' s' sb, cnt <= cl.(block_num) /\ fetch i cnt c s = Ok (c', s') /\
     bin_holds s'.(st_os) c' (sb_blocks sb cl.(block_size) cnt) /\
     (forall b a, b ∈ sb_blocks sb cl.(block_size) cnt -> b <= a < b + cl.(block_size) ->
        mapped s.(st_os).(segs) a 1 = false) /\
     contents_kept s g s') \/
  (exists msg, fetch i cnt c s = Err (Panic msg) /\
     (cl.(block_num) < cnt \/ refusal REQUEST_LIMIT 1 s.(st_os))).
Proof.
  intros Hi Hidx Hcl Hn Hbs Hcnt Hcalls.
  destruct (fetch_ok s caches g i c cl cnt Hi Hidx Hcl Hn Hcnt Hcalls)
    as [(p & seg & s1 & s' & free' & Hle & Ef & Hd & Hp)|H]; [left|by right].
  destruct (class_of_index target Hi i Hidx) as (c0 & C & Hok & H8 & _).
  rewrite Hcl in C. injection C as <-. rewrite Hbs in Ef.
  pose proof (os_grow_frame_or _ _ _ _ _ Hd) as Hfr.
  eexists _, s', seg.(seg_ptr). split; [done|]. split; [exact Ef|]. split; [|split].
  - by eapply sb_post_bin.
  - intros b a (k & Hk & ->)%elem_of_sb_blocks Ha.
    apply not_true_is_false. intros Hm. apply (mapped_mono _ s1.(st_os).(segs)) in Hm; [|apply Hfr].
    rewrite (fresh_not_mapped _ seg) in Hm; [done|apply Hp|].
    pose proof (page_span_ge (seg_len seg)). rewrite (sbp_len _ _ _ _ _ _ _ _ Hp) in *. nia.
  - eapply os_frame_kept; [done|]. eapply os_frame_trans; [exact Hfr|]. by eapply sb_post_frame.
Qed.
End SingleCalls.

(** ** Witnesses *)
Import Demo.
Lemma allocator_refines_witness :
  length TunedDemo.final.2 = 12%nat /\ spec_runs ledger_empty TunedDemo.final.2 TunedDemo.final.1.2.
Proof.
  split; [exact (proj1 (Nat.eqb_eq _ _) (TunedDemo.ev_trace TunedDemo.tuned_evaluated))|].
  exact (allocator_refines (AC := TunedDemo.config) (LE := TunedDemo.env_lib) _ _ _ TunedDemo.tuned_target_ok TunedDemo.tuned_execution).
Defined.

Lemma tuners_well_formed_witness :
  exists a trace p, TunedDemo.tls.(apf_tuners) !! 11%nat = Some a /\ a.(r_counter).(rc_trace) = Some trace /\
    trace.(tr_ptr) = Some p /\
    mapped TunedDemo.final.1.1.(shared).(w_state).(st_os).(segs) p (EVENT_SIZE * trace.(tr_cap)) = true.
Proof.
  destruct (TunedDemo.samples_trace _ (TunedDemo.ev_samples TunedDemo.tuned_evaluated)) as (a & trace & Ha & Htr).
  destruct (tuners_well_formed (AC := TunedDemo.config) (LE := TunedDemo.env_lib) _ _ _ 0 _ 11 a trace
    TunedDemo.tuned_target_ok TunedDemo.tuned_execution (TunedDemo.ev_apf TunedDemo.tuned_evaluated) TunedDemo.tuned_thread
    (proj1 (Z.eqb_eq _ _) (TunedDemo.ev_tuned TunedDemo.tuned_evaluated)) Ha Htr) as (_ & _ & _ & _ & _ & p & Hp & Hm & _).
  exists a, trace, p. split; [exact Ha|]. split; [exact Htr|]. split; [exact Hp|exact Hm].
Defined.

Lemma allocator_progress_witness :
  exists out sys', run_call 0 (Malloc 5000) sys = Ok (out, sys') /\
    execution sys' (ledger_after (Malloc 5000) out final.1.2)
      (final.2 ++ [(0%nat, Malloc 5000, out)]).
Proof.
  destruct (allocator_progress sys final.1.2 final.2 0 (Malloc 5000) target_ok final_execution)
    as [H|(msg & H & _)].
  - exact (admissibleb_sound _ _ _ _ (ev_progress evaluated)).
  - exact H.
  - destruct (is_ok_Err _ _ (ev_progress_ok evaluated) H).
Defined.

Lemma held_memory_apart_witness : disjoint_ranges first_ptr 100 ptr 100.
Proof.
  apply (held_memory_apart _ _ _ _ _ _ _ target_ok final_execution).
  - exact first_held.
  - exact ptr_held.
  - exact (proj1 (Z.eqb_neq _ _) (proj1 (negb_true_iff _) (ev_ptr_ne evaluated))).
Defined.

Lemma stored_bytes_stay_witness :
  exists sys L tr, execution sys L tr /\ size L.(stored) = 1%nat /\
    (forall a v, L.(stored) !! a = Some v -> load8 sys.(shared).(w_state).(st_os).(mem) a = v).
Proof.
  exists mid.1.1, mid.1.2, mid.2. split; [exact mid_execution|].
  split; [exact (proj1 (Nat.eqb_eq _ _) (ev_stored evaluated))|].
  exact (proj1 (stored_bytes_stay _ _ _ target_ok mid_execution)).
Defined.

Lemma start_establishes_heap_witness :
  exists sys, sys_start = Ok sys /\ heap_inv TARGET_APF sys.(shared).(w_state) ∅ ghost_empty.
Proof.
  destruct (start_establishes_heap target_ok) as [(s & Es & _ & Hi & _)|(e & Es & _)].
  - exists s. split; [exact Es|exact Hi].
  - destruct (is_ok_Err _ _ (ev_start evaluated) Es).
Defined.


Lemma do_aligned_alloc_grants_witness :
  exists g p s' cs' g', do_aligned_alloc (2 ^ 14) 100 w = Ok (p, world_after w s' cs') /\
    (2 ^ 14 | p) /\
    granted (target := TARGET_APF) w.(w_state) g s' (<[0%nat := cs']> (caches_of sys)) g' p 100.
Proof.
  destruct ready as (g & cap & Hrun & _). exists g.
  destruct (do_aligned_alloc_grants w (caches_of sys) g 0 14 100 Hrun)
    as [H|[(s' & H & _)|(msg & H & _)]].
  - lia.
  - lia.
  - exact calls_below.
  - exact H.
  - discriminate (returns_Ok _ _ _ _ (ev_aligned evaluated) H).
  - destruct (returns_Err _ _ _ (ev_aligned evaluated) H).
Defined.

Lemma do_free_releases_witness :
  exists g s' cs' g', do_free ptr w = Ok (tt, world_after w s' cs') /\
    released (target := TARGET_APF) w.(w_state) g s' (<[0%nat := cs']> (caches_of sys)) g' ptr.
Proof.
  destruct ready as (g & cap & Hrun & Hl). exists g.
  exact (do_free_releases w (caches_of sys) g 0 ptr cap Hrun Hl (ev_free_room evaluated)).
Defined.


Lemma do_free_ignores_unknown_witness : do_free 4096 w = Ok (tt, w) /\ do_free 0 w = Ok (tt, w).
Proof.
  destruct ready as (g & cap & Hrun & Hl). split.
  - apply (do_free_ignores_unknown w (caches_of sys) g 0 4096 Hrun). right.
    split; [by vm_compute|]. exact (absent_eq _ (ev_unknown evaluated)).
  - apply (do_free_ignores_unknown w (caches_of sys) g 0 0 Hrun). by left.
Defined.

Lemma fill_cache_fills_bin_witness :
  exists c' s' g' sb, fill_cache 39 bin_new w.(w_state) = Ok (c', s') /\
    bin_holds s'.(st_os) c' (sb_blocks sb class39.(block_size) class39.(block_num)) /\
    heap_inv TARGET_APF s' (<[0%nat := <[39%nat := c']> w.(w_tls).(thread_cache)]> (caches_of sys)) g'.
Proof.
  destruct ready as (g & cap & Hrun & _).
  pose proof (get_ok_eq (mkSC 0 0 0 0) _ (ev_class evaluated)) as Hcl.
  destruct (fill_cache_fills_bin (target := TARGET_APF) w.(w_state) (caches_of sys) g 0 39
    w.(w_tls).(thread_cache) bin_new class39 (run_inv _ _ _ _ Hrun) (run_cache _ _ _ _ Hrun))
    as [(c' & s' & g' & sb & H1 & H2 & _ & _ & H3 & _)|(msg & H & _)].
  - unfold MAX_SZ_IDX. lia.
  - exact (bin_is_eq _ _ (ev_bin evaluated)).
  - reflexivity.
  - exact Hcl.
  - exact calls_below'.
  - exists c', s', g', sb. split; [exact H1|]. split; [exact H2|exact H3].
  - destruct (is_ok_Err _ _ (ev_fill evaluated) H).
Defined.

Lemma fetch_fills_bin_witness :
  exists c' s' sb, fetch 39 1 bin39 w.(w_state) = Ok (c', s') /\
    bin_holds s'.(st_os) c' (sb_blocks sb class39.(block_size) 1).
Proof.
  destruct ready as (g & cap & Hrun & _).
  pose proof (get_ok_eq (mkSC 0 0 0 0) _ (ev_class evaluated)) as Hcl.
  destruct (fetch_fills_bin (target := TARGET_APF) w.(w_state) (caches_of sys) g 39 bin39 class39 1
    (run_inv _ _ _ _ Hrun)) as [(c' & s' & sb & _ & H1 & H2 & _)|(msg & H & _)].
  - unfold MAX_SZ_IDX. lia.
  - exact Hcl.
  - reflexivity.
  - reflexivity.
  - reflexivity.
  - exact calls_below2.
  - exists c', s', sb. split; [exact H1|exact H2].
  - destruct (is_ok_Err _ _ (ev_fetch evaluated) H).
Defined.

Lemma calloc_zeroes_witness :
  exists g p f' s' cs' g',
    calloc 3 100 (mkFfi w false false false false false) = Ok (p, f') /\
    f'.(ffi_world) = world_after w s' cs' /\
    granted (target := TARGET_APF) w.(w_state) g s' (<[0%nat := cs']> (caches_of sys)) g' p 300.
Proof.
  destruct ready as (g & cap & Hrun & _). exists g.
  destruct (calloc_zeroes (mkFfi w false false false false false) (caches_of sys) g 0 3 100 Hrun)
    as [_ H]; [lia|lia|exact calls_below'|].
  destruct (H ltac:(vm_compute; reflexivity)) as [(p & f' & s' & cs' & g' & E & Ew & Hg & _)|(msg & E & _)].
  - exists p, f', s', cs', g'. split; [exact E|]. split; [exact Ew|exact Hg].
  - destruct (is_ok_Err _ _ (ev_calloc evaluated) E).
Defined.
