(* ===== verification/Findings.v ===== *)
(** * Where the code departs from its purpose

    Runs of the allocator, from a heap that satisfies the invariant, in the
    cases that the theorems on executions exclude.  Every run is evaluated on
    the configuration [Demo]. *)
From S2P Require Import Prelude MemInfo SizeClasses Anchor Mem Bin Trace Tuner.
From S2P Require Import SingleAccess Bootstrap HashMap State Pages Descriptor.
From S2P Require Import PageMap Alloc ThreadCache Lib Heap HeapOps LargeOps Safety.
From S2P Require Import Calls Ledger Triple Tuning ClientCalls System Scripts CApi Demo.
Import Demo.

(** The first thread, before its first call. *)
Definition fresh_world : World := thread_world sys2 tls_new.

Lemma spawned_thread s : (spawn 1 (spawn 0 s)).(threads) !! 0%nat = Some tls_new.
Proof. simpl. rewrite lookup_insert_ne by done. apply lookup_insert_eq. Qed.

Lemma fresh_world_ok :
  exists g, running (target := TARGET_APF) fresh_world (caches_of sys2) g 0.
Proof.
  exact (execution_ready sys2 ledger_empty [] 0 tls_new target_ok sys2_execution (spawned_thread sys0) new_untuned).
Qed.

(** The value of a run. *)
Definition value {A} (c : M World A) : result A :=
  match c fresh_world with Ok (a, _) => Ok a | Err e => Err e end.

(** ** The runs

    They are evaluated together, once. *)
(** Five blocks of a class whose bin holds four are allocated; the fourth and
    the second are freed, and two are allocated again. *)
Definition flush_run : M World (list Z) :=
  p1 ← do_malloc 5000; p2 ← do_malloc 5000; p3 ← do_malloc 5000;
  p4 ← do_malloc 5000; p5 ← do_malloc 5000;
  do_free p4;; do_free p2;;
  p6 ← do_malloc 5000; p7 ← do_malloc 5000;
  mret [p1; p2; p3; p4; p5; p6; p7].

Definition shrink_run : M World (list Z * Z * Z) :=
  p1 ← do_malloc 16; p2 ← do_malloc 16; p3 ← do_malloc 100;
  os (write_u8 p2 7);; before ← os (read_u8 p2);
  do_free p1;; p4 ← do_realloc p3 16;
  after ← os (read_u8 p2);
  mret ([p1; p2; p3; p4], before, after).

Definition large_run : M World (Z * option Z * option Z * Z) :=
  p ← do_malloc (2 ^ 32);
  size ← heap (get_allocation_size p);
  i ← heap (class_of_ptr p);
  do_free p;; q ← do_malloc 8;
  mret (p, size, i, q).

Definition aligned_run : M World (Z * Z * Z * option Segment) :=
  p ← do_aligned_alloc 16384 100;
  before ← heap (get_page_info_for_ptr p);
  do_free p;; after ← heap (get_page_info_for_ptr p);
  de ← heap (read_desc after);
  mret (p, before, after, de.(super_block)).

Definition aligned_size_run : M World (Z * option Z) :=
  p ← do_aligned_alloc 16384 100; n ← heap (get_allocation_size p); mret (p, n).

Definition aligned_realloc_run : M World Z := p ← do_aligned_alloc 16384 100; do_realloc p 100000.

Lemma runs :
  (value flush_run, value shrink_run, value large_run, value aligned_run,
   value aligned_size_run, value aligned_realloc_run, value (do_aligned_alloc 24 100)) =
  (Ok [2199023464448; 2199023469568; 2199023474688; 2199023479808; 2199023484928;
       2199023469568; 2199023474688],
   Ok ([2199023464448; 2199023464464; 2199023468544; 2199023464448], 7, 0),
   Ok (2199023464448, Some 0, Some 1, 2199023464448),
   Ok (2199023403008, 2199023431680, 2199023431680, None),
   Ok (2199023403008, Some 32768), Err (Fault 2199023403008), Ok 2199023464448).
Proof. vm_compute. reflexivity. Qed.

(** Takes the runs apart. *)
Lemma seven {A B C D E F G} (a a' : A) (b b' : B) (c c' : C) (d d' : D) (e e' : E) (f f' : F) (g g' : G) :
  (a, b, c, d, e, f, g) = (a', b', c', d', e', f', g') ->
  a = a' /\ b = b' /\ c = c' /\ d = d' /\ e = e' /\ f = f' /\ g = g'.
Proof. intros [= -> -> -> -> -> -> ->]. done. Qed.

(** C38: after [flush_cache], [do_malloc] hands out memory that the client still
    holds.  The thread allocates five blocks of a class whose bin holds four,
    frees the fourth and the second (the second free flushes the full bin), and
    allocates twice: the last pointer is the third one, which was never freed.
    [flush_cache] follows the null links of a fresh superblock as if they were
    pointers, and leaves a bin whose count does not match its list. *)
Theorem flush_hands_out_held_block :
  exists a b c d e f, NoDup [a; b; c; d; e] /\ value flush_run = Ok [a; b; c; d; e; f; c].
Proof.
  destruct (seven _ _ _ _ _ _ _ _ _ _ _ _ _ _ runs) as (H & _).
  eexists _, _, _, _, _, _. split; [|exact H]. apply (bool_decide_unpack _). vm_compute. exact I.
Qed.

(** C39: [do_realloc] to a smaller size writes past the new block.  It copies the
    old size, here 112 bytes, into a block of 16: the byte 7 that the client
    stored in the neighbouring block is lost. *)
Theorem realloc_shrink_overwrites_neighbour :
  exists a b q, b = a + 16 /\ value shrink_run = Ok ([a; b; q; a], 7, 0).
Proof.
  destruct (seven _ _ _ _ _ _ _ _ _ _ _ _ _ _ runs) as (_ & H & _).
  eexists _, _, _. split; [|exact H]. reflexivity.
Qed.

(** C40: the size of an allocation of 4 GiB is lost ([pages as u32]): the
    allocator takes it for a block of the smallest class, and after it is freed
    gives it out as a block of 8 bytes. *)
Theorem malloc_4gib_size_truncated : exists p, value large_run = Ok (p, Some 0, Some 1, p).
Proof.
  destruct (seven _ _ _ _ _ _ _ _ _ _ _ _ _ _ runs) as (_ & _ & H & _). by eexists.
Qed.

(** Freeing a pointer that was aligned beyond the start of its mapping
    leaves its entry in the page map: the entry still leads to the descriptor,
    which has been retired and has no superblock any more.  [do_free] clears the
    entry of the start of the mapping twice. *)
Theorem free_aligned_leaves_entry :
  exists p d, d <> 0 /\ value aligned_run = Ok (p, d, d, None).
Proof.
  destruct (seven _ _ _ _ _ _ _ _ _ _ _ _ _ _ runs) as (_ & _ & _ & H & _).
  eexists _, _. split; [|exact H]. discriminate.
Qed.

(** [do_realloc] of such a pointer reads past the end of the mapping: the
    size that [get_allocation_size] reports is that of the whole mapping. *)
Theorem realloc_aligned_reads_past_end :
  exists p, value aligned_size_run = Ok (p, Some 32768) /\ value aligned_realloc_run = Err (Fault p).
Proof.
  destruct (seven _ _ _ _ _ _ _ _ _ _ _ _ _ _ runs) as (_ & _ & _ & _ & H1 & H2 & _).
  eexists. split; [exact H1|exact H2].
Qed.

(** [do_aligned_alloc] does not reject alignments that are not powers of
    two; the pointer it returns for an alignment of 24 is not a multiple of 24. *)
Theorem aligned_alloc_accepts_non_powers :
  exists p, p mod 24 <> 0 /\ value (do_aligned_alloc 24 100) = Ok p /\ p <> 0.
Proof.
  destruct (seven _ _ _ _ _ _ _ _ _ _ _ _ _ _ runs) as (_ & _ & _ & _ & _ & _ & H).
  eexists. split; [|split; [exact H|]]; discriminate.
Qed.
